(* ===== verification/_CoqProject ===== *)
-Q . S2P
Prelude.v
Io.v
Str.v
Proto.v
Rtp.v
H264.v
Motion.v
Sdp.v
Rtsp.v
Sender.v
Receiver.v
Clip.v
Pipeline.v
Recorder.v
MpegTs.v
LiveV2.v
LiveV2Facts.v
Ingest.v
Uplink.v
Config.v
ConfigFacts.v
Forward.v
Camera.v
Agent.v
Utils.v
Telemetry.v
Jobs.v
JobsFacts.v
Probe.v
Heartbeat.v
Xml.v
Soap.v
OnvifProbe.v
OnvifNight.v
OnvifRegion.v
RegionFacts.v
OnvifFacts.v
OnvifMotion.v
PollFacts.v
UplinkTask.v
Relay.v
Server.v
EndToEnd.v
Lossless.v
TestAgent.v
Errors.v
DummyServer.v
MotionPull.v
