(* ===== verification/Prelude.v ===== *)
(** * Sentinel video receiver: verification library (root file)

    The program forwards the video of IP cameras.  An agent near the cameras
    speaks RTSP, takes RTP packets from UDP or from interleaved frames, and
    sends them with motion events over one TLS connection to an ingest server;
    the server turns every stream into H.264 clips around motion and into a
    live HLS playlist.  A stand-alone receiver records clips without a server.
    All paths below are under [src/sentinel_rtp_cam/src/].

    ** Shared files
    - [Prelude]: outcomes ([Ok], [Err], [Panic]), bytes and machine integers,
      big-endian fields, the state and error monad [st], automation.
    - [Io]: tokio's readers and writers as classes, with a list instance.
    - [Str]: what the sources use of [str]: UTF-8, trimming, splitting,
      printing and parsing of integers.

    ** From packets to NAL units
    - [Rtp]: [core/rtp.rs] and [core/rtp_refactored.rs].  The parser inverts a
      reference encoder and accepts nothing else.
    - [H264]: [core/video.rs], [core/h264_depacketize.rs], [core/h264_sync.rs].
      Fragments and aggregates are reassembled exactly; what the gate lets
      through can be decoded.
    - [Sdp], [Rtsp]: [core/sdp.rs], [rtsp/rtsp.rs], [rtsp/interleaved.rs].
      Descriptions and frames round trip; responses are read whatever the
      chunks they arrive in.
    - [Sender]: what a sender's stream is and what a network keeps of it; the
      invariant that a unit under reassembly is a prefix of one that was sent.
    - [Receiver]: [rtsp/rtsp_receiver_tcp.rs] and [rtsp/rtsp_receiver_udp.rs]:
      the handshake and the receive loops; a lossy network never makes the
      receiver deliver a unit that was not sent, for streams of any length.

    ** Motion
    - [Motion]: [motion_event_latch.rs], [event/event_bus.rs] and the edge
      detection of [onvif/onvif_motion.rs], one Module each.
    - [OnvifMotion], [PollFacts]: the rest of [onvif/onvif_motion.rs]: the
      subscription of a camera, its renewals and retries, the poller.  An end is
      published only behind a start with its id, whatever the device answers.
    - [Relay]: the task of [bin/agent_forward.rs] between the bus and the
      uplink; composes pollers, latch and uplink, and keeps the same for what
      is queued.  Also the reports of a camera's life.

    ** The server
    - [Proto]: [proto.rs], refines a reference decoder.
    - [Ingest]: [bin/server_ingest.rs]: a connection (HELLO, token, routing) and
      the registry of pipelines, with the other connections as interference.
    - [Server]: its start, and the whole server as a transition system of
      connections, pipeline tasks and channels; streams never mix, and nothing
      happens without the token, in every interleaving.
    - [Clip], [Pipeline]: [core/clip_writer.rs], [server_pipeline.rs]: the file
      of a finished clip holds what was pushed, in order.
    - [MpegTs], [LiveV2], [LiveV2Facts]: [live/v2.rs]: segments demultiplex to
      their access units; the session refines an abstract live stream.
    - [EndToEnd], [Lossless]: the composition of [Sender], [Server], [LiveV2] and
      [MpegTs].  Whatever the networks and the interleavings do, a player of a
      playlist's segments sees only what the camera sent; when nothing is lost
      it sees all of it.  A packet is told by its number, so two packets that
      arrive one after the other must be less than 65535 apart.

    ** The agent
    - [Uplink]: [agent_uplink.rs]: records, queues and the turns of a
      connection; what a connection writes is what was queued.
    - [UplinkTask]: connecting (TLS settings, HELLO), waiting and the loop over
      the connections; over all of them messages leave in order and once.
    - [Recorder]: [core/clip_recorder.rs]: the states of the clip recorder, its
      deadlines, its files and their retention.
    - [Config], [ConfigFacts]: [config/agent_config.rs]: JSON values and their
      merging, the files, the check of the server's address, and the runtime
      variables; updates of the server are idempotent and confined.
    - [Forward]: [forward_agent.rs]: the cameras read from the variables are
      compared with a reference that reads the configuration directly.
    - [Camera]: the sessions, the offline tracker and the supervisor of
      [bin/agent_forward.rs]; the tracker refines the documented policy.
    - [Agent]: start, pull and main loop of [bin/agent_forward.rs]; the running
      runtime is what the configuration last read says.
    - [Utils]: [utils/retry_helper.rs] and [utils/disk_cleanup.rs].

    ** The admin server's client ([server/server_client.rs])
    - [Telemetry]: the load, the memory and the JSON of a heartbeat; the load
      is the exact share of busy time.
    - [Jobs], [JobsFacts]: restart, shutdown and firmware jobs, and the marker
      that outlives a restart: it is replaced in one piece, the process exits
      only for a job the server has accepted, an update runs at most once.
    - [Probe]: the manager of ONVIF probes as a transition system: one probe
      per camera in every interleaving.
    - [Heartbeat]: the loop; a restart never repeats itself.

    ** ONVIF devices
    - [Xml], [Soap]: what [onvif/] shares: XML events, escaping, requests and
      faults.
    - [OnvifProbe], [OnvifNight], [OnvifRegion]: [onvif/onvif_probe.rs],
      [onvif/onvif_night_vision.rs], [onvif/onvif_motion_region.rs]: the state
      machines over the answers and the sequences of requests.
    - [OnvifFacts], [RegionFacts]: what is read from documents with any
      prefixes; a probe fails only with a required request; a fault is never
      a success; what is written into a target is the region asked for.

    ** Tools
    - [DummyServer], [MotionPull]: [bin/dummy_server.rs] and
      [bin/onvif_motion_pull.rs]; jobs are handed out once and in order, the
      poller ends only when it cannot subscribe.
    - [TestAgent]: [tls_ingest/agent/src/main.rs], next to [sentinel_rtp_cam]:
      its base64 reads back, its packets are read by the parser of [Rtp], and
      once told to stop its tasks only finish what they have begun.
    - [Errors]: [utils/error.rs] and [event/eventlogger.rs]: the errors with
      their texts, and the lines of the log of events.

    ** Conventions
    Strings are lists of code points, byte strings lists of integers in
    [0, 256); widths are kept by the wrap or saturation written in the source.
    A [select!] loop is a function over the list of its turns, so a theorem
    about it holds for every interleaving; the server and the probe manager,
    whose tasks share state, are step relations, and their theorems go by
    induction over the runs.  tokio, TLS, HTTP, JSON text, XML readers, base64,
    URLs, clocks, calendars and file systems are classes; their documented
    laws are classes of their own or hypotheses of a section, and every
    witness runs on concrete instances.  Loops over reads carry fuel, one unit
    for each byte the peer sends; running out of it is a [Panic] (or [None]), and
    theorems that a call returns include that the fuel is enough.  Loops over
    turns recurse on the turns, retries on the number of attempts the code
    allows.  [JobsFacts.retry_forever_returns] shows that the loop without a
    bound returns with the first attempt that succeeds.  The deletion loop of
    [Utils] needs one unit for each file of the directory.

    ** Not modelled
    - [lib.rs] and the [mod.rs] files: module declarations and re-exports.
    - [tls_ingest]: TLS and the record format, which are crates of other
      repositories; the receiving end of the records is not in this one.
    - Spawning: tasks that share no state with others (the supervisors of the
      cameras, the ONVIF runs) are modelled one by one, not side by side; what
      ends them from outside (Ctrl-C, the end of [main]) is an event of their
      own model or left out.
    - Everywhere: logging, metrics that are only logged, dumps of XML. *)

From stdpp Require Export base tactics list gmap strings numbers fin_maps.
From Stdlib Require Export ZArith Lia.

#[export] Set Default Goal Selector "!".
Open Scope Z_scope.

(** ** Outcomes of a Rust computation

    A fallible function of the source returns [anyhow::Result]; on top of
    [Ok] and [Err] a run can also stop with a panic (an index or a slice out
    of range, an [unwrap] of [None]).  [outcome E A] keeps the three cases
    apart, so that "never panics" is a statement about the model. *)
Inductive outcome (E A : Type) : Type :=
| Ok (a : A)
| Err (e : E)
| Panic.
Arguments Ok {E A} a.
Arguments Err {E A} e.
Arguments Panic {E A}.

#[export] Instance outcome_ret E : MRet (outcome E) := fun _ a => Ok a.
#[export] Instance outcome_bind E : MBind (outcome E) :=
  fun _ _ f m => match m with Ok a => f a | Err e => Err e | Panic => Panic end.
#[export] Instance outcome_fmap E : FMap (outcome E) :=
  fun _ _ f m => match m with Ok a => Ok (f a) | Err e => Err e | Panic => Panic end.

(** [if c { bail!(e) }] *)
Definition bail_if {E} (c : bool) (e : E) : outcome E unit :=
  if c then Err e else Ok tt.

(** [opt.ok_or_else(|| e)?] *)
Definition ok_or {E A} (o : option A) (e : E) : outcome E A :=
  match o with Some a => Ok a | None => Err e end.

Definition is_ok {E A} (m : outcome E A) : bool :=
  match m with Ok _ => true | _ => false end.

(** [m.ok()]; a panic has no value either *)
Definition outcome_ok {E A} (m : outcome E A) : option A :=
  match m with Ok a => Some a | _ => None end.

(** ** Bytes and machine integers

    A byte is an integer of [0, 256), a byte string a list of them. *)
Abbreviation bytes := (list Z).
Definition is_byte (b : Z) : Prop := 0 <= b < 256.
Definition is_u16 (v : Z) : Prop := 0 <= v < 65536.
Definition is_u32 (v : Z) : Prop := 0 <= v < 4294967296.
Definition is_u64 (v : Z) : Prop := 0 <= v < 18446744073709551616.
Abbreviation bytes_ok := (Forall is_byte).

#[export] Instance is_byte_dec b : Decision (is_byte b).
Proof. unfold is_byte; apply _. Defined.
#[export] Instance is_u16_dec b : Decision (is_u16 b).
Proof. unfold is_u16; apply _. Defined.
#[export] Instance is_u32_dec b : Decision (is_u32 b).
Proof. unfold is_u32; apply _. Defined.

Definition u64_max : Z := 18446744073709551615.
Definition wrap8 (v : Z) : Z := v mod 256.
Definition wrap16 (v : Z) : Z := v mod 65536.
Definition wrap32 (v : Z) : Z := v mod 4294967296.
(** [u64::saturating_add], [saturating_sub], [saturating_mul] *)
Definition sat_add64 (a b : Z) : Z := Z.min (a + b) u64_max.
Definition sat_sub64 (a b : Z) : Z := Z.max (a - b) 0.
Definition sat_mul64 (a b : Z) : Z := Z.min (a * b) u64_max.

(** [buf[i]]: panics out of range. *)
Definition index {E} (buf : bytes) (i : nat) : outcome E Z :=
  match buf !! i with Some b => Ok b | None => Panic end.

(** [&buf[a..b]]: panics unless [a <= b <= len]. *)
Definition slice {E} (buf : bytes) (a b : nat) : outcome E bytes :=
  if ((a <=? b)%nat && (b <=? length buf)%nat)%bool
  then Ok (take (b - a) (drop a buf)) else Panic.

(** ** Big-endian integers: [to_be_bytes] and [from_be_bytes] *)
Fixpoint to_be (n : nat) (v : Z) : bytes :=
  match n with
  | O => []
  | S n' => (v / 256 ^ Z.of_nat n') mod 256 :: to_be n' v
  end.

Definition from_be (l : bytes) : Z := foldl (fun acc b => acc * 256 + b) 0 l.

Lemma length_to_be n v : length (to_be n v) = n.
Proof. induction n; simpl; auto. Qed.

Lemma to_be_bytes_ok n v : bytes_ok (to_be n v).
Proof.
  induction n; simpl; constructor; auto.
  unfold is_byte. apply Z.mod_pos_bound; lia.
Qed.

Lemma from_be_acc l acc :
  foldl (fun acc b => acc * 256 + b) acc l = acc * 256 ^ Z.of_nat (length l) + from_be l.
Proof.
  unfold from_be. revert acc.
  induction l as [|b l IH]; intros acc; cbn [foldl length].
  - simpl. lia.
  - rewrite (IH (acc * 256 + b)), (IH (0 * 256 + b)).
    rewrite Nat2Z.inj_succ, Z.pow_succ_r by lia. ring.
Qed.

Lemma from_be_cons b l : from_be (b :: l) = b * 256 ^ Z.of_nat (length l) + from_be l.
Proof. unfold from_be at 1. simpl. rewrite from_be_acc. lia. Qed.

Lemma from_be_nil : from_be [] = 0.
Proof. reflexivity. Qed.

Lemma pow256_pos n : 0 < 256 ^ Z.of_nat n.
Proof. apply Z.pow_pos_nonneg; lia. Qed.

Lemma pow256_S n : 256 ^ Z.of_nat (S n) = 256 * 256 ^ Z.of_nat n.
Proof. rewrite Nat2Z.inj_succ, Z.pow_succ_r by lia. ring. Qed.

Lemma from_be_bound l : bytes_ok l -> 0 <= from_be l < 256 ^ Z.of_nat (length l).
Proof.
  induction 1 as [|b l Hb _ IH]; [simpl; unfold from_be; simpl; lia|].
  rewrite from_be_cons. cbn [length]. rewrite pow256_S.
  unfold is_byte in Hb. nia.
Qed.

Lemma from_be_to_be n v : from_be (to_be n v) = v mod 256 ^ Z.of_nat n.
Proof.
  induction n as [|n IH].
  - simpl. rewrite Z.mod_1_r. reflexivity.
  - cbn [to_be]. rewrite from_be_cons, IH, length_to_be, pow256_S.
    pose proof (pow256_pos n).
    rewrite (Z.mul_comm 256), Z.rem_mul_r by lia. lia.
Qed.

Lemma from_be_to_be_small n v :
  0 <= v < 256 ^ Z.of_nat n -> from_be (to_be n v) = v.
Proof. intros H. rewrite from_be_to_be. apply Z.mod_small, H. Qed.

Lemma to_be_mod n v k :
  (n <= k)%nat -> to_be n (v mod 256 ^ Z.of_nat k) = to_be n v.
Proof.
  induction n as [|n IH]; intros Hk; simpl; auto.
  rewrite IH by lia. f_equal.
  pose proof (pow256_pos n) as Hn. pose proof (pow256_pos (k - S n)) as Hk'.
  replace (256 ^ Z.of_nat k) with (256 ^ Z.of_nat n * (256 * 256 ^ Z.of_nat (k - S n))).
  2:{ rewrite <- pow256_S, <- Z.pow_add_r by lia. f_equal. lia. }
  rewrite Z.rem_mul_r by lia.
  rewrite Z.mul_comm, Z.div_add by lia.
  rewrite (Z.div_small (v mod _)) by (apply Z.mod_pos_bound; lia).
  rewrite Z.add_0_l.
  rewrite Z.rem_mul_r by lia.
  rewrite Z.mul_comm, Z.mod_add, Z.mod_mod by lia. reflexivity.
Qed.

Lemma to_be_from_be l : bytes_ok l -> to_be (length l) (from_be l) = l.
Proof.
  induction 1 as [|b l Hb Hl IH]; [reflexivity|].
  pose proof (from_be_bound l Hl) as Hbd. pose proof (pow256_pos (length l)) as Hp.
  cbn [length to_be]. rewrite from_be_cons. f_equal.
  - rewrite Z.div_add_l by lia. rewrite (Z.div_small (from_be l)) by lia.
    rewrite Z.add_0_r. apply Z.mod_small, Hb.
  - rewrite <- (to_be_mod (length l) _ (length l)) by lia.
    rewrite Z.add_comm, Z.mod_add by lia. rewrite Z.mod_small by lia. exact IH.
Qed.

Lemma to_be_from_be_len n l : length l = n -> bytes_ok l -> to_be n (from_be l) = l.
Proof. intros <-. apply to_be_from_be. Qed.

Lemma to_be_inj n u v :
  0 <= u < 256 ^ Z.of_nat n -> 0 <= v < 256 ^ Z.of_nat n -> to_be n u = to_be n v -> u = v.
Proof. intros Hu Hv He. rewrite <- (from_be_to_be_small n u), <- (from_be_to_be_small n v), He; auto. Qed.

(** A big-endian field of [n] bytes at offset [i] of a buffer. *)
Lemma from_be_u16 a b : from_be [a; b] = a * 256 + b.
Proof. unfold from_be. simpl. lia. Qed.

(** ** List slicing *)
Lemma take_app_ex {A} (l k : list A) n : n = length l -> take n (l ++ k) = l.
Proof. intros ->. apply take_app_length. Qed.

Lemma drop_app_ex {A} (l k : list A) n : n = length l -> drop n (l ++ k) = k.
Proof. intros ->. apply drop_app_length. Qed.

Lemma slice_ok {E} (buf : bytes) a b :
  (a <= b)%nat -> (b <= length buf)%nat -> slice (E:=E) buf a b = Ok (take (b - a) (drop a buf)).
Proof.
  intros Hab Hb. unfold slice.
  rewrite (proj2 (Nat.leb_le _ _) Hab), (proj2 (Nat.leb_le _ _) Hb). reflexivity.
Qed.

Lemma slice_mid {E} (p m s : bytes) a b :
  a = length p -> b = (length p + length m)%nat ->
  slice (E:=E) (p ++ m ++ s) a b = Ok m.
Proof.
  intros -> ->. rewrite slice_ok by (rewrite ?length_app; lia).
  rewrite drop_app_length. rewrite take_app_ex by lia. reflexivity.
Qed.

Lemma index_ok {E} (buf : bytes) i : (i < length buf)%nat -> exists b, index (E:=E) buf i = Ok b /\ buf !! i = Some b.
Proof.
  intros H. destruct (lookup_lt_is_Some_2 buf i H) as [b Hb].
  exists b. unfold index. rewrite Hb. auto.
Qed.

Lemma index_lookup {E} (buf : bytes) i b : buf !! i = Some b -> index (E:=E) buf i = Ok b.
Proof. unfold index. by intros ->. Qed.

(** ** Filters that keep everything, or nothing *)
Lemma filter_all {A} (P : A -> Prop) `{!forall x, Decision (P x)} (l : list A) : Forall P l -> filter P l = l.
Proof. induction 1 as [|x l Hx _ IH]; [done|]. by rewrite filter_cons, decide_True, IH. Qed.

Lemma filter_none {A} (P : A -> Prop) `{!forall x, Decision (P x)} (l : list A) :
  Forall (fun x => ~ P x) l -> filter P l = [].
Proof. induction 1 as [|x l Hx _ IH]; [done|]. by rewrite filter_cons, decide_False. Qed.

(** ** A state and error monad: effects on a component's state, with [?] *)
Definition st (S E A : Type) : Type := S -> S * outcome E A.

#[export] Instance st_ret S E : MRet (st S E) := fun _ a s => (s, Ok a).
#[export] Instance st_bind S E : MBind (st S E) :=
  fun _ _ f m s =>
    match m s with
    | (s', Ok a) => f a s'
    | (s', Err e) => (s', Err e)
    | (s', Panic) => (s', Panic)
    end.

(** A pure fallible step, and a step that only raises. *)
Definition lift_outcome {S E A} (m : outcome E A) : st S E A := fun s => (s, m).
Definition st_bail_if {S E} (c : bool) (e : E) : st S E unit := lift_outcome (bail_if c e).

Lemma st_bind_ok {S E A B} (m : st S E A) (f : A -> st S E B) s s' a :
  m s = (s', Ok a) -> (m ≫= f) s = f a s'.
Proof. intros H. unfold mbind, st_bind. by rewrite H. Qed.

Lemma st_bind_err {S E A B} (m : st S E A) (f : A -> st S E B) s s' e :
  m s = (s', Err e) -> (m ≫= f) s = (s', Err e).
Proof. intros H. unfold mbind, st_bind. by rewrite H. Qed.

Lemma st_bind_bail {S E B} c (e : E) (f : unit -> st S E B) s :
  (st_bail_if c e ≫= f) s = if c then (s, Err e) else f tt s.
Proof. by destruct c. Qed.

Lemma st_bind_lift {S E A B} (m : outcome E A) (f : A -> st S E B) s :
  (lift_outcome m ≫= f) s =
  match m with Ok a => f a s | Err e => (s, Err e) | Panic => (s, Panic) end.
Proof. by destruct m. Qed.

Lemma st_bind_ret {S E A B} (a : A) (f : A -> st S E B) s : (mret a ≫= f) s = f a s.
Proof. done. Qed.

Lemma bail_bind {E B} c (e : E) (f : unit -> outcome E B) :
  (bail_if c e ≫= f) = if c then Err e else f tt.
Proof. by destruct c. Qed.

(** ** Automation *)
Create HintDb rust discriminated.
Create Rewrite HintDb rust_len.
#[export] Hint Resolve to_be_bytes_ok length_to_be : rust.
#[export] Hint Rewrite @length_to_be @length_app @length_take @length_drop @length_replicate
  @length_cons @length_nil : rust_len.

(** Goals about byte strings. *)
Ltac solve_bytes :=
  repeat match goal with
  | |- Forall _ (_ ++ _) => apply Forall_app; split
  | |- Forall _ (_ :: _) => apply Forall_cons; split
  | |- Forall _ [] => apply Forall_nil_2
  | |- Forall _ (to_be _ _) => apply to_be_bytes_ok
  | |- Forall _ (take _ _) => apply Forall_take
  | |- Forall _ (drop _ _) => apply Forall_drop
  | |- Forall _ (replicate _ _) => apply Forall_replicate
  | |- is_byte _ => first [assumption | unfold is_byte; lia]
  | |- is_u16 _ => first [assumption | unfold is_u16; lia]
  | |- is_u32 _ => first [assumption | unfold is_u32; lia]
  | _ => assumption
  end.

(** Arithmetic on list lengths. *)
Ltac len := autorewrite with rust_len in *; lia.

(** A decidable closed goal, by evaluation. *)
Ltac by_eval := match goal with |- ?P => refine (bool_decide_unpack P _); vm_compute; exact I end.

(** A boolean fact about every byte, by enumeration. *)
Lemma forall_byte (P : Z -> bool) :
  forallb P (seqZ 0 256) = true -> forall b, is_byte b -> P b = true.
Proof.
  intros H b Hb. rewrite forallb_forall in H. apply H.
  apply list_elem_of_In, elem_of_seqZ. unfold is_byte in Hb. lia.
Qed.

(** The same below any bound. *)
Lemma forall_below (n : Z) (P : Z -> bool) :
  forallb P (seqZ 0 n) = true -> forall v, 0 <= v < n -> P v = true.
Proof.
  intros H v Hv. rewrite forallb_forall in H. apply H.
  apply list_elem_of_In, elem_of_seqZ. lia.
Qed.
