(* ===== verification/Io.v ===== *)
(** * Byte streams

    The source reads and writes through tokio's [AsyncRead] and [AsyncWrite].
    tokio is not part of the repository, so its operations are parameters:
    a class for the operations the code calls, and a class for the documented
    behaviour the theorems rely on.  [ListStream] is a concrete instance, the
    one the witnesses run on. *)
From S2P Require Import Prelude.

(** ** Readers *)
Class AsyncRead (R E : Type) := {
  read_exact : R -> nat -> R * (E + bytes);
}.

(** [pending r]: the bytes the peer still sends before it closes the
    connection.  [read_exact] fills its buffer from them in order, or fails
    with [UnexpectedEof]. *)
Class AsyncReadLaws (R E : Type) `{AsyncRead R E} := {
  pending : R -> bytes;
  read_exact_full r n :
    (n <= length (pending r))%nat ->
    exists r', read_exact r n = (r', inr (take n (pending r))) /\ pending r' = drop n (pending r);
  read_exact_eof r n :
    (length (pending r) < n)%nat -> exists r' e, read_exact r n = (r', inl e);
}.

(** [read]: some of the bytes that have arrived, at least one unless the
    stream is at its end, at most as many as the buffer holds. *)
Class AsyncReadSome (R E : Type) := {
  read_some : R -> nat -> R * (E + bytes);
}.

Class AsyncReadSomeLaws (R E : Type) `{AsyncReadLaws R E} `{!AsyncReadSome R E} := {
  read_some_data r n :
    (0 < n)%nat -> pending r <> [] ->
    exists r' b, read_some r n = (r', inr b) /\ b <> [] /\ (length b <= n)%nat /\
      pending r = b ++ pending r';
  read_some_eof r n : pending r = [] -> exists r', read_some r n = (r', inr []) /\ pending r' = [];
}.

(** ** Writers *)
Class AsyncWrite (W E : Type) := {
  write_all : W -> bytes -> W * (E + unit);
  flush_writer : W -> W * (E + unit);
}.

(** [written w]: the bytes the writer has accepted so far.  A failed
    [write_all] may have accepted any prefix of its argument. *)
Class AsyncWriteLaws (W E : Type) `{AsyncWrite W E} := {
  written : W -> bytes;
  write_all_ok w b w' : write_all w b = (w', inr tt) -> written w' = written w ++ b;
  write_all_err w b w' e :
    write_all w b = (w', inl e) -> exists k, written w' = written w ++ take k b;
  flush_written w w' res : flush_writer w = (w', res) -> written w' = written w;
}.

(** Lifting the parameters into the state and error monad, through an
    embedding of the I/O errors into the component's errors ([?]). *)
Section Lift.
Context {E E' : Type} (wrap : E -> E').

Definition io_result {S A} (p : S * (E + A)) : S * outcome E' A :=
  match p with
  | (s, inr a) => (s, Ok a)
  | (s, inl e) => (s, Err (wrap e))
  end.

Definition read_exact_m {R} `{AsyncRead R E} (n : nat) : st R E' bytes :=
  fun r => io_result (read_exact r n).
Definition read_some_m {R} `{AsyncReadSome R E} (n : nat) : st R E' bytes :=
  fun r => io_result (read_some r n).
Definition write_all_m {W} `{AsyncWrite W E} (b : bytes) : st W E' unit :=
  fun w => io_result (write_all w b).
Definition flush_m {W} `{AsyncWrite W E} : st W E' unit :=
  fun w => io_result (flush_writer w).

Lemma read_exact_m_full {R} `{AsyncReadLaws R E} r n :
  (n <= length (pending r))%nat ->
  exists r', read_exact_m n r = (r', Ok (take n (pending r))) /\ pending r' = drop n (pending r).
Proof.
  intros Hn. destruct (read_exact_full r n Hn) as (r' & Hr & Hp).
  exists r'. unfold read_exact_m. by rewrite Hr.
Qed.

Lemma read_exact_m_eof {R} `{AsyncReadLaws R E} r n :
  (length (pending r) < n)%nat -> exists r' e, read_exact_m n r = (r', Err (wrap e)).
Proof.
  intros Hn. destruct (read_exact_eof r n Hn) as (r' & e & Hr).
  exists r', e. unfold read_exact_m. by rewrite Hr.
Qed.

Lemma write_all_m_ok {W} `{AsyncWriteLaws W E} w b w' :
  write_all_m b w = (w', Ok tt) -> written w' = written w ++ b.
Proof.
  unfold write_all_m, io_result. destruct (write_all w b) as [w1 [e|[]]] eqn:Hw; [done|].
  intros [= <-]. by apply write_all_ok.
Qed.

Lemma write_all_m_inv {W} `{AsyncWriteLaws W E} w b w' o :
  write_all_m b w = (w', o) ->
  (o = Ok tt /\ written w' = written w ++ b) \/
  (exists e k, o = Err (wrap e) /\ written w' = written w ++ take k b).
Proof.
  unfold write_all_m, io_result. destruct (write_all w b) as [w1 [e|[]]] eqn:Hw.
  - intros [= <- <-]. right. destruct (write_all_err _ _ _ _ Hw) as [k Hk]. eauto.
  - intros [= <- <-]. left. split; [done|]. by apply write_all_ok.
Qed.

Lemma flush_m_inv {W} `{AsyncWriteLaws W E} w w' o :
  flush_m w = (w', o) ->
  written w' = written w /\ (o = Ok tt \/ exists e, o = Err (wrap e)).
Proof.
  unfold flush_m, io_result. destruct (flush_writer w) as [w1 [e|[]]] eqn:Hw.
  - intros [= <- <-]. split; [by eapply flush_written|eauto].
  - intros [= <- <-]. split; [by eapply flush_written|eauto].
Qed.
End Lift.

(** ** A concrete stream: a byte list, written at the end and read at the front *)
Module ListStream.
Inductive eof := UnexpectedEof.

#[export] Instance list_read : AsyncRead bytes eof := {
  read_exact r n :=
    if decide (n <= length r)%nat then (drop n r, inr (take n r)) else (r, inl UnexpectedEof);
}.
#[export] Program Instance list_read_laws : AsyncReadLaws bytes eof := {
  pending r := r;
}.
Next Obligation. intros r n Hn. simpl. rewrite decide_True by done. eauto. Qed.
Next Obligation. intros r n Hn. simpl. rewrite decide_False by lia. eauto. Qed.

#[export] Instance list_read_some : AsyncReadSome bytes eof := {
  read_some r n := (drop n r, inr (take n r));
}.
#[export] Program Instance list_read_some_laws : AsyncReadSomeLaws bytes eof.
Next Obligation.
  intros r n Hn Hr. simpl in *. do 2 eexists. split; [done|]. split; [|split].
  - destruct n, r; done || lia.
  - rewrite length_take. lia.
  - by rewrite take_drop.
Qed.
Next Obligation. intros r n H. simpl in *. subst r. destruct n; eauto. Qed.

#[export] Instance list_write : AsyncWrite bytes eof := {
  write_all w b := (w ++ b, inr tt);
  flush_writer w := (w, inr tt);
}.
#[export] Program Instance list_write_laws : AsyncWriteLaws bytes eof := {
  written w := w;
}.
Next Obligation. intros w b w' [= <-]. done. Qed.
Next Obligation. intros w b w' e [=]. Qed.
Next Obligation. intros w w' res [= <-]. done. Qed.
End ListStream.
