(* ===== verification/Str.v ===== *)
(** * Strings: what the sources use of [str] and [String]

    A string is the list of its code points.  These are the standard library's
    operations the parsers call (splitting, trimming, integer parsing and
    printing, UTF-8), with the lemmas the components share. *)
From S2P Require Import Prelude.
From Stdlib Require Import Ascii.

Abbreviation str := (list Z).

Fixpoint lit (s : String.string) : str :=
  match s with
  | String.EmptyString => []
  | String.String c s => Z.of_nat (nat_of_ascii c) :: lit s
  end.

Definition CR : Z := 13.
Definition LF : Z := 10.

(** ** UTF-8 *)
Definition cont (b : Z) : bool := (0x80 <=? b) && (b <=? 0xBF).
(** The second byte of a longer sequence, given the first. *)
Definition second_ok (b0 b1 : Z) : bool :=
  if b0 =? 0xE0 then (0xA0 <=? b1) && (b1 <=? 0xBF)
  else if b0 =? 0xED then (0x80 <=? b1) && (b1 <=? 0x9F)
  else if b0 =? 0xF0 then (0x90 <=? b1) && (b1 <=? 0xBF)
  else if b0 =? 0xF4 then (0x80 <=? b1) && (b1 <=? 0x8F)
  else cont b1.
Definition low6 (b : Z) : Z := Z.land b 0x3F.
Definition REPLACEMENT : Z := 0xFFFD.

(** [String::from_utf8_lossy]: a maximal invalid prefix of a sequence becomes
    one replacement character. *)
Fixpoint from_utf8_lossy (l : bytes) : str :=
  match l with
  | [] => []
  | b0 :: l1 =>
      if b0 <? 0x80 then b0 :: from_utf8_lossy l1
      else if (0xC2 <=? b0) && (b0 <=? 0xDF) then
        match l1 with
        | b1 :: l2 =>
            if cont b1 then (Z.land b0 0x1F * 64 + low6 b1) :: from_utf8_lossy l2
            else REPLACEMENT :: from_utf8_lossy l1
        | [] => [REPLACEMENT]
        end
      else if (0xE0 <=? b0) && (b0 <=? 0xEF) then
        match l1 with
        | b1 :: l2 =>
            if second_ok b0 b1 then
              match l2 with
              | b2 :: l3 =>
                  if cont b2 then (Z.land b0 0x0F * 4096 + low6 b1 * 64 + low6 b2) :: from_utf8_lossy l3
                  else REPLACEMENT :: from_utf8_lossy l2
              | [] => [REPLACEMENT]
              end
            else REPLACEMENT :: from_utf8_lossy l1
        | [] => [REPLACEMENT]
        end
      else if (0xF0 <=? b0) && (b0 <=? 0xF4) then
        match l1 with
        | b1 :: l2 =>
            if second_ok b0 b1 then
              match l2 with
              | b2 :: l3 =>
                  if cont b2 then
                    match l3 with
                    | b3 :: l4 =>
                        if cont b3 then
                          (Z.land b0 0x07 * 262144 + low6 b1 * 4096 + low6 b2 * 64 + low6 b3)
                            :: from_utf8_lossy l4
                        else REPLACEMENT :: from_utf8_lossy l3
                    | [] => [REPLACEMENT]
                    end
                  else REPLACEMENT :: from_utf8_lossy l2
              | [] => [REPLACEMENT]
              end
            else REPLACEMENT :: from_utf8_lossy l1
        | [] => [REPLACEMENT]
        end
      else REPLACEMENT :: from_utf8_lossy l1
  end.

(** [str::as_bytes] *)
Definition utf8_char (c : Z) : bytes :=
  if c <? 0x80 then [c]
  else if c <? 0x800 then [0xC0 + c / 64; 0x80 + c mod 64]
  else if c <? 0x10000 then [0xE0 + c / 4096; 0x80 + c / 64 mod 64; 0x80 + c mod 64]
  else [0xF0 + c / 262144; 0x80 + c / 4096 mod 64; 0x80 + c / 64 mod 64; 0x80 + c mod 64].
Definition as_bytes (s : str) : bytes := concat (map utf8_char s).

Definition ascii_str (s : str) : Prop := Forall (fun c => 0 <= c < 128) s.
#[export] Instance ascii_str_dec s : Decision (ascii_str s).
Proof. unfold ascii_str; apply _. Defined.

(** ** Character classes and trimming *)
(** [char::is_whitespace]: the Unicode White_Space property. *)
Definition is_whitespace (c : Z) : bool :=
  ((9 <=? c) && (c <=? 13)) || (c =? 0x20) || (c =? 0x85) || (c =? 0xA0) || (c =? 0x1680)
  || ((0x2000 <=? c) && (c <=? 0x200A)) || (c =? 0x2028) || (c =? 0x2029) || (c =? 0x202F)
  || (c =? 0x205F) || (c =? 0x3000).

Fixpoint trim_start_if (p : Z -> bool) (s : str) : str :=
  match s with c :: s' => if p c then trim_start_if p s' else s | [] => [] end.
Definition trim_end_if (p : Z -> bool) (s : str) : str := rev (trim_start_if p (rev s)).
Definition trim (s : str) : str := trim_end_if is_whitespace (trim_start_if is_whitespace s).
Definition trim_start_matches (c : Z) (s : str) : str := trim_start_if (Z.eqb c) s.
Definition trim_end_matches (c : Z) (s : str) : str := trim_end_if (Z.eqb c) s.

Definition ascii_lower (c : Z) : Z := if (65 <=? c) && (c <=? 90) then c + 32 else c.
Definition eq_ignore_ascii_case (a b : str) : bool := bool_decide (map ascii_lower a = map ascii_lower b).

(** ** Prefixes and splitting *)
Fixpoint strip_prefix (p s : str) : option str :=
  match p, s with
  | [], _ => Some s
  | a :: p, b :: s => if a =? b then strip_prefix p s else None
  | _ :: _, [] => None
  end.
Definition starts_with (p s : str) : bool := bool_decide (is_Some (strip_prefix p s)).

(** [str::contains] *)
Fixpoint contains (p s : str) : bool :=
  starts_with p s || match s with [] => false | _ :: s => contains p s end.

(** [split(c)]: the pieces between the separators, at least one. *)
Fixpoint split_char (c : Z) (s : str) : list str :=
  match s with
  | [] => [[]]
  | a :: s' =>
      if a =? c then [] :: split_char c s'
      else match split_char c s' with
           | p :: ps => (a :: p) :: ps
           | [] => [[a]]
           end
  end.

Fixpoint split_once (c : Z) (s : str) : option (str * str) :=
  match s with
  | [] => None
  | a :: s' =>
      if a =? c then Some ([], s')
      else match split_once c s' with Some (l, r) => Some (a :: l, r) | None => None end
  end.

(** The pieces between line breaks CR LF. *)
Fixpoint split_crlf (s : str) : list str :=
  match s with
  | [] => [[]]
  | a :: s' =>
      match s' with
      | b :: s'' =>
          if (a =? CR) && (b =? LF) then [] :: split_crlf s''
          else match split_crlf s' with p :: ps => (a :: p) :: ps | [] => [[a]] end
      | [] => [[a]]
      end
  end.

(** [str::lines] *)
Definition strip_cr (l : str) : str :=
  match rev l with c :: r => if c =? CR then rev r else l | [] => [] end.
Definition lines (s : str) : list str :=
  match rev (split_char LF s) with
  | [] => []
  | last :: init =>
      map strip_cr (rev init) ++ match last with [] => [] | _ => [last] end
  end.

Fixpoint split_whitespace_acc (s : str) (acc : str) : list str :=
  match s with
  | [] => match acc with [] => [] | _ => [rev acc] end
  | c :: s =>
      if is_whitespace c then
        match acc with [] => split_whitespace_acc s [] | _ => rev acc :: split_whitespace_acc s [] end
      else split_whitespace_acc s (c :: acc)
  end.
Definition split_whitespace (s : str) : list str := split_whitespace_acc s [].

(** ** Integers: [s.parse::<uN>()] and [n.to_string()] *)
Definition digit (c : Z) : option Z := if (48 <=? c) && (c <=? 57) then Some (c - 48) else None.

Fixpoint parse_digits (max acc : Z) (s : str) : option Z :=
  match s with
  | [] => Some acc
  | c :: s => d ← digit c; let v := acc * 10 + d in if max <? v then None else parse_digits max v s
  end.

Definition parse_uint (max : Z) (s : str) : option Z :=
  match s with
  | [] => None
  | c :: s' =>
      if c =? 43 then match s' with [] => None | _ => parse_digits max 0 s' end
      else parse_digits max 0 s
  end.
Definition parse_u8 := parse_uint 255.
Definition parse_u16 := parse_uint 65535.
Definition parse_u32 := parse_uint 4294967295.
Definition parse_u64 := parse_uint u64_max.
Definition parse_usize := parse_uint u64_max.

(** A number has no more decimal digits than binary ones. *)
Fixpoint dec_fuel (fuel : nat) (n : Z) : str :=
  match fuel with
  | O => []
  | S fuel => if n <? 10 then [48 + n] else dec_fuel fuel (n / 10) ++ [48 + n mod 10]
  end.
Definition dec (n : Z) : str := dec_fuel (S (Z.to_nat (Z.log2 n))) n.

(** ** Lemmas *)
Lemma as_bytes_app a b : as_bytes (a ++ b) = as_bytes a ++ as_bytes b.
Proof. unfold as_bytes. by rewrite map_app, concat_app. Qed.

Lemma as_bytes_ascii s : ascii_str s -> as_bytes s = s.
Proof.
  unfold as_bytes. induction 1 as [|c s Hc _ IH]; [done|]. cbn [map concat]. rewrite IH.
  unfold utf8_char. rewrite (proj2 (Z.ltb_lt _ _)) by lia. done.
Qed.

(** ASCII bytes decode to themselves. *)
Lemma from_utf8_lossy_ascii s : ascii_str s -> from_utf8_lossy s = s.
Proof.
  induction 1 as [|c s Hc _ IH]; [done|]. cbn [from_utf8_lossy].
  rewrite (proj2 (Z.ltb_lt _ _)) by lia. by rewrite IH.
Qed.

Lemma strip_prefix_app p s : strip_prefix p (p ++ s) = Some s.
Proof. induction p as [|c p IH]; cbn; [done|]. by rewrite Z.eqb_refl. Qed.

Lemma strip_prefix_inv p s r : strip_prefix p s = Some r -> s = p ++ r.
Proof.
  revert s. induction p as [|c p IH]; intros s H; [by injection H as ->|].
  destruct s as [|d s]; [done|]. cbn in H. destruct (Z.eqb_spec c d) as [->|]; [|done].
  cbn. f_equal. by apply IH.
Qed.

Lemma split_char_not_nil c s : split_char c s <> [].
Proof. destruct s; cbn; [done|]. by repeat case_match. Qed.

(** A piece without separators, followed by one, is the first piece. *)
Lemma split_char_app c p s : c ∉ p -> split_char c (p ++ c :: s) = p :: split_char c s.
Proof.
  induction p as [|a p IH]; intros Hn; cbn; [by rewrite Z.eqb_refl|].
  apply not_elem_of_cons in Hn as [Hne Hn]. rewrite (proj2 (Z.eqb_neq _ _)) by done. by rewrite IH.
Qed.

Lemma split_char_last c p : c ∉ p -> split_char c p = [p].
Proof.
  induction p as [|a p IH]; intros Hn; cbn; [done|].
  apply not_elem_of_cons in Hn as [Hne Hn]. rewrite (proj2 (Z.eqb_neq _ _)) by done. by rewrite IH.
Qed.

Lemma split_once_app c p s : c ∉ p -> split_once c (p ++ c :: s) = Some (p, s).
Proof.
  induction p as [|a p IH]; intros Hn; cbn; [by rewrite Z.eqb_refl|].
  apply not_elem_of_cons in Hn as [Hne Hn]. rewrite (proj2 (Z.eqb_neq _ _)) by done. by rewrite IH.
Qed.

Lemma split_once_inv c s a b : split_once c s = Some (a, b) -> s = a ++ c :: b /\ c ∉ a.
Proof.
  revert a. induction s as [|d s IH]; intros a H; [done|]. cbn in H.
  destruct (Z.eqb_spec d c) as [->|Hne].
  - injection H as <- <-. split; [done|]. apply not_elem_of_nil.
  - destruct (split_once c s) as [[l r]|]; [|done]. injection H as <- <-.
    destruct (IH l eq_refl) as [-> Hn]. split; [done|]. apply not_elem_of_cons. split; [congruence|done].
Qed.

Lemma split_crlf_line p s : Forall (fun c => c <> CR) p -> split_crlf (p ++ [CR; LF] ++ s) = p :: split_crlf s.
Proof.
  induction 1 as [|a p Ha Hp IH]; [done|].
  cbn [app split_crlf]. destruct (p ++ CR :: LF :: s) as [|b q] eqn:E; [by destruct p|].
  rewrite (proj2 (Z.eqb_neq a CR)) by done. cbn [andb].
  change (p ++ [CR; LF] ++ s) with (p ++ CR :: LF :: s) in IH. rewrite E in IH. cbn in IH. cbn. by rewrite IH.
Qed.

(** A printed number parses back, for every width it fits. *)
Lemma parse_digits_app max acc a b v :
  parse_digits max acc a = Some v -> parse_digits max acc (a ++ b) = parse_digits max v b.
Proof.
  revert acc. induction a as [|c a IH]; intros acc H; cbn in *; [by injection H as ->|].
  destruct (digit c) as [d|]; [|done]. cbn in *. case_match; [done|]. by apply IH.
Qed.

Lemma digit_of n : 0 <= n < 10 -> digit (48 + n) = Some n.
Proof.
  intros H. unfold digit. rewrite (proj2 (Z.leb_le _ _)), (proj2 (Z.leb_le _ _)) by lia.
  cbn. f_equal. lia.
Qed.

Lemma dec_fuel_parse fuel max n :
  0 <= n <= max -> n < 10 ^ Z.of_nat fuel -> parse_digits max 0 (dec_fuel fuel n) = Some n.
Proof.
  revert n. induction fuel as [|fuel IH]; intros n Hn Hf; [cbn in *; f_equal; lia|].
  cbn [dec_fuel]. destruct (Z.ltb_spec n 10) as [Hs|Hs].
  - cbn [parse_digits]. rewrite digit_of by lia. cbn.
    rewrite (proj2 (Z.ltb_ge _ _)) by lia. done.
  - rewrite Nat2Z.inj_succ, Z.pow_succ_r in Hf by lia.
    assert (0 <= n / 10 < 10 ^ Z.of_nat fuel) by (Z.div_mod_to_equations; lia).
    rewrite (parse_digits_app _ _ _ _ (n / 10)) by (apply IH; Z.div_mod_to_equations; lia).
    cbn [parse_digits]. rewrite digit_of by (Z.div_mod_to_equations; lia). cbn [mbind option_bind].
    replace (n / 10 * 10 + n mod 10) with n by (Z.div_mod_to_equations; lia).
    rewrite (proj2 (Z.ltb_ge _ _)) by lia. done.
Qed.

Lemma dec_fuel_digits fuel n : 0 <= n -> Forall (fun c => 48 <= c <= 57) (dec_fuel fuel n).
Proof.
  revert n. induction fuel as [|fuel IH]; intros n Hn; cbn [dec_fuel]; [done|].
  destruct (Z.ltb_spec n 10).
  - repeat constructor; lia.
  - apply Forall_app. split; [apply IH; Z.div_mod_to_equations; lia|].
    repeat constructor; Z.div_mod_to_equations; lia.
Qed.

Lemma dec_digits n : 0 <= n -> Forall (fun c => 48 <= c <= 57) (dec n).
Proof. apply dec_fuel_digits. Qed.

Lemma dec_fuel_not_nil fuel n : (0 < fuel)%nat -> dec_fuel fuel n <> [].
Proof.
  destruct fuel; [lia|]. intros _. cbn [dec_fuel]. case_match; [done|]. by destruct (dec_fuel fuel _).
Qed.

Lemma dec_not_nil n : dec n <> [].
Proof. apply dec_fuel_not_nil. lia. Qed.

Lemma dec_bound n : 0 <= n -> n < 10 ^ Z.of_nat (S (Z.to_nat (Z.log2 n))).
Proof.
  intros Hn. pose proof (Z.log2_nonneg n). rewrite Nat2Z.inj_succ, Z2Nat.id by done.
  destruct (decide (n = 0)) as [->|]; [done|]. pose proof (Z.log2_spec n ltac:(lia)) as [_ Hl].
  eapply Z.lt_le_trans; [exact Hl|]. apply Z.pow_le_mono_l. lia.
Qed.

Lemma parse_digits_dec max n : 0 <= n <= max -> parse_digits max 0 (dec n) = Some n.
Proof. intros Hn. apply dec_fuel_parse; [done|]. apply dec_bound. lia. Qed.

Lemma parse_uint_dec max n : 0 <= n <= max -> parse_uint max (dec n) = Some n.
Proof.
  intros Hn. pose proof (dec_digits n ltac:(lia)) as Hd. pose proof (dec_not_nil n) as Hne.
  pose proof (parse_digits_dec max n Hn) as Hp.
  unfold parse_uint. destruct (dec n) as [|c s]; [done|]. apply Forall_cons in Hd as [Hc _].
  rewrite (proj2 (Z.eqb_neq _ _)) by lia. done.
Qed.

(** Leading zeros do not change the number. *)
Lemma parse_digits_zeros max k n : 0 <= n <= max -> parse_digits max 0 (replicate k 48 ++ dec n) = Some n.
Proof.
  intros Hn. induction k as [|k IH]; cbn [replicate app]; [by apply parse_digits_dec|].
  cbn [parse_digits]. change (digit 48) with (Some 0). cbn [mbind option_bind].
  rewrite (proj2 (Z.ltb_ge _ _)) by lia. exact IH.
Qed.

(** *** Trimming, words and lines *)
Lemma trim_start_id p s : (forall c s', s = c :: s' -> p c = false) -> trim_start_if p s = s.
Proof. destruct s as [|c s]; intros H; [done|]. cbn. by rewrite (H c s eq_refl). Qed.

Lemma trim_end_id p s : (forall c s', s = s' ++ [c] -> p c = false) -> trim_end_if p s = s.
Proof.
  intros H. unfold trim_end_if. rewrite trim_start_id; [apply rev_involutive|].
  intros c s' E. apply (H c (rev s')). by rewrite <- (rev_involutive s), E.
Qed.

Lemma trim_id s :
  (forall c s', s = c :: s' -> is_whitespace c = false) ->
  (forall c s', s = s' ++ [c] -> is_whitespace c = false) -> trim s = s.
Proof. intros H1 H2. unfold trim. by rewrite trim_start_id, trim_end_id. Qed.

Definition no_blank (s : str) : Prop := Forall (fun c => is_whitespace c = false) s.

Lemma trim_no_blank s : no_blank s -> trim s = s.
Proof.
  intros H. apply trim_id; intros c s' ->.
  - by apply Forall_cons in H as [H _].
  - apply Forall_app in H as [_ H]. by apply Forall_cons in H as [H _].
Qed.

Lemma split_whitespace_word_acc w acc :
  no_blank w -> split_whitespace_acc w acc = match rev acc ++ w with [] => [] | x => [x] end.
Proof.
  intros H. revert acc. induction H as [|c w Hc Hw IH]; intros acc; cbn [split_whitespace_acc].
  - rewrite app_nil_r. destruct acc as [|a acc]; [done|]. cbn [rev]. by destruct (rev acc).
  - rewrite Hc, IH. cbn [rev]. by rewrite <- app_assoc.
Qed.

Lemma printable_not_blank c : 33 <= c <= 126 -> is_whitespace c = false.
Proof.
  intros H. unfold is_whitespace. rewrite !orb_false_iff, !andb_false_iff, !Z.eqb_neq, !Z.leb_gt. lia.
Qed.

Lemma digits_no_blank n : 0 <= n -> no_blank (dec n).
Proof.
  intros H. eapply Forall_impl; [by apply dec_digits|]. intros c Hc. apply printable_not_blank. cbn in Hc. lia.
Qed.

Lemma strip_cr_app l : strip_cr (l ++ [CR]) = l.
Proof. unfold strip_cr. rewrite rev_app_distr. cbn. apply rev_involutive. Qed.

(** Lines joined with CR LF are read back. *)
Lemma lines_join ls :
  Forall (fun l => LF ∉ l) ls -> lines (concat (map (fun l => l ++ [CR; LF]) ls)) = ls.
Proof.
  intros H. unfold lines.
  assert (split_char LF (concat (map (fun l => l ++ [CR; LF]) ls)) = map (fun l => l ++ [CR]) ls ++ [[]]) as ->.
  { induction H as [|l ls Hl Hls IH]; [done|]. cbn [map concat].
    replace ((l ++ [CR; LF]) ++ concat (map (fun l => l ++ [CR; LF]) ls))
      with ((l ++ [CR]) ++ LF :: concat (map (fun l => l ++ [CR; LF]) ls)) by (by rewrite <- !app_assoc).
    rewrite split_char_app; [by rewrite IH|].
    rewrite not_elem_of_app. split; [done|]. by apply not_elem_of_cons; split; [|apply not_elem_of_nil]. }
  rewrite rev_app_distr. cbn [rev app]. rewrite app_nil_r, rev_involutive, map_map.
  rewrite (map_ext _ (fun l => l)) by apply strip_cr_app. apply map_id.
Qed.

(** A literal prefix that differs. *)
Lemma starts_with_app p s : starts_with p (p ++ s) = true.
Proof. unfold starts_with. rewrite strip_prefix_app. reflexivity. Qed.

(** What parses is in range. *)
Lemma parse_digits_bound max s : forall acc v, 0 <= acc <= max -> parse_digits max acc s = Some v -> 0 <= v <= max.
Proof.
  induction s as [|c s IH]; intros acc v Hacc; cbn [parse_digits]; [by intros [= <-]|].
  unfold digit. destruct (_ && _) eqn:Hd; cbn [mbind option_bind]; [|done].
  apply andb_true_iff in Hd as [H1 H2]. apply Z.leb_le in H1, H2.
  destruct (Z.ltb_spec max (acc * 10 + (c - 48))); [done|]. apply IH. lia.
Qed.

Lemma parse_uint_bound max s v : 0 <= max -> parse_uint max s = Some v -> 0 <= v <= max.
Proof.
  intros Hm. destruct s as [|c s]; cbn [parse_uint]; [done|].
  destruct (c =? 43); [destruct s; [done|]|]; apply parse_digits_bound; lia.
Qed.

(** A line, and what follows it. *)
Lemma lines_cons l s : LF ∉ l -> lines (l ++ LF :: s) = strip_cr l :: lines s.
Proof.
  intros Hl. unfold lines. rewrite split_char_app by done. cbn [rev].
  destruct (rev (split_char LF s)) as [|last init] eqn:Hr.
  - exfalso. apply (split_char_not_nil LF s). rewrite <- (rev_involutive (split_char LF s)), Hr. done.
  - cbn [app]. rewrite rev_app_distr. cbn [rev app map]. done.
Qed.

(** Words after blanks. *)
Lemma split_whitespace_word w c s : no_blank w -> w <> [] -> is_whitespace c = true ->
  split_whitespace (w ++ c :: s) = w :: split_whitespace s.
Proof.
  intros Hw Hn Hc. unfold split_whitespace.
  assert (forall acc, w ++ acc <> [] -> split_whitespace_acc (w ++ c :: s) acc = (rev acc ++ w) :: split_whitespace_acc s []) as H.
  { clear Hn. induction Hw as [|x w Hx Hw IH]; intros acc Ha; cbn [app split_whitespace_acc].
    - rewrite Hc. destruct acc; [done|]. by rewrite app_nil_r.
    - rewrite Hx, IH; [cbn [rev]; by rewrite <- app_assoc|]. by destruct w. }
  rewrite H; [done|]. by rewrite app_nil_r.
Qed.
