(* ===== verification/Proto.v ===== *)
(** * The agent/server message framing ([sentinel_rtp_cam/src/proto.rs])

    A message is a 16-byte header (magic, version, type, stream id, payload
    length, all big-endian) followed by the payload.  [decode_msg] is the
    reference decoder of a byte string; [read_msg] is shown to implement it
    on every stream, and to invert [write_msg]. *)
From S2P Require Import Prelude Io.

Definition MAGIC : Z := 0x534E5450.
Definition VERSION : Z := 1.
Definition MAX_LEN : Z := 256 * 1024.

Definition HELLO : Z := 1.
Definition RTP : Z := 2.
Definition GAP : Z := 3.
Definition MOTION : Z := 4.
Definition PING : Z := 5.
Definition PONG : Z := 6.

Record Msg := mkMsg {
  msg_type : Z;    (* u16 *)
  stream_id : Z;   (* u32 *)
  payload : bytes;
}.

#[export] Instance Msg_eq_dec : EqDecision Msg.
Proof. solve_decision. Defined.

(** The ranges the Rust types enforce. *)
Definition msg_wf (m : Msg) : Prop :=
  is_u16 (msg_type m) /\ is_u32 (stream_id m) /\ bytes_ok (payload m).
#[export] Instance msg_wf_dec m : Decision (msg_wf m).
Proof. unfold msg_wf; apply _. Defined.

Inductive proto_error (E : Type) :=
| PayloadTooLarge (len : Z)
| BadMagic (magic : Z)
| BadVersion (version : Z)
| GapLen
| Io (e : E).
Arguments PayloadTooLarge {E}.
Arguments BadMagic {E}.
Arguments BadVersion {E}.
Arguments GapLen {E}.
Arguments Io {E}.

Definition msg_header (m : Msg) : bytes :=
  to_be 4 MAGIC ++ to_be 2 VERSION ++ to_be 2 (msg_type m) ++ to_be 4 (stream_id m)
    ++ to_be 4 (wrap32 (Z.of_nat (length (payload m)))).

Definition write_msg {W E} `{AsyncWrite W E} (msg : Msg) : st W (proto_error E) unit :=
  let len := Z.of_nat (length (payload msg)) in
  st_bail_if (MAX_LEN <? len) (PayloadTooLarge len) ;;
  write_all_m Io (msg_header msg) ;;
  if (0 <? length (payload msg))%nat then write_all_m Io (payload msg) else mret tt.

(** [u16::from_be_bytes([header[4], header[5]])] and the like: a field of the
    16-byte array [header]. *)
Definition field (header : bytes) (i n : nat) : Z := from_be (take n (drop i header)).

Definition read_msg {R E} `{AsyncRead R E} : st R (proto_error E) Msg :=
  header ← read_exact_m Io 16;
  let magic := field header 0 4 in
  st_bail_if (negb (magic =? MAGIC)) (BadMagic magic) ;;
  let version := field header 4 2 in
  st_bail_if (negb (version =? VERSION)) (BadVersion version) ;;
  let msg_type := field header 6 2 in
  let stream_id := field header 8 4 in
  let len := field header 12 4 in
  st_bail_if (MAX_LEN <? len) (PayloadTooLarge len) ;;
  payload ← (if 0 <? len then read_exact_m Io (Z.to_nat len) else mret []);
  mret (mkMsg msg_type stream_id payload).

Definition encode_gap (last_seq new_seq : Z) : bytes := to_be 2 last_seq ++ to_be 2 new_seq.

Definition decode_gap {E} (buf : bytes) : outcome (proto_error E) (Z * Z) :=
  bail_if (negb (length buf =? 4)%nat) GapLen ;;
  b0 ← index buf 0; b1 ← index buf 1;
  b2 ← index buf 2; b3 ← index buf 3;
  mret (from_be [b0; b1], from_be [b2; b3]).

(** ** The reference decoder *)
Inductive frame (E : Type) :=
| Frame (m : Msg) (rest : bytes)       (* one message and what follows it *)
| Truncated                            (* the stream ends inside a message *)
| Malformed (why : proto_error E).     (* not this protocol, or too large *)
Arguments Frame {E}.
Arguments Truncated {E}.
Arguments Malformed {E}.

Definition decode_msg {E} (l : bytes) : frame E :=
  let len := field l 12 4 in
  if (length l <? 16)%nat then Truncated
  else if negb (field l 0 4 =? MAGIC) then Malformed (BadMagic (field l 0 4))
  else if negb (field l 4 2 =? VERSION) then Malformed (BadVersion (field l 4 2))
  else if MAX_LEN <? len then Malformed (PayloadTooLarge len)
  else if Z.of_nat (length l) <? 16 + len then Truncated
  else Frame (mkMsg (field l 6 2) (field l 8 4) (take (Z.to_nat len) (drop 16 l)))
             (drop (16 + Z.to_nat len) l).

(** The bytes [write_msg] puts on the wire. *)
Definition encode_msg (m : Msg) : bytes := msg_header m ++ payload m.

(** Sending and receiving a list of messages over one connection. *)
Definition write_msgs {W E} `{AsyncWrite W E} (ms : list Msg) : st W (proto_error E) unit :=
  foldr (fun m k => write_msg m ;; k) (mret tt) ms.

Fixpoint read_msgs {R E} `{AsyncRead R E} (n : nat) : st R (proto_error E) (list Msg) :=
  match n with
  | O => mret []
  | S n' => m ← read_msg; ms ← read_msgs n'; mret (m :: ms)
  end.

(** ** Lemmas *)
Lemma field_take l k i n : (i + n <= k)%nat -> field (take k l) i n = field l i n.
Proof. intros H. unfold field. rewrite skipn_firstn_comm, take_take. by rewrite Nat.min_l by lia. Qed.

Lemma field_nonneg l i n : bytes_ok l -> 0 <= field l i n.
Proof. intros H. unfold field. apply from_be_bound. by apply Forall_take, Forall_drop. Qed.

Lemma length_msg_header m : length (msg_header m) = 16%nat.
Proof. reflexivity. Qed.

(** The fields of an encoded message, whatever follows it. *)
Lemma encode_msg_fields m rest :
  msg_wf m -> Z.of_nat (length (payload m)) <= MAX_LEN ->
  let l := encode_msg m ++ rest in
  field l 0 4 = MAGIC /\ field l 4 2 = VERSION /\ field l 6 2 = msg_type m /\
  field l 8 4 = stream_id m /\ field l 12 4 = Z.of_nat (length (payload m)).
Proof.
  intros (Ht & Hs & _) Hlen l. unfold MAX_LEN in Hlen. unfold is_u16, is_u32 in *.
  repeat split.
  - change (from_be (to_be 2 (msg_type m)) = msg_type m).
    apply from_be_to_be_small; cbn; lia.
  - change (from_be (to_be 4 (stream_id m)) = stream_id m).
    apply from_be_to_be_small; cbn; lia.
  - change (from_be (to_be 4 (wrap32 (Z.of_nat (length (payload m))))) = Z.of_nat (length (payload m))).
    unfold wrap32. rewrite Z.mod_small by lia. apply from_be_to_be_small; cbn; lia.
Qed.

Lemma decode_encode_msg {E} m rest :
  msg_wf m -> Z.of_nat (length (payload m)) <= MAX_LEN ->
  decode_msg (E:=E) (encode_msg m ++ rest) = Frame m rest.
Proof.
  intros Hwf Hlen.
  destruct (encode_msg_fields m rest Hwf Hlen) as (E0 & E1 & E2 & E3 & E4).
  assert (length (encode_msg m ++ rest) = (16 + length (payload m) + length rest)%nat) as Hl.
  { unfold encode_msg. by rewrite !length_app, length_msg_header. }
  unfold decode_msg. rewrite E0, E1, E2, E3, E4, Hl.
  rewrite (proj2 (Nat.ltb_ge _ _)) by lia. cbn [Z.eqb negb]. rewrite !Z.eqb_refl. cbn [negb].
  rewrite !(proj2 (Z.ltb_ge _ _)) by lia.
  rewrite Nat2Z.id. unfold encode_msg. rewrite <- app_assoc.
  rewrite drop_app_ex by done. rewrite take_app_ex by done.
  rewrite app_assoc, drop_app_ex by (rewrite length_app; done).
  by destruct m.
Qed.

(** [write_msg] either puts exactly [encode_msg] on the wire or fails; the
    payload bound is checked before anything is written. *)
Lemma write_msg_ok {W E} `{AsyncWriteLaws W E} m w w' :
  write_msg m w = (w', Ok tt) ->
  written w' = written w ++ encode_msg m /\ Z.of_nat (length (payload m)) <= MAX_LEN.
Proof.
  unfold write_msg. rewrite st_bind_bail.
  destruct (Z.ltb_spec MAX_LEN (Z.of_nat (length (payload m)))) as [|Hle]; [done|].
  destruct (write_all_m Io (msg_header m) w) as [w1 [[]|e|]] eqn:Hw1;
    [rewrite (st_bind_ok _ _ _ _ _ Hw1)|unfold mbind, st_bind; by rewrite Hw1..].
  apply (write_all_m_ok Io) in Hw1. unfold encode_msg.
  destruct (Nat.ltb_spec 0 (length (payload m))) as [|Hz].
  - intros Hw2. apply (write_all_m_ok Io) in Hw2.
    split; [|done]. by rewrite Hw2, Hw1, app_assoc.
  - intros [= <-]. split; [|done].
    destruct (payload m); [|simpl in Hz; lia]. by rewrite app_nil_r.
Qed.

(** [read_msg] implements the reference decoder. *)
Lemma read_msg_decode {R E} `{AsyncReadLaws R E} r :
  bytes_ok (pending r) ->
  match decode_msg (pending r) with
  | Frame m rest => exists r', read_msg r = (r', Ok m) /\ pending r' = rest
  | Truncated => exists r' e, read_msg r = (r', Err (Io e))
  | Malformed why => exists r', read_msg r = (r', Err why)
  end.
Proof.
  intros Hok. unfold decode_msg, read_msg.
  destruct (Nat.ltb_spec (length (pending r)) 16) as [Hlt|Hge].
  { destruct (read_exact_m_eof Io r 16 Hlt) as (r' & e & Hr). exists r', e.
    by rewrite (st_bind_err _ _ _ _ _ Hr). }
  destruct (read_exact_m_full Io r 16 Hge) as (r1 & Hr & Hp).
  rewrite (st_bind_ok _ _ _ _ _ Hr). cbv zeta.
  rewrite !field_take, !st_bind_bail by lia.
  destruct (negb (field (pending r) 0 4 =? MAGIC)); [by eexists|].
  destruct (negb (field (pending r) 4 2 =? VERSION)); [by eexists|].
  destruct (Z.ltb_spec MAX_LEN (field (pending r) 12 4)) as [|Hmax]; [by eexists|].
  pose proof (field_nonneg _ 12 4 Hok) as Hnn. set (len := field (pending r) 12 4) in *.
  assert (length (pending r1) = (length (pending r) - 16)%nat) as Hl1 by (by rewrite Hp, length_drop).
  destruct (Z.ltb_spec (Z.of_nat (length (pending r))) (16 + len)) as [Hshort|Hfull].
  - rewrite (proj2 (Z.ltb_lt _ _)) by lia.
    destruct (read_exact_m_eof Io r1 (Z.to_nat len)) as (r' & e & Hr2); [lia|].
    exists r', e. by rewrite (st_bind_err _ _ _ _ _ Hr2).
  - destruct (Z.ltb_spec 0 len) as [Hpos|Hz].
    + destruct (read_exact_m_full Io r1 (Z.to_nat len)) as (r' & Hr2 & Hp2); [lia|].
      exists r'. rewrite (st_bind_ok _ _ _ _ _ Hr2), Hp2, Hp. by rewrite drop_drop.
    + exists r1. rewrite st_bind_ret. replace len with 0 by lia. by rewrite Hp.
Qed.

Lemma write_msgs_ok {W E} `{AsyncWriteLaws W E} ms w w' :
  write_msgs ms w = (w', Ok tt) ->
  written w' = written w ++ concat (encode_msg <$> ms) /\
  Forall (fun m => Z.of_nat (length (payload m)) <= MAX_LEN) ms.
Proof.
  revert w. induction ms as [|m ms IH]; intros w; cbn [write_msgs foldr].
  - intros [= <-]. cbn. by rewrite app_nil_r.
  - destruct (write_msg m w) as [w1 [[]|e|]] eqn:Hw1;
      [rewrite (st_bind_ok _ _ _ _ _ Hw1)|unfold mbind, st_bind; by rewrite Hw1..].
    intros Hw2. apply write_msg_ok in Hw1 as [Hw1 Hm]. apply IH in Hw2 as [Hw2 Hms].
    split; [|by constructor]. by rewrite Hw2, Hw1, <- app_assoc.
Qed.

Lemma encode_msg_bytes_ok m : msg_wf m -> bytes_ok (encode_msg m).
Proof.
  intros (_ & _ & Hp). unfold encode_msg, msg_header.
  solve_bytes.
Qed.

Lemma encode_msgs_bytes_ok ms : Forall msg_wf ms -> bytes_ok (concat (encode_msg <$> ms)).
Proof.
  induction 1; [constructor|]. rewrite fmap_cons. cbn [concat]. apply Forall_app. auto using encode_msg_bytes_ok.
Qed.

Lemma read_msgs_ok {R E} `{AsyncReadLaws R E} ms rest r :
  Forall msg_wf ms -> Forall (fun m => Z.of_nat (length (payload m)) <= MAX_LEN) ms -> bytes_ok rest ->
  pending r = concat (encode_msg <$> ms) ++ rest ->
  exists r', read_msgs (length ms) r = (r', Ok ms) /\ pending r' = rest.
Proof.
  intros Hwf Hlen Hrest. revert r.
  induction ms as [|m ms IH]; intros r Hp; cbn [length read_msgs].
  - by exists r.
  - rewrite fmap_cons in Hp. cbn [concat] in Hp. apply Forall_cons in Hwf as [Hm Hms]. apply Forall_cons in Hlen as [Hl Hls].
    pose proof (read_msg_decode r) as Hd.
    rewrite Hp, <- app_assoc, decode_encode_msg in Hd by done.
    destruct Hd as (r1 & Hr1 & Hp1).
    { apply Forall_app; split; [by apply encode_msg_bytes_ok|].
      apply Forall_app; split; [by apply encode_msgs_bytes_ok|done]. }
    rewrite (st_bind_ok _ _ _ _ _ Hr1).
    destruct (IH Hms Hls r1 Hp1) as (r2 & Hr2 & Hp2).
    exists r2. by rewrite (st_bind_ok _ _ _ _ _ Hr2).
Qed.

(** ** Properties *)

(** C7: [read_msg] is total on every stream and implements the reference
    decoder: a complete frame yields its message and leaves exactly the bytes
    after it, a stream that ends early yields an I/O error, and bad magic,
    version or an oversized length is refused with that error before any
    payload is read. *)
Theorem read_msg_refines_decoder {R E} `{AsyncReadLaws R E} (r : R) :
  bytes_ok (pending r) ->
  match decode_msg (pending r) with
  | Frame m rest =>
      (exists r', read_msg r = (r', Ok m) /\ pending r' = rest) /\
      Z.of_nat (length (payload m)) <= MAX_LEN
  | Truncated => exists r' e, read_msg r = (r', Err (Io e))
  | Malformed why => exists r', read_msg r = (r', Err why)
  end.
Proof.
  intros Hok. pose proof (read_msg_decode r Hok) as Hr.
  destruct (decode_msg (pending r)) as [m rest| |why] eqn:Hd; [|done..].
  split; [done|]. clear Hr. revert Hd. unfold decode_msg.
  repeat case_match; intros Hd; simplify_eq/=.
  rewrite length_take. unfold MAX_LEN in *. lia.
Qed.

(** Messages written one after the other on a connection are read back
    unchanged, in order, whatever follows them on the wire. *)
Theorem write_read_msgs_roundtrip {W R E1 E2} `{AsyncWriteLaws W E1} `{AsyncReadLaws R E2}
    (ms : list Msg) (w w' : W) (r : R) (rest : bytes) :
  Forall msg_wf ms -> bytes_ok rest ->
  written w = [] -> write_msgs ms w = (w', Ok tt) -> pending r = written w' ++ rest ->
  exists r', read_msgs (length ms) r = (r', Ok ms) /\ pending r' = rest.
Proof.
  intros Hwf Hrest Hw0 Hw Hr. apply write_msgs_ok in Hw as [Hw Hlen].
  apply read_msgs_ok; [done..|]. by rewrite Hr, Hw, Hw0.
Qed.

(** The GAP payload: four bytes, decoded back to the two sequence numbers
    it encodes; [decode_gap] accepts the four-byte payloads and no other, and
    never panics. *)
Theorem gap_codec {E} (last new : Z) (buf : bytes) :
  is_u16 last -> is_u16 new -> bytes_ok buf ->
  decode_gap (E:=E) (encode_gap last new) = Ok (last, new) /\
  (length buf = 4%nat -> exists p, decode_gap (E:=E) buf = Ok p /\ encode_gap p.1 p.2 = buf) /\
  (length buf <> 4%nat -> decode_gap (E:=E) buf = Err GapLen).
Proof.
  intros Hl Hn Hb. unfold is_u16 in *. split; [|split].
  - change (Ok (E:=proto_error E) (from_be (to_be 2 last), from_be (to_be 2 new)) = Ok (last, new)).
    by rewrite !from_be_to_be_small by (cbn; lia).
  - intros H4. destruct buf as [|a [|b [|c [|d [|]]]]]; try done.
    exists (from_be [a; b], from_be [c; d]). split; [done|].
    unfold encode_gap. cbn [fst snd].
    rewrite !to_be_from_be_len; [done|..]; decompose_Forall_hyps; auto; solve_bytes.
  - intros H4. unfold decode_gap. rewrite bail_bind.
    by rewrite (proj2 (Nat.eqb_neq _ _) H4).
Qed.

(** ** Witnesses *)
Import ListStream.

Definition hello_msg : Msg := mkMsg HELLO 0 [123; 125].
Definition rtp_msg : Msg := mkMsg RTP 7 [0x80; 0x60; 0; 1].

Lemma read_msg_refines_decoder_witness :
  read_msg (encode_msg rtp_msg ++ [1; 2]) = ([1; 2], Ok (E:=proto_error eof) rtp_msg) /\
  (exists r', read_msg (encode_msg rtp_msg ++ [1; 2]) = (r', Ok (E:=proto_error eof) rtp_msg)
              /\ pending (E:=eof) r' = [1; 2]) /\
  Z.of_nat (length (payload rtp_msg)) <= MAX_LEN.
Proof.
  split; [vm_compute; reflexivity|].
  assert (bytes_ok (pending (E:=eof) (encode_msg rtp_msg ++ [1; 2]))) as Hok.
  { by_eval. }
  exact (read_msg_refines_decoder (E:=eof) (encode_msg rtp_msg ++ [1; 2]) Hok).
Defined.

Lemma write_read_msgs_roundtrip_witness :
  exists r', read_msgs 2 (encode_msg hello_msg ++ encode_msg rtp_msg ++ [9])
             = (r', Ok (E:=proto_error eof) [hello_msg; rtp_msg]) /\ pending (E:=eof) r' = [9].
Proof.
  refine (write_read_msgs_roundtrip (E1:=eof) (E2:=eof) [hello_msg; rtp_msg]
    ([] : bytes) (encode_msg hello_msg ++ encode_msg rtp_msg)
    (encode_msg hello_msg ++ encode_msg rtp_msg ++ [9]) [9] _ _ eq_refl eq_refl eq_refl).
  - by_eval.
  - solve_bytes.
Defined.

Lemma gap_codec_witness :
  decode_gap (E:=unit) (encode_gap 65535 4) = Ok (65535, 4) /\
  (length [1; 2; 3; 4] = 4%nat ->
   exists p, decode_gap (E:=unit) [1; 2; 3; 4] = Ok p /\ encode_gap p.1 p.2 = [1; 2; 3; 4]) /\
  (length [1; 2; 3; 4] <> 4%nat -> decode_gap (E:=unit) [1; 2; 3; 4] = Err GapLen).
Proof.
  apply (gap_codec 65535 4 [1; 2; 3; 4]); solve_bytes.
Defined.
