(* ===== verification/Rtp.v ===== *)
(** * RTP packets ([core/rtp.rs] and [core/rtp_refactored.rs])

    [parse] models the borrowing parser, [Refactored.parse] the zero-copy one
    over [bytes::Bytes].  [wire] is the packet format of RFC 3550 as the
    parser understands it and [encode] its reference encoder: [parse] accepts
    exactly the encodings, and returns their fields; the two parsers agree on
    every input. *)
From S2P Require Import Prelude.

Record RtpPacket := mkRtpPacket {
  version : Z;
  padding : bool;
  extension : bool;
  csrc_count : Z;
  marker : bool;
  payload_type : Z;
  sequence_number : Z;   (* u16 *)
  timestamp : Z;         (* u32 *)
  ssrc : Z;              (* u32 *)
  payload : bytes;
}.

Inductive rtp_error :=
| TooShort (len : nat)
| UnsupportedVersion (version : Z)
| TooShortForCsrc
| TooShortForExtensionHeader
| TooShortForExtensionData
| PaddingOnEmpty
| InvalidPadding (len : nat)
| PayloadBeyondEnd (off end_ : nat).

(** The header extension is skipped: the new offset. *)
Definition skip_extension (buf : bytes) (off : nat) : outcome rtp_error nat :=
  bail_if (length buf <? off + 4)%nat TooShortForExtensionHeader ;;
  e2 ← index buf (off + 2); e3 ← index buf (off + 3);
  let ext_len_words := Z.to_nat (from_be [e2; e3]) in
  let off := (off + 4)%nat in
  let ext_bytes := (ext_len_words * 4)%nat in
  bail_if (length buf <? off + ext_bytes)%nat TooShortForExtensionData ;;
  mret (off + ext_bytes)%nat.

(** The padding is stripped: the new end of the payload. *)
Definition strip_padding (buf : bytes) (off : nat) : outcome rtp_error nat :=
  let end_ := length buf in
  bail_if (end_ =? 0)%nat PaddingOnEmpty ;;
  last ← index buf (end_ - 1);
  let pad_len := Z.to_nat last in
  bail_if ((pad_len =? 0)%nat || (end_ - off <? pad_len)%nat) (InvalidPadding pad_len) ;;
  mret (end_ - pad_len)%nat.

Definition parse (buf : bytes) : outcome rtp_error RtpPacket :=
  bail_if (length buf <? 12)%nat (TooShort (length buf)) ;;
  b0 ← index buf 0; b1 ← index buf 1;
  let version := Z.shiftr b0 6 in
  bail_if (negb (version =? 2)) (UnsupportedVersion version) ;;
  let padding := negb (Z.land b0 0x20 =? 0) in
  let extension := negb (Z.land b0 0x10 =? 0) in
  let csrc_count := Z.land b0 0x0F in
  let marker := negb (Z.land b1 0x80 =? 0) in
  let payload_type := Z.land b1 0x7F in
  b2 ← index buf 2; b3 ← index buf 3;
  let sequence_number := from_be [b2; b3] in
  b4 ← index buf 4; b5 ← index buf 5; b6 ← index buf 6; b7 ← index buf 7;
  let timestamp := from_be [b4; b5; b6; b7] in
  b8 ← index buf 8; b9 ← index buf 9; b10 ← index buf 10; b11 ← index buf 11;
  let ssrc := from_be [b8; b9; b10; b11] in
  let off := 12%nat in
  let csrc_bytes := (Z.to_nat csrc_count * 4)%nat in
  bail_if (length buf <? off + csrc_bytes)%nat TooShortForCsrc ;;
  let off := (off + csrc_bytes)%nat in
  off ← (if extension then skip_extension buf off else mret off);
  end_ ← (if padding then strip_padding buf off else mret (length buf));
  bail_if (end_ <? off)%nat (PayloadBeyondEnd off end_) ;;
  payload ← slice buf off end_;
  mret (mkRtpPacket version padding extension csrc_count marker payload_type
          sequence_number timestamp ssrc payload).

(** ** The zero-copy parser *)
Module Refactored.

(** The packet keeps the whole buffer and the payload's bounds in it. *)
Record RtpPacket := mkRtpPacket {
  data : bytes;
  payload_offset : nat;
  payload_len : nat;
  sequence_number : Z;
  timestamp : Z;
  ssrc : Z;
  marker : bool;
  payload_type : Z;
}.

(** [utils/error.rs], enum [RtpError] *)
Inductive RtpError :=
| PacketTooShort (len : nat)
| UnsupportedVersion (version : Z)
| InvalidCsrcList
| InvalidExtension
| InvalidPadding (len : nat)
| SequenceDiscontinuity (expected actual : Z)
| PayloadTypeMismatch (expected actual : Z).

Definition skip_extension (data : bytes) (offset : nat) : outcome RtpError nat :=
  bail_if (length data <? offset + 4)%nat InvalidExtension ;;
  e2 ← index data (offset + 2); e3 ← index data (offset + 3);
  let ext_len_words := Z.to_nat (from_be [e2; e3]) in
  let offset := (offset + 4)%nat in
  let ext_bytes := (ext_len_words * 4)%nat in
  bail_if (length data <? offset + ext_bytes)%nat InvalidExtension ;;
  mret (offset + ext_bytes)%nat.

Definition strip_padding (data : bytes) (offset : nat) : outcome RtpError nat :=
  let payload_end := length data in
  bail_if (payload_end =? 0)%nat (InvalidPadding 0) ;;
  last ← index data (payload_end - 1);
  let pad_len := Z.to_nat last in
  bail_if ((pad_len =? 0)%nat || (payload_end - offset <? pad_len)%nat) (InvalidPadding pad_len) ;;
  mret (payload_end - pad_len)%nat.

Definition parse (data : bytes) : outcome RtpError RtpPacket :=
  bail_if (length data <? 12)%nat (PacketTooShort (length data)) ;;
  b0 ← index data 0; b1 ← index data 1;
  let version := Z.shiftr b0 6 in
  bail_if (negb (version =? 2)) (UnsupportedVersion version) ;;
  let padding := negb (Z.land b0 0x20 =? 0) in
  let extension := negb (Z.land b0 0x10 =? 0) in
  let csrc_count := Z.land b0 0x0F in
  let marker := negb (Z.land b1 0x80 =? 0) in
  let payload_type := Z.land b1 0x7F in
  b2 ← index data 2; b3 ← index data 3;
  let sequence_number := from_be [b2; b3] in
  b4 ← index data 4; b5 ← index data 5; b6 ← index data 6; b7 ← index data 7;
  let timestamp := from_be [b4; b5; b6; b7] in
  b8 ← index data 8; b9 ← index data 9; b10 ← index data 10; b11 ← index data 11;
  let ssrc := from_be [b8; b9; b10; b11] in
  let offset := 12%nat in
  let csrc_bytes := (Z.to_nat csrc_count * 4)%nat in
  bail_if (length data <? offset + csrc_bytes)%nat InvalidCsrcList ;;
  let offset := (offset + csrc_bytes)%nat in
  offset ← (if extension then skip_extension data offset else mret offset);
  payload_end ← (if padding then strip_padding data offset else mret (length data));
  bail_if (payload_end <? offset)%nat (PacketTooShort (length data)) ;;
  let payload_len := (payload_end - offset)%nat in
  mret (mkRtpPacket data offset payload_len sequence_number timestamp ssrc marker payload_type).

(** The accessors. *)
Definition version (p : RtpPacket) : Z := 2.
Definition payload (p : RtpPacket) : outcome RtpError bytes :=
  slice (data p) (payload_offset p) (payload_offset p + payload_len p).
Definition follows (p : RtpPacket) (expected : Z) : bool := sequence_number p =? expected.
Definition next_sequence (p : RtpPacket) : Z := wrap16 (sequence_number p + 1).

End Refactored.

(** ** The wire format *)
Record wire := mkWire {
  w_marker : bool;
  w_payload_type : Z;                   (* 7 bits *)
  w_sequence : Z;
  w_timestamp : Z;
  w_ssrc : Z;
  w_csrc : bytes;                       (* four bytes per contributing source *)
  w_extension : option (bytes * bytes); (* the two profile bytes, the data *)
  w_payload : bytes;
  w_padding : option bytes;             (* the padding before the count byte *)
}.

Definition wire_ok (w : wire) : Prop :=
  0 <= w_payload_type w < 128 /\ is_u16 (w_sequence w) /\ is_u32 (w_timestamp w) /\
  is_u32 (w_ssrc w) /\
  (exists n, length (w_csrc w) = (4 * n)%nat /\ (n < 16)%nat) /\
  match w_extension w with
  | None => True
  | Some (profile, data) => length profile = 2%nat /\ bytes_ok profile /\ bytes_ok data /\
      exists n, length data = (4 * n)%nat /\ Z.of_nat n < 65536
  end /\
  match w_padding w with None => True | Some pad => (length pad < 255)%nat /\ bytes_ok pad end /\
  bytes_ok (w_csrc w) /\ bytes_ok (w_payload w).

Definition bit (b : bool) (v : Z) : Z := if b then v else 0.

Definition byte0 (w : wire) : Z :=
  128 + bit (bool_decide (is_Some (w_padding w))) 32
      + bit (bool_decide (is_Some (w_extension w))) 16
      + Z.of_nat (length (w_csrc w)) / 4.
Definition byte1 (w : wire) : Z := bit (w_marker w) 128 + w_payload_type w.

Definition encode_extension (x : option (bytes * bytes)) : bytes :=
  match x with
  | None => []
  | Some (profile, data) => profile ++ to_be 2 (Z.of_nat (length data) / 4) ++ data
  end.
Definition encode_padding (x : option bytes) : bytes :=
  match x with None => [] | Some pad => pad ++ [Z.of_nat (length pad) + 1] end.

Definition encode (w : wire) : bytes :=
  [byte0 w; byte1 w] ++ to_be 2 (w_sequence w) ++ to_be 4 (w_timestamp w) ++ to_be 4 (w_ssrc w)
    ++ w_csrc w ++ encode_extension (w_extension w) ++ w_payload w ++ encode_padding (w_padding w).

(** What the parser reports about an encoded packet. *)
Definition packet_of (w : wire) : RtpPacket :=
  mkRtpPacket 2 (bool_decide (is_Some (w_padding w))) (bool_decide (is_Some (w_extension w)))
    (Z.of_nat (length (w_csrc w)) / 4) (w_marker w) (w_payload_type w) (w_sequence w)
    (w_timestamp w) (w_ssrc w) (w_payload w).

(** ** Header bits *)
Lemma byte0_bits p x cc :
  0 <= cc < 16 ->
  let b := 128 + bit p 32 + bit x 16 + cc in
  Z.shiftr b 6 = 2 /\ negb (Z.land b 0x20 =? 0) = p /\ negb (Z.land b 0x10 =? 0) = x /\
  Z.land b 0x0F = cc.
Proof.
  intros Hcc b.
  pose proof (forall_below 16 (fun c => let b := 128 + bit p 32 + bit x 16 + c in
    (Z.shiftr b 6 =? 2) && eqb (negb (Z.land b 0x20 =? 0)) p &&
    eqb (negb (Z.land b 0x10 =? 0)) x && (Z.land b 0x0F =? c))) as H.
  specialize (H ltac:(destruct p, x; reflexivity) cc Hcc). cbv zeta in H. fold b in H.
  rewrite !andb_true_iff, !Z.eqb_eq, !eqb_true_iff in H. tauto.
Qed.

Lemma byte1_bits m pt :
  0 <= pt < 128 ->
  let b := bit m 128 + pt in
  negb (Z.land b 0x80 =? 0) = m /\ Z.land b 0x7F = pt.
Proof.
  intros Hpt b.
  pose proof (forall_below 128 (fun c => let b := bit m 128 + c in
    eqb (negb (Z.land b 0x80 =? 0)) m && (Z.land b 0x7F =? c))) as H.
  specialize (H ltac:(destruct m; reflexivity) pt Hpt). cbv zeta in H. fold b in H.
  rewrite !andb_true_iff, !Z.eqb_eq, !eqb_true_iff in H. tauto.
Qed.

Lemma byte0_inv b :
  is_byte b -> Z.shiftr b 6 = 2 ->
  b = 128 + bit (negb (Z.land b 0x20 =? 0)) 32 + bit (negb (Z.land b 0x10 =? 0)) 16 + Z.land b 0x0F
  /\ 0 <= Z.land b 0x0F < 16.
Proof.
  intros Hb Hv.
  pose proof (forall_byte (fun b => negb (Z.shiftr b 6 =? 2) ||
    ((b =? 128 + bit (negb (Z.land b 0x20 =? 0)) 32 + bit (negb (Z.land b 0x10 =? 0)) 16 + Z.land b 0x0F)
     && (0 <=? Z.land b 0x0F) && (Z.land b 0x0F <? 16))) eq_refl b Hb) as H. cbv beta in H.
  rewrite Hv in H. cbn [Z.eqb Pos.eqb negb orb] in H.
  rewrite !andb_true_iff, Z.eqb_eq, Z.leb_le, Z.ltb_lt in H. tauto.
Qed.

Lemma byte1_inv b :
  is_byte b ->
  b = bit (negb (Z.land b 0x80 =? 0)) 128 + Z.land b 0x7F /\ 0 <= Z.land b 0x7F < 128.
Proof.
  intros Hb.
  pose proof (forall_byte (fun b => (b =? bit (negb (Z.land b 0x80 =? 0)) 128 + Z.land b 0x7F)
     && (0 <=? Z.land b 0x7F) && (Z.land b 0x7F <? 128)) eq_refl b Hb) as H. cbv beta in H.
  rewrite !andb_true_iff, Z.eqb_eq, Z.leb_le, Z.ltb_lt in H. tauto.
Qed.

(** ** The extension and the padding *)
Lemma outcome_bind_ok {E A B} (m : outcome E A) (f : A -> outcome E B) b :
  (m ≫= f) = Ok b -> exists a, m = Ok a /\ f a = Ok b.
Proof. destruct m as [a|e|]; [|done..]. cbn. eauto. Qed.

Lemma drop_two (buf : bytes) off :
  (off + 4 <= length buf)%nat ->
  exists a b c d, buf !! (off + 2)%nat = Some c /\ buf !! (off + 3)%nat = Some d /\
    drop off buf = a :: b :: c :: d :: drop (off + 4) buf.
Proof.
  intros H. rewrite <- (drop_drop buf 4 off), <- (lookup_drop buf off 2), <- (lookup_drop buf off 3).
  assert (4 <= length (drop off buf))%nat as Hl by (rewrite length_drop; lia).
  destruct (drop off buf) as [|a [|b [|c [|d l]]]]; cbn in Hl; try lia.
  exists a, b, c, d. done.
Qed.

Lemma skip_extension_no_panic buf off : skip_extension buf off <> Panic.
Proof.
  unfold skip_extension. rewrite bail_bind.
  destruct (Nat.ltb_spec (length buf) (off + 4)) as [|Hl]; [done|].
  destruct (drop_two buf off Hl) as (a & b & c & d & Hc & Hd & _).
  rewrite (index_lookup _ _ _ Hc), (index_lookup _ _ _ Hd).
  cbn [mbind outcome_bind]. rewrite bail_bind. by case_match.
Qed.

Lemma skip_extension_inv (buf : bytes) off off' :
  bytes_ok buf -> skip_extension buf off = Ok off' ->
  exists profile data, drop off buf = encode_extension (Some (profile, data)) ++ drop off' buf /\
    length profile = 2%nat /\ (exists n, length data = (4 * n)%nat /\ Z.of_nat n < 65536) /\
    (off <= off')%nat /\ (off' <= length buf)%nat.
Proof.
  intros Hok. unfold skip_extension. rewrite bail_bind.
  destruct (Nat.ltb_spec (length buf) (off + 4)) as [|Hl]; [done|].
  destruct (drop_two buf off Hl) as (a & b & c & d & Hc & Hd & Hdrop).
  rewrite (index_lookup _ _ _ Hc), (index_lookup _ _ _ Hd). cbn [mbind outcome_bind].
  rewrite bail_bind. set (n := Z.to_nat (from_be [c; d])).
  destruct (Nat.ltb_spec (length buf) (off + 4 + n * 4)) as [|Hl2]; [done|]. intros [= <-].
  assert (bytes_ok [c; d]) as Hcd.
  { solve_bytes; eapply Forall_lookup_1; eauto. }
  pose proof (from_be_bound _ Hcd) as Hb. cbn [length] in Hb. change (256 ^ Z.of_nat 2) with 65536 in Hb.
  exists [a; b], (take (n * 4) (drop (off + 4) buf)).
  rewrite Hdrop. cbn [encode_extension].
  rewrite length_take, length_drop, Nat.min_l by lia.
  replace (Z.of_nat (n * 4) / 4) with (from_be [c; d]).
  2:{ rewrite Nat2Z.inj_mul, Z.div_mul by lia. lia. }
  rewrite to_be_from_be_len by done. cbn [app].
  rewrite <- (drop_drop buf (n * 4) (off + 4)), take_drop.
  repeat split; try lia. exists n. lia.
Qed.

Lemma skip_extension_encode pre profile data post n :
  length profile = 2%nat -> length data = (4 * n)%nat -> Z.of_nat n < 65536 ->
  skip_extension (pre ++ encode_extension (Some (profile, data)) ++ post) (length pre)
  = Ok (length pre + length (encode_extension (Some (profile, data))))%nat.
Proof.
  intros Hp Hd Hn. destruct profile as [|p0 [|p1 [|]]]; try done.
  unfold skip_extension. rewrite bail_bind.
  set (x := encode_extension (Some ([p0; p1], data))).
  assert (length x = (4 + length data)%nat) as Hx by done.
  rewrite (proj2 (Nat.ltb_ge _ _)) by len.
  rewrite (index_lookup _ (length pre + 2)
             ((Z.of_nat (length data) / 4) / 256 mod 256)).
  2:{ rewrite lookup_app_r by lia. rewrite Nat.add_sub_swap, Nat.sub_diag by lia. done. }
  rewrite (index_lookup _ (length pre + 3)
             ((Z.of_nat (length data) / 4) / 1 mod 256)).
  2:{ rewrite lookup_app_r by lia. rewrite Nat.add_sub_swap, Nat.sub_diag by lia. done. }
  cbn [mbind outcome_bind]. rewrite bail_bind.
  change (from_be [_; _]) with (from_be (to_be 2 (Z.of_nat (length data) / 4))).
  rewrite Hd, Nat2Z.inj_mul, Z.mul_comm, Z.div_mul by lia.
  rewrite from_be_to_be_small by (cbn; lia). rewrite Nat2Z.id.
  rewrite (proj2 (Nat.ltb_ge _ _)) by len. cbn. f_equal. lia.
Qed.

Lemma strip_padding_inv (buf : bytes) off e :
  bytes_ok buf -> (off <= length buf)%nat -> strip_padding buf off = Ok e ->
  exists pad, drop e buf = encode_padding (Some pad) /\ (length pad < 255)%nat /\
    (off <= e)%nat /\ (e <= length buf)%nat.
Proof.
  intros Hok Hoff. unfold strip_padding. rewrite bail_bind.
  destruct (Nat.eqb_spec (length buf) 0) as [|Hz]; [done|].
  destruct (index_ok (E:=rtp_error) buf (length buf - 1)) as (v & Hv & Hlk); [lia|]. rewrite Hv.
  assert (is_byte v) as Hbv by (eapply Forall_lookup_1; eauto). unfold is_byte in Hbv.
  cbn [mbind outcome_bind]. rewrite bail_bind.
  destruct (Nat.eqb_spec (Z.to_nat v) 0) as [|Hv0]; [done|].
  destruct (Nat.ltb_spec (length buf - off) (Z.to_nat v)) as [|Hle]; [done|].
  cbn. intros [= <-]. set (e := (length buf - Z.to_nat v)%nat).
  exists (take (Z.to_nat v - 1) (drop e buf)).
  assert (length (drop e buf) = Z.to_nat v) as Hld by (rewrite length_drop; lia).
  split; [|rewrite length_take; lia].
  rewrite <- (take_drop (Z.to_nat v - 1) (drop e buf)) at 1. cbn [encode_padding]. f_equal.
  rewrite length_take, Hld, Nat.min_l by lia.
  replace (Z.of_nat (Z.to_nat v - 1) + 1) with v by lia.
  rewrite drop_drop. replace (e + (Z.to_nat v - 1))%nat with (length buf - 1)%nat by lia.
  rewrite (drop_S _ _ _ Hlk), drop_ge by lia. done.
Qed.

Lemma strip_padding_no_panic buf off : strip_padding buf off <> Panic.
Proof.
  unfold strip_padding. rewrite bail_bind. destruct (Nat.eqb_spec (length buf) 0) as [|Hz]; [done|].
  destruct (index_ok (E:=rtp_error) buf (length buf - 1)) as (v & Hv & _); [lia|]. rewrite Hv.
  cbn [mbind outcome_bind]. rewrite bail_bind. by case_match.
Qed.

Lemma strip_padding_encode pre pad off :
  (off <= length pre)%nat -> (length pad < 255)%nat ->
  strip_padding (pre ++ encode_padding (Some pad)) off = Ok (length pre).
Proof.
  intros Hoff Hpad. unfold strip_padding. rewrite bail_bind. cbn [encode_padding].
  rewrite app_assoc. set (l := pre ++ pad).
  assert (length (l ++ [Z.of_nat (length pad) + 1]) = S (length l)) as Hl by (rewrite length_app; cbn; lia).
  rewrite Hl. cbn [Nat.eqb]. replace (S (length l) - 1)%nat with (length l) by lia.
  rewrite (index_lookup _ _ (Z.of_nat (length pad) + 1)).
  2:{ rewrite lookup_app_r by lia. by rewrite Nat.sub_diag. }
  cbn [mbind outcome_bind]. rewrite bail_bind.
  replace (Z.to_nat (Z.of_nat (length pad) + 1)) with (S (length pad)) by lia.
  assert (length l = length pre + length pad)%nat as Hl2 by apply length_app.
  cbn [Nat.eqb orb]. rewrite (proj2 (Nat.ltb_ge _ _)) by lia. cbn. f_equal. lia.
Qed.

(** ** The whole packet *)

(** The first twelve bytes read one by one. *)
Lemma twelve (buf : bytes) :
  (12 <= length buf)%nat ->
  exists b0 b1 b2 b3 b4 b5 b6 b7 b8 b9 b10 b11,
    buf = [b0; b1; b2; b3; b4; b5; b6; b7; b8; b9; b10; b11] ++ drop 12 buf.
Proof.
  intros H. do 12 (destruct buf as [|? buf]; [cbn in H; lia|]). do 12 eexists. reflexivity.
Qed.

(** The parser once the fixed header is read. *)
Definition parse_body (buf : bytes) (b0 b1 seq ts ssrc : Z) : outcome rtp_error RtpPacket :=
  bail_if (negb (Z.shiftr b0 6 =? 2)) (UnsupportedVersion (Z.shiftr b0 6)) ;;
  let off := (12 + Z.to_nat (Z.land b0 0x0F) * 4)%nat in
  bail_if (length buf <? off)%nat TooShortForCsrc ;;
  off ← (if negb (Z.land b0 0x10 =? 0) then skip_extension buf off else mret off);
  end_ ← (if negb (Z.land b0 0x20 =? 0) then strip_padding buf off else mret (length buf));
  bail_if (end_ <? off)%nat (PayloadBeyondEnd off end_) ;;
  payload ← slice buf off end_;
  mret (mkRtpPacket (Z.shiftr b0 6) (negb (Z.land b0 0x20 =? 0)) (negb (Z.land b0 0x10 =? 0))
          (Z.land b0 0x0F) (negb (Z.land b1 0x80 =? 0)) (Z.land b1 0x7F) seq ts ssrc payload).

Lemma parse_header b0 b1 b2 b3 b4 b5 b6 b7 b8 b9 b10 b11 rest :
  let buf := [b0; b1; b2; b3; b4; b5; b6; b7; b8; b9; b10; b11] ++ rest in
  parse buf = parse_body buf b0 b1 (from_be [b2; b3]) (from_be [b4; b5; b6; b7])
                (from_be [b8; b9; b10; b11]).
Proof. reflexivity. Qed.

Lemma parse_short buf : (length buf < 12)%nat -> parse buf = Err (TooShort (length buf)).
Proof. intros H. unfold parse. rewrite bail_bind. by rewrite (proj2 (Nat.ltb_lt _ _) H). Qed.

Ltac bind_inv H :=
  repeat (let E := fresh "E" in
          apply outcome_bind_ok in H as (? & E & H);
          try (rewrite bail_bind in H)).

Lemma bail_ok {E} c (e : E) u : bail_if c e = Ok u -> c = false.
Proof. by destruct c. Qed.

Lemma skip_extension_bounds buf off off' :
  skip_extension buf off = Ok off' -> (off <= off' <= length buf)%nat.
Proof.
  intros H. unfold skip_extension in H.
  apply outcome_bind_ok in H as (? & _ & H). apply outcome_bind_ok in H as (? & _ & H).
  apply outcome_bind_ok in H as (? & _ & H). apply outcome_bind_ok in H as (? & Hb & H).
  apply bail_ok, Nat.ltb_ge in Hb. injection H as <-. lia.
Qed.

Lemma strip_padding_bounds buf off e : strip_padding buf off = Ok e -> (e <= length buf)%nat.
Proof.
  intros H. unfold strip_padding in H.
  apply outcome_bind_ok in H as (? & _ & H). apply outcome_bind_ok in H as (? & _ & H).
  apply outcome_bind_ok in H as (? & _ & H). injection H as <-. lia.
Qed.

(** The body runs in one of four ways. *)
Inductive body_run (buf : bytes) (x p : bool) (off : nat) : outcome rtp_error (nat * nat) -> Prop :=
| body_ext_err e : x = true -> skip_extension buf off = Err e -> body_run buf x p off (Err e)
| body_pad_err off' e : (if x then skip_extension buf off else mret off) = Ok off' -> p = true ->
    strip_padding buf off' = Err e -> body_run buf x p off (Err e)
| body_beyond off' end_ : (if x then skip_extension buf off else mret off) = Ok off' ->
    (if p then strip_padding buf off' else mret (length buf)) = Ok end_ -> (end_ < off')%nat ->
    body_run buf x p off (Err (PayloadBeyondEnd off' end_))
| body_ok off' end_ : (if x then skip_extension buf off else mret off) = Ok off' ->
    (if p then strip_padding buf off' else mret (length buf)) = Ok end_ ->
    (off <= off' <= end_)%nat -> (end_ <= length buf)%nat -> body_run buf x p off (Ok (off', end_)).

Lemma body_runs buf x p off :
  (off <= length buf)%nat ->
  exists o, body_run buf x p off o /\
    forall A (f : nat -> nat -> bytes -> outcome rtp_error A),
    (off' ← (if x : bool then skip_extension buf off else mret off);
     end_ ← (if p : bool then strip_padding buf off' else mret (length buf));
     bail_if (end_ <? off')%nat (PayloadBeyondEnd off' end_) ;;
     payload ← slice buf off' end_; f off' end_ payload)
    = match o with
      | Ok (off', end_) => f off' end_ (take (end_ - off') (drop off' buf))
      | Err e => Err e
      | Panic => Panic
      end.
Proof.
  intros Hoff.
  destruct (if x then skip_extension buf off else mret off) as [off'|e|] eqn:Hx.
  2:{ exists (Err e). destruct x; [|done]. split; [by constructor|]. intros A f. reflexivity. }
  2:{ destruct x; [by destruct (skip_extension_no_panic buf off)|done]. }
  assert (off <= off' <= length buf)%nat as Hb.
  { destruct x; [by apply skip_extension_bounds|]. injection Hx as <-. lia. }
  destruct (if p then strip_padding buf off' else mret (length buf)) as [end_|e|] eqn:Hp.
  2:{ exists (Err e). destruct p; [|done]. split; [by eapply body_pad_err|].
      intros A f. cbn [mbind outcome_bind]. by rewrite Hp. }
  2:{ destruct p; [by destruct (strip_padding_no_panic buf off')|done]. }
  assert (end_ <= length buf)%nat as He.
  { destruct p; [by eapply strip_padding_bounds|]. injection Hp as <-. lia. }
  destruct (decide (end_ < off')%nat) as [Hlt|Hge].
  - exists (Err (PayloadBeyondEnd off' end_)). split; [by eapply body_beyond|].
    intros A f. cbn [mbind outcome_bind]. rewrite Hp. cbn [mbind outcome_bind].
    rewrite bail_bind. by rewrite (proj2 (Nat.ltb_lt _ _) Hlt).
  - exists (Ok (off', end_)). split; [eapply body_ok; eauto; lia|].
    intros A f. cbn [mbind outcome_bind]. rewrite Hp. cbn [mbind outcome_bind].
    rewrite bail_bind, (proj2 (Nat.ltb_ge _ _)) by lia. by rewrite slice_ok by lia.
Qed.

(** Where the numbers of a packet come from. *)
Lemma parse_numbers buf pkt : bytes_ok buf -> parse buf = Ok pkt ->
  exists n t, sequence_number pkt = from_be n /\ timestamp pkt = from_be t /\ bytes_ok n /\ bytes_ok t /\
    length n = 2%nat /\ length t = 4%nat.
Proof.
  intros Hb Hp. destruct (decide (length buf < 12)%nat) as [Hs|Hs]; [by rewrite parse_short in Hp|].
  destruct (twelve buf ltac:(lia)) as (b0 & b1 & b2 & b3 & b4 & b5 & b6 & b7 & b8 & b9 & b10 & b11 & Hbuf).
  rewrite Hbuf, parse_header, <- Hbuf in Hp. unfold parse_body in Hp. rewrite bail_bind in Hp. case_match; [done|].
  rewrite bail_bind in Hp. destruct (Nat.ltb_spec (length buf) (12 + Z.to_nat (Z.land b0 0x0F) * 4)) as [|Hc]; [done|].
  destruct (body_runs buf (negb (Z.land b0 0x10 =? 0)) (negb (Z.land b0 0x20 =? 0)) _ Hc) as (o & Ho & Heq).
  rewrite Heq in Hp. clear Heq. destruct Ho; [done..|]. injection Hp as <-. cbn [sequence_number timestamp].
  exists [b2; b3], [b4; b5; b6; b7]. rewrite Hbuf in Hb. cbn [app] in Hb.
  repeat match goal with Hl : bytes_ok (_ :: _) |- _ => apply Forall_cons in Hl as [? ?] end.
  split_and!; [done|done|repeat (apply Forall_cons; split; [done|]); by apply Forall_nil..|done|done].
Qed.
(** A sequence number has sixteen bits, a timestamp thirty-two. *)
Lemma parse_sequence_u16 buf pkt : bytes_ok buf -> parse buf = Ok pkt -> is_u16 (sequence_number pkt).
Proof.
  intros Hb Hp. destruct (parse_numbers buf pkt Hb Hp) as (n & t & -> & _ & Hn & _ & Hl & _).
  pose proof (from_be_bound n Hn) as Hr. by rewrite Hl in Hr.
Qed.
Lemma parse_timestamp_u32 buf pkt : bytes_ok buf -> parse buf = Ok pkt -> is_u32 (timestamp pkt).
Proof.
  intros Hb Hp. destruct (parse_numbers buf pkt Hb Hp) as (n & t & _ & -> & _ & Ht & _ & Hl).
  pose proof (from_be_bound t Ht) as Hr. by rewrite Hl in Hr.
Qed.

(** [RtpPacket::parse] never panics, whatever the datagram. *)
Theorem parse_never_panics (buf : bytes) : parse buf <> Panic.
Proof.
  destruct (decide (length buf < 12)%nat) as [Hs|Hl]; [by rewrite parse_short|].
  destruct (twelve buf) as (b0 & b1 & b2 & b3 & b4 & b5 & b6 & b7 & b8 & b9 & b10 & b11 & Hb); [lia|].
  rewrite Hb, parse_header, <- Hb. unfold parse_body. rewrite bail_bind.
  destruct (negb _); [done|]. rewrite bail_bind.
  destruct (Nat.ltb_spec (length buf) (12 + Z.to_nat (Z.land b0 0x0F) * 4)) as [|Hc]; [done|].
  destruct (body_runs buf (negb (Z.land b0 0x10 =? 0)) (negb (Z.land b0 0x20 =? 0)) _ Hc)
    as (o & Ho & ->). by destruct Ho.
Qed.

Lemma length_encode w :
  length (encode w) = (12 + length (w_csrc w) + length (encode_extension (w_extension w))
    + length (w_payload w) + length (encode_padding (w_padding w)))%nat.
Proof. unfold encode. cbn [app length]. rewrite !length_app, !length_to_be. cbn. lia. Qed.

Lemma encode_header w :
  exists pre, length pre = (12 + length (w_csrc w))%nat /\
  encode w = pre ++ encode_extension (w_extension w) ++ w_payload w ++ encode_padding (w_padding w) /\
  parse (encode w) = parse_body (encode w) (byte0 w) (byte1 w) (from_be (to_be 2 (w_sequence w)))
    (from_be (to_be 4 (w_timestamp w))) (from_be (to_be 4 (w_ssrc w))).
Proof.
  exists ([byte0 w; byte1 w] ++ to_be 2 (w_sequence w) ++ to_be 4 (w_timestamp w)
            ++ to_be 4 (w_ssrc w) ++ w_csrc w).
  split; [rewrite !length_app, !length_to_be; cbn; lia|]. split.
  - unfold encode. by rewrite <- !app_assoc.
  - exact (parse_header (byte0 w) (byte1 w) _ _ _ _ _ _ _ _ _ _ _).
Qed.

Lemma encoded_extension pre x post :
  match x with
  | None => True
  | Some (profile, data) => length profile = 2%nat /\ bytes_ok profile /\ bytes_ok data /\
      exists n, length data = (4 * n)%nat /\ Z.of_nat n < 65536
  end ->
  (if bool_decide (is_Some x) then skip_extension (pre ++ encode_extension x ++ post) (length pre)
   else mret (length pre)) = Ok (length pre + length (encode_extension x))%nat.
Proof.
  destruct x as [[profile data]|]; intros Hx.
  - destruct Hx as (Hp & _ & _ & n & Hn & Hlt). rewrite bool_decide_true by done.
    by eapply skip_extension_encode.
  - cbn. by rewrite Nat.add_0_r.
Qed.

Lemma encoded_padding pre x off :
  match x with None => True | Some pad => (length pad < 255)%nat /\ bytes_ok pad end ->
  (off <= length pre)%nat ->
  (if bool_decide (is_Some x) then strip_padding (pre ++ encode_padding x) off
   else mret (length (pre ++ encode_padding x))) = Ok (length pre).
Proof.
  destruct x as [pad|]; intros Hx Hoff.
  - rewrite bool_decide_true by done. destruct Hx. by apply strip_padding_encode.
  - cbn. by rewrite app_nil_r.
Qed.

(** C10: every well-formed packet is parsed back to its fields: the marker, the
    payload type, the sequence number, the timestamp, the source and exactly
    the payload between the optional extension and the optional padding. *)
Theorem parse_encode (w : wire) : wire_ok w -> parse (encode w) = Ok (packet_of w).
Proof.
  intros (Hpt & Hseq & Hts & Hssrc & (n & Hn & Hn16) & Hext & Hpad & _ & _).
  destruct (encode_header w) as (pre & Hpre & Hw & ->).
  assert (Z.of_nat (length (w_csrc w)) / 4 = Z.of_nat n) as Hcc.
  { rewrite Hn, Nat2Z.inj_mul, Z.mul_comm, Z.div_mul by lia. done. }
  unfold parse_body, byte0, byte1. rewrite Hcc.
  destruct (byte0_bits (bool_decide (is_Some (w_padding w))) (bool_decide (is_Some (w_extension w)))
              (Z.of_nat n)) as (-> & -> & -> & ->); [lia|].
  destruct (byte1_bits (w_marker w) (w_payload_type w)) as (-> & ->); [done|].
  rewrite !from_be_to_be_small by (unfold is_u16, is_u32 in *; cbn; lia).
  rewrite bail_bind. cbn [Z.eqb Pos.eqb negb]. rewrite bail_bind, Nat2Z.id.
  assert (12 + n * 4 = length pre)%nat as -> by lia.
  rewrite (proj2 (Nat.ltb_ge _ _)) by (rewrite Hw, length_app; lia).
  rewrite Hw, encoded_extension by done. cbn [mbind outcome_bind].
  set (x := encode_extension (w_extension w)).
  replace (pre ++ x ++ w_payload w ++ encode_padding (w_padding w))
    with ((pre ++ x ++ w_payload w) ++ encode_padding (w_padding w)) by (by rewrite <- !app_assoc).
  rewrite encoded_padding by (done || len). cbn [mbind outcome_bind].
  rewrite bail_bind, (proj2 (Nat.ltb_ge _ _)) by len.
  rewrite <- !app_assoc, (app_assoc pre x), slice_mid by len.
  unfold packet_of. by rewrite Hcc.
Qed.

(** ** Completeness: what is accepted is an encoding *)
Lemma skipped_extension buf x off off' :
  bytes_ok buf -> (if x : bool then skip_extension buf off else mret off) = Ok off' ->
  exists e, drop off buf = encode_extension e ++ drop off' buf /\ bool_decide (is_Some e) = x /\
    match e with
    | None => True
    | Some (profile, data) => length profile = 2%nat /\ bytes_ok profile /\ bytes_ok data /\
        exists n, length data = (4 * n)%nat /\ Z.of_nat n < 65536
    end.
Proof.
  intros Hok. destruct x; intros H.
  - destruct (skip_extension_inv _ _ _ Hok H) as (profile & data & Hd & Hp & Hn & _ & _).
    exists (Some (profile, data)). split; [done|]. split; [done|].
    assert (bytes_ok (encode_extension (Some (profile, data)) ++ drop off' buf)) as Hb
      by (rewrite <- Hd; by apply Forall_drop).
    cbn in Hb. rewrite !Forall_app, !Forall_cons in Hb. destruct_and!. tauto.
  - injection H as <-. by exists None.
Qed.

Lemma stripped_padding buf p off end_ :
  bytes_ok buf -> (off <= length buf)%nat ->
  (if p : bool then strip_padding buf off else mret (length buf)) = Ok end_ ->
  exists e, drop end_ buf = encode_padding e /\ bool_decide (is_Some e) = p /\
    match e with None => True | Some pad => (length pad < 255)%nat /\ bytes_ok pad end.
Proof.
  intros Hok Hoff. destruct p; intros H.
  - destruct (strip_padding_inv _ _ _ Hok Hoff H) as (pad & Hd & Hlt & _ & _).
    exists (Some pad). split; [done|]. split; [done|]. split; [done|].
    assert (bytes_ok (encode_padding (Some pad))) as Hb by (rewrite <- Hd; by apply Forall_drop).
    cbn in Hb. by apply Forall_app in Hb as [? _].
  - injection H as <-. exists None. by rewrite drop_ge.
Qed.

(** C11: the converse: whatever [parse] accepts is the encoding of a
    well-formed packet whose fields are the ones reported, so the parser
    accepts the RTP packets of version 2 and nothing else. *)
Theorem parse_complete (buf : bytes) (p : RtpPacket) :
  bytes_ok buf -> parse buf = Ok p -> exists w, wire_ok w /\ encode w = buf /\ packet_of w = p.
Proof.
  intros Hok H.
  destruct (decide (length buf < 12)%nat) as [Hs|Hl]; [by rewrite parse_short in H|].
  destruct (twelve buf) as (b0 & b1 & b2 & b3 & b4 & b5 & b6 & b7 & b8 & b9 & b10 & b11 & Hb); [lia|].
  rewrite Hb, parse_header, <- Hb in H. unfold parse_body in H. rewrite bail_bind in H.
  destruct (Z.eqb_spec (Z.shiftr b0 6) 2) as [Hv|]; [cbn [negb] in H|done].
  rewrite bail_bind in H.
  destruct (Nat.ltb_spec (length buf) (12 + Z.to_nat (Z.land b0 0x0F) * 4)) as [|Hc]; [done|].
  destruct (body_runs buf (negb (Z.land b0 0x10 =? 0)) (negb (Z.land b0 0x20 =? 0)) _ Hc)
    as (o & Ho & Heq). rewrite Heq in H. clear Heq.
  destruct Ho as [| | |off' end_ Hx Hp Hle Hend]; [done..|]. injection H as <-.
  destruct (skipped_extension _ _ _ _ Hok Hx) as (ext & Hdx & Hbx & Hex).
  destruct (stripped_padding buf _ off' end_ Hok ltac:(lia) Hp) as (pad & Hdp & Hbp & Hep).
  set (rest := drop 12 buf) in *. set (n := Z.to_nat (Z.land b0 0x0F)) in *.
  pose proof Hok as Hok'. rewrite Hb, Forall_app in Hok'. destruct Hok' as [Hh Hrest].
  rewrite !Forall_cons in Hh. destruct_and! Hh.
  destruct (byte0_inv b0) as (Eb0 & Hcc); [done..|]. destruct (byte1_inv b1) as (Eb1 & Hpt); [done|].
  exists (mkWire (negb (Z.land b1 0x80 =? 0)) (Z.land b1 0x7F) (from_be [b2; b3])
    (from_be [b4; b5; b6; b7]) (from_be [b8; b9; b10; b11]) (take (n * 4) rest) ext
    (take (end_ - off') (drop off' buf)) pad).
  assert (length (take (n * 4) rest) = 4 * n)%nat as Hlc by (unfold rest; len).
  assert (Z.of_nat (length (take (n * 4) rest)) / 4 = Z.land b0 0x0F) as Hdiv.
  { rewrite Hlc, Nat2Z.inj_mul, Z.mul_comm, Z.div_mul by lia. lia. }
  split; [|split].
  - split; [exact Hpt|]. split; [apply (from_be_bound [b2; b3]); solve_bytes|].
    split; [apply (from_be_bound [b4; b5; b6; b7]); solve_bytes|].
    split; [apply (from_be_bound [b8; b9; b10; b11]); solve_bytes|].
    split; [exists n; cbn [w_csrc]; lia|]. split; [done|]. split; [done|]. cbn. split; solve_bytes.
  - unfold encode, byte0, byte1. cbn [w_padding w_extension w_csrc w_marker w_payload_type
      w_sequence w_timestamp w_ssrc w_payload].
    rewrite Hbx, Hbp, Hdiv, <- Eb0, <- Eb1, !to_be_from_be_len by (done || solve_bytes).
    etransitivity; [|symmetry; exact Hb]. cbn [app]. do 12 f_equal.
    rewrite <- Hdp. replace end_ with (off' + (end_ - off'))%nat at 2 by lia.
    rewrite <- drop_drop, take_drop, <- Hdx.
    unfold rest. rewrite <- (drop_drop buf (n * 4) 12). apply take_drop.
  - unfold packet_of. cbn [w_padding w_extension w_csrc w_marker w_payload_type
      w_sequence w_timestamp w_ssrc w_payload]. by rewrite Hbx, Hbp, Hdiv, Hv.
Qed.

(** ** The zero-copy parser agrees *)
Definition refactored_error (buf : bytes) (e : rtp_error) : Refactored.RtpError :=
  match e with
  | TooShort n => Refactored.PacketTooShort n
  | UnsupportedVersion v => Refactored.UnsupportedVersion v
  | TooShortForCsrc => Refactored.InvalidCsrcList
  | TooShortForExtensionHeader | TooShortForExtensionData => Refactored.InvalidExtension
  | PaddingOnEmpty => Refactored.InvalidPadding 0
  | InvalidPadding n => Refactored.InvalidPadding n
  | PayloadBeyondEnd _ _ => Refactored.PacketTooShort (length buf)
  end.

Definition map_err {E F A} (f : E -> F) (m : outcome E A) : outcome F A :=
  match m with Ok a => Ok a | Err e => Err (f e) | Panic => Panic end.

Lemma refactored_skip_extension buf off :
  Refactored.skip_extension buf off = map_err (refactored_error buf) (skip_extension buf off).
Proof.
  unfold Refactored.skip_extension, skip_extension. rewrite !bail_bind.
  case_match; [done|]. unfold index.
  destruct (buf !! (off + 2)%nat) as [e2|]; [|done]. destruct (buf !! (off + 3)%nat) as [e3|]; [|done].
  cbn [mbind outcome_bind]. rewrite !bail_bind. by case_match.
Qed.

Lemma refactored_strip_padding buf off :
  Refactored.strip_padding buf off = map_err (refactored_error buf) (strip_padding buf off).
Proof.
  unfold Refactored.strip_padding, strip_padding. rewrite !bail_bind.
  case_match; [done|]. unfold index.
  destruct (buf !! (length buf - 1)%nat) as [v|]; [|done].
  cbn [mbind outcome_bind]. rewrite !bail_bind. by case_match.
Qed.

Lemma map_err_if {E F A} (f : E -> F) (b : bool) (m : outcome E A) (a : A) :
  (if b then map_err f m else mret a) = map_err f (if b then m else mret a).
Proof. by destruct b. Qed.

Lemma refactored_parse_header b0 b1 b2 b3 b4 b5 b6 b7 b8 b9 b10 b11 rest :
  let buf := [b0; b1; b2; b3; b4; b5; b6; b7; b8; b9; b10; b11] ++ rest in
  let off := (12 + Z.to_nat (Z.land b0 0x0F) * 4)%nat in
  Refactored.parse buf =
  (bail_if (negb (Z.shiftr b0 6 =? 2)) (Refactored.UnsupportedVersion (Z.shiftr b0 6)) ;;
   bail_if (length buf <? off)%nat Refactored.InvalidCsrcList ;;
   off' ← (if negb (Z.land b0 0x10 =? 0) then Refactored.skip_extension buf off else mret off);
   end_ ← (if negb (Z.land b0 0x20 =? 0) then Refactored.strip_padding buf off' else mret (length buf));
   bail_if (end_ <? off')%nat (Refactored.PacketTooShort (length buf)) ;;
   mret (Refactored.mkRtpPacket buf off' (end_ - off') (from_be [b2; b3]) (from_be [b4; b5; b6; b7])
     (from_be [b8; b9; b10; b11]) (negb (Z.land b1 0x80 =? 0)) (Z.land b1 0x7F))).
Proof. reflexivity. Qed.

(** The zero-copy parser accepts the same buffers as [parse], reports the
    same fields and the same payload through its accessors (which never
    panic), and refuses the others with the corresponding error. *)
Theorem refactored_parse_agrees (buf : bytes) :
  match parse buf, Refactored.parse buf with
  | Ok p, Ok q =>
      Refactored.payload q = Ok (payload p) /\ Refactored.version q = version p /\
      Refactored.sequence_number q = sequence_number p /\ Refactored.timestamp q = timestamp p /\
      Refactored.ssrc q = ssrc p /\ Refactored.marker q = marker p /\
      Refactored.payload_type q = payload_type p
  | Err e, Err e' => e' = refactored_error buf e
  | _, _ => False
  end.
Proof.
  destruct (decide (length buf < 12)%nat) as [Hs|Hl].
  { rewrite (parse_short _ Hs). unfold Refactored.parse. rewrite bail_bind.
    by rewrite (proj2 (Nat.ltb_lt _ _) Hs). }
  destruct (twelve buf) as (b0 & b1 & b2 & b3 & b4 & b5 & b6 & b7 & b8 & b9 & b10 & b11 & Hb); [lia|].
  rewrite Hb, parse_header, refactored_parse_header, <- Hb. unfold parse_body.
  rewrite !bail_bind. destruct (Z.eqb_spec (Z.shiftr b0 6) 2) as [Hv|]; [cbn [negb]|done].
  set (off := (12 + Z.to_nat (Z.land b0 0x0F) * 4)%nat).
  destruct (Nat.ltb_spec (length buf) off) as [|Hc]; [done|].
  destruct (body_runs buf (negb (Z.land b0 0x10 =? 0)) (negb (Z.land b0 0x20 =? 0)) _ Hc) as (o & Ho & ->).
  rewrite refactored_skip_extension, map_err_if.
  destruct Ho as [e Hx Hs|off' e Hs Hp Hq|off' end_ Hs Hp Hlt|off' end_ Hs Hp Hle Hend].
  - by rewrite Hx, Hs.
  - rewrite Hs, Hp. cbn. by rewrite refactored_strip_padding, Hq.
  - rewrite Hs. cbn [map_err mbind outcome_bind].
    rewrite refactored_strip_padding, map_err_if, Hp. cbn [map_err mbind outcome_bind].
    by rewrite bail_bind, (proj2 (Nat.ltb_lt _ _) Hlt).
  - rewrite Hs. cbn [map_err mbind outcome_bind].
    rewrite refactored_strip_padding, map_err_if, Hp. cbn [map_err mbind outcome_bind].
    rewrite bail_bind, (proj2 (Nat.ltb_ge _ _)) by lia.
    split; [|done]. unfold Refactored.payload. cbn.
    rewrite slice_ok by lia. do 2 f_equal. lia.
Qed.

(** The successor of a sequence number is a sequence number, and wraps. *)
Lemma next_sequence_u16 q : is_u16 (Refactored.next_sequence q).
Proof. unfold is_u16, Refactored.next_sequence, wrap16. apply Z.mod_pos_bound. lia. Qed.

(** ** Witnesses *)

(** The packet of the repository's own test: CSRC, extension and padding. *)
Definition test_wire : wire :=
  mkWire true 96 0x1234 0x01020304 0xAABBCCDD [0x11; 0x22; 0x33; 0x44]
    (Some ([0xBE; 0xDE], [0xDE; 0xAD; 0xBE; 0xEF])) [0x09; 0x08; 0x07] (Some [0; 0; 0]).

Definition test_packet : bytes :=
  [0xB1; 0xE0; 0x12; 0x34; 0x01; 0x02; 0x03; 0x04; 0xAA; 0xBB; 0xCC; 0xDD; 0x11; 0x22; 0x33; 0x44;
   0xBE; 0xDE; 0x00; 0x01; 0xDE; 0xAD; 0xBE; 0xEF; 0x09; 0x08; 0x07; 0x00; 0x00; 0x00; 0x04].

Lemma test_wire_ok : wire_ok test_wire.
Proof.
  repeat split; cbn; try lia; try solve_bytes; try (exists 1%nat; cbn; lia); by_eval.
Qed.

Lemma parse_encode_witness :
  encode test_wire = test_packet /\ parse test_packet = Ok (packet_of test_wire).
Proof. split; [reflexivity|]. exact (parse_encode test_wire test_wire_ok). Defined.

Lemma parse_complete_witness :
  exists w, wire_ok w /\ encode w = test_packet /\ packet_of w = packet_of test_wire.
Proof. apply (parse_complete test_packet (packet_of test_wire)); [by_eval|reflexivity]. Defined.
