(* ===== verification/H264.v ===== *)
(** * H.264 over RTP ([core/video.rs], [core/h264_depacketize.rs], [core/h264_sync.rs])

    [Depacketizer] turns RTP payloads into Annex-B NAL units (single NAL,
    STAP-A aggregation, FU-A fragmentation); [SyncGate] withholds the stream
    until it can be decoded and repeats the parameter sets before every IDR.
    The sender's side of RFC 6184 ([stap_a], [fu_a]) is the reference the
    depacketizer is proved against; [decoder_step] is the reference for the
    gate: the order a decoder needs. *)
From S2P Require Import Prelude.

(** ** [core/video.rs] *)
Record VideoNal := mkVideoNal { data : bytes; rtp_ts : Z; nal_marker : bool }.

Definition ANNEXB_START : bytes := [0; 0; 0; 1].

Definition annexb_from_raw_nal (raw : bytes) : bytes := ANNEXB_START ++ raw.

Definition nal_type_from_annexb (nal : bytes) : option Z :=
  if (length nal <? 5)%nat then None
  else if negb (bool_decide (take 4 nal = ANNEXB_START)) then None
  else b ← nal !! 4%nat; Some (Z.land b 0x1F).

Module Depacketizer.

Record t := mk { fu_active : bool; fu_buf : bytes }.

Inductive error :=
| Unsupported (nal_type : Z)
| StapZeroLength
| StapLengthExceeds (nal_len remaining : nat)
| StapTrailing (leftover : nat)
| FuTooShort
| FuWithoutStart.

Definition new : t := mk false [].
Definition reset (s : t) : t := mk false [].

(** The [while] loop, with the index and the list of results as its state;
    [fuel] bounds the iterations, and running out of it is a [Panic] so that
    [push_never_panics] also says it is enough. *)
Fixpoint stap_loop (fuel : nat) (payload : bytes) (i : nat) (out : list bytes)
    : outcome error (nat * list bytes) :=
  match fuel with
  | O => Panic
  | S fuel =>
      if (i + 2 <=? length payload)%nat then
        b0 ← index payload i; b1 ← index payload (i + 1);
        let nal_len := Z.to_nat (from_be [b0; b1]) in
        let i := (i + 2)%nat in
        bail_if (nal_len =? 0)%nat StapZeroLength ;;
        bail_if (length payload <? i + nal_len)%nat (StapLengthExceeds nal_len (length payload - i)) ;;
        nal ← slice payload i (i + nal_len);
        stap_loop fuel payload (i + nal_len)%nat (out ++ [ANNEXB_START ++ nal])
      else mret (i, out)
  end.

Definition handle_stap_a (payload : bytes) : outcome error (list bytes) :=
  '(i, out) ← stap_loop (S (length payload)) payload 1 [];
  bail_if (negb (i =? length payload)%nat) (StapTrailing (length payload - i)) ;;
  mret out.

Definition handle_fu_a (payload : bytes) : st t error (list bytes) := fun s =>
  match payload with
  | fu_indicator :: fu_header :: fu_payload =>
      let start := negb (Z.land fu_header 0x80 =? 0) in
      let end_ := negb (Z.land fu_header 0x40 =? 0) in
      let nal_type := Z.land fu_header 0x1F in
      let forbidden_and_nri := Z.land fu_indicator 0xE0 in
      let reconstructed_nal_header := Z.lor forbidden_and_nri nal_type in
      if start then
        (mk true (ANNEXB_START ++ [reconstructed_nal_header] ++ fu_payload), Ok [])
      else if negb (fu_active s) then (s, Err FuWithoutStart)
      else
        let s := mk (fu_active s) (fu_buf s ++ fu_payload) in
        if end_ then (mk false [], Ok [fu_buf s]) else (s, Ok [])
  | _ => (s, Err FuTooShort)
  end.

Definition push_rtp_payload (payload : bytes) : st t error (list bytes) :=
  if (length payload =? 0)%nat then mret []
  else
    b ← lift_outcome (index payload 0);
    let nal_type := Z.land b 0x1F in
    if (1 <=? nal_type) && (nal_type <=? 23) then mret [ANNEXB_START ++ payload]
    else if nal_type =? 24 then lift_outcome (handle_stap_a payload)
    else if nal_type =? 28 then handle_fu_a payload
    else st_bail_if true (Unsupported nal_type) ;; mret [].

(** A receiver's loop: errors are reported and skipped, the state is kept. *)
Fixpoint push_all (ps : list bytes) (s : t) : t * list bytes :=
  match ps with
  | [] => (s, [])
  | p :: ps =>
      let '(s, r) := push_rtp_payload p s in
      let '(s', out) := push_all ps s in
      (s', match r with Ok nals => nals ++ out | _ => out end)
  end.

(** *** The sender's side *)

(** An aggregation packet, its indicator byte and its NAL units. *)
Definition stap_unit (nal : bytes) : bytes := to_be 2 (Z.of_nat (length nal)) ++ nal.
Definition stap_a (indicator : Z) (nals : list bytes) : bytes :=
  indicator :: concat (map stap_unit nals).

(** The fragments of the NAL unit [header :: concat bodies]. *)
Definition fu_a (header : Z) (s e : bool) (body : bytes) : bytes :=
  [Z.lor (Z.land header 0xE0) 28;
   Z.lor (Z.lor (if s then 0x80 else 0) (if e then 0x40 else 0)) (Z.land header 0x1F)] ++ body.
Definition fragments (header : Z) (first : bytes) (mid : list bytes) (last : bytes) : list bytes :=
  fu_a header true false first :: map (fu_a header false false) mid ++ [fu_a header false true last].

(** What the code keeps true: a NAL unit under reassembly has its start code
    and its header byte. *)
Definition starts_annexb (nal : bytes) : Prop := exists header body, nal = ANNEXB_START ++ header :: body.
Definition inv (s : t) : Prop := fu_active s = true -> starts_annexb (fu_buf s).

End Depacketizer.

Module SyncGate.

Record t := mk {
  require_idr_sync : bool;
  synced : bool;
  last_sps : option bytes;
  last_pps : option bytes;
}.

Definition new (require_idr_sync : bool) : t := mk require_idr_sync (negb require_idr_sync) None None.

Definition reset (s : t) : t :=
  mk (require_idr_sync s) (negb (require_idr_sync s)) (last_sps s) (last_pps s).

Definition set_sprop_param_sets (sps pps : bytes) (s : t) : t :=
  mk (require_idr_sync s) (synced s) (Some sps) (Some pps).

Definition push_nal (nal : bytes) (s : t) : t * list bytes :=
  match nal_type_from_annexb nal with
  | None => (s, [])
  | Some nt =>
      if nt =? 7 then (mk (require_idr_sync s) (synced s) (Some nal) (last_pps s), [])
      else if nt =? 8 then (mk (require_idr_sync s) (synced s) (last_sps s) (Some nal), [])
      else if negb (synced s) then
        if nt =? 5 then
          match last_sps s, last_pps s with
          | Some sps, Some pps =>
              (mk (require_idr_sync s) true (last_sps s) (last_pps s), [sps; pps; nal])
          | _, _ => (s, [])
          end
        else (s, [])
      else if nt =? 5 then
        (s, match last_sps s, last_pps s with
            | Some sps, Some pps => [sps; pps; nal]
            | _, _ => [nal]
            end)
      else (s, [nal])
  end.

(** The calls a pipeline makes, and what they emit. *)
Inductive call := Push (nal : bytes) | Reset | SetSprop (sps pps : bytes).

Definition step (c : call) (s : t) : t * list bytes :=
  match c with
  | Push nal => push_nal nal s
  | Reset => (reset s, [])
  | SetSprop sps pps => (set_sprop_param_sets sps pps s, [])
  end.

Fixpoint run (cs : list call) (s : t) : t * list (call * list bytes) :=
  match cs with
  | [] => (s, [])
  | c :: cs =>
      let '(s, out) := step c s in
      let '(s', tr) := run cs s in
      (s', (c, out) :: tr)
  end.

(** *** What a decoder needs

    [Start]: nothing decodable yet; [HaveSps sps], [HavePps sps pps]: the
    parameter sets have just arrived; [Decoding]: an IDR has been decoded. *)
Inductive decoder := Start | HaveSps | HavePps | Decoding | Failed.

Definition decoder_step (d : decoder) (nal : bytes) : decoder :=
  match nal_type_from_annexb nal with
  | Some 7 => match d with Failed => Failed | _ => HaveSps end
  | Some 8 => match d with HaveSps => HavePps | _ => Failed end
  | Some 5 => match d with HavePps => Decoding | _ => Failed end
  | Some _ => match d with Decoding => Decoding | _ => Failed end
  | None => Failed
  end.

(** A reset of the stream restarts the decoder. *)
Definition decoder_call (d : decoder) (e : call * list bytes) : decoder :=
  match e with
  | (Reset, out) => foldl decoder_step Start out
  | (_, out) => foldl decoder_step d out
  end.

(** Parameter sets given out of band are what they claim to be. *)
Definition call_ok (c : call) : Prop :=
  match c with
  | SetSprop sps pps => nal_type_from_annexb sps = Some 7 /\ nal_type_from_annexb pps = Some 8
  | _ => True
  end.

Definition is_media (nal : bytes) : bool :=
  match nal_type_from_annexb nal with
  | Some t => negb (t =? 7) && negb (t =? 8)
  | None => false
  end.

Definition pushed (cs : list call) : list bytes :=
  omap (fun c => match c with Push nal => Some nal | _ => None end) cs.
Definition emitted (tr : list (call * list bytes)) : list bytes := concat (map snd tr).

(** The gate's own invariant: a parameter set is a parameter set, and a gate
    that waits for an IDR opens only with both. *)
Definition inv (s : t) : Prop :=
  (forall sps, last_sps s = Some sps -> nal_type_from_annexb sps = Some 7) /\
  (forall pps, last_pps s = Some pps -> nal_type_from_annexb pps = Some 8) /\
  (require_idr_sync s = true -> synced s = true -> is_Some (last_sps s) /\ is_Some (last_pps s)) /\
  (require_idr_sync s = false -> synced s = true).

End SyncGate.

(** ** The depacketizer *)
Module DepacketizerFacts.
Import Depacketizer.

Definition nal_ok (nal : bytes) : Prop := nal <> [] /\ Z.of_nat (length nal) < 65536.

Lemma annexb_starts nal : nal <> [] -> starts_annexb (ANNEXB_START ++ nal).
Proof. destruct nal as [|h b]; [done|]. intros _. by exists h, b. Qed.

Lemma stap_step fuel payload i out :
  stap_loop (S fuel) payload i out =
  if (i + 2 <=? length payload)%nat then
    match payload !! i, payload !! (i + 1)%nat with
    | Some b0, Some b1 =>
        let n := Z.to_nat (from_be [b0; b1]) in
        if (n =? 0)%nat then Err StapZeroLength
        else if (length payload <? i + 2 + n)%nat
        then Err (StapLengthExceeds n (length payload - (i + 2)))
        else stap_loop fuel payload (i + 2 + n)%nat (out ++ [ANNEXB_START ++ take n (drop (i + 2) payload)])
    | _, _ => Panic
    end
  else Ok (i, out).
Proof.
  cbn [stap_loop]. case_match; [|done]. unfold index.
  destruct (payload !! i) as [b0|]; [|done]. destruct (payload !! (i + 1)%nat) as [b1|]; [|done].
  cbn [mbind outcome_bind]. cbv zeta. rewrite bail_bind. case_match; [done|]. rewrite bail_bind.
  destruct (Nat.ltb_spec (length payload) (i + 2 + Z.to_nat (from_be [b0; b1]))); [done|].
  rewrite slice_ok by lia. cbn [mbind outcome_bind]. do 4 f_equal. f_equal. lia.
Qed.

(** The loop consumes whole units only, and all of them. *)
Lemma stap_loop_sound fuel payload i out j out' :
  (i <= length payload)%nat -> stap_loop fuel payload i out = Ok (j, out') ->
  bytes_ok payload ->
  exists nals, Forall nal_ok nals /\ (i <= j <= length payload)%nat /\
    take (j - i) (drop i payload) = concat (map stap_unit nals) /\
    out' = out ++ map (app ANNEXB_START) nals.
Proof.
  intros Hi H Hok. revert i out Hi H.
  induction fuel as [|fuel IH]; intros i out Hi H; [done|].
  rewrite stap_step in H.
  destruct (Nat.leb_spec (i + 2) (length payload)) as [Hl|Hl].
  2:{ simplify_eq. exists []. rewrite Nat.sub_diag, app_nil_r. split; [done|]. split; [lia|]. done. }
  destruct (lookup_lt_is_Some_2 payload i ltac:(lia)) as [b0 E0]. rewrite E0 in H.
  destruct (lookup_lt_is_Some_2 payload (i + 1) ltac:(lia)) as [b1 E1]. rewrite E1 in H.
  cbv zeta in H. set (n := Z.to_nat (from_be [b0; b1])) in H.
  destruct (Nat.eqb_spec n 0) as [|Hn]; [done|].
  destruct (Nat.ltb_spec (length payload) (i + 2 + n)) as [|Hle]; [done|].
  apply IH in H; [|lia]. destruct H as (nals & Hnals & Hj & Hc & ->).
  pose proof (proj1 (Forall_forall _ _) Hok b0 (list_elem_of_lookup_2 _ _ _ E0)) as Hb0.
  pose proof (proj1 (Forall_forall _ _) Hok b1 (list_elem_of_lookup_2 _ _ _ E1)) as Hb1.
  pose proof (from_be_bound [b0; b1] ltac:(solve_bytes)) as Hbd.
  change (256 ^ Z.of_nat (length [b0; b1])) with 65536 in Hbd.
  exists (take n (drop (i + 2) payload) :: nals). split.
  { constructor; [|done]. split; [|rewrite length_take; unfold n; lia].
    intros He. apply (f_equal length) in He. revert He. len. }
  split; [lia|]. split.
  - cbn [map concat]. unfold stap_unit at 1. rewrite <- Hc.
    rewrite (drop_S _ _ _ E0). replace (S i) with (i + 1)%nat by lia. rewrite (drop_S _ _ _ E1).
    replace (S (i + 1)) with (i + 2)%nat by lia.
    rewrite length_take, length_drop, Nat.min_l by lia.
    unfold n at 1. rewrite Z2Nat.id by lia. rewrite (to_be_from_be_len 2 [b0; b1]) by (done || solve_bytes).
    replace (j - i)%nat with (S (S (n + (j - (i + 2 + n)))))%nat by lia. cbn [take app]. do 2 f_equal.
    rewrite <- (take_drop n (drop (i + 2) payload)) at 1.
    rewrite take_app_ge by len. rewrite <- app_assoc || idtac. rewrite drop_drop. f_equal. f_equal. len.
  - by rewrite <- app_assoc.
Qed.

Lemma stap_loop_complete nals : forall fuel pre out,
  Forall nal_ok nals -> (length nals < fuel)%nat ->
  stap_loop fuel (pre ++ concat (map stap_unit nals)) (length pre) out =
  Ok (length (pre ++ concat (map stap_unit nals)), out ++ map (app ANNEXB_START) nals).
Proof.
  induction nals as [|nal nals IH]; intros fuel pre out Hok Hf.
  - destruct fuel as [|fuel]; [lia|]. rewrite stap_step. cbn. rewrite !app_nil_r.
    rewrite (proj2 (Nat.leb_gt _ _)) by lia. done.
  - destruct fuel as [|fuel]; [lia|]. apply Forall_cons in Hok as [[Hne Hlt] Hok].
    cbn [map concat length] in *. rewrite stap_step.
    assert (stap_unit nal = [(Z.of_nat (length nal) / 256) mod 256; Z.of_nat (length nal) mod 256] ++ nal) as Hu.
    { unfold stap_unit. f_equal. cbn. by rewrite Z.div_1_r. }
    set (b0 := (Z.of_nat (length nal) / 256) mod 256) in Hu. set (b1 := Z.of_nat (length nal) mod 256) in Hu.
    set (rest := concat (map stap_unit nals)) in *.
    assert (from_be [b0; b1] = Z.of_nat (length nal)) as Hfb.
    { rewrite from_be_u16. unfold b0, b1. rewrite (Z.mod_small (_ / _)) by (Z.div_mod_to_equations; lia).
      Z.div_mod_to_equations; lia. }
    rewrite (proj2 (Nat.leb_le _ _)) by (rewrite Hu; len).
    rewrite (lookup_app_r pre) by lia. rewrite (lookup_app_r pre) by lia.
    replace (length pre - length pre)%nat with 0%nat by lia.
    replace (length pre + 1 - length pre)%nat with 1%nat by lia.
    rewrite Hu. cbn [app lookup list_lookup]. rewrite Hfb. cbv zeta. rewrite Nat2Z.id.
    assert (length nal <> 0)%nat by (by destruct nal).
    rewrite (proj2 (Nat.eqb_neq _ _)) by lia. rewrite (proj2 (Nat.ltb_ge _ _)) by len.
    rewrite (drop_app_ge pre) by lia.
    replace (length pre + 2 - length pre)%nat with 2%nat by lia. cbn [drop].
    rewrite drop_0, take_app_ex by done.
    replace (pre ++ b0 :: b1 :: nal ++ rest) with ((pre ++ [b0; b1] ++ nal) ++ rest)
      by (rewrite <- !app_assoc; done).
    replace (length pre + 2 + length nal)%nat with (length (pre ++ [b0; b1] ++ nal)) by len.
    rewrite IH by (done || lia). by rewrite <- (app_assoc out).
Qed.

(** The loop ends within its fuel, and indexes in range. *)
Lemma stap_loop_total fuel payload i out :
  (0 < fuel)%nat -> (length payload < i + fuel)%nat -> stap_loop fuel payload i out <> Panic.
Proof.
  revert i out. induction fuel as [|fuel IH]; intros i out Hf Hl; [lia|].
  rewrite stap_step. destruct (Nat.leb_spec (i + 2) (length payload)); [|done].
  destruct (lookup_lt_is_Some_2 payload i ltac:(lia)) as [b0 ->].
  destruct (lookup_lt_is_Some_2 payload (i + 1) ltac:(lia)) as [b1 ->]. cbv zeta.
  case_match; [done|]. destruct (Nat.ltb_spec (length payload) (i + 2 + Z.to_nat (from_be [b0; b1]))); [done|].
  apply IH; lia.
Qed.

Lemma stap_a_sound indicator rest out :
  bytes_ok (indicator :: rest) -> handle_stap_a (indicator :: rest) = Ok out ->
  exists nals, Forall nal_ok nals /\ indicator :: rest = stap_a indicator nals /\
    out = map annexb_from_raw_nal nals.
Proof.
  intros Hok H. unfold handle_stap_a in H. destruct (stap_loop _ _ _ _) as [[j out']| |] eqn:Hl; [|done..].
  cbn [mbind outcome_bind] in H. rewrite bail_bind in H.
  destruct (Nat.eqb_spec j (length (indicator :: rest))) as [->|]; [|done]. cbn [negb] in H.
  simplify_eq. apply stap_loop_sound in Hl; [|cbn; lia|done].
  destruct Hl as (nals & Hn & _ & Hc & ->). exists nals. split; [done|]. split; [|by injection H as <-].
  unfold stap_a. rewrite <- Hc. cbn [drop length]. rewrite drop_0, take_ge by lia. done.
Qed.

Lemma stap_a_complete indicator nals :
  Forall nal_ok nals -> handle_stap_a (stap_a indicator nals) = Ok (map annexb_from_raw_nal nals).
Proof.
  intros Hn. unfold handle_stap_a, stap_a.
  change (indicator :: concat (map stap_unit nals)) with ([indicator] ++ concat (map stap_unit nals)).
  change 1%nat with (length [indicator]). rewrite stap_loop_complete; [|done|].
  - cbn [mbind outcome_bind]. by rewrite bail_bind, Nat.eqb_refl.
  - clear. induction nals as [|n ns IH]; cbn [map concat length app] in *; [lia|].
    unfold stap_unit at 1. rewrite !length_app, length_to_be. lia.
Qed.

(** C13: STAP-A: the handler returns [out] exactly when the payload is an
    aggregation packet of non-empty NAL units, and [out] is those units in
    order, each behind a start code; every other payload is refused. *)
Theorem stap_a_exact (indicator : Z) (rest : bytes) (out : list bytes)
    (Hok : bytes_ok (indicator :: rest)) :
  handle_stap_a (indicator :: rest) = Ok out <->
  exists nals, Forall nal_ok nals /\ indicator :: rest = stap_a indicator nals /\
    out = map annexb_from_raw_nal nals.
Proof.
  split; [by apply stap_a_sound|]. intros (nals & Hn & -> & ->). by apply stap_a_complete.
Qed.

(** *** FU-A *)
Lemma fu_indicator_type header : is_byte header -> Z.land (Z.lor (Z.land header 0xE0) 28) 0x1F = 28.
Proof.
  intros H. pose proof (forall_byte (fun h => Z.land (Z.lor (Z.land h 0xE0) 28) 0x1F =? 28) eq_refl _ H).
  by apply Z.eqb_eq.
Qed.

(** The two header bytes of a fragment give the flags and the NAL header back. *)
Lemma fu_header_bits (header : Z) (s e : bool) :
  is_byte header ->
  let h1 := Z.lor (Z.lor (if s then 0x80 else 0) (if e then 0x40 else 0)) (Z.land header 0x1F) in
  negb (Z.land h1 0x80 =? 0) = s /\ negb (Z.land h1 0x40 =? 0) = e /\
  Z.lor (Z.land (Z.lor (Z.land header 0xE0) 28) 0xE0) (Z.land h1 0x1F) = header.
Proof.
  intros H h1.
  pose proof (forall_byte (fun h =>
    let h1 := Z.lor (Z.lor (if s then 0x80 else 0) (if e then 0x40 else 0)) (Z.land h 0x1F) in
    eqb (negb (Z.land h1 0x80 =? 0)) s && eqb (negb (Z.land h1 0x40 =? 0)) e &&
    (Z.lor (Z.land (Z.lor (Z.land h 0xE0) 28) 0xE0) (Z.land h1 0x1F) =? h))) as Hf.
  specialize (Hf ltac:(destruct s, e; reflexivity) header H). cbv zeta in Hf. fold h1 in Hf.
  rewrite !andb_true_iff, Z.eqb_eq, !eqb_true_iff in Hf. tauto.
Qed.

Lemma push_fu_a (header : Z) (s e : bool) (body : bytes) (st : t) :
  is_byte header ->
  push_rtp_payload (fu_a header s e body) st =
  if s then (mk true (ANNEXB_START ++ [header] ++ body), Ok [])
  else if fu_active st then
    if e then (mk false [], Ok [fu_buf st ++ body]) else (mk true (fu_buf st ++ body), Ok [])
  else (st, Err FuWithoutStart).
Proof.
  intros H. unfold push_rtp_payload, fu_a. cbn [app length Nat.eqb].
  rewrite st_bind_lift. cbn [index lookup list_lookup]. unfold index. cbn [lookup list_lookup].
  rewrite (fu_indicator_type _ H). cbn [Z.leb Z.eqb andb Z.compare Pos.compare Pos.compare_cont Pos.eqb].
  destruct (fu_header_bits header s e H) as (Hs & He & Hh).
  unfold handle_fu_a. rewrite Hs, He, Hh. destruct s; [done|].
  destruct st as [[|] buf]; cbn; [by destruct e|done].
Qed.

Lemma push_mids header mids buf :
  is_byte header ->
  push_all (map (fu_a header false false) mids) (mk true buf) = (mk true (buf ++ concat mids), []).
Proof.
  intros H. revert buf. induction mids as [|m mids IH]; intros buf; cbn [map push_all concat].
  - by rewrite app_nil_r.
  - rewrite push_fu_a by done. cbn [fu_active fu_buf]. by rewrite IH, <- app_assoc.
Qed.

Lemma push_all_app ps qs s :
  push_all (ps ++ qs) s =
  let '(s1, o1) := push_all ps s in let '(s2, o2) := push_all qs s1 in (s2, o1 ++ o2).
Proof.
  revert s. induction ps as [|p ps IH]; intros s; cbn [app push_all].
  - by destruct (push_all qs s).
  - destruct (push_rtp_payload p s) as [s1 r]. rewrite IH.
    destruct (push_all ps s1) as [s2 o1]. destruct (push_all qs s2) as [s3 o2].
    by destruct r; rewrite <- ?app_assoc.
Qed.

(** C12: FU-A: whatever the state before, the fragments of a NAL unit, however
    it is cut, give that unit once, byte for byte behind its start code, and
    leave nothing behind; cut short, they give nothing. *)
Theorem fu_a_reassembly (header : Z) (first last : bytes) (mids : list bytes) (s : t)
    (Hh : is_byte header) :
  push_all (fragments header first mids last) s =
    (new, [annexb_from_raw_nal (header :: first ++ concat mids ++ last)]) /\
  forall n, (n < length (fragments header first mids last))%nat ->
    (push_all (take n (fragments header first mids last)) s).2 = [].
Proof.
  assert (forall ms, push_all (fu_a header true false first :: map (fu_a header false false) ms) s
          = (mk true (ANNEXB_START ++ [header] ++ first ++ concat ms), [])) as Hpre.
  { intros ms. cbn [push_all]. rewrite push_fu_a by done. cbv iota.
    rewrite push_mids by done. by rewrite <- !app_assoc. }
  split.
  - unfold fragments. rewrite app_comm_cons, push_all_app, Hpre.
    cbn [push_all]. rewrite push_fu_a by done. cbn [fu_active fu_buf app].
    unfold annexb_from_raw_nal, ANNEXB_START. cbn [app]. by rewrite <- app_assoc.
  - intros [|n] Hn; [done|]. unfold fragments in *. cbn [take].
    rewrite take_app_le by (revert Hn; cbn; rewrite length_app; cbn; lia).
    by rewrite firstn_map, Hpre.
Qed.

Lemma index_head (b : Z) (l : bytes) : index (E:=error) (b :: l) 0 = Ok b.
Proof. done. Qed.

Lemma handle_stap_a_total indicator rest : handle_stap_a (indicator :: rest) <> Panic.
Proof.
  unfold handle_stap_a. pose proof (stap_loop_total (S (length (indicator :: rest))) (indicator :: rest) 1 []) as H.
  specialize (H ltac:(lia) ltac:(lia)). destruct (stap_loop _ _ _ _) as [[j out]| |]; [|done..].
  cbn [mbind outcome_bind]. rewrite bail_bind. by case_match.
Qed.

(** C37: the depacketizer never panics, whatever bytes a camera sends; what it
    returns are NAL units behind a start code with a NAL header (so their type
    can be read), and its state stays well-formed; an error on anything but a
    continuation fragment leaves a reassembly in progress untouched. *)
Theorem push_well_formed (payload : bytes) (s : t) (Hok : bytes_ok payload) (Hinv : inv s) :
  let '(s', r) := push_rtp_payload payload s in
  inv s' /\
  match r with
  | Ok nals => Forall (fun n => starts_annexb n /\ is_Some (nal_type_from_annexb n)) nals
  | Err _ => s' = s
  | Panic => False
  end.
Proof.
  assert (forall n, starts_annexb n -> starts_annexb n /\ is_Some (nal_type_from_annexb n)) as Hsa.
  { intros n (h & b & ->). split; [by exists h, b|]. unfold nal_type_from_annexb. cbn. rewrite ?take_0. by eexists. }
  destruct payload as [|b rest]; [done|].
  unfold push_rtp_payload. cbn [length Nat.eqb]. rewrite st_bind_lift, index_head.
  destruct (_ && _).
  { split; [done|]. constructor; [|done]. apply Hsa. by exists b, rest. }
  destruct (Z.land b 0x1F =? 24).
  { pose proof (handle_stap_a_total b rest) as Ht. unfold lift_outcome. split; [done|].
    destruct (handle_stap_a (b :: rest)) as [out| |] eqn:E; [|done..].
    apply (stap_a_sound _ _ _ Hok) in E. destruct E as (nals & Hn & _ & ->).
    apply Forall_map. eapply Forall_impl; [exact Hn|]. intros n [Hne _]. by apply Hsa, annexb_starts. }
  destruct (Z.land b 0x1F =? 28); [|done].
  unfold handle_fu_a. destruct rest as [|h body]; [done|].
  destruct (negb (Z.land h 0x80 =? 0)).
  { split; [|done]. intros _. by eexists _, body. }
  destruct (fu_active s) eqn:Ha; cbn [negb]; [|done].
  destruct (Hinv Ha) as (hd & bd & Hb). cbn [fu_active fu_buf].
  destruct (negb (Z.land h 0x40 =? 0)).
  - split; [done|]. constructor; [|done]. apply Hsa. rewrite Hb. by exists hd, (bd ++ body).
  - split; [|done]. intros _. cbn. rewrite Hb. by exists hd, (bd ++ body).
Qed.

End DepacketizerFacts.

(** ** The gate *)
Module SyncGateFacts.
Import SyncGate.

(** One call: the invariant is kept, and the calls that emit are a NAL unit
    of media, alone or behind the current parameter sets. *)
Inductive emits (s : t) : call -> t -> list bytes -> Prop :=
| emit_nothing c s' :
    (forall nal, c = Push nal -> is_media nal = true -> synced s = false) ->
    (c <> Reset -> synced s' = synced s) -> (c = Reset -> synced s' = negb (require_idr_sync s)) ->
    require_idr_sync s' = require_idr_sync s -> emits s c s' []
| emit_idr nal sps pps :
    nal_type_from_annexb nal = Some 5 -> last_sps s = Some sps -> last_pps s = Some pps ->
    emits s (Push nal) (mk (require_idr_sync s) true (Some sps) (Some pps)) [sps; pps; nal]
| emit_media nal nt :
    nal_type_from_annexb nal = Some nt -> nt <> 7 -> nt <> 8 ->
    (nt = 5 -> last_sps s = None \/ last_pps s = None) -> synced s = true ->
    emits s (Push nal) s [nal].

Lemma mk_eta s : mk (require_idr_sync s) (synced s) (last_sps s) (last_pps s) = s.
Proof. by destruct s. Qed.

Lemma step_emits c s : let '(s', out) := step c s in emits s c s' out.
Proof.
  destruct c as [nal| |sps pps]; cbn [step]; [|by constructor..].
  unfold push_nal. destruct (nal_type_from_annexb nal) as [nt|] eqn:Ent.
  2:{ constructor; try done. intros ? [= <-]. unfold is_media. by rewrite Ent. }
  destruct (Z.eqb_spec nt 7) as [->|H7].
  { constructor; try done. intros ? [= <-]. unfold is_media. by rewrite Ent. }
  destruct (Z.eqb_spec nt 8) as [->|H8].
  { constructor; try done. intros ? [= <-]. unfold is_media. by rewrite Ent. }
  destruct (synced s) eqn:Hsy; cbn [negb]; destruct (Z.eqb_spec nt 5) as [->|H5].
  - destruct (last_sps s) as [sps|] eqn:Es; [|eapply emit_media; eauto].
    destruct (last_pps s) as [pps|] eqn:Ep; [|eapply emit_media; eauto].
    pose proof (emit_idr s nal sps pps Ent Es Ep) as H. by rewrite <- Hsy, <- Es, <- Ep, mk_eta in H.
  - eapply emit_media; eauto. done.
  - destruct (last_sps s) as [sps|] eqn:Es; [|by constructor].
    destruct (last_pps s) as [pps|] eqn:Ep; [|by constructor]. by apply emit_idr.
  - by constructor.
Qed.

Lemma inv_new b : inv (new b).
Proof. by destruct b. Qed.

Lemma step_inv c s : call_ok c -> inv s -> inv (step c s).1.
Proof.
  destruct s as [r sy sp pp]. intros Hc (Hs & Hp & Hr & Hn). cbn in Hs, Hp, Hr, Hn.
  destruct c as [nal| |sps pps]; cbn [step fst].
  - unfold push_nal. destruct (nal_type_from_annexb nal) as [nt|] eqn:Ent; [cbn|by split_and!].
    destruct (Z.eqb_spec nt 7) as [->|_].
    { split_and!; cbn; [congruence|done| |done]. intros; split; [done|by apply Hr]. }
    destruct (Z.eqb_spec nt 8) as [->|_].
    { split_and!; cbn; [done|congruence| |done]. intros; split; [by apply Hr|done]. }
    destruct sy; cbn [negb]; destruct (nt =? 5); [by split_and!..| |by split_and!].
    destruct sp as [sps|], pp as [pps|]; by split_and!.
  - split_and!; cbn; [done|done|by destruct r|by intros ->].
  - destruct Hc. split_and!; cbn; [congruence|congruence|done|done].
Qed.

Lemma run_cons c cs s :
  run (c :: cs) s =
  let '(s1, out) := step c s in let '(s2, tr) := run cs s1 in (s2, (c, out) :: tr).
Proof. done. Qed.

Lemma run_app cs1 cs2 s :
  run (cs1 ++ cs2) s =
  let '(s1, t1) := run cs1 s in let '(s2, t2) := run cs2 s1 in (s2, t1 ++ t2).
Proof.
  revert s. induction cs1 as [|c cs1 IH]; intros s; cbn [app run].
  - by destruct (run cs2 s).
  - destruct (step c s) as [s1 out]. rewrite IH. destruct (run cs1 s1) as [s2 t1].
    by destruct (run cs2 s2).
Qed.

(** The decoder follows the gate: it is decoding whenever the gate is open. *)
Definition follows (s : t) (d : decoder) : Prop :=
  (d = Start \/ d = Decoding) /\ (synced s = true -> d = Decoding).

Lemma decode_idr d sps pps nal :
  d <> Failed -> nal_type_from_annexb sps = Some 7 -> nal_type_from_annexb pps = Some 8 ->
  nal_type_from_annexb nal = Some 5 -> foldl decoder_step d [sps; pps; nal] = Decoding.
Proof.
  intros Hd Hs Hp Hn. cbn [foldl].
  replace (decoder_step d sps) with HaveSps by (unfold decoder_step; rewrite Hs; by destruct d).
  replace (decoder_step HaveSps pps) with HavePps by (unfold decoder_step; by rewrite Hp).
  unfold decoder_step. by rewrite Hn.
Qed.

Lemma step_follows c s d :
  require_idr_sync s = true -> call_ok c -> inv s -> follows s d ->
  follows (step c s).1 (decoder_call d (c, (step c s).2)) /\ require_idr_sync (step c s).1 = true.
Proof.
  intros Hr Hc Hi [Hd Hf]. pose proof (step_emits c s) as He.
  destruct (step c s) as [s' out]. cbn [fst snd].
  destruct He as [c s' Hm Hsy Hrs Hreq|nal sps pps Ht Hs Hp|nal nt Ht H7 H8 H5 Hsy].
  - split; [|congruence]. destruct c as [nal| |sps pps]; cbn [decoder_call foldl].
    + split; [done|]. rewrite Hsy by done. done.
    + split; [by left|]. rewrite Hrs, Hr by done. done.
    + split; [done|]. rewrite Hsy by done. done.
  - split; [|done]. destruct Hi as (Hs7 & Hp8 & _).
    change (decoder_call d _) with (foldl decoder_step d [sps; pps; nal]).
    rewrite decode_idr by (auto; by destruct Hd as [->| ->]). by split; [right|].
  - split; [|done]. destruct Hi as (_ & _ & Hb & _). destruct (Hb Hr Hsy) as [[sps Es] [pps Ep]].
    assert (nt <> 5) as Hn5 by (intros ->; destruct (H5 eq_refl); congruence).
    rewrite (Hf Hsy). cbn [decoder_call foldl]. unfold decoder_step. rewrite Ht.
    split; [right|]; try done; repeat case_match; congruence.
Qed.

(** C14: what a gate that waits for an IDR emits is decodable from its first
    NAL unit on, and again after every reset: nothing comes before parameter
    sets and an IDR, and every IDR comes right behind an SPS and a PPS, for
    every sequence of pushes, resets and out-of-band parameter sets. *)
Theorem gate_stream_decodable (cs : list call) (Hcs : Forall call_ok cs) :
  foldl decoder_call Start (run cs (new true)).2 <> Failed.
Proof.
  enough (forall d s, require_idr_sync s = true -> inv s -> follows s d ->
    foldl decoder_call d (run cs s).2 <> Failed) as H by (apply H; [done|apply inv_new|by split; [left|]]).
  induction Hcs as [|c cs Hc Hcs IH]; intros d s Hr Hi Hf.
  - cbn. destruct Hf as [[->| ->] _]; done.
  - rewrite run_cons. destruct (step_follows c s d Hr Hc Hi Hf) as [Hf' Hr'].
    pose proof (step_inv c s Hc Hi) as Hi'. destruct (step c s) as [s1 out]. cbn [fst snd] in *.
    specialize (IH _ _ Hr' Hi' Hf'). destruct (run cs s1). exact IH.
Qed.

Lemma media_sets s sps pps l :
  inv s -> last_sps s = Some sps -> last_pps s = Some pps ->
  filter is_media ([sps; pps] ++ l) = filter is_media l.
Proof.
  intros (Hs & Hp & _) Es Ep. cbn [app].
  rewrite !filter_cons_False; [done| |]; intros H; unfold is_media in H.
  - rewrite (Hp _ Ep) in H. exact H.
  - rewrite (Hs _ Es) in H. exact H.
Qed.

(** Between resets the gate only ever withholds a prefix: the media NAL
    units it emits are the ones pushed, in order, less those pushed before it
    opened; an open gate withholds none. *)
Theorem gate_forwards_media (cs : list call) (s : t)
    (Hcs : Forall (fun c => call_ok c /\ c <> Reset) cs) (Hi : inv s) :
  exists withheld,
    filter is_media (pushed cs) = withheld ++ filter is_media (emitted (run cs s).2) /\
    (synced s = true -> withheld = []).
Proof.
  revert s Hi. induction Hcs as [|c cs [Hc Hnr] Hcs IH]; intros s Hi; [by exists []|].
  rewrite run_cons. pose proof (step_emits c s) as He. pose proof (step_inv c s Hc Hi) as Hi'.
  destruct (step c s) as [s1 out]. cbn [fst] in Hi'. destruct (IH s1 Hi') as (w & Hw & Hopen).
  destruct (run cs s1) as [s2 tr]. cbn [snd] in *. unfold emitted in *. cbn [map concat snd].
  destruct He as [c s1 Hm Hsy _ _|nal sps pps Ht Hs Hp|nal nt Ht H7 H8 H5 Hsy].
  - destruct c as [nal| |sps pps]; [|done|exists w; split; [done|by rewrite <- Hsy]].
    unfold pushed in *. cbn [omap list_omap]. rewrite filter_cons. case_decide as Hmed.
    + exists (nal :: w). cbn [app]. rewrite Hw. split; [done|].
      rewrite (Hm nal) by (done || by destruct (is_media nal)). done.
    + exists w. split; [done|]. rewrite <- Hsy by done. done.
  - exists []. cbn [pushed omap list_omap]. unfold pushed in *. cbn [omap list_omap].
    change ([sps; pps; nal] ++ concat (map snd tr)) with ([sps; pps] ++ [nal] ++ concat (map snd tr)).
    rewrite (media_sets _ _ _ _ Hi Hs Hp). cbn [app].
    rewrite !filter_cons_True by (unfold is_media; by rewrite Ht). cbn [app] in *.
    by rewrite Hw, (Hopen eq_refl).
  - exists []. unfold pushed in *. cbn [omap list_omap]. rewrite filter_app, filter_cons.
    rewrite Hw, (Hopen Hsy). cbn [app]. split; [|done]. rewrite filter_cons. by case_decide.
Qed.

End SyncGateFacts.

(** ** Witnesses *)
Module H264Witness.
Import Depacketizer DepacketizerFacts SyncGateFacts.

Definition sps : bytes := ANNEXB_START ++ [0x67; 0x64].
Definition pps : bytes := ANNEXB_START ++ [0x68; 0xEE].
Definition idr : bytes := ANNEXB_START ++ [0x65; 0x88].
Definition slice : bytes := ANNEXB_START ++ [0x41; 0x9A].

(** The repository's own STAP-A packet: two units. *)
Lemma stap_a_exact_witness :
  handle_stap_a [24; 0; 2; 0x67; 0x64; 0; 2; 0x68; 0xEE] = Ok [sps; pps].
Proof.
  apply (stap_a_exact 24 [0; 2; 0x67; 0x64; 0; 2; 0x68; 0xEE]); [by_eval|].
  exists [[0x67; 0x64]; [0x68; 0xEE]]. split; [|split; reflexivity].
  repeat constructor; cbn; (done || lia).
Defined.

Lemma fu_a_reassembly_witness :
  push_all [[0x7C; 0x85; 0xAA]; [0x7C; 0x05; 0xBB]; [0x7C; 0x45; 0xCC]] (mk true [1; 2]) =
    (new, [ANNEXB_START ++ [0x65; 0xAA; 0xBB; 0xCC]]).
Proof. exact (proj1 (fu_a_reassembly 0x65 [0xAA] [0xCC] [[0xBB]] (mk true [1; 2]) ltac:(unfold is_byte; lia))). Defined.

Lemma push_well_formed_witness :
  inv (push_rtp_payload [0x7C; 0x45; 0xCC] (mk true (ANNEXB_START ++ [0x65]))).1 /\
  Forall starts_annexb [ANNEXB_START ++ [0x65; 0xCC]].
Proof.
  pose proof (push_well_formed [0x7C; 0x45; 0xCC] (mk true (ANNEXB_START ++ [0x65])) ltac:(by_eval)
    ltac:(intros _; exists 0x65, []; reflexivity)) as [H1 H2].
  split; [exact H1|]. constructor; [|constructor]. inversion H2 as [|? ? [H _]]. exact H.
Defined.

Definition calls : list SyncGate.call :=
  [SyncGate.Push slice; SyncGate.SetSprop sps pps; SyncGate.Push idr; SyncGate.Push slice].

Lemma gate_stream_decodable_witness :
  SyncGate.emitted (SyncGate.run calls (SyncGate.new true)).2 = [sps; pps; idr; slice] /\
  foldl SyncGate.decoder_call SyncGate.Start (SyncGate.run calls (SyncGate.new true)).2 <> SyncGate.Failed.
Proof. split; [reflexivity|]. apply gate_stream_decodable. repeat constructor. Defined.

Lemma gate_forwards_media_witness :
  exists withheld,
    filter SyncGate.is_media (SyncGate.pushed calls) =
      withheld ++ filter SyncGate.is_media (SyncGate.emitted (SyncGate.run calls (SyncGate.new true)).2) /\
    (SyncGate.synced (SyncGate.new true) = true -> withheld = []).
Proof.
  apply gate_forwards_media; [|apply inv_new].
  unfold calls; repeat constructor; done.
Defined.

End H264Witness.
