(* ===== verification/Motion.v ===== *)
(** * Motion events ([motion_event_latch.rs], [event/event_bus.rs], and the
      edge detection of [onvif/onvif_motion.rs])

    [Latch] gives one continuous motion period a single event id;
    [EventBus] fans events out over channels; [StateBus] is the shared map of
    active rules; [Edges] is the loop body that turns a camera's
    notifications into start and end events.  [Chrono] and [Mpsc] are the
    interfaces of the clock library and of the channels. *)
From S2P Require Import Prelude.
#[local] Open Scope string_scope.
#[local] Open Scope Z_scope.

(** ** What the code uses of [chrono] *)
Class Chrono := {
  DateTime : Type;
  Duration : Type;
  duration_zero : Duration;
  duration_leb : Duration -> Duration -> bool;
  signed_duration_since : DateTime -> DateTime -> Duration;
}.

(** [event_bus.rs], [MotionEvent] *)
Record MotionEvent `{Chrono} := mkMotionEvent {
  rule : string;
  active : bool;
  ts : DateTime;
  camera_id : string;
  event_id : string;
}.

Abbreviation key := (string * string)%type.

Definition key_of `{Chrono} (e : MotionEvent) : key := (camera_id e, rule e).
(** [event.event_id = id] *)
Definition with_id `{Chrono} (e : MotionEvent) (id : string) : MotionEvent :=
  mkMotionEvent _ (rule e) (active e) (ts e) (camera_id e) id.

Module Latch.
Section latch.
Context `{Chrono}.

Record EndedMotion := mkEnded { ended_id : string; ended_at : DateTime }.

Record t := mk {
  active_ids : gmap key string;
  ended : gmap key EndedMotion;
  grace_window : Duration;
}.

Definition new_with_grace (grace : Duration) : t := mk ∅ ∅ grace.
Definition new : t := new_with_grace duration_zero.

Definition normalize (e : MotionEvent) (s : t) : t * MotionEvent :=
  let k := key_of e in
  if active e then
    match active_ids s !! k with
    | Some existing => (s, with_id e existing)
    | None =>
        let e := match ended s !! k with
                 | Some en =>
                     let delta := signed_duration_since (ts e) (ended_at en) in
                     if duration_leb duration_zero delta && duration_leb delta (grace_window s)
                     then with_id e (ended_id en) else e
                 | None => e
                 end in
        (mk (<[k := event_id e]> (active_ids s)) (delete k (ended s)) (grace_window s), e)
    end
  else
    let e := match active_ids s !! k with Some existing => with_id e existing | None => e end in
    (mk (delete k (active_ids s)) (<[k := mkEnded (event_id e) (ts e)]> (ended s)) (grace_window s), e).

Fixpoint run (es : list MotionEvent) (s : t) : t * list MotionEvent :=
  match es with
  | [] => (s, [])
  | e :: es =>
      let '(s, e') := normalize e s in
      let '(s, out) := run es s in (s, e' :: out)
  end.

(** *** The specification: one camera and rule, on its own *)
Inductive phase := Idle | Moving (id : string) | Still (id : string) (since : DateTime).

Definition within (grace : Duration) (since now : DateTime) : bool :=
  let d := signed_duration_since now since in
  duration_leb duration_zero d && duration_leb d grace.

Definition phase_step (grace : Duration) (e : MotionEvent) (p : phase) : phase * string :=
  let id := match p with
            | Moving id => id
            | Still id since => if active e && within grace since (ts e) then id else event_id e
            | Idle => event_id e
            end in
  (if active e then Moving id else Still id (ts e), id).

Fixpoint phase_run (grace : Duration) (es : list MotionEvent) (p : phase) : list string :=
  match es with
  | [] => []
  | e :: es => let '(p, id) := phase_step grace e p in id :: phase_run grace es p
  end.

(** The phase the latch is in for a key. *)
Definition phase_of (k : key) (s : t) : phase :=
  match active_ids s !! k with
  | Some id => Moving id
  | None => match ended s !! k with Some en => Still (ended_id en) (ended_at en) | None => Idle end
  end.

Definition about (k : key) (e : MotionEvent) : Prop := key_of e = k.
#[export] Instance about_dec k e : Decision (about k e).
Proof. unfold about; apply _. Defined.

End latch.
End Latch.

(** ** [event_bus.rs] *)

(** What the bus uses of a bounded channel: closing is permanent; a send
    waits for capacity, and delivers to that channel only or reports it
    closed.  [delivered] is the history of a channel.  [interfere] is what the
    other tasks do while [publish] waits: they may drain and close channels. *)
Class Mpsc (W Sender Msg : Type) := {
  is_closed : W -> Sender -> bool;
  send : Sender -> Msg -> W -> W * bool;
  channel : nat -> W -> W * Sender;
  delivered : W -> Sender -> list Msg;
  interfere : W -> W;
}.

Class MpscLaws W Sender Msg `{Mpsc W Sender Msg} := {
  interfere_delivered w tx : delivered (interfere w) tx = delivered w tx;
  interfere_closed w tx : is_closed w tx = true -> is_closed (interfere w) tx = true;
  send_closed w tx m : is_closed w tx = true -> send tx m w = (w, false);
  send_open w tx m : is_closed w tx = false ->
    delivered (send tx m w).1 tx = (delivered w tx ++ [m])%list /\
    (forall tx', tx' <> tx -> delivered (send tx m w).1 tx' = delivered w tx') /\
    forall tx', is_closed (send tx m w).1 tx' = is_closed w tx';
  channel_fresh n w : (forall tx, tx <> (channel n w).2 -> is_closed (channel n w).1 tx = is_closed w tx /\
      delivered (channel n w).1 tx = delivered w tx) /\
    is_closed (channel n w).1 (channel n w).2 = false /\ delivered (channel n w).1 (channel n w).2 = [];
}.

Module EventBus.
Section bus.
Context {W Sender Msg : Type} `{Mpsc W Sender Msg}.

Record t := mk { subscribers : list Sender; queue : nat }.

Definition new (queue : nat) : t := mk [] queue.

Definition subscribe (b : t) (w : W) : t * W * Sender :=
  let '(w, tx) := channel (queue b) w in
  (mk (subscribers b ++ [tx])%list (queue b), w, tx).

Definition retain (w : W) (l : list Sender) : list Sender :=
  List.filter (fun tx => negb (is_closed w tx)) l.

(** The sends, each at an await point. *)
Fixpoint fan_out (ev : Msg) (l : list Sender) (w : W) : W :=
  match l with
  | [] => w
  | tx :: l => fan_out ev l (send tx ev (interfere w)).1
  end.

(** [joining] are the subscribers other tasks add to the shared list while
    the sends wait; the last [retain] takes the lock again. *)
Definition publish (ev : Msg) (joining : list Sender) (b : t) (w : W) : t * W :=
  let live := retain w (subscribers b) in
  let w := fan_out ev live w in
  let w := interfere w in
  (mk (retain w (live ++ joining)) (queue b), w).

End bus.
Arguments t : clear implicits.
End EventBus.

Module StateBus.

Record MotionMetadata := mkMetadata { m_camera_id : string; m_event_id : string }.
Abbreviation MotionState := (gmap string MotionMetadata).

(** A closure given to [watch::Sender::send_if_modified]: the new state, and
    whether the receivers are notified. *)
Definition set (rule : string) (active : bool) (metadata : option MotionMetadata)
    (state : MotionState) : MotionState * bool :=
  if active then
    match metadata with
    | Some meta =>
        if match state !! rule with
           | Some m => bool_decide (m_event_id m = m_event_id meta)
           | None => false
           end
        then (state, false)
        else (<[rule := meta]> state, true)
    | None => (state, false)
    end
  else (delete rule state, bool_decide (is_Some (state !! rule))).

Definition clear_camera (camera_id : string) (state : MotionState) : MotionState * bool :=
  let before := size state in
  let state := filter (fun kv => m_camera_id kv.2 <> camera_id) state in
  (state, negb (size state =? before)%nat).

End StateBus.

(** ** The edges of [run_onvif_motion_poller_for_camera] *)
Module Edges.
Section edges.
Context `{Chrono}.

Record t := mk {
  state : gmap string bool;
  event_ids : gmap string string;
  bus_state : StateBus.MotionState;
}.

(** One notification [(rule, is_motion)]; [fresh] is the ULID it may draw and
    [now] the clock.  The event is published if the rule changed. *)
Definition on_notification (cam : string) (fresh : string) (now : DateTime)
    (n : option string * bool) (s : t) : t * option MotionEvent :=
  let rule := default "<unknown-rule>" n.1 in
  let is_motion := n.2 in
  let prev := default false (state s !! rule) in
  if eqb prev is_motion then (s, None)
  else
    let state := <[rule := is_motion]> (state s) in
    let '(event_ids, event_id) :=
      if is_motion then (<[rule := fresh]> (event_ids s), fresh)
      else (delete rule (event_ids s), default fresh (event_ids s !! rule)) in
    let metadata := if is_motion then Some (StateBus.mkMetadata cam event_id) else None in
    (mk state event_ids (StateBus.set rule is_motion metadata (bus_state s)).1,
     Some (mkMotionEvent _ rule is_motion now cam event_id)).

Definition reset_motion_tracking (cam : string) (s : t) : t * (nat * nat * nat) :=
  let tracked_rules := size (state s) in
  let active_rules := size (filter (fun kv => kv.2 = true) (state s)) in
  let tracked_event_ids := size (event_ids s) in
  (mk ∅ ∅ (StateBus.clear_camera cam (bus_state s)).1,
   (tracked_rules, active_rules, tracked_event_ids)).

(** The notifications of one subscription, with the ids and times drawn. *)
Fixpoint run (cam : string) (ns : list (option string * bool * string * DateTime)) (s : t)
    : t * list MotionEvent :=
  match ns with
  | [] => (s, [])
  | (n, fresh, now) :: ns =>
      let '(s, o) := on_notification cam fresh now n s in
      let '(s, out) := run cam ns s in
      (s, match o with Some e => e :: out | None => out end)
  end.

Definition empty (bus_state : StateBus.MotionState) : t := mk ∅ ∅ bus_state.

(** Starts and ends of a rule in turn, an end with the id of its start;
    [open] is the id of the motion in progress. *)
Fixpoint alternates (open : option string) (es : list MotionEvent) : Prop :=
  match es with
  | [] => True
  | e :: es =>
      match open with
      | None => active e = true /\ alternates (Some (event_id e)) es
      | Some id => active e = false /\ event_id e = id /\ alternates None es
      end
  end.

End edges.
End Edges.

(** ** The latch *)
Module LatchFacts.
Import Latch.
Section facts.
Context `{Chrono}.

Lemma normalize_grace e s : grace_window (normalize e s).1 = grace_window s.
Proof. unfold normalize. destruct (active e); [by case_match|done]. Qed.

(** Only the id of an event changes. *)
Lemma normalize_id e s : (normalize e s).2 = with_id e (event_id (normalize e s).2).
Proof. unfold normalize. destruct e as [r a t0 c i]; destruct a; cbn; by repeat (case_match; cbn). Qed.

Lemma key_of_normalize e s : key_of (normalize e s).2 = key_of e.
Proof. by rewrite normalize_id. Qed.

(** An event moves its own key as the specification says, and no other. *)
Lemma normalize_phase k e s :
  (key_of e = k -> (phase_of k (normalize e s).1, event_id (normalize e s).2) =
     phase_step (grace_window s) e (phase_of k s)) /\
  (key_of e <> k -> phase_of k (normalize e s).1 = phase_of k s).
Proof.
  unfold phase_of, normalize, phase_step, within. destruct (active e) eqn:Ha.
  - split.
    + intros ->. destruct (active_ids s !! k) as [id|] eqn:Ek; cbn; [by rewrite Ek|].
      rewrite lookup_insert_eq. by destruct (ended s !! k); [case_match|].
    + intros Hk. destruct (active_ids s !! key_of e) as [id|] eqn:Ek; cbn; [done|].
      by rewrite lookup_insert_ne, lookup_delete_ne by done.
  - split.
    + intros ->. cbn. rewrite lookup_delete_eq, lookup_insert_eq. cbn.
      by destruct (active_ids s !! k) as [id|]; [|destruct (ended s !! k)].
    + intros Hk. cbn. by rewrite lookup_delete_ne, lookup_insert_ne by done.
Qed.

Lemma run_phase k es s :
  map event_id (filter (about k) (run es s).2) = phase_run (grace_window s) (filter (about k) es) (phase_of k s) /\
  Forall2 (fun e e' => e' = with_id e (event_id e')) es (run es s).2.
Proof.
  revert s. induction es as [|e es IH]; intros s; [done|].
  cbn [run]. pose proof (normalize_phase k e s) as [Hin Hout].
  pose proof (normalize_id e s) as Hid. pose proof (key_of_normalize e s) as Hkey.
  pose proof (normalize_grace e s) as Hg. destruct (normalize e s) as [s1 e1].
  destruct (IH s1) as [IH1 IH2]. destruct (run es s1) as [s2 out]. cbn [fst snd] in *.
  split; [|by constructor]. rewrite !filter_cons. rewrite Hg in IH1.
  destruct (decide (key_of e = k)) as [Hk|Hk].
  - rewrite !decide_True by (unfold about; congruence). cbn [map phase_run].
    rewrite <- (Hin Hk). by rewrite IH1.
  - rewrite !decide_False by (unfold about; congruence). by rewrite IH1, (Hout Hk).
Qed.

(** The latch implements the per-key specification: whatever the
    interleaving of cameras and rules, the ids it gives to the events of one
    key are those of that key's own state machine (idle, moving, still since),
    and nothing but the id of an event is touched. *)
Theorem latch_refines_phases (k : key) (es : list MotionEvent) (grace : Duration) :
  map event_id (filter (about k) (run es (new_with_grace grace)).2)
    = phase_run grace (filter (about k) es) Idle /\
  Forall2 (fun e e' => e' = with_id e (event_id e')) es (run es (new_with_grace grace)).2.
Proof. apply (run_phase k es (new_with_grace grace)). Qed.

Lemma phase_run_moving grace ongoing stop id :
  Forall (fun e => active e = true) ongoing -> active stop = false ->
  phase_run grace (ongoing ++ [stop]) (Moving id) = replicate (S (length ongoing)) id.
Proof.
  intros Ho Hs. induction Ho as [|e es He Ho IH]; cbn [app phase_run length].
  - done.
  - unfold phase_step at 1. rewrite He. cbn. f_equal. exact IH.
Qed.

(** A continuous motion period has one id: a start, the starts repeated
    during it and its end all leave the latch with the same id, however the
    camera numbered them and whatever happens on other keys meanwhile; it is
    the first start's id, or that of the period it resumes within the grace
    window. *)
Theorem period_single_id (k : key) (es : list MotionEvent) (s : t)
    (start stop : MotionEvent) (ongoing : list MotionEvent)
    (Hes : filter (about k) es = start :: ongoing ++ [stop])
    (Hstart : active start = true) (Hgo : Forall (fun e => active e = true) ongoing)
    (Hstop : active stop = false) :
  exists id,
    map event_id (filter (about k) (run es s).2) = replicate (S (S (length ongoing))) id /\
    match phase_of k s with
    | Idle => id = event_id start
    | Moving current => id = current
    | Still previous since =>
        id = if within (grace_window s) since (ts start) then previous else event_id start
    end.
Proof.
  rewrite (proj1 (run_phase k es s)), Hes. cbn [phase_run].
  unfold phase_step. rewrite Hstart, phase_run_moving by done.
  eexists. split; [reflexivity|]. by destruct (phase_of k s).
Qed.

End facts.
End LatchFacts.

Module BusFacts.
Import EventBus.
Section facts.
Context {W Sender Msg : Type} `{EqDecision Sender} `{HL : MpscLaws W Sender Msg}.

Lemma elem_of_retain w (l : list Sender) tx : tx ∈ retain w l <-> tx ∈ l /\ is_closed w tx = false.
Proof. unfold retain. rewrite !list_elem_of_In, filter_In, negb_true_iff. done. Qed.

(** Channels stay closed through the sends. *)
Lemma send_stays_closed tx tx' (m : Msg) (w : W) :
  is_closed w tx' = true -> is_closed (send tx m w).1 tx' = true.
Proof.
  intros Hc. destruct (is_closed w tx) eqn:Ht.
  - by rewrite send_closed.
  - by rewrite (proj2 (proj2 (send_open w tx m Ht))).
Qed.

Lemma fan_out_stays_closed (ev : Msg) l (w : W) tx :
  is_closed w tx = true -> is_closed (fan_out ev l w) tx = true.
Proof.
  revert w. induction l as [|tx' l IH]; intros w Hc; cbn [fan_out]; [done|].
  by apply IH, send_stays_closed, interfere_closed.
Qed.

Lemma send_other tx tx' (m : Msg) (w : W) :
  tx' <> tx -> delivered (send tx m w).1 tx' = delivered w tx'.
Proof.
  intros Hne. destruct (is_closed w tx) eqn:Ht.
  - by rewrite send_closed.
  - by apply (send_open w tx m Ht).
Qed.

Lemma fan_out_other (ev : Msg) l (w : W) tx : tx ∉ l -> delivered (fan_out ev l w) tx = delivered w tx.
Proof.
  revert w. induction l as [|tx' l IH]; intros w Hn; cbn [fan_out]; [done|].
  apply not_elem_of_cons in Hn as [Hne Hn].
  by rewrite IH, send_other, interfere_delivered.
Qed.

Lemma fan_out_member (ev : Msg) l (w : W) tx :
  NoDup l -> tx ∈ l ->
  delivered (fan_out ev l w) tx = (delivered w tx ++ [ev])%list \/
  (delivered (fan_out ev l w) tx = delivered w tx /\ is_closed (fan_out ev l w) tx = true).
Proof.
  revert w. induction l as [|tx' l IH]; intros w Hnd Hin; [by apply not_elem_of_nil in Hin|].
  apply NoDup_cons in Hnd as [Hn Hnd]. cbn [fan_out]. apply elem_of_cons in Hin as [->|Hin].
  - rewrite fan_out_other by done. destruct (is_closed (interfere w) tx') eqn:Ht.
    + right. rewrite send_closed by done. cbn [fst]. split; [by rewrite interfere_delivered|].
      by apply fan_out_stays_closed.
    + left. destruct (send_open (interfere w) tx' ev Ht) as [-> _]. by rewrite interfere_delivered.
  - assert (tx <> tx') as Hne by (intros ->; done).
    destruct (IH (send tx' ev (interfere w)).1 Hnd Hin) as [-> | [-> Hc]]; [left|right; split; [|done]];
      by rewrite send_other, interfere_delivered.
Qed.

(** [publish] hands the event, once, to every subscriber whose channel
    is still open when it returns, to no other channel, and to no one twice;
    closed subscribers are dropped, and those that joined meanwhile are kept. *)
Theorem publish_fan_out (ev : Msg) (joining : list Sender) (b : t Sender) (w : W)
    (Hnd : NoDup (subscribers b)) :
  let '(b', w') := publish ev joining b w in
  (forall tx, tx ∈ subscribers b -> is_closed w' tx = false ->
     delivered w' tx = (delivered w tx ++ [ev])%list) /\
  (forall tx, tx ∉ subscribers b -> delivered w' tx = delivered w tx) /\
  (forall tx, delivered w' tx = delivered w tx \/ delivered w' tx = (delivered w tx ++ [ev])%list) /\
  (forall tx, tx ∈ subscribers b' <->
     (tx ∈ subscribers b \/ tx ∈ joining) /\ is_closed w' tx = false).
Proof.
  unfold publish. set (live := retain w (subscribers b)). set (w1 := fan_out ev live w).
  assert (NoDup live) as Hl.
  { unfold live, retain. apply NoDup_ListNoDup, List.NoDup_filter. by apply NoDup_ListNoDup. }
  assert (forall tx, is_closed (interfere w1) tx = false -> is_closed w tx = false) as Hopen.
  { intros tx Ho. destruct (is_closed w tx) eqn:Hc; [|done].
    by rewrite (interfere_closed w1 tx (fan_out_stays_closed ev live w tx Hc)) in Ho. }
  split_and!.
  - intros tx Hin Ho. rewrite interfere_delivered. unfold w1.
    destruct (fan_out_member ev live w tx Hl) as [-> | [_ Hc]]; [apply elem_of_retain; auto|done|].
    by rewrite (interfere_closed w1 tx Hc) in Ho.
  - intros tx Hn. rewrite interfere_delivered. apply fan_out_other.
    intros Hin. by apply elem_of_retain in Hin as [Hin _].
  - intros tx. rewrite interfere_delivered.
    destruct (decide (tx ∈ live)) as [Hin|Hn]; [|left; by apply fan_out_other].
    destruct (fan_out_member ev live w tx Hl Hin) as [? | [? _]]; auto.
  - intros tx. cbn [subscribers]. rewrite elem_of_retain, elem_of_app. unfold live.
    rewrite elem_of_retain. pose proof (Hopen tx). tauto.
Qed.

End facts.
End BusFacts.

(** ** The map of active rules *)
Module StateBusFacts.
Import StateBus.

Lemma clear_camera_lookup cam (state : MotionState) rule m :
  (clear_camera cam state).1 !! rule = Some m <-> state !! rule = Some m /\ m_camera_id m <> cam.
Proof. unfold clear_camera. cbn [fst]. by rewrite map_lookup_filter_Some. Qed.

(** The receivers are notified exactly when the map changes, whether a
    rule is set or a camera cleared; clearing a camera removes its rules and
    no other camera's. *)
Theorem state_bus_notifies (rule cam : string) (active : bool) (metadata : option MotionMetadata)
    (state : MotionState) :
  ((set rule active metadata state).2 = true <-> (set rule active metadata state).1 <> state) /\
  ((clear_camera cam state).2 = true <-> (clear_camera cam state).1 <> state) /\
  (forall r m, (clear_camera cam state).1 !! r = Some m <-> state !! r = Some m /\ m_camera_id m <> cam).
Proof.
  split_and!; [| |by apply clear_camera_lookup].
  - unfold set. destruct active.
    + destruct metadata as [meta|]; [|by split].
      destruct (state !! rule) as [m|] eqn:E.
      * case_bool_decide as Hid; cbn; [by split|]. split; [|done]. intros _ Heq.
        rewrite <- Heq, lookup_insert_eq in E. by injection E as ->.
      * cbn. split; [|done]. intros _ Heq. by rewrite <- Heq, lookup_insert_eq in E.
    + cbn. rewrite bool_decide_eq_true. split.
      * intros [m E] Heq. by rewrite <- Heq, lookup_delete_eq in E.
      * intros Hne. destruct (state !! rule) eqn:E; [done|]. by rewrite delete_id in Hne.
  - cbn. rewrite negb_true_iff, Nat.eqb_neq. split.
    + intros Hs Heq. by rewrite Heq in Hs.
    + intros Hne Hs. apply Hne. apply map_subseteq_size_eq; [apply map_filter_subseteq|]. apply Nat.eq_le_incl. symmetry. exact Hs.
Qed.

(** The map is keyed by the rule alone although every camera's poller
    shares it: the end of a motion on one camera erases another camera's
    motion under the same rule name, and a start hides it. *)
Theorem state_bus_shared_rule (rule a b : string) (ida idb : string) (state : MotionState)
    (Hids : ida <> idb)
    (Ha : state !! rule = Some (mkMetadata a ida)) :
  (set rule false None state).1 !! rule = None /\
  (set rule true (Some (mkMetadata b idb)) state).1 !! rule = Some (mkMetadata b idb).
Proof.
  split; unfold set; cbn; [by rewrite lookup_delete_eq|].
  rewrite Ha. rewrite bool_decide_false by done. cbn. by rewrite lookup_insert_eq.
Qed.

End StateBusFacts.

(** ** The edges *)
Module EdgesFacts.
Import Edges.
Section facts.
Context `{Chrono}.

(** A rule has a tracked id exactly while it is active. *)
Definition inv (s : t) : Prop :=
  forall r, state s !! r = Some true <-> is_Some (event_ids s !! r).

Definition of_rule (r : string) (e : MotionEvent) : Prop := rule e = r.
#[export] Instance of_rule_dec r e : Decision (of_rule r e).
Proof. unfold of_rule; apply _. Defined.

(** One notification: nothing, or the start or the end of its rule. *)
Lemma on_notification_edge cam fresh now n s :
  inv s ->
  let '(s', o) := on_notification cam fresh now n s in
  inv s' /\
  match o with
  | None => s' = s
  | Some e =>
      rule e = default "<unknown-rule>" n.1 /\ camera_id e = cam /\ active e = n.2 /\
      (forall r, r <> rule e -> event_ids s' !! r = event_ids s !! r) /\
      if active e then event_ids s !! rule e = None /\ event_ids s' !! rule e = Some (event_id e)
      else event_ids s !! rule e = Some (event_id e) /\ event_ids s' !! rule e = None
  end.
Proof.
  intros Hinv. destruct n as [ro m]. unfold on_notification. cbn [fst snd].
  set (r := default "<unknown-rule>" ro). pose proof (Hinv r) as Hr.
  destruct (eqb (default false (state s !! r)) m) eqn:Heq; [done|].
  apply eqb_false_iff in Heq. destruct m.
  - assert (event_ids s !! r = None) as Hn.
    { apply eq_None_not_Some. intros Hs. apply Hr in Hs. by rewrite Hs in Heq. }
    split; [|cbn; split_and!; try done; [intros; by rewrite lookup_insert_ne|by rewrite lookup_insert_eq]].
    intros r'. cbn. destruct (decide (r' = r)) as [->|Hne].
    + by rewrite !lookup_insert_eq.
    + rewrite !lookup_insert_ne by done. apply Hinv.
  - assert (state s !! r = Some true) as Ht by (destruct (state s !! r) as [[|]|]; done).
    destruct (proj1 Hr Ht) as [id Hid]. rewrite Hid. cbn.
    split; [|cbn; split_and!; try done; [intros; by rewrite lookup_delete_ne|by rewrite lookup_delete_eq]].
    intros r'. cbn. destruct (decide (r' = r)) as [->|Hne].
    + rewrite lookup_insert_eq, lookup_delete_eq. split; [done|by intros []].
    + rewrite lookup_insert_ne, lookup_delete_ne by done. apply Hinv.
Qed.

Lemma run_alternates cam ns r s :
  inv s -> alternates (event_ids s !! r) (filter (of_rule r) (run cam ns s).2).
Proof.
  revert s. induction ns as [|[[n fresh] now] ns IH]; intros s Hi; [done|].
  cbn [run]. pose proof (on_notification_edge cam fresh now n s Hi) as He.
  destruct (on_notification cam fresh now n s) as [s1 o]. destruct He as [Hi1 He].
  specialize (IH s1 Hi1). destruct (run cam ns s1) as [s2 out]. cbn [snd] in *.
  destruct o as [e|]; [|by subst]. destruct He as (_ & _ & _ & Ho & He).
  rewrite filter_cons. unfold of_rule at 1. case_decide as Hr.
  - subst r. cbn [alternates]. destruct (active e); destruct He as [E1 E2]; rewrite E1, E2 in *; auto.
  - rewrite Ho in IH by done. exact IH.
Qed.

(** Whatever a camera reports, repeats included, the events published
    for each of its rules over a subscription are starts and ends in turn,
    beginning with a start, each end with the id of its start. *)
Theorem edges_alternate (cam r : string) (ns : list (option string * bool * string * DateTime))
    (bus_state : StateBus.MotionState) :
  alternates None (filter (of_rule r) (run cam ns (empty bus_state)).2).
Proof.
  apply (run_alternates cam ns r (empty bus_state)). intros r'. cbn. rewrite !lookup_empty.
  split; [done|by intros []].
Qed.

(** A subscription that is recreated during a motion swallows the
    motion's end: after the reset a report of no motion publishes nothing, so
    an id latched for the rule stays latched, and the next motion, whose start
    is a new event, is merged into the old one. *)
Theorem reset_swallows_end (cam r fresh1 fresh2 fresh3 : string) (t1 t2 t3 : DateTime) (s : t)
    (latch : Latch.t) (Hs : state s !! r = None) (Hl : Latch.phase_of (cam, r) latch = Latch.Idle) :
  let '(s, o1) := on_notification cam fresh1 t1 (Some r, true) s in
  let '(s, _) := reset_motion_tracking cam s in
  let '(s, o2) := on_notification cam fresh2 t2 (Some r, false) s in
  let '(s, o3) := on_notification cam fresh3 t3 (Some r, true) s in
  exists start again, o1 = Some start /\ event_id start = fresh1 /\ o2 = None /\
    o3 = Some again /\ event_id again = fresh3 /\
    map event_id (Latch.run [start; again] latch).2 = [fresh1; fresh1].
Proof.
  unfold on_notification at 1. cbn [fst snd]. change (default "<unknown-rule>" (Some r)) with r.
  rewrite Hs. cbn. do 2 eexists. do 5 (split; [done|]).
  unfold Latch.phase_of in Hl. destruct (Latch.active_ids latch !! (cam, r)) eqn:Ea; [done|].
  destruct (Latch.ended latch !! (cam, r)) eqn:Ee; [done|].
  unfold Latch.normalize, key_of. cbn. rewrite Ea, Ee. cbn. rewrite lookup_insert_eq. done.
Qed.
End facts.
End EdgesFacts.

(** ** Witnesses: a clock in milliseconds, channels as lists *)
Module MotionWitness.
Import Latch.

Definition clock : Chrono :=
  {| DateTime := Z; Duration := Z; duration_zero := 0; duration_leb := Z.leb;
     signed_duration_since := Z.sub |}.

(** A channel is a pair of its closed flag and its history. *)
Abbreviation chans := (list (bool * list Z)).
Definition list_mpsc : Mpsc chans nat Z :=
  {| is_closed w tx := match w !! tx with Some c => c.1 | None => true end;
     send tx m w := match w !! tx with
                    | Some (false, l) => (<[tx := (false, l ++ [m])%list]> w, true)
                    | _ => (w, false)
                    end;
     channel _ w := (w ++ [(false, [])], length w)%list;
     delivered w tx := match w !! tx with Some c => c.2 | None => [] end;
     interfere w := w |}.

Lemma list_mpsc_laws : @MpscLaws chans nat Z list_mpsc.
Proof.
  split; cbn.
  - done.
  - done.
  - intros w tx m H. by destruct (w !! tx) as [[[|] l]|].
  - intros w tx m H. destruct (w !! tx) as [[[|] l]|] eqn:E; [done| |done]. cbn.
    pose proof (lookup_lt_Some _ _ _ E) as Hlt. split_and!.
    + by rewrite list_lookup_insert_eq.
    + intros tx' Hne. by rewrite list_lookup_insert_ne.
    + intros tx'. destruct (decide (tx' = tx)) as [->|Hne].
      * by rewrite list_lookup_insert_eq, E.
      * by rewrite list_lookup_insert_ne.
  - intros _ w. split_and!.
    + intros tx Hne. destruct (decide (tx < length w)%nat).
      * by rewrite lookup_app_l.
      * by rewrite !lookup_ge_None_2 by (rewrite ?length_app; cbn; lia).
    + by rewrite lookup_app_r, Nat.sub_diag by lia.
    + by rewrite lookup_app_r, Nat.sub_diag by lia.
Qed.

(** The repository's latch test: start, repeated start and end. *)
Definition ev (a : bool) (t0 : Z) (cam id : string) : @MotionEvent clock :=
  @mkMotionEvent clock "rule-a" a t0 cam id.

Definition events : list (@MotionEvent clock) :=
  [ev true 0 "cam-1" "id-1"; ev true 1 "cam-2" "id-9"; ev true 2 "cam-1" "id-2"; ev false 3 "cam-1" "id-3"].

Lemma period_single_id_witness :
  map event_id (filter (@Latch.about clock ("cam-1", "rule-a")) (@Latch.run clock events (@Latch.new_with_grace clock 3)).2)
  = ["id-1"; "id-1"; "id-1"].
Proof.
  destruct (@LatchFacts.period_single_id clock ("cam-1", "rule-a") events (@Latch.new_with_grace clock 3)
    (ev true 0 "cam-1" "id-1") (ev false 3 "cam-1" "id-3") [ev true 2 "cam-1" "id-2"]
    ltac:(vm_compute; reflexivity) eq_refl ltac:(repeat constructor) eq_refl) as (id & H & Hid).
  rewrite H, Hid. reflexivity.
Defined.

Lemma publish_fan_out_witness :
  let w : chans := [(false, []); (true, [5]); (false, [6])] in
  let b := @EventBus.mk nat [2; 0; 1]%nat 8 in
  let '(b', w') := @EventBus.publish chans nat Z list_mpsc 7 [] b w in
  @delivered _ _ _ list_mpsc w' 0%nat = [7] /\ EventBus.subscribers b' = [2; 0]%nat.
Proof.
  pose proof (@BusFacts.publish_fan_out chans nat Z _ list_mpsc list_mpsc_laws 7 []
    (@EventBus.mk nat [2; 0; 1]%nat 8) [(false, []); (true, [5]); (false, [6])] ltac:(by_eval)) as H.
  cbn zeta in *. split; [|reflexivity].
  exact (proj1 H 0%nat ltac:(by_eval) eq_refl).
Defined.

Lemma state_bus_shared_rule_witness :
  (StateBus.set "motion" false None {["motion" := StateBus.mkMetadata "cam-1" "e1"]}).1 !! "motion" = None.
Proof.
  apply (StateBusFacts.state_bus_shared_rule "motion" "cam-1" "cam-2" "e1" "e2"); [done|reflexivity].
Defined.

Lemma reset_swallows_end_witness :
  exists start again, @event_id clock start = "a" /\ @event_id clock again = "c" /\
    map event_id (@Latch.run clock [start; again] (@Latch.new clock)).2 = ["a"; "a"].
Proof.
  pose proof (@EdgesFacts.reset_swallows_end clock "cam" "r" "a" "b" "c" 0 1 2 (Edges.empty ∅) (@Latch.new clock)
    eq_refl eq_refl) as (start & again & _ & Hs & _ & _ & Ha & Hl).
  exists start, again. split; [exact Hs|]. split; [exact Ha|exact Hl].
Defined.

End MotionWitness.
