(* ===== verification/Sdp.v ===== *)
(** * SDP ([core/sdp.rs])

    [parse_sdp_video_track] reads the video track of a session description,
    line by line.  The base64 decoder is a third-party crate, a parameter with
    its round trip as a law.  [render] is a canonical description of a track. *)
From S2P Require Import Prelude Str.

(** ** Base64, as the code uses it *)
Class Base64 := {
  b64_encode : bytes -> str;
  b64_decode : str -> option bytes;
}.
(** The standard alphabet: letters, digits, plus, slash and padding. *)
Definition b64_char (c : Z) : bool :=
  ((65 <=? c) && (c <=? 90)) || ((97 <=? c) && (c <=? 122)) || ((48 <=? c) && (c <=? 57))
  || (c =? 43) || (c =? 47) || (c =? 61).
Class Base64Laws `{Base64} := {
  b64_roundtrip l : bytes_ok l -> b64_decode (b64_encode l) = Some l;
  b64_alphabet l : Forall (fun c => b64_char c = true) (b64_encode l);
  b64_not_empty l : l <> [] -> b64_encode l <> [];
}.

Record SdpVideoTrack := mkTrack {
  payload_type : Z;
  clock_rate : Z;
  codec_name : option str;
  control : str;
  sprop_sps : option bytes;
  sprop_pps : option bytes;
}.

Inductive sdp_error := BadMediaLine | BadNumber | NoPayloadType | NoControl.

Section sdp.
Context `{Base64}.

(** The local variables of the loop. *)
Record locals := mkLocals {
  in_video : bool;
  pt : option Z;
  clock : option Z;
  codec : option str;
  ctl : option str;
  sps : option bytes;
  pps : option bytes;
}.

Definition init : locals := mkLocals false None None None None None None.

Definition on_media (line : str) (s : locals) : outcome sdp_error locals :=
  if starts_with (lit "m=video ") line then
    match split_whitespace line with
    | _ :: _ :: _ :: p :: _ =>
        p ← ok_or (parse_u8 p) BadNumber;
        mret (mkLocals true (Some p) (clock s) (codec s) (ctl s) (sps s) (pps s))
    | _ => Err BadMediaLine
    end
  else if starts_with (lit "m=") line then
    mret (mkLocals false (pt s) (clock s) (codec s) (ctl s) (sps s) (pps s))
  else mret s.

Definition on_rtpmap (p : Z) (line : str) (s : locals) : outcome sdp_error locals :=
  if starts_with (lit "a=rtpmap:" ++ dec p) line then
    match split_once 32 line with
    | Some (_, rhs) =>
        match split_once 47 rhs with
        | Some (c, rate) =>
            r ← ok_or (parse_u32 rate) BadNumber;
            mret (mkLocals (in_video s) (pt s) (Some r) (Some (trim c)) (ctl s) (sps s) (pps s))
        | None => mret s
        end
    | None => mret s
    end
  else mret s.

Definition on_fmtp_part (part : str) (s : locals) : locals :=
  match strip_prefix (lit "sprop-parameter-sets=") part with
  | Some v =>
      let pieces := split_char 44 v in
      let sps_b64 := default [] (pieces !! 0%nat) in
      let pps_b64 := default [] (pieces !! 1%nat) in
      if negb (bool_decide (sps_b64 = [])) && negb (bool_decide (pps_b64 = []))
      then mkLocals (in_video s) (pt s) (clock s) (codec s) (ctl s) (b64_decode sps_b64) (b64_decode pps_b64)
      else s
  | None => s
  end.

Definition on_fmtp (p : Z) (line : str) (s : locals) : locals :=
  if starts_with (lit "a=fmtp:" ++ dec p) line then
    match split_once 32 line with
    | Some (_, rhs) => foldl (fun s part => on_fmtp_part (trim part) s) s (split_char 59 rhs)
    | None => s
    end
  else s.

Definition on_control (line : str) (s : locals) : locals :=
  match strip_prefix (lit "a=control:") line with
  | Some c => mkLocals (in_video s) (pt s) (clock s) (codec s) (Some c) (sps s) (pps s)
  | None => s
  end.

Definition step (s : locals) (line : str) : outcome sdp_error locals :=
  s ← on_media line s;
  if negb (in_video s) then mret s
  else match pt s with
       | Some p => s ← on_rtpmap p line s; mret (on_control line (on_fmtp p line s))
       | None => mret s
       end.

Fixpoint parse_lines (ls : list str) (s : locals) : outcome sdp_error locals :=
  match ls with
  | [] => mret s
  | l :: ls => s ← step s l; parse_lines ls s
  end.

Definition parse_sdp_video_track (sdp : str) : outcome sdp_error SdpVideoTrack :=
  s ← parse_lines (map trim (lines sdp)) init;
  p ← ok_or (pt s) NoPayloadType;
  c ← ok_or (ctl s) NoControl;
  mret (mkTrack p (default 90000 (clock s)) (codec s) c (sps s) (pps s)).

(** ** A canonical description *)
Definition eol : str := [CR; LF].
Definition media_line (p : Z) : str := lit "m=video 0 RTP/AVP " ++ dec p.
Definition rtpmap_line (p : Z) (name : str) (rate : Z) : str :=
  lit "a=rtpmap:" ++ dec p ++ 32 :: name ++ 47 :: dec rate.
Definition fmtp_line (p : Z) (sps pps : bytes) : str :=
  lit "a=fmtp:" ++ dec p ++ 32 :: lit "packetization-mode=1; sprop-parameter-sets="
    ++ b64_encode sps ++ 44 :: b64_encode pps.
Definition control_line (c : str) : str := lit "a=control:" ++ c.
Definition join_lines (ls : list str) : str := concat (map (fun l => l ++ eol) ls).

(** [before] and [after]: other lines, of the session and of other media. *)
Definition render (before after : list str) (p rate : Z) (name c : str) (sps pps : bytes) : str :=
  join_lines (before ++ [media_line p; rtpmap_line p name rate; fmtp_line p sps pps; control_line c] ++ after).

(** A word: printable ASCII, no separators. *)
Definition word (s : str) : Prop := Forall (fun c => 33 <= c <= 126 /\ c <> 44 /\ c <> 47 /\ c <> 59) s.
(** A line of printable ASCII, without blanks at its ends. *)
Definition line_ok (l : str) : Prop :=
  Forall (fun c => 32 <= c <= 126) l /\ (forall c l', l = c :: l' -> c <> 32) /\
  (forall c l', l = l' ++ [c] -> c <> 32).
(** A session line that opens no video section. *)
Definition other_session (l : str) : Prop := line_ok l /\ starts_with (lit "m=video ") l = false.
(** The sections after the video one: empty, or another medium first. *)
Definition other_media (ls : list str) : Prop :=
  Forall other_session ls /\
  match ls with [] => True | l :: _ => starts_with (lit "m=") l = true end.

End sdp.

(** ** The parser reads the canonical description back *)
Section facts.
Context `{HB : Base64Laws}.

Lemma alphabet_range c : b64_char c = true -> 33 <= c <= 126 /\ c <> 44 /\ c <> 59.
Proof. unfold b64_char. rewrite !orb_true_iff, !andb_true_iff, !Z.leb_le, !Z.eqb_eq. lia. Qed.

Lemma encoded_range l : Forall (fun c => 33 <= c <= 126 /\ c <> 44 /\ c <> 59) (b64_encode l).
Proof. eapply Forall_impl; [apply b64_alphabet|]. apply alphabet_range. Qed.

Lemma not_in (P : Z -> Prop) c (s : str) : Forall P s -> ~ P c -> c ∉ s.
Proof. intros Hs Hn Hin. rewrite Forall_forall in Hs. by apply Hn, Hs. Qed.

Lemma line_trim l : line_ok l -> trim l = l.
Proof.
  intros (Hr & Hf & Hl). apply trim_id; intros c l' ->.
  - pose proof (Hf c l' eq_refl). apply Forall_cons in Hr as [Hc _]. apply printable_not_blank. lia.
  - pose proof (Hl c l' eq_refl). apply Forall_app in Hr as [_ Hr]. apply Forall_cons in Hr as [Hc _].
    apply printable_not_blank. lia.
Qed.

Lemma step_other s l : other_session l -> in_video s = false -> step s l = Ok s.
Proof.
  intros [_ Hl] Hv. unfold step, on_media. rewrite Hl. destruct s as [v q k n t a b]. cbn in Hv. subst v.
  by destruct (starts_with (lit "m=") l).
Qed.

Lemma steps_other ls s :
  Forall other_session ls -> in_video s = false -> parse_lines ls s = Ok s.
Proof.
  intros Hls Hv. induction Hls as [|l ls Hl Hls IH]; [done|]. cbn [parse_lines]. by rewrite step_other.
Qed.

Lemma parse_lines_app a b s :
  parse_lines (a ++ b) s = (s ← parse_lines a s; parse_lines b s).
Proof.
  revert s. induction a as [|l a IH]; intros s; [done|]. cbn [app parse_lines].
  destruct (step s l) as [s1| |]; [|done..]. cbn [mbind outcome_bind]. apply IH.
Qed.

(** The four lines of the video section. *)
Lemma step_media p s :
  0 <= p <= 255 ->
  step s (media_line p) = Ok (mkLocals true (Some p) (clock s) (codec s) (ctl s) (sps s) (pps s)).
Proof.
  intros Hp. unfold step, on_media.
  assert (starts_with (lit "m=video ") (media_line p) = true) as -> by reflexivity.
  assert (split_whitespace (media_line p) = [lit "m=video"; lit "0"; lit "RTP/AVP"; dec p]) as ->.
  { transitivity (lit "m=video" :: lit "0" :: lit "RTP/AVP" :: split_whitespace_acc (dec p) []); [reflexivity|].
    rewrite split_whitespace_word_acc by (apply digits_no_blank; lia). cbn [rev app].
    pose proof (dec_not_nil p) as Hne. by destruct (dec p). }
  unfold parse_u8. rewrite parse_uint_dec by lia. cbn. done.
Qed.

Lemma word_range s : word s -> Forall (fun c => 33 <= c <= 126) s.
Proof. intros Hw. eapply Forall_impl; [exact Hw|]. cbn. lia. Qed.

Lemma printable_no_blank s : Forall (fun c => 33 <= c <= 126) s -> no_blank s.
Proof. intros Hw. eapply Forall_impl; [exact Hw|]. intros c Hc. by apply printable_not_blank. Qed.

(** The text before the first blank of an attribute line. *)
Lemma attribute_split (a : str) p rest :
  0 <= p -> Forall (fun c => 33 <= c <= 126) a ->
  split_once 32 (a ++ dec p ++ 32 :: rest) = Some (a ++ dec p, rest).
Proof.
  intros Hp Ha. rewrite app_assoc. apply split_once_app.
  apply (not_in (fun c => 33 <= c <= 126)); [|lia]. apply Forall_app. split; [done|].
  eapply Forall_impl; [by apply dec_digits|]. cbn. lia.
Qed.

Lemma step_rtpmap p rate name s :
  0 <= p <= 255 -> is_u32 rate -> word name -> in_video s = true -> pt s = Some p ->
  step s (rtpmap_line p name rate) =
  Ok (mkLocals true (Some p) (Some rate) (Some name) (ctl s) (sps s) (pps s)).
Proof.
  intros Hp Hr Hn Hv Hpt. unfold step.
  assert (on_media (rtpmap_line p name rate) s = Ok s) as -> by reflexivity.
  cbn [mbind outcome_bind]. rewrite Hv, Hpt. cbn [negb].
  assert (on_rtpmap p (rtpmap_line p name rate) s
    = Ok (mkLocals true (Some p) (Some rate) (Some name) (ctl s) (sps s) (pps s))) as ->; [|reflexivity].
  unfold on_rtpmap, rtpmap_line. rewrite app_assoc, starts_with_app, <- app_assoc.
  rewrite attribute_split by (by_eval || lia).
  rewrite split_once_app by (eapply not_in; [exact Hn|]; cbn; lia).
  unfold parse_u32. unfold is_u32 in Hr. rewrite parse_uint_dec by lia.
  cbn [ok_or mbind outcome_bind]. rewrite trim_no_blank by (by apply printable_no_blank, word_range).
  by rewrite Hv, Hpt.
Qed.

Lemma step_fmtp p sp pp s :
  0 <= p <= 255 -> bytes_ok sp -> bytes_ok pp -> sp <> [] -> pp <> [] -> in_video s = true -> pt s = Some p ->
  step s (fmtp_line p sp pp) =
  Ok (mkLocals true (Some p) (clock s) (codec s) (ctl s) (Some sp) (Some pp)).
Proof.
  intros Hp Hs1 Hs2 Hn1 Hn2 Hv Hpt. unfold step.
  assert (on_media (fmtp_line p sp pp) s = Ok s) as -> by reflexivity.
  cbn [mbind outcome_bind]. rewrite Hv, Hpt. cbn [negb].
  assert (on_rtpmap p (fmtp_line p sp pp) s = Ok s) as -> by reflexivity.
  cbn [mbind outcome_bind].
  assert (on_fmtp p (fmtp_line p sp pp) s
    = mkLocals true (Some p) (clock s) (codec s) (ctl s) (Some sp) (Some pp)) as ->; [|reflexivity].
  set (tail := b64_encode sp ++ 44 :: b64_encode pp).
  unfold on_fmtp, fmtp_line. rewrite app_assoc, starts_with_app, <- app_assoc.
  rewrite attribute_split by (by_eval || lia). fold tail.
  assert (59 ∉ lit " sprop-parameter-sets=" ++ tail) as H59.
  { rewrite not_elem_of_app. split; [by_eval|]. unfold tail. rewrite not_elem_of_app, not_elem_of_cons.
    pose proof (encoded_range sp). pose proof (encoded_range pp).
    split_and!; [|done|]; (eapply not_in; [eassumption|cbn; lia]). }
  assert (split_char 59 (lit "packetization-mode=1; sprop-parameter-sets=" ++ tail)
    = [lit "packetization-mode=1"; lit " sprop-parameter-sets=" ++ tail]) as ->.
  { transitivity (lit "packetization-mode=1" :: split_char 59 (lit " sprop-parameter-sets=" ++ tail)); [reflexivity|].
    by rewrite split_char_last. }
  cbn [foldl]. assert (on_fmtp_part (trim (lit "packetization-mode=1")) s = s) as -> by reflexivity.
  assert (trim (lit " sprop-parameter-sets=" ++ tail) = lit "sprop-parameter-sets=" ++ tail) as ->.
  { transitivity (trim (lit "sprop-parameter-sets=" ++ tail)); [reflexivity|].
    apply trim_no_blank, printable_no_blank, Forall_app. split; [by_eval|]. apply Forall_app.
    split; [|constructor; [lia|]]; (eapply Forall_impl; [apply encoded_range|cbn; lia]). }
  unfold on_fmtp_part. rewrite strip_prefix_app. unfold tail.
  rewrite split_char_app by (eapply not_in; [apply encoded_range|cbn; lia]).
  rewrite split_char_last by (eapply not_in; [apply encoded_range|cbn; lia]).
  cbn [lookup list_lookup default from_option id].
  rewrite !bool_decide_false by (by apply b64_not_empty). cbn [negb andb].
  by rewrite !b64_roundtrip, Hv, Hpt.
Qed.

Lemma step_control p c s :
  in_video s = true -> pt s = Some p ->
  step s (control_line c) = Ok (mkLocals true (Some p) (clock s) (codec s) (Some c) (sps s) (pps s)).
Proof.
  intros Hv Hpt. unfold step. assert (on_media (control_line c) s = Ok s) as -> by reflexivity.
  cbn [mbind outcome_bind]. rewrite Hv, Hpt. cbn [negb].
  assert (on_rtpmap p (control_line c) s = Ok s) as -> by reflexivity.
  cbn [mbind outcome_bind]. assert (on_fmtp p (control_line c) s = s) as -> by reflexivity.
  unfold on_control, control_line. rewrite strip_prefix_app, Hv, Hpt. reflexivity.
Qed.

Lemma printable_line l : Forall (fun c => 32 <= c <= 126) l -> LF ∉ l.
Proof. intros Hl. eapply not_in; [exact Hl|]. unfold LF. cbn. lia. Qed.

(** An attribute line that ends with a word. *)
Lemma attribute_line_ok (a w : str) :
  Forall (fun c => 32 <= c <= 126) a -> (forall c l', a = c :: l' -> c <> 32) -> a <> [] ->
  Forall (fun c => 33 <= c <= 126) w -> w <> [] -> line_ok (a ++ w).
Proof.
  intros Ha Hf Hna Hw Hnw. split_and!.
  - apply Forall_app. split; [done|]. eapply Forall_impl; [exact Hw|]. cbn. lia.
  - intros c l' E. destruct a as [|d a]; [done|]. injection E as <- _. by apply (Hf d a).
  - intros c l' E. destruct (exists_last Hnw) as (d & x & Ed). rewrite Ed, app_assoc in E.
    apply app_inj_tail in E as [_ <-]. rewrite Ed in Hw. apply Forall_app in Hw as [_ Hw].
    apply Forall_cons in Hw as [Hw _]. lia.
Qed.

Lemma dec_word n : 0 <= n -> Forall (fun c => 33 <= c <= 126) (dec n) /\ dec n <> [].
Proof.
  intros Hn. split; [eapply Forall_impl; [by apply dec_digits|]; cbn; lia|apply dec_not_nil].
Qed.

Lemma encoded_word l : l <> [] -> Forall (fun c => 33 <= c <= 126) (b64_encode l) /\ b64_encode l <> [].
Proof. intros Hl. split; [eapply Forall_impl; [apply encoded_range|]; cbn; lia|by apply b64_not_empty]. Qed.

Lemma loosen s : Forall (fun c => 33 <= c <= 126) s -> Forall (fun c => 32 <= c <= 126) s.
Proof. intros Hs. eapply Forall_impl; [exact Hs|]. cbn. lia. Qed.

Lemma video_lines_ok p rate name c sp pp :
  0 <= p -> 0 <= rate -> word name -> Forall (fun c => 33 <= c <= 126) c -> c <> [] -> sp <> [] -> pp <> [] ->
  Forall line_ok [media_line p; rtpmap_line p name rate; fmtp_line p sp pp; control_line c].
Proof.
  intros Hp Hr Hn Hc Hcne Hs Hpp.
  destruct (dec_word p Hp) as [Hdp Hdpn], (dec_word rate Hr) as [Hdr Hdrn].
  destruct (encoded_word sp Hs) as [He1 _], (encoded_word pp Hpp) as [He2 He2n].
  pose proof (word_range _ Hn) as Hn'.
  constructor; [|constructor; [|constructor; [|constructor; [|constructor]]]].
  - apply attribute_line_ok; [by_eval|intros ? ? [= <- _]; done|done|done|done].
  - replace (rtpmap_line p name rate) with ((lit "a=rtpmap:" ++ dec p ++ 32 :: name ++ [47]) ++ dec rate)
      by (unfold rtpmap_line; by rewrite <- !app_assoc; cbn; rewrite <- app_assoc).
    apply attribute_line_ok; [|intros ? ? [= <- _]; done|done|done|done].
    repeat (apply Forall_app; split); [by_eval|by apply loosen|].
    constructor; [lia|]. apply Forall_app. split; [by apply loosen|by_eval].
  - replace (fmtp_line p sp pp) with ((lit "a=fmtp:" ++ dec p ++ 32 :: lit "packetization-mode=1; sprop-parameter-sets="
      ++ b64_encode sp ++ [44]) ++ b64_encode pp)
      by (unfold fmtp_line; rewrite <- !app_assoc, <- app_comm_cons, <- !app_assoc; done).
    apply attribute_line_ok; [|intros ? ? [= <- _]; done|done|done|done].
    repeat (apply Forall_app; split); [by_eval|by apply loosen|].
    constructor; [lia|]. repeat (apply Forall_app; split); [by_eval|by apply loosen|by_eval].
  - apply attribute_line_ok; [by_eval|intros ? ? [= <- _]; done|done|done|done].
Qed.

Lemma parse_after (ls : list str) s :
  other_media ls ->
  exists v, parse_lines ls s = Ok (mkLocals v (pt s) (clock s) (codec s) (ctl s) (sps s) (pps s)).
Proof.
  intros [Hls Hm]. destruct ls as [|l ls]; [exists (in_video s); by destruct s|].
  apply Forall_cons in Hls as [[_ Hv] Hls]. exists false. cbn [parse_lines].
  unfold step at 1, on_media. rewrite Hv, Hm. cbn [mbind outcome_bind mret outcome_ret in_video negb].
  by apply steps_other.
Qed.

(** C36: the track of a canonical session description is read back field by
    field, whatever session lines come before it and whatever other media
    sections follow it. *)
Theorem sdp_roundtrip (before after : list str) (p rate : Z) (name c : str) (sp pp : bytes)
    (Hbefore : Forall other_session before) (Hafter : other_media after)
    (Hp : 0 <= p <= 255) (Hrate : is_u32 rate) (Hname : word name)
    (Hc : Forall (fun c => 33 <= c <= 126) c /\ c <> [])
    (Hsps : bytes_ok sp /\ sp <> []) (Hpps : bytes_ok pp /\ pp <> []) :
  parse_sdp_video_track (render before after p rate name c sp pp)
  = Ok (mkTrack p rate (Some name) c (Some sp) (Some pp)).
Proof.
  destruct Hc as [Hc Hcne], Hsps as [Hs Hsne], Hpps as [Hpp Hpne].
  pose proof (video_lines_ok p rate name c sp pp ltac:(lia) ltac:(unfold is_u32 in Hrate; lia)
    Hname Hc Hcne Hsne Hpne) as Hv.
  set (ls := before ++ [media_line p; rtpmap_line p name rate; fmtp_line p sp pp; control_line c] ++ after).
  assert (Forall line_ok ls) as Hls.
  { unfold ls. apply Forall_app. split; [by eapply Forall_impl; [exact Hbefore|intros l []]|].
    apply Forall_app. split; [done|]. by eapply Forall_impl; [apply Hafter|intros l []]. }
  unfold parse_sdp_video_track, render, join_lines, eol. fold ls.
  rewrite lines_join by (eapply Forall_impl; [exact Hls|]; intros l [Hl _]; by apply printable_line).
  assert (map trim ls = ls) as ->.
  { clear -Hls. induction Hls as [|l ls Hl _ IH]; [done|]. cbn. by rewrite line_trim, IH. }
  unfold ls. rewrite parse_lines_app, steps_other by done. cbn [mbind outcome_bind].
  rewrite parse_lines_app. cbn [parse_lines].
  rewrite step_media by done. cbn [mbind outcome_bind]. rewrite step_rtpmap by done.
  cbn [mbind outcome_bind]. rewrite step_fmtp by done. cbn [mbind outcome_bind].
  rewrite step_control with (p := p) by done. cbn [mbind outcome_bind mret outcome_ret].
  destruct (parse_after after (mkLocals true (Some p) (Some rate) (Some name) (Some c) (Some sp) (Some pp)) Hafter)
    as [v Ha]. cbn [clock codec ctl sps pps]. by rewrite Ha.
Qed.
End facts.

(** ** Witness: hexadecimal digits meet the laws of the codec *)
Module SdpWitness.

Definition nibble (n : Z) : Z := if n <? 10 then 48 + n else 87 + n.
Definition unnibble (c : Z) : Z := if c <? 58 then c - 48 else c - 87.
Fixpoint unhex (s : str) : option bytes :=
  match s with
  | [] => Some []
  | a :: b :: s => r ← unhex s; Some (unnibble a * 16 + unnibble b :: r)
  | _ => None
  end.

Lemma nibble_ok b : 0 <= b < 16 -> unnibble (nibble b) = b.
Proof. intros Hb. unfold unnibble, nibble. repeat case_match; lia. Qed.

Lemma nibble_char b : b64_char (nibble (b mod 16)) = true.
Proof.
  pose proof (forall_below 16 (fun b => b64_char (nibble b)) eq_refl (b mod 16)) as Hb.
  apply Hb. apply Z.mod_pos_bound. lia.
Qed.

(** The high digit of anything that is not a byte is masked away. *)
Definition hex_masked : Base64 :=
  {| b64_encode l := concat (map (fun b => [nibble (b / 16 mod 16); nibble (b mod 16)]) l);
     b64_decode := unhex |}.

Lemma hex_laws : @Base64Laws hex_masked.
Proof.
  split; cbn.
  - intros l. induction 1 as [|b l Hb _ IH]; [done|]. cbn. rewrite IH. cbn.
    unfold is_byte in Hb. rewrite !nibble_ok by (Z.div_mod_to_equations; lia).
    do 2 f_equal. Z.div_mod_to_equations; lia.
  - intros l. induction l as [|b l IH]; cbn; [done|]. constructor; [apply nibble_char|].
    constructor; [apply nibble_char|exact IH].
  - intros [|b l] Hl; done.
Qed.

Definition before : list str := [lit "v=0"; lit "m=audio 0 RTP/AVP 0"; lit "a=control:trackID=1"].
Definition after : list str := [lit "m=application 0 RTP/AVP 107"; lit "a=control:trackID=3"].

Ltac line := split; [split_and!; [by_eval|intros ? ? [= <- _]; done|
  let c := fresh in let l := fresh in let E := fresh in
  intros c l E; apply (f_equal (@rev Z)) in E; rewrite rev_app_distr in E; cbn in E;
  injection E as <- _; done]|reflexivity].

Lemma sdp_roundtrip_witness :
  @parse_sdp_video_track hex_masked
    (@render hex_masked before after 96 90000 (lit "H264") (lit "trackID=2") [0x67; 0x64] [0x68; 0xEE])
  = Ok (mkTrack 96 90000 (Some (lit "H264")) (lit "trackID=2") (Some [0x67; 0x64]) (Some [0x68; 0xEE])).
Proof.
  apply (@sdp_roundtrip hex_masked hex_laws).
  - unfold before. repeat (constructor; [line|]). constructor.
  - split; [|reflexivity]. unfold after. repeat (constructor; [line|]). constructor.
  - lia.
  - by_eval.
  - unfold word. by_eval.
  - split; [by_eval|done].
  - split; [by_eval|done].
  - split; [by_eval|done].
Defined.

End SdpWitness.
