(* ===== verification/Rtsp.v ===== *)
(** * The RTSP client ([rtsp/rtsp.rs]) and interleaved frames ([rtsp/interleaved.rs])

    The TCP stream is a parameter ([AsyncRead], [AsyncReadSome],
    [AsyncWrite]).  Loops over reads carry fuel; running out of it is a
    [Panic], so that a theorem that a call returns also says its fuel is
    enough (one unit per byte the peer sends). *)
From S2P Require Import Prelude Io Str.

Record RtspResponse := mkResponse {
  status : Z;
  headers : list (str * str);
  body : bytes;
}.

(** [RtspClient], over its stream. *)
Record RtspClient (S : Type) := mkClient {
  stream : S;
  cseq : Z;
  session : option str;
  leftover : bytes;
}.
Arguments mkClient {S}.
Arguments stream {S}.
Arguments cseq {S}.
Arguments session {S}.
Arguments leftover {S}.

Inductive rtsp_error (E : Type) :=
| ConnectionClosed
| HeadersTooLarge
| ClosedInBody
| MissingStatusLine
| RtspIo (e : E).
Arguments ConnectionClosed {E}.
Arguments HeadersTooLarge {E}.
Arguments ClosedInBody {E}.
Arguments MissingStatusLine {E}.
Arguments RtspIo {E}.

Definition header_get (headers : list (str * str)) (key : str) : option str :=
  snd <$> List.find (fun kv => eq_ignore_ascii_case kv.1 key) headers.

(** [head.windows(4).position(|w| w == b"\r\n\r\n")] *)
Definition CRLF2 : bytes := [13; 10; 13; 10].
Fixpoint find_crlf2 (l : bytes) : option nat :=
  if bool_decide (take 4 l = CRLF2) then Some 0%nat
  else match l with [] => None | _ :: l => S <$> find_crlf2 l end.

(** The status line and the header lines. *)
Definition parse_head {E} (head_bytes : bytes) : outcome (rtsp_error E) (Z * list (str * str)) :=
  let head_str := from_utf8_lossy head_bytes in
  match List.filter (fun l => negb (bool_decide (l = []))) (split_crlf head_str) with
  | [] => Err MissingStatusLine
  | status_line :: lines =>
      let parts := split_whitespace status_line in
      let status := default 0 (parse_u16 (default (lit "0") (parts !! 1%nat))) in
      let headers := omap (fun line => '(k, v) ← split_once 58 line; Some (trim k, trim v)) lines in
      Ok (status, headers)
  end.

Definition content_len (headers : list (str * str)) : Z :=
  default 0 (v ← header_get headers (lit "Content-Length"); parse_usize v).

Section client.
Context {S E : Type} `{AsyncRead S E} `{AsyncReadSome S E} `{AsyncWrite S E}.
Implicit Types c : RtspClient S.

(** A stream operation, on the client. *)
Definition on_stream {A} (m : st S (rtsp_error E) A) : st (RtspClient S) (rtsp_error E) A :=
  fun c => let '(s, o) := m (stream c) in (mkClient s (cseq c) (session c) (leftover c), o).

Definition connect (s : S) : RtspClient S := mkClient s 1 None [].

Fixpoint read_head (fuel : nat) (head : bytes) : st (RtspClient S) (rtsp_error E) bytes :=
  match fuel with
  | O => lift_outcome Panic
  | Datatypes.S fuel =>
      buf ← on_stream (read_some_m RtspIo 4096);
      st_bail_if (length buf =? 0)%nat ConnectionClosed ;;
      let head := head ++ buf in
      if bool_decide (is_Some (find_crlf2 head)) then mret head
      else
        st_bail_if (64 * 1024 <? Z.of_nat (length head)) HeadersTooLarge ;;
        read_head fuel head
  end.

Fixpoint read_body (fuel : nat) (len : Z) (body : bytes) : st (RtspClient S) (rtsp_error E) bytes :=
  if Z.of_nat (length body) <? len then
    match fuel with
    | O => lift_outcome Panic
    | Datatypes.S fuel =>
        buf ← on_stream (read_some_m RtspIo 4096);
        st_bail_if (length buf =? 0)%nat ClosedInBody ;;
        read_body fuel len (body ++ buf)
    end
  else mret (take (Z.to_nat len) body).

Definition read_response (fuel : nat) : st (RtspClient S) (rtsp_error E) RtspResponse :=
  head ← read_head fuel [];
  split ← lift_outcome (match find_crlf2 head with Some i => Ok i | None => Panic end);
  let head_bytes := take (split + 4) head in
  let rest := drop (split + 4) head in
  '(status, headers) ← lift_outcome (parse_head head_bytes);
  let len := content_len headers in
  body ← (if 0 <? len then read_body fuel len rest else mret []);
  mret (mkResponse status headers body).

(** The text of a request. *)
Definition request_text (method url : str) (cseq : Z) (session : option str)
    (extra_headers : list (str * str)) (body : option bytes) : str :=
  let crlf := [CR; LF] in
  method ++ 32 :: url ++ lit " RTSP/1.0" ++ crlf
  ++ lit "CSeq: " ++ dec cseq ++ crlf
  ++ match session with Some sess => lit "Session: " ++ sess ++ crlf | None => [] end
  ++ concat (map (fun kv => kv.1 ++ lit ": " ++ kv.2 ++ crlf) extra_headers)
  ++ match body with Some b => lit "Content-Length: " ++ dec (Z.of_nat (length b)) ++ crlf | None => [] end
  ++ crlf.

Definition request (fuel : nat) (method url : str) (extra_headers : list (str * str))
    (body : option bytes) : st (RtspClient S) (rtsp_error E) RtspResponse := fun c =>
  let req := request_text method url (cseq c) (session c) extra_headers body in
  let c := mkClient (stream c) (wrap32 (cseq c + 1)) (session c) (leftover c) in
  (on_stream (write_all_m RtspIo (as_bytes req)) ;;
   match body with Some b => on_stream (write_all_m RtspIo b) | None => mret tt end ;;
   read_response fuel) c.

(** The first loop drains [leftover]. *)
Fixpoint drain_leftover (fuel n : nat) (out kept : bytes) : bytes * bytes :=
  match fuel with
  | O => (out, kept)
  | Datatypes.S fuel =>
      if (length out <? n)%nat && negb (length kept =? 0)%nat then
        let k := Nat.min (n - length out) (length kept) in
        drain_leftover fuel n (out ++ take k kept) (drop k kept)
      else (out, kept)
  end.

Definition read_exact_bytes (n : nat) : st (RtspClient S) (rtsp_error E) bytes := fun c =>
  let '(out, kept) := drain_leftover (Datatypes.S (length (leftover c))) n [] (leftover c) in
  let c := mkClient (stream c) (cseq c) (session c) kept in
  if (length out <? n)%nat then
    (buf ← on_stream (read_exact_m RtspIo (n - length out)); mret (out ++ buf)) c
  else (c, Ok out).

Definition set_session_from (resp : RtspResponse) (c : RtspClient S) : RtspClient S :=
  match header_get (headers resp) (lit "Session") with
  | Some sess =>
      let id := default sess (split_char 59 sess !! 0%nat) in
      mkClient (stream c) (cseq c) (Some id) (leftover c)
  | None => c
  end.

End client.

(** ** [rtsp/interleaved.rs] *)
Inductive InterleavedFrame :=
| Rtp (payload : bytes)
| Rtcp (payload : bytes)
| Unknown (channel : Z) (payload : bytes).

Inductive frame_error (E : Type) :=
| ExpectedDollar (got : Z)
| FrameRtsp (e : rtsp_error E).
Arguments ExpectedDollar {E}.
Arguments FrameRtsp {E}.

Section interleaved.
Context {S E : Type} `{AsyncRead S E}.

Definition exact (n : nat) : st (RtspClient S) (frame_error E) bytes := fun c =>
  let '(c, o) := read_exact_bytes n c in
  (c, match o with Ok b => Ok b | Err e => Err (FrameRtsp e) | Panic => Panic end).

Definition read_interleaved_frame (rtp_channel rtcp_channel : Z)
    : st (RtspClient S) (frame_error E) InterleavedFrame :=
  b ← exact 1;
  b0 ← lift_outcome (index b 0);
  st_bail_if (negb (b0 =? 0x24)) (ExpectedDollar b0) ;;
  hdr ← exact 3;
  h0 ← lift_outcome (index hdr 0); h1 ← lift_outcome (index hdr 1); h2 ← lift_outcome (index hdr 2);
  let channel := h0 in
  let len := Z.to_nat (from_be [h1; h2]) in
  payload ← exact len;
  mret (if channel =? rtp_channel then Rtp payload
        else if channel =? rtcp_channel then Rtcp payload
        else Unknown channel payload).

(** The sender's side: a payload on a channel. *)
Definition frame_bytes (channel : Z) (payload : bytes) : bytes :=
  [0x24; channel] ++ to_be 2 (Z.of_nat (length payload)) ++ payload.

Definition frame_of (rtp_channel rtcp_channel channel : Z) (payload : bytes) : InterleavedFrame :=
  if channel =? rtp_channel then Rtp payload
  else if channel =? rtcp_channel then Rtcp payload
  else Unknown channel payload.

(** A receiver's successive calls. *)
Fixpoint read_frames (n : nat) (rtp_channel rtcp_channel : Z)
    : st (RtspClient S) (frame_error E) (list InterleavedFrame) :=
  match n with
  | O => mret []
  | Datatypes.S n =>
      f ← read_interleaved_frame rtp_channel rtcp_channel;
      fs ← read_frames n rtp_channel rtcp_channel; mret (f :: fs)
  end.

End interleaved.

(** ** The end of the headers *)
Lemma crlf2_length (l : bytes) : take 4 l = CRLF2 -> (4 <= length l)%nat.
Proof.
  intros Ht. apply (f_equal length) in Ht. rewrite length_take in Ht.
  change (length CRLF2) with 4%nat in Ht. lia.
Qed.

Lemma find_crlf2_bound l i : find_crlf2 l = Some i -> (i + 4 <= length l)%nat.
Proof.
  revert i. induction l as [|b l IH]; intros i Hf; [done|]. cbn [find_crlf2] in Hf.
  case_bool_decide as Ht.
  - injection Hf as <-. by apply crlf2_length in Ht.
  - apply fmap_Some in Hf as (j & Hj & ->). apply IH in Hj. cbn. lia.
Qed.

Lemma find_crlf2_app l x i : find_crlf2 l = Some i -> find_crlf2 (l ++ x) = Some i.
Proof.
  revert i. induction l as [|b l IH]; intros i Hf; [done|].
  cbn [app find_crlf2] in *. change (b :: l ++ x) with ((b :: l) ++ x). case_bool_decide as Ht.
  - rewrite bool_decide_true; [done|]. by rewrite take_app_le by (by apply crlf2_length).
  - apply fmap_Some in Hf as (j & Hj & ->). rewrite (IH _ Hj).
    pose proof (find_crlf2_bound _ _ Hj).
    rewrite bool_decide_false; [done|]. by rewrite take_app_le by (cbn; lia).
Qed.

(** No shorter prefix contains the end of the headers. *)
Lemma find_crlf2_prefix l x i :
  find_crlf2 (l ++ x) = Some i -> (length l < i + 4)%nat -> find_crlf2 l = None.
Proof.
  intros Hf Hl. destruct (find_crlf2 l) as [j|] eqn:Hj; [|done].
  pose proof (find_crlf2_bound _ _ Hj). rewrite (find_crlf2_app _ _ _ Hj) in Hf. injection Hf as ->. lia.
Qed.

(** ** Reading *)
Section facts.
Context {S E : Type} `{HR : AsyncReadLaws S E} `{HS : !AsyncReadSome S E} `{HSL : !AsyncReadSomeLaws S E}.
Implicit Types c : RtspClient S.

Definition with_stream (s : S) c : RtspClient S := mkClient s (cseq c) (session c) (leftover c).

Lemma on_stream_read_some c n :
  (0 < n)%nat -> pending (stream c) <> [] ->
  exists s b, on_stream (read_some_m RtspIo n) c = (with_stream s c, Ok b) /\ b <> [] /\
    (length b <= n)%nat /\ pending (stream c) = b ++ pending s.
Proof.
  intros Hn Hp. destruct (read_some_data (stream c) n Hn Hp) as (s & b & Hr & Hb & Hl & He).
  exists s, b. unfold on_stream, read_some_m. rewrite Hr. done.
Qed.

(** The header loop, from the bytes [acc] it has: it stops at the first read
    that completes the headers. *)
Lemma read_head_spec (head tail : bytes) fuel acc c :
  find_crlf2 head = Some (length head - 4)%nat -> (4 <= length head)%nat -> Z.of_nat (length head) <= 65536 ->
  (length acc < length head)%nat -> acc ++ pending (stream c) = head ++ tail ->
  (length (pending (stream c)) < fuel)%nat ->
  exists s t, read_head fuel acc c = (with_stream s c, Ok (head ++ t)) /\ t ++ pending s = tail.
Proof.
  intros Hf H4 H64. revert acc c. induction fuel as [|fuel IH]; intros acc c Hacc Heq Hfuel; [lia|].
  assert (pending (stream c) <> []) as Hp.
  { intros Hn. rewrite Hn, app_nil_r in Heq. rewrite Heq, length_app in Hacc. lia. }
  destruct (on_stream_read_some c 4096 ltac:(lia) Hp) as (s & b & Hr & Hb & _ & Hpe).
  cbn [read_head]. rewrite (st_bind_ok _ _ _ _ _ Hr), st_bind_bail.
  assert (length b <> 0)%nat by (by destruct b). rewrite (proj2 (Nat.eqb_neq _ _)) by done.
  rewrite Hpe, app_assoc in Heq.
  destruct (decide (length (acc ++ b) < length head)%nat) as [Hlt|Hge].
  - assert (exists y, head = (acc ++ b) ++ y) as [y Hy].
    { exists (drop (length (acc ++ b)) head). rewrite <- (take_drop (length (acc ++ b)) head) at 1. f_equal.
      transitivity (take (length (acc ++ b)) (head ++ tail)).
      - by rewrite take_app_le by lia.
      - rewrite <- Heq. by rewrite take_app_ex. }
    rewrite (find_crlf2_prefix (acc ++ b) y (length head - 4)) by (rewrite <- ?Hy; lia || done).
    rewrite bool_decide_false by (by intros []). rewrite st_bind_bail.
    rewrite (proj2 (Z.ltb_ge _ _)) by lia.
    apply (IH (acc ++ b) (with_stream s c) Hlt Heq).
    rewrite Hpe, length_app in Hfuel. cbn. lia.
  - exists s, (drop (length head) (acc ++ b)).
    assert (acc ++ b = head ++ drop (length head) (acc ++ b)) as Ht.
    { rewrite <- (take_drop (length head) (acc ++ b)) at 1. f_equal.
      transitivity (take (length head) ((acc ++ b) ++ pending s)).
      - symmetry. apply take_app_le. lia.
      - rewrite Heq. by rewrite take_app_ex. }
    assert (is_Some (find_crlf2 (acc ++ b))) as Hs by (rewrite Ht; eexists; by apply find_crlf2_app).
    rewrite bool_decide_true by done.
    split; [by rewrite <- Ht|]. apply (app_inv_head head). by rewrite app_assoc, <- Ht.
Qed.

Lemma read_body_spec fuel (body acc : bytes) c :
  acc ++ pending (stream c) = body -> (length (pending (stream c)) <= fuel)%nat ->
  exists s, read_body fuel (Z.of_nat (length body)) acc c = (with_stream s c, Ok body) /\ pending s = [].
Proof.
  revert acc c. induction fuel as [|fuel IH]; intros acc c Heq Hf; cbn [read_body];
    destruct (Z.ltb_spec (Z.of_nat (length acc)) (Z.of_nat (length body))) as [Hlt|Hge].
  - rewrite <- Heq, length_app in Hlt. lia.
  - assert (pending (stream c) = []) as Hn.
    { rewrite <- Heq, length_app in Hge. by destruct (pending (stream c)); [|cbn in *; lia]. }
    rewrite Hn, app_nil_r in Heq. subst acc. exists (stream c). split; [|done].
    rewrite Nat2Z.id, take_ge by lia. by destruct c.
  - destruct (on_stream_read_some c 4096 ltac:(lia)) as (s & b & Hr & Hb & _ & Hpe).
    { intros Hn. rewrite <- Heq, Hn, app_nil_r in Hlt. lia. }
    rewrite (st_bind_ok _ _ _ _ _ Hr), st_bind_bail.
    assert (length b <> 0)%nat by (by destruct b). rewrite (proj2 (Nat.eqb_neq _ _)) by done.
    rewrite Hpe, app_assoc in Heq.
    apply (IH (acc ++ b) (with_stream s c) Heq). rewrite Hpe, length_app in Hf. cbn. lia.
  - assert (pending (stream c) = []) as Hn.
    { rewrite <- Heq, length_app in Hge. by destruct (pending (stream c)); [|cbn in *; lia]. }
    rewrite Hn, app_nil_r in Heq. subst acc. exists (stream c). split; [|done].
    rewrite Nat2Z.id, take_ge by lia. by destruct c.
Qed.

(** A response that ends where its body does is read whole, whatever
    sizes the stream delivers it in: the headers are those of the text, the
    body has the announced length, the call returns, and the stream is left
    empty for the next exchange. *)
Theorem read_response_any_chunking (head body : bytes) (st0 : Z) (hs : list (str * str)) (fuel : nat)
    c (Hend : find_crlf2 head = Some (length head - 4)%nat) (H64 : Z.of_nat (length head) <= 65536)
    (Hhead : parse_head (E:=E) head = Ok (st0, hs)) (Hlen : content_len hs = Z.of_nat (length body))
    (Hp : pending (stream c) = head ++ body) (Hfuel : (length head + length body < fuel)%nat) :
  exists s, read_response fuel c = (with_stream s c, Ok (mkResponse st0 hs body)) /\ pending s = [].
Proof.
  pose proof (find_crlf2_bound _ _ Hend) as Hb.
  destruct (read_head_spec head body fuel [] c Hend) as (s & t & Hr & Ht); [lia|done|cbn; lia|done|rewrite Hp; len|].
  unfold read_response. rewrite (st_bind_ok _ _ _ _ _ Hr), (find_crlf2_app _ _ _ Hend), st_bind_lift.
  replace (length head - 4 + 4)%nat with (length head) by lia.
  rewrite take_app_length, drop_app_length, Hhead, st_bind_lift, Hlen.
  destruct (Z.ltb_spec 0 (Z.of_nat (length body))) as [Hpos|Hz].
  - destruct (read_body_spec fuel body t (with_stream s c) Ht) as (s' & Hr' & Hs').
    { apply (f_equal length) in Ht. rewrite length_app in Ht. cbn. lia. }
    exists s'. rewrite (st_bind_ok _ _ _ _ _ Hr'). done.
  - exists s. destruct body; [|cbn in *; lia]. split; [done|]. by apply app_eq_nil in Ht as [_ Ht].
Qed.

(** Bytes that arrive behind a response without a body are lost: when
    one read delivers the response and the first bytes of what the server
    sends next (the interleaved frames, after PLAY), they are neither in
    [leftover] nor on the stream, although [leftover] is declared to hold the
    bytes read too far. *)
Theorem read_ahead_is_dropped (head extra : bytes) (st0 : Z) (hs : list (str * str)) (fuel : nat)
    c (s : S) (Hend : find_crlf2 head = Some (length head - 4)%nat)
    (Hhead : parse_head (E:=E) head = Ok (st0, hs)) (Hlen : content_len hs <= 0)
    (Hread : read_some (stream c) 4096 = (s, inr (head ++ extra))) :
  read_response (Datatypes.S fuel) c = (mkClient s (cseq c) (session c) (leftover c), Ok (mkResponse st0 hs [])).
Proof.
  pose proof (find_crlf2_bound _ _ Hend) as Hb.
  unfold read_response.
  assert (read_head (Datatypes.S fuel) [] c = (with_stream s c, Ok (head ++ extra))) as Hr.
  { cbn [read_head]. rewrite (st_bind_ok _ _ c (with_stream s c) (head ++ extra)).
    2:{ unfold on_stream, read_some_m. by rewrite Hread. }
    rewrite st_bind_bail, (proj2 (Nat.eqb_neq _ _)) by len.
    cbn [app]. rewrite bool_decide_true; [done|]. eexists. by apply find_crlf2_app. }
  rewrite (st_bind_ok _ _ _ _ _ Hr), (find_crlf2_app _ _ _ Hend), st_bind_lift.
  replace (length head - 4 + 4)%nat with (length head) by lia.
  by rewrite take_app_length, Hhead, st_bind_lift, (proj2 (Z.ltb_ge _ _)) by lia.
Qed.

(** *** Exact reads and frames *)

(** What a client will read next. *)
Definition upcoming c : bytes := leftover c ++ pending (stream c).

Lemma drain_leftover_spec fuel n out kept :
  (length kept < fuel)%nat -> (length out <= n)%nat ->
  drain_leftover fuel n out kept = (out ++ take (n - length out) kept, drop (n - length out) kept).
Proof.
  revert out kept. induction fuel as [|fuel IH]; intros out kept Hf Hn; [lia|].
  cbn [drain_leftover]. destruct (Nat.ltb_spec (length out) n) as [Hlt|Hge]; cbn [andb].
  2:{ replace (n - length out)%nat with 0%nat by lia. by rewrite take_0, drop_0, app_nil_r. }
  destruct (Nat.eqb_spec (length kept) 0) as [Hz|Hnz]; cbn [negb].
  { apply length_zero_iff_nil in Hz as ->. by rewrite take_nil, drop_nil, app_nil_r. }
  rewrite IH by len. rewrite length_app, length_take.
  destruct (decide (n - length out <= length kept)%nat) as [Hle|Hgt].
  - rewrite !Nat.min_l by lia. replace (n - (length out + (n - length out)))%nat with 0%nat by lia.
    by rewrite take_0, drop_0, app_nil_r.
  - rewrite !Nat.min_r by lia. rewrite (drop_ge kept (length kept)) by lia.
    rewrite take_nil, drop_nil, app_nil_r, !take_ge, drop_ge by lia. done.
Qed.

Lemma read_exact_bytes_ok n c :
  (n <= length (upcoming c))%nat ->
  exists c', read_exact_bytes n c = (c', Ok (take n (upcoming c))) /\ upcoming c' = drop n (upcoming c).
Proof.
  intros Hn. unfold read_exact_bytes, upcoming in *. rewrite drain_leftover_spec by (cbn; lia).
  cbn [app length]. rewrite Nat.sub_0_r, length_take. rewrite length_app in Hn.
  destruct (Nat.ltb_spec (Nat.min n (length (leftover c))) n) as [Hlt|Hge].
  - rewrite Nat.min_r by lia. rewrite take_ge, drop_ge by lia. rewrite take_app_ge, drop_app_ge by lia.
    destruct (read_exact_m_full RtspIo (stream c) (n - length (leftover c))) as (s & Hr & Hs); [lia|].
    exists (mkClient s (cseq c) (session c) []). split; [|done].
    unfold mbind, st_bind, on_stream. cbn [stream]. rewrite Hr. done.
  - rewrite take_app_le, drop_app_le by lia. eexists. split; [reflexivity|]. done.
Qed.

Lemma read_exact_bytes_short n c :
  (length (upcoming c) < n)%nat -> exists c' e, read_exact_bytes n c = (c', Err (RtspIo e)).
Proof.
  intros Hn. unfold read_exact_bytes, upcoming in *. rewrite drain_leftover_spec by (cbn; lia).
  cbn [app length]. rewrite Nat.sub_0_r, length_take. rewrite length_app in Hn.
  rewrite (proj2 (Nat.ltb_lt _ _)) by lia. rewrite Nat.min_r by lia.
  destruct (read_exact_m_eof RtspIo (stream c) (n - length (leftover c))) as (s & e & Hr); [lia|].
  exists (mkClient s (cseq c) (session c) (drop n (leftover c))), e.
  unfold mbind, st_bind, on_stream. cbn [stream cseq session leftover]. by rewrite Hr.
Qed.

Lemma exact_ok n c :
  (n <= length (upcoming c))%nat ->
  exists c', exact n c = (c', Ok (take n (upcoming c))) /\ upcoming c' = drop n (upcoming c).
Proof.
  intros Hn. destruct (read_exact_bytes_ok n c Hn) as (c' & Hr & Hu).
  exists c'. unfold exact. by rewrite Hr.
Qed.

(** Reading exactly a known prefix. *)
Lemma exact_prefix (p l : bytes) c :
  upcoming c = p ++ l -> exists c', exact (length p) c = (c', Ok p) /\ upcoming c' = l.
Proof.
  intros Hu. destruct (exact_ok (length p) c) as (c' & Hr & Hu'); [rewrite Hu; len|].
  exists c'. by rewrite Hr, Hu', Hu, take_app_length, drop_app_length.
Qed.

Lemma read_frame_ok rtp rtcp ch (payload l : bytes) c :
  Z.of_nat (length payload) < 65536 -> upcoming c = frame_bytes ch payload ++ l ->
  exists c', read_interleaved_frame rtp rtcp c = (c', Ok (frame_of rtp rtcp ch payload)) /\ upcoming c' = l.
Proof.
  intros Hl Hu. unfold frame_bytes in Hu.
  destruct (exact_prefix [0x24] ([ch] ++ to_be 2 (Z.of_nat (length payload)) ++ payload ++ l) c)
    as (c1 & Hr1 & Hu1); [by rewrite Hu, <- !app_assoc|].
  set (n := Z.of_nat (length payload)) in *.
  destruct (exact_prefix (ch :: to_be 2 n) (payload ++ l) c1) as (c2 & Hr2 & Hu2); [done|].
  destruct (exact_prefix payload l c2 Hu2) as (c3 & Hr3 & Hu3).
  exists c3. split; [|done]. unfold read_interleaved_frame.
  rewrite (st_bind_ok _ _ _ _ _ Hr1), st_bind_lift. cbn [index lookup list_lookup].
  unfold index at 1. cbn [lookup list_lookup]. rewrite st_bind_bail. cbn [Z.eqb Pos.eqb negb].
  assert (exists h1 h2, to_be 2 n = [h1; h2]) as (h1 & h2 & Hh) by (cbn [to_be]; eauto).
  rewrite Hh in Hr2. cbn [length] in Hr2.
  rewrite (st_bind_ok _ _ _ _ _ Hr2), !st_bind_lift. unfold index. cbn [lookup list_lookup].
  rewrite !st_bind_lift, <- Hh.
  rewrite (from_be_to_be_small 2 n) by (change (256 ^ Z.of_nat 2) with 65536; lia).
  unfold n at 1. rewrite Nat2Z.id, (st_bind_ok _ _ _ _ _ Hr3). done.
Qed.

(** Interleaved frames are read back one by one, on the channel they were
    sent on, with their payload byte for byte, whatever mixture of [leftover]
    and stream they come from, and nothing behind them is consumed. *)
Theorem interleaved_roundtrip (rtp rtcp : Z) (fs : list (Z * bytes)) (l : bytes) c
    (Hfs : Forall (fun f => Z.of_nat (length f.2) < 65536) fs)
    (Hu : upcoming c = concat (map (fun f => frame_bytes f.1 f.2) fs) ++ l) :
  exists c', read_frames (length fs) rtp rtcp c
      = (c', Ok (map (fun f => frame_of rtp rtcp f.1 f.2) fs)) /\ upcoming c' = l.
Proof.
  revert c Hu. induction Hfs as [|[ch payload] fs Hf Hfs IH]; intros c Hu; [by exists c|].
  cbn [map concat] in Hu. rewrite <- app_assoc in Hu.
  destruct (read_frame_ok rtp rtcp ch payload _ c Hf Hu) as (c1 & Hr1 & Hu1).
  destruct (IH c1 Hu1) as (c2 & Hr2 & Hu2). exists c2. split; [|done].
  cbn [length read_frames map]. by rewrite (st_bind_ok _ _ _ _ _ Hr1), (st_bind_ok _ _ _ _ _ Hr2).
Qed.

End facts.

(** ** Witnesses, on a list of bytes *)
Module RtspWitness.
Import ListStream.

Definition head : bytes := as_bytes (
  lit "RTSP/1.0 200 OK" ++ [CR; LF] ++ lit "CSeq: 5" ++ [CR; LF] ++ lit "Content-Length: 3" ++ [CR; LF; CR; LF]).
Definition play_head : bytes := as_bytes (
  lit "RTSP/1.0 200 OK" ++ [CR; LF] ++ lit "CSeq: 5" ++ [CR; LF; CR; LF]).

Lemma read_response_any_chunking_witness :
  exists s, read_response (E:=eof) 100 (connect (head ++ [1; 2; 3]))
    = (with_stream s (connect (head ++ [1; 2; 3])),
       Ok (mkResponse 200 [(lit "CSeq", lit "5"); (lit "Content-Length", lit "3")] [1; 2; 3])) /\
    pending (E:=eof) s = [].
Proof.
  apply (read_response_any_chunking (E:=eof) head [1; 2; 3]); try (vm_compute; reflexivity).
  - vm_compute. discriminate.
  - apply Nat.ltb_lt. vm_compute. reflexivity.
Defined.

(** The frame that came with the answer to PLAY is gone: the next read finds
    an empty stream. *)
Lemma read_ahead_is_dropped_witness :
  let c := connect (play_head ++ frame_bytes 0 [7; 8; 9]) in
  let '(c', _) := read_response (E:=eof) 1 c in
  leftover c' = [] /\ stream c' = [] /\
  is_ok (read_interleaved_frame (E:=eof) 0 1 c').2 = false.
Proof.
  cbv zeta.
  rewrite (read_ahead_is_dropped (E:=eof) play_head (frame_bytes 0 [7; 8; 9]) 200
    [(lit "CSeq", lit "5")] 0 _ []); [split; [|split]; reflexivity|vm_compute; reflexivity..| |].
  - vm_compute. discriminate.
  - vm_compute. reflexivity.
Defined.

Lemma interleaved_roundtrip_witness :
  exists c', read_frames (E:=eof) 2 0 1 (connect (frame_bytes 0 [7; 8] ++ frame_bytes 1 [9] ++ [1]))
    = (c', Ok [Rtp [7; 8]; Rtcp [9]]) /\ upcoming (E:=eof) c' = [1].
Proof.
  apply (interleaved_roundtrip (E:=eof) 0 1 [(0, [7; 8]); (1, [9])] [1]); [|reflexivity].
  repeat constructor.
Defined.

End RtspWitness.
