(* ===== verification/Sender.v ===== *)
(** * The sender's side of a stream (RFC 6184), and what a lossy network keeps of it

    A sender cuts NAL units into packets numbered from [s0]; the network loses,
    repeats and reorders them.  [in_step] is what the depacketizer and the
    expected number keep between them: a unit under reassembly is a prefix of
    one the sender sent.  It is stated apart from the states of the receivers
    and pipelines, which share it ([Receiver], [EndToEnd]). *)
From S2P Require Import Prelude Rtp H264.

(** ** What is sent *)
Inductive unit_ :=
| Single (nal : bytes)
| Aggregate (indicator : Z) (nals : list bytes)
| Fragmented (header : Z) (first : bytes) (mids : list bytes) (last : bytes).

Definition unit_payloads (u : unit_) : list bytes :=
  match u with
  | Single nal => [nal]
  | Aggregate i nals => [Depacketizer.stap_a i nals]
  | Fragmented h f ms l => Depacketizer.fragments h f ms l
  end.
Definition unit_nals (u : unit_) : list bytes :=
  match u with
  | Single nal => [nal]
  | Aggregate _ nals => nals
  | Fragmented h f ms l => [h :: f ++ concat ms ++ l]
  end.
Definition unit_ok (u : unit_) : Prop :=
  match u with
  | Single nal => exists b l, nal = b :: l /\ 1 <= Z.land b 0x1F <= 23
  | Aggregate i nals => Z.land i 0x1F = 24 /\ Forall DepacketizerFacts.nal_ok nals
  | Fragmented h _ _ _ => is_byte h
  end.

Definition payloads (us : list unit_) : list bytes := concat (map unit_payloads us).
(** The NAL units sent, behind their start codes. *)
Definition sent (us : list unit_) : list bytes := map annexb_from_raw_nal (concat (map unit_nals us)).

(** The [i]-th packet of the stream numbered from [s0]. *)
Definition packet_at (us : list unit_) (s0 : Z) (i : nat) (pkt : RtpPacket) : Prop :=
  payloads us !! i = Some (payload pkt) /\ sequence_number pkt = wrap16 (s0 + Z.of_nat i).

(** ** What arrives

    Numbers repeat every 65536 packets, so a packet can only be told by its
    number from those that are not that far from it. *)
Definition near (last : option nat) (i : nat) : Prop :=
  match last with None => True | Some j => Z.abs (Z.of_nat i - Z.of_nat j) < 65535 end.

(** Packets of the stream, in any order and number, each near the one that
    arrived before it, and anything unreadable between them. *)
Inductive on_stream (us : list unit_) (s0 : Z) : option nat -> list bytes -> Prop :=
| stream_end last : on_stream us s0 last []
| stream_packet last b pkt i bs :
    parse b = Ok pkt -> packet_at us s0 i pkt -> near last i -> on_stream us s0 (Some i) bs ->
    on_stream us s0 last (b :: bs)
| stream_unreadable last b bs :
    is_ok (parse b) = false -> on_stream us s0 last bs -> on_stream us s0 last (b :: bs).

(** A NAL unit under reassembly is a prefix of one of the sender's, cut behind
    the last packet, and the next packet expected is its next fragment. *)
Definition in_step (us : list unit_) (s0 : Z) (last : option nat) (expected : option Z) (d : Depacketizer.t) : Prop :=
  Depacketizer.fu_active d = true ->
  exists us1 h f m1 m2 l us2,
    let i := (length (payloads us1) + length m1)%nat in
    us = us1 ++ Fragmented h f (m1 ++ m2) l :: us2 /\ last = Some i /\
    expected = Some (wrap16 (s0 + Z.of_nat i + 1)) /\
    Depacketizer.fu_buf d = ANNEXB_START ++ [h] ++ f ++ concat m1.

(** The parameter sets that a gate holds are among some NAL units. *)
Definition gate_within (ok : list bytes) (g : SyncGate.t) : Prop :=
  (forall n, SyncGate.last_sps g = Some n -> n ∈ ok) /\ (forall n, SyncGate.last_pps g = Some n -> n ∈ ok).

(** ** The depacketizer *)
Section facts.
Context (us : list unit_) (s0 : Z).
Hypothesis Hus : Forall unit_ok us.
Implicit Types d : Depacketizer.t.

Lemma payloads_app a b : payloads (a ++ b) = payloads a ++ payloads b.
Proof. unfold payloads. by rewrite map_app, concat_app. Qed.

Lemma payloads_cons u l : payloads (u :: l) = unit_payloads u ++ payloads l.
Proof. done. Qed.

(** The packet at an index belongs to one unit. *)
Lemma payloads_lookup l i p :
  payloads l !! i = Some p ->
  exists us1 u us2 k, l = us1 ++ u :: us2 /\ unit_payloads u !! k = Some p /\ i = (length (payloads us1) + k)%nat.
Proof.
  revert i. induction l as [|u l IH]; intros i Hl; [done|].
  rewrite payloads_cons in Hl. destruct (decide (i < length (unit_payloads u))%nat) as [Hi|Hi].
  - rewrite lookup_app_l in Hl by done. exists [], u, l, i. done.
  - rewrite lookup_app_r in Hl by lia.
    destruct (IH _ Hl) as (us1 & u' & us2 & k & -> & Hk & Hi').
    exists (u :: us1), u', us2, k. split; [done|]. split; [done|]. rewrite payloads_cons, length_app. lia.
Qed.

(** Of the packets near the last, the one with the next number is the next. *)
Lemma next_index i j :
  wrap16 (s0 + Z.of_nat i) = wrap16 (s0 + Z.of_nat j + 1) -> near (Some j) i -> i = S j.
Proof. unfold wrap16, near. intros He Hn. Z.div_mod_to_equations; lia. Qed.

Lemma sent_unit us1 u us2 nal :
  us = us1 ++ u :: us2 -> nal ∈ unit_nals u -> annexb_from_raw_nal nal ∈ sent us.
Proof.
  intros -> Hn. unfold sent. apply list_elem_of_In, in_map. rewrite map_app, concat_app.
  cbn [map concat]. apply list_elem_of_In. rewrite !elem_of_app. auto.
Qed.

Lemma push_nil d : Depacketizer.push_rtp_payload [] d = (d, Ok []).
Proof. done. Qed.

Lemma unit_ok_at us1 u us2 : us = us1 ++ u :: us2 -> unit_ok u.
Proof. intros E. rewrite E, Forall_app, Forall_cons in Hus. tauto. Qed.

(** The fragment after [m1]. *)
Lemma next_fragment h f m1 m2 l :
  Depacketizer.fragments h f (m1 ++ m2) l !! (1 + length m1)%nat =
  Some (match m2 with
        | [] => Depacketizer.fu_a h false true l
        | m :: _ => Depacketizer.fu_a h false false m
        end).
Proof.
  transitivity ((map (Depacketizer.fu_a h false false) (m1 ++ m2) ++ [Depacketizer.fu_a h false true l])
                  !! length m1); [done|].
  rewrite map_app, <- app_assoc.
  rewrite lookup_app_r by (rewrite length_map; lia). rewrite length_map, Nat.sub_diag. by destruct m2.
Qed.

(** The packets that hold whole units. *)
Lemma push_single nal d : unit_ok (Single nal) ->
  Depacketizer.push_rtp_payload nal d = (d, Ok [annexb_from_raw_nal nal]).
Proof.
  intros (b & body & -> & Hb). unfold Depacketizer.push_rtp_payload. cbn [length Nat.eqb].
  rewrite st_bind_lift, DepacketizerFacts.index_head.
  by rewrite (proj2 (Z.leb_le _ _)), (proj2 (Z.leb_le _ _)) by lia.
Qed.
Lemma push_aggregate ind nals d : unit_ok (Aggregate ind nals) ->
  Depacketizer.push_rtp_payload (Depacketizer.stap_a ind nals) d = (d, Ok (map annexb_from_raw_nal nals)).
Proof.
  intros [Hi Hn]. unfold Depacketizer.push_rtp_payload, Depacketizer.stap_a. cbn [length Nat.eqb].
  rewrite st_bind_lift, DepacketizerFacts.index_head, Hi.
  change ((1 <=? 24) && (24 <=? 23)) with false. change (24 =? 24) with true. cbv iota.
  fold (Depacketizer.stap_a ind nals). unfold lift_outcome. by rewrite DepacketizerFacts.stap_a_complete.
Qed.

(** A packet accepted while nothing is being reassembled. *)
Lemma push_inactive i p d :
  payloads us !! i = Some p -> Depacketizer.fu_active d = false ->
  let '(d', r) := Depacketizer.push_rtp_payload p d in
  in_step us s0 (Some i) (Some (wrap16 (s0 + Z.of_nat i + 1))) d' /\
  match r with Ok nals => Forall (fun n => n ∈ sent us) nals | _ => d' = d end.
Proof.
  intros Hp Hd. apply payloads_lookup in Hp as (us1 & u & us2 & k & E & Hk & ->).
  pose proof (unit_ok_at _ _ _ E) as Hu.
  assert (forall d' l e, Depacketizer.fu_active d' = false -> in_step us s0 l e d')
    as Hidle by (intros d' l e Hd' Ha; congruence).
  destruct u as [nal|ind nals|h f ms l]; cbn [unit_payloads] in *.
  - apply list_lookup_singleton_Some in Hk as [-> <-]. rewrite push_single by done.
    split; [by apply Hidle|]. constructor; [|constructor]. eapply sent_unit; [exact E|]. apply list_elem_of_here.
  - apply list_lookup_singleton_Some in Hk as [-> <-]. rewrite push_aggregate by done.
    split; [by apply Hidle|]. apply Forall_map, Forall_forall. intros n Hin. by eapply sent_unit; [exact E|].
  - destruct k as [|k].
    + injection Hk as <-. rewrite DepacketizerFacts.push_fu_a by done.
      split; [|done]. intros _. exists us1, h, f, [], ms, l, us2. cbn [app length].
      split_and!; [done..|by cbn; rewrite app_nil_r].
    + assert (exists e b, p = Depacketizer.fu_a h false e b) as (e & b & ->).
      { change ((map (Depacketizer.fu_a h false false) ms ++ [Depacketizer.fu_a h false true l]) !! k = Some p) in Hk.
        apply lookup_app_Some in Hk as [Hk|[_ Hk]].
        - apply list_elem_of_lookup_2, list_elem_of_In, in_map_iff in Hk as (b & <- & _). eauto.
        - apply list_lookup_singleton_Some in Hk as [_ <-]. eauto. }
      rewrite DepacketizerFacts.push_fu_a by done. rewrite Hd. split; [by apply Hidle|done].
Qed.

(** The next packet, while a unit is being reassembled. *)
Lemma push_active i p d us1 h f m1 m2 l us2 :
  us = us1 ++ Fragmented h f (m1 ++ m2) l :: us2 -> i = S (length (payloads us1) + length m1) ->
  payloads us !! i = Some p -> Depacketizer.fu_active d = true ->
  Depacketizer.fu_buf d = ANNEXB_START ++ [h] ++ f ++ concat m1 ->
  let '(d', r) := Depacketizer.push_rtp_payload p d in
  in_step us s0 (Some i) (Some (wrap16 (s0 + Z.of_nat i + 1))) d' /\
  match r with Ok nals => Forall (fun n => n ∈ sent us) nals | _ => d' = d end.
Proof.
  intros E -> Hp Ha Hb. pose proof (unit_ok_at _ _ _ E) as Hh. cbn in Hh.
  rewrite E, payloads_app, payloads_cons in Hp. cbn [unit_payloads] in Hp.
  rewrite lookup_app_r in Hp by lia.
  replace (S (length (payloads us1) + length m1) - length (payloads us1))%nat with (1 + length m1)%nat in Hp by lia.
  rewrite lookup_app_l in Hp.
  2:{ unfold Depacketizer.fragments. cbn. rewrite length_app, length_map, length_app. cbn. lia. }
  rewrite next_fragment in Hp. injection Hp as <-.
  destruct m2 as [|m m2]; rewrite DepacketizerFacts.push_fu_a by done; rewrite Ha, Hb.
  - split; [done|]. constructor; [|constructor].
    rewrite app_nil_r in E. eapply (sent_unit _ _ _ (h :: f ++ concat m1 ++ l)) in E; [|apply list_elem_of_here].
    unfold annexb_from_raw_nal in E. by rewrite <- !app_assoc.
  - split; [|constructor]. intros _. exists us1, h, f, (m1 ++ [m]), m2, l, us2.
    cbn [Depacketizer.fu_buf]. rewrite length_app. cbn [length]. rewrite Nat.add_1_r, Nat.add_succ_r.
    split_and!; [by rewrite <- app_assoc|done|done|].
    rewrite concat_app. cbn. rewrite app_nil_r. by rewrite <- !app_assoc.
Qed.

(** The packet that is expected, or any packet when none is: what the
    depacketizer completes was sent, and it stays in step. *)
Lemma push_sent i pkt last expected d :
  packet_at us s0 i pkt -> near last i -> in_step us s0 last expected d ->
  match expected with Some e => sequence_number pkt = e | None => True end ->
  let '(d', r) := Depacketizer.push_rtp_payload (payload pkt) d in
  in_step us s0 (Some i) (Some (wrap16 (sequence_number pkt + 1))) d' /\
  match r with Ok nals => Forall (fun n => n ∈ sent us) nals | _ => d' = d end.
Proof.
  intros [Hp Hseq] Hnear Hin Hexp.
  assert (wrap16 (sequence_number pkt + 1) = wrap16 (s0 + Z.of_nat i + 1)) as ->
    by (rewrite Hseq; unfold wrap16; by rewrite Zplus_mod_idemp_l).
  destruct (Depacketizer.fu_active d) eqn:Ha; [|by apply push_inactive].
  destruct (Hin Ha) as (us1 & h & f & m1 & m2 & l & us2 & E & -> & -> & Hb).
  rewrite Hseq in Hexp. apply next_index in Hexp; [|done].
  by apply (push_active i _ _ us1 h f m1 m2 l us2).
Qed.

Lemma in_step_reset last expected d : in_step us s0 last expected (Depacketizer.reset d).
Proof. done. Qed.
Lemma in_step_new last expected : in_step us s0 last expected Depacketizer.new.
Proof. done. Qed.

(** *** Streams shorter than the numbers *)
Lemma near_short i j : (i < length (payloads us))%nat -> (j < length (payloads us))%nat ->
  Z.of_nat (length (payloads us)) < 65536 -> near (Some j) i.
Proof. unfold near. lia. Qed.
Lemma short_stream bs : Z.of_nat (length (payloads us)) < 65536 ->
  Forall (fun b => match parse b with Ok pkt => exists i, packet_at us s0 i pkt | _ => True end) bs ->
  on_stream us s0 None bs.
Proof.
  intros Hshort Hbs. assert (forall last, match last with Some j => (j < length (payloads us))%nat | None => True end ->
    on_stream us s0 last bs) as H; [|by apply H].
  induction Hbs as [|b bs Hb _ IH]; intros last Hl; [constructor|].
  destruct (parse b) as [pkt|e|] eqn:Hp; [|by apply stream_unreadable; [rewrite Hp|apply IH]..].
  destruct Hb as (i & Hi). pose proof (lookup_lt_Some _ _ _ (proj1 Hi)) as Hlt.
  apply (stream_packet _ _ _ _ pkt i); [done..| |by apply IH]. destruct last; [by apply near_short|done].
Qed.
End facts.

(** ** The gate *)
Lemma push_nal_within ok n g :
  gate_within ok g -> n ∈ ok ->
  gate_within ok (SyncGate.push_nal n g).1 /\ Forall (fun n => n ∈ ok) (SyncGate.push_nal n g).2.
Proof.
  intros [Hs Hp] Hn. unfold SyncGate.push_nal, gate_within.
  destruct g as [r sy [sp|] [pp|]]; cbn in *;
    repeat case_match; cbn; split_and!; intros; simplify_eq; auto; repeat constructor; auto.
Qed.
Lemma gate_within_reset ok g : gate_within ok g -> gate_within ok (SyncGate.reset g).
Proof. done. Qed.
Lemma gate_within_new ok r : gate_within ok (SyncGate.new r).
Proof. done. Qed.
Lemma gate_within_sprop ok sps pps g : sps ∈ ok -> pps ∈ ok -> gate_within ok (SyncGate.set_sprop_param_sets sps pps g).
Proof. intros Hs Hp. by split; cbn; intros n [= <-]. Qed.
