(* ===== verification/Receiver.v ===== *)
(** * The RTSP receivers ([rtsp/rtsp_receiver_tcp.rs], [rtsp/rtsp_receiver_udp.rs])

    The RTSP handshake, and the loops that turn RTP packets into Annex-B NAL
    units: continuity of sequence numbers, depacketizer, sync gate, and, over
    UDP, the validation of the packets' source and the startup watchdog.
    [try_send] never waits and its result is ignored: a loop's output is the
    list of NAL units it offers to the channel. *)
From S2P Require Import Prelude Io Str Rtp H264 Sdp Rtsp Sender.

(** ** Text helpers *)
Definition header_value := header_get.

Fixpoint find_map {A B} (f : A -> option (option B)) (l : list A) : option B :=
  match l with
  | [] => None
  | a :: l => match f a with Some r => r | None => find_map f l end
  end.

(** [Some r] from the loop body is a [return r] (or a [?] that fails). *)
Definition parse_interleaved_channels (transport : str) : option (Z * Z) :=
  find_map (fun part =>
    match strip_prefix (lit "interleaved=") (trim part) with
    | Some v => Some (
        '(a, b) ← split_once 45 v;
        rtp ← parse_u8 a;
        rtcp ← parse_u8 b;
        Some (rtp, rtcp))
    | None => None
    end) (split_char 59 transport).

Definition parse_server_rtp_port (transport : str) : option Z :=
  find_map (fun part =>
    match strip_prefix (lit "server_port=") (trim part) with
    | Some v => Some ('(rtp_port, _) ← split_once 45 v; parse_u16 rtp_port)
    | None => None
    end) (split_char 59 transport).

Definition basic_auth_value `{Base64} (user pass : str) : str :=
  let token := user ++ 58 :: pass in
  lit "Basic " ++ b64_encode (as_bytes token).

(** One pair of quotes around the text is removed (the slice is on bytes, and
    the quotes are single bytes). *)
Definition unquote (s : str) : str :=
  if (2 <=? length (as_bytes s))%nat then
    match s, last s with
    | first :: _, Some l =>
        if ((first =? 34) && (l =? 34)) || ((first =? 39) && (l =? 39))
        then take (length s - 2) (drop 1 s) else s
    | _, _ => s
    end
  else s.

Definition setup_url_of (rtsp_url control : str) : str :=
  if starts_with (lit "rtsp://") control then control
  else trim_end_matches 47 rtsp_url ++ 47 :: trim_start_matches 47 control.

(** ** The packet path, common to both loops *)
Record path := mkPath {
  dep : Depacketizer.t;
  gate : SyncGate.t;
  expected_seq : option Z;
}.

Definition reset_path (expected : option Z) (s : path) : path :=
  mkPath (Depacketizer.reset (dep s)) (SyncGate.reset (gate s)) expected.

(** [for nal in nals { for out in gate.push_nal(nal) { .. } }] *)
Fixpoint push_nals (nals : list bytes) (g : SyncGate.t) : SyncGate.t * list bytes :=
  match nals with
  | [] => (g, [])
  | nal :: nals =>
      let '(g, out) := SyncGate.push_nal nal g in
      let '(g, outs) := push_nals nals g in
      (g, out ++ outs)
  end.

(** A well-formed packet: the NAL units the depacketizer completes, and the
    state; a gap drops the packet. *)
Definition depacketize (pkt : RtpPacket) (s : path) : path * list bytes :=
  let next := wrap16 (sequence_number pkt + 1) in
  let gap := match expected_seq s with
             | Some exp => negb (sequence_number pkt =? exp)
             | None => false
             end in
  if gap then (reset_path (Some next) s, [])
  else
    match Depacketizer.push_rtp_payload (payload pkt) (dep s) with
    | (d, Ok nals) => (mkPath d (gate s) (Some next), nals)
    | (d, _) => (reset_path None (mkPath d (gate s) (Some next)), [])
    end.

Definition on_packet (pkt : RtpPacket) (s : path) : path * list bytes :=
  let '(s, nals) := depacketize pkt s in
  let '(g, outs) := push_nals nals (gate s) in
  (mkPath (dep s) g (expected_seq s), outs).

Definition initial_gate (require_idr_sync : bool) (track : SdpVideoTrack) : SyncGate.t :=
  let gate := SyncGate.new require_idr_sync in
  match sprop_sps track, sprop_pps track with
  | Some sps, Some pps =>
      SyncGate.set_sprop_param_sets (annexb_from_raw_nal sps) (annexb_from_raw_nal pps) gate
  | _, _ => gate
  end.

Inductive receiver_error (E : Type) :=
| StatusNot200 (method : str) (status : Z)
| MissingTransport
| MissingInterleaved
| NoValidRtp
| SdpError (e : sdp_error)
| ReceiverRtsp (e : rtsp_error E)
| ReceiverFrame (e : frame_error E)
| SocketError.
Arguments StatusNot200 {E}.
Arguments MissingTransport {E}.
Arguments MissingInterleaved {E}.
Arguments NoValidRtp {E}.
Arguments SdpError {E}.
Arguments ReceiverRtsp {E}.
Arguments ReceiverFrame {E}.
Arguments SocketError {E}.

(** ** [rtsp_receiver_tcp.rs] *)
Module Tcp.

Record Config := mkConfig {
  rtsp_url : str;
  host : str;
  port : Z;
  user : str;
  pass : str;
  play_range : str;
  interleaved_request : str;
  require_idr_sync : bool;
}.

(** [from_env_defaults], over the agent's configuration lookup; the name of a
    variable that is missing. *)
Definition from_env_defaults (runtime_var : str -> option str) : outcome String.string Config :=
  rtsp_url ← ok_or (runtime_var (lit "RTSP_URL")) "RTSP_URL"%string;
  host ← ok_or (runtime_var (lit "RTSP_HOST")) "RTSP_HOST"%string;
  let port := default 554 (v ← runtime_var (lit "RTSP_PORT"); parse_u16 v) in
  user ← ok_or (runtime_var (lit "RTSP_USER")) "RTSP_USER"%string;
  pass ← ok_or (runtime_var (lit "RTSP_PASS")) "RTSP_PASS"%string;
  mret (mkConfig rtsp_url host port user pass (lit "npt=0.000-")
    (lit "RTP/AVP/TCP;unicast;interleaved=0-1;mode=play") true).

(** One interleaved frame. *)
Definition on_frame (f : InterleavedFrame) (s : path) : path * list bytes :=
  match f with
  | Rtp b =>
      match parse b with
      | Ok pkt => on_packet pkt s
      | _ => (reset_path None s, [])
      end
  | Rtcp _ => (s, [])
  | Unknown _ _ => (s, [])
  end.

Section session.
Context {S E : Type} `{AsyncRead S E} `{AsyncReadSome S E} `{AsyncWrite S E} `{Base64}.
Variable fuel : nat.

(** A request whose answer must be 200. *)
Definition request_ok (method url : str) (hs : list (str * str))
    : st (RtspClient S) (receiver_error E) RtspResponse := fun c =>
  match request fuel method url hs None c with
  | (c, Ok r) => if negb (status r =? 200) then (c, Err (StatusNot200 method (status r))) else (c, Ok r)
  | (c, Err e) => (c, Err (ReceiverRtsp e))
  | (c, Panic) => (c, Panic)
  end.

(** OPTIONS, DESCRIBE, SETUP, PLAY: the track and the two channels. *)
Definition handshake (cfg : Config) : st (RtspClient S) (receiver_error E) (SdpVideoTrack * Z * Z) :=
  let authz := basic_auth_value (user cfg) (pass cfg) in
  request_ok (lit "OPTIONS") (rtsp_url cfg) [(lit "Authorization", authz)] ;;
  r ← request_ok (lit "DESCRIBE") (rtsp_url cfg)
        [(lit "Accept", lit "application/sdp"); (lit "Authorization", authz)];
  let sdp := from_utf8_lossy (body r) in
  track ← lift_outcome (match parse_sdp_video_track sdp with
                        | Ok t => Ok t | Err e => Err (SdpError e) | Panic => Panic end);
  let setup_url := setup_url_of (rtsp_url cfg) (control track) in
  r ← request_ok (lit "SETUP") setup_url
        [(lit "Transport", interleaved_request cfg); (lit "Authorization", authz)];
  (fun c => (set_session_from r c, Ok tt)) ;;
  transport ← lift_outcome (ok_or (header_value (headers r) (lit "Transport")) MissingTransport);
  '(rtp, rtcp) ← lift_outcome (ok_or (parse_interleaved_channels transport) MissingInterleaved);
  request_ok (lit "PLAY") (rtsp_url cfg) [(lit "Range", play_range cfg); (lit "Authorization", authz)] ;;
  mret (track, rtp, rtcp).

(** The loop, up to [n] frames: it ends only with a read error. *)
Fixpoint receive (n : nat) (rtp rtcp : Z) (s : path) (c : RtspClient S)
    : path * RtspClient S * list bytes * option (receiver_error E) :=
  match n with
  | O => (s, c, [], None)
  | Datatypes.S n =>
      match read_interleaved_frame rtp rtcp c with
      | (c, Ok f) =>
          let '(s, out) := on_frame f s in
          let '(s, c, outs, e) := receive n rtp rtcp s c in
          (s, c, out ++ outs, e)
      | (c, Err e) => (s, c, [], Some (ReceiverFrame e))
      | (c, Panic) => (s, c, [], None)
      end
  end.

Definition run_tcp_interleaved_receiver (n : nat) (cfg : Config) (stream : S)
    : list bytes * option (receiver_error E) :=
  match handshake cfg (connect stream) with
  | (c, Ok (track, rtp, rtcp)) =>
      let s := mkPath Depacketizer.new (initial_gate (require_idr_sync cfg) track) None in
      let '(_, _, outs, e) := receive n rtp rtcp s c in (outs, e)
  | (_, Err e) => ([], Some e)
  | (_, Panic) => ([], None)
  end.

End session.
End Tcp.

(** ** [rtsp_receiver_udp.rs] *)
Module Udp.

Record Config := mkConfig {
  host : str;
  port : Z;
  cfg_path : str;
  rtp_port : Z;
  rtcp_port : Z;
  user : str;
  pass : str;
}.

Definition rtsp_url (cfg : Config) : str :=
  let path := if starts_with (lit "/") (cfg_path cfg) then cfg_path cfg else 47 :: cfg_path cfg in
  lit "rtsp://" ++ host cfg ++ 58 :: dec (port cfg) ++ path.

Definition has_auth (cfg : Config) : bool := negb (bool_decide (user cfg = [])).

(** [from_env], over the agent's configuration lookup. *)
Definition or_else {A} (a b : option A) : option A := match a with Some _ => a | None => b end.
Definition from_env (runtime_var : str -> option str) : Config :=
  let host := default (lit "192.168.1.187") (or_else (runtime_var (lit "UDP_RTSP_HOST")) (runtime_var (lit "RTSP_HOST"))) in
  let port := default 554 (v ← or_else (runtime_var (lit "UDP_RTSP_PORT")) (runtime_var (lit "RTSP_PORT")); parse_u16 v) in
  let path := default (lit "/stream2") (or_else (runtime_var (lit "UDP_RTSP_PATH")) (runtime_var (lit "RTSP_PATH"))) in
  let rtp_port := default 5004 (v ← runtime_var (lit "UDP_RTP_PORT"); parse_u16 v) in
  let rtcp_port := default 5005 (v ← runtime_var (lit "UDP_RTCP_PORT"); parse_u16 v) in
  let user := default [] (or_else (runtime_var (lit "UDP_RTSP_USER")) (runtime_var (lit "RTSP_USER"))) in
  let pass := default [] (or_else (runtime_var (lit "UDP_RTSP_PASS")) (runtime_var (lit "RTSP_PASS"))) in
  mkConfig (unquote host) port (unquote path) rtp_port rtcp_port (unquote user) (unquote pass).

(** *** Sources *)
Section source.
Context {Ip : Type} `{EqDecision Ip}.

Record ExpectedRtpSource := mkExpected { exp_ip : Ip; exp_port : option Z }.
Inductive SourceRejectReason := UnexpectedIp | UnexpectedPort.
Inductive SourceValidation := Accept | Reject (r : SourceRejectReason).

Record SourceValidator := mkValidator {
  expected : option ExpectedRtpSource;
  pinned_ip : option Ip;
}.

Definition new_validator (e : option ExpectedRtpSource) : SourceValidator := mkValidator e None.

(** [sender]: its address and port. *)
Definition validate (sender : Ip * Z) (v : SourceValidator) : SourceValidator * SourceValidation :=
  match expected v with
  | Some e =>
      if negb (bool_decide (sender.1 = exp_ip e)) then (v, Reject UnexpectedIp)
      else match exp_port e with
           | Some p => if negb (sender.2 =? p) then (v, Reject UnexpectedPort) else (v, Accept)
           | None => (v, Accept)
           end
  | None =>
      match pinned_ip v with
      | Some ip => if negb (bool_decide (sender.1 = ip)) then (v, Reject UnexpectedIp) else (v, Accept)
      | None => (mkValidator None (Some sender.1), Accept)
      end
  end.

Definition should_log_rate_limited (count : Z) : bool := (count <=? 3) || (count mod 100 =? 0).

(** *** The loop *)
Record t := mk {
  rx : path;
  validator : SourceValidator;
  mismatches : Z;
  first_valid_rtp : bool;
}.

(** What one turn of [select!] yields: the cancellation, or the outcome of the
    receive; [remaining] is the watchdog's remaining time when the receive
    starts, [Late] that the timer fired first (there is a timer only before
    the first valid packet). *)
Inductive received := Datagram (b : bytes) (src : Ip * Z) | Late | Failed.
Inductive turn := Cancelled | Received (remaining : Z) (r : received).

(** The loop goes on, breaks (cancelled), or fails. *)
Inductive verdict := Continue | Break | WatchdogFired | Broken.

Definition on_datagram (b : bytes) (src : Ip * Z) (s : t) : t * list VideoNal :=
  match parse b with
  | Ok pkt =>
      let '(v, r) := validate src (validator s) in
      match r with
      | Accept =>
          let '(p, outs) := on_packet pkt (rx s) in
          (mk p v (mismatches s) true,
           map (fun out => mkVideoNal out (timestamp pkt) (marker pkt)) outs)
      | Reject _ => (mk (rx s) v (mismatches s + 1) (first_valid_rtp s), [])
      end
  | _ => (mk (reset_path None (rx s)) (validator s) (mismatches s) (first_valid_rtp s), [])
  end.

Definition step (e : turn) (s : t) : t * list VideoNal * verdict :=
  match e with
  | Cancelled => (s, [], Break)
  | Received remaining r =>
      let r := if first_valid_rtp s then r else if remaining <=? 0 then Late else r in
      match r with
      | Datagram b src => let '(s, out) := on_datagram b src s in (s, out, Continue)
      | Late => (s, [], WatchdogFired)
      | Failed => (s, [], Broken)
      end
  end.

Fixpoint receive (es : list turn) (s : t) : t * list VideoNal * verdict :=
  match es with
  | [] => (s, [], Continue)
  | e :: es =>
      let '(s, out, v) := step e s in
      match v with
      | Continue => let '(s, outs, v) := receive es s in (s, out ++ outs, v)
      | _ => (s, out, v)
      end
  end.

Definition start (require_idr : bool) (track : SdpVideoTrack) (e : option ExpectedRtpSource) : t :=
  mk (mkPath Depacketizer.new (initial_gate require_idr track) None) (new_validator e) 0 false.

End source.

Section session.
Context {S E : Type} `{AsyncRead S E} `{AsyncReadSome S E} `{AsyncWrite S E} `{Base64}.
Variable fuel : nat.

Definition handshake (cfg : Config) : st (RtspClient S) (receiver_error E) (SdpVideoTrack * option Z) :=
  let url := rtsp_url cfg in
  let common := if has_auth cfg then [(lit "Authorization", basic_auth_value (user cfg) (pass cfg))] else [] in
  Tcp.request_ok fuel (lit "OPTIONS") url common ;;
  r ← Tcp.request_ok fuel (lit "DESCRIBE") url (common ++ [(lit "Accept", lit "application/sdp")]);
  let sdp := from_utf8_lossy (body r) in
  track ← lift_outcome (match parse_sdp_video_track sdp with
                        | Ok t => Ok t | Err e => Err (SdpError e) | Panic => Panic end);
  let setup_url := setup_url_of url (control track) in
  let transport := lit "RTP/AVP;unicast;client_port=" ++ dec (rtp_port cfg) ++ 45 :: dec (rtcp_port cfg)
                     ++ lit ";mode=play" in
  r ← Tcp.request_ok fuel (lit "SETUP") setup_url (common ++ [(lit "Transport", transport)]);
  let negotiated := default [] (header_value (headers r) (lit "Transport")) in
  let port := parse_server_rtp_port negotiated in
  (fun c => (set_session_from r c, Ok tt)) ;;
  Tcp.request_ok fuel (lit "PLAY") url (common ++ [(lit "Range", lit "npt=0.000-")]) ;;
  mret (track, port).

(** The whole receiver: [resolved] is the server's address if it resolves,
    [es] the turns of the loop; a cancellation tries a TEARDOWN. *)
Definition run_udp_receiver {Ip} `{EqDecision Ip} (cfg : Config) (resolved : option Ip)
    (es : list (@turn Ip)) (stream : S) : RtspClient S * list VideoNal * outcome (receiver_error E) unit :=
  match handshake cfg (connect stream) with
  | (c, Ok (track, port)) =>
      let expected := (fun ip => mkExpected ip port) <$> resolved in
      let '(_, out, v) := receive es (start true track expected) in
      match v with
      | Break =>
          let common := if has_auth cfg then [(lit "Authorization", basic_auth_value (user cfg) (pass cfg))] else [] in
          ((request fuel (lit "TEARDOWN") (rtsp_url cfg) common None c).1, out, Ok tt)
      | WatchdogFired => (c, out, Err NoValidRtp)
      | Broken => (c, out, Err SocketError)
      | Continue => (c, out, Ok tt)
      end
  | (c, Err e) => (c, [], Err e)
  | (c, Panic) => (c, [], Panic)
  end.

End session.
End Udp.

(** ** Frames *)
Fixpoint on_frames (fs : list InterleavedFrame) (s : path) : path * list bytes :=
  match fs with
  | [] => (s, [])
  | f :: fs =>
      let '(s, out) := Tcp.on_frame f s in
      let '(s, outs) := on_frames fs s in (s, out ++ outs)
  end.
Definition rtp_bytes (fs : list InterleavedFrame) : list bytes :=
  omap (fun f => match f with Rtp b => Some b | _ => None end) fs.

(** ** Lossy networks *)
Section facts.
Context (us : list unit_) (s0 : Z).
Hypothesis Hus : Forall unit_ok us.

Lemma depacketize_sent i last pkt s :
  packet_at us s0 i pkt -> near last i -> in_step us s0 last (expected_seq s) (dep s) ->
  let '(s', nals) := depacketize pkt s in
  in_step us s0 (Some i) (expected_seq s') (dep s') /\ Forall (fun n => n ∈ sent us) nals /\
  (gate s' = gate s \/ gate s' = SyncGate.reset (gate s)).
Proof.
  intros Hp Hnear Hin. unfold depacketize.
  destruct (match expected_seq s with Some exp => _ | None => false end) eqn:Hgap.
  { split_and!; [apply in_step_reset|done|by right]. }
  pose proof (push_sent us s0 Hus i pkt last (expected_seq s) (dep s) Hp Hnear Hin) as Hpush.
  destruct (Depacketizer.push_rtp_payload _ _) as [d r]. destruct Hpush as [Hi Hr].
  { destruct (expected_seq s); [|done]. by apply negb_false_iff, Z.eqb_eq in Hgap. }
  destruct r as [nals| |]; [split_and!; [exact Hi|exact Hr|by left]|..];
    (split_and!; [apply in_step_reset|done|by right]).
Qed.

Lemma push_nals_within ok nals g :
  gate_within ok g -> Forall (fun n => n ∈ ok) nals ->
  gate_within ok (push_nals nals g).1 /\ Forall (fun n => n ∈ ok) (push_nals nals g).2.
Proof.
  intros Hg Hn. revert g Hg. induction Hn as [|n nals Hn _ IH]; intros g Hg; [done|].
  cbn [push_nals]. destruct (push_nal_within ok n g Hg Hn) as [H1 H2].
  destruct (SyncGate.push_nal n g) as [g1 out]. destruct (IH g1 H1) as [H3 H4].
  destruct (push_nals nals g1) as [g2 outs]. split; [done|]. by apply Forall_app.
Qed.

(** What a receiver keeps between two frames, and what it has handed on. *)
Definition path_sent (ok : list bytes) (last : option nat) (x : path * list bytes) : Prop :=
  in_step us s0 last (expected_seq x.1) (dep x.1) /\ gate_within ok (gate x.1) /\ Forall (fun n => n ∈ ok) x.2.

Lemma on_packet_sent ok i last pkt s :
  (forall n, n ∈ sent us -> n ∈ ok) -> packet_at us s0 i pkt -> near last i -> path_sent ok last (s, []) ->
  path_sent ok (Some i) (on_packet pkt s).
Proof.
  intros Hok Hp Hnear (Hin & Hg & _). unfold on_packet. pose proof (depacketize_sent i last pkt s Hp Hnear Hin) as Hd.
  destruct (depacketize pkt s) as [s1 nals]. destruct Hd as (H1 & H2 & H3).
  assert (gate_within ok (gate s1)) as Hg1 by (destruct H3 as [-> | ->]; exact Hg).
  destruct (push_nals_within ok nals (gate s1) Hg1) as [H4 H5].
  { eapply Forall_impl; [exact H2|]. intros n. apply Hok. }
  by destruct (push_nals nals (gate s1)) as [g outs].
Qed.

Lemma on_frames_sent ok fs s last :
  (forall n, n ∈ sent us -> n ∈ ok) -> on_stream us s0 last (rtp_bytes fs) -> path_sent ok last (s, []) ->
  Forall (fun n => n ∈ ok) (on_frames fs s).2.
Proof.
  intros Hok. revert s last. induction fs as [|f fs IH]; intros s last Hfs Hs; [done|]. cbn [on_frames].
  enough (exists last', on_stream us s0 last' (rtp_bytes fs) /\ path_sent ok last' (Tcp.on_frame f s)) as (last' & Hl & H1).
  { destruct (Tcp.on_frame f s) as [s1 out], H1 as (H1 & H2 & H3). specialize (IH s1 last' Hl).
    destruct (on_frames fs s1) as [s2 outs]. apply Forall_app. split; [exact H3|by apply IH]. }
  destruct f as [b| |]; [|by exists last..]. cbn in Hfs. cbn [Tcp.on_frame].
  inversion Hfs as [|last1 b1 pkt i bs Hb Hp Hn Hbs|last1 b1 bs Hb Hbs]; subst.
  - exists (Some i). rewrite Hb. split; [exact Hbs|by eapply on_packet_sent].
  - exists last. split; [exact Hbs|]. destruct (parse b); [done|..]; (split; [apply in_step_reset|apply Hs]).
Qed.

Lemma initial_gate_within require_idr track l :
  gate_within (l ++ map annexb_from_raw_nal (option_list (sprop_sps track) ++ option_list (sprop_pps track)))
    (initial_gate require_idr track).
Proof.
  unfold initial_gate. destruct (sprop_sps track) as [sp|], (sprop_pps track) as [pp|]; [|apply gate_within_new..].
  apply gate_within_sprop; apply elem_of_app; right; [apply list_elem_of_here|apply list_elem_of_further, list_elem_of_here].
Qed.

(** C1: whatever the network does to the packets of a stream (losses,
    repetitions, reorderings, unreadable packets and foreign frames between
    them), every NAL unit the receiver hands on is one the sender sent, byte
    for byte, or one of the parameter sets of the description: a NAL unit with
    a missing fragment is never delivered.  The stream may be of any length;
    two packets that arrive one after the other must not be as far apart as
    there are sequence numbers. *)
Theorem lossy_network_no_corruption (fs : list InterleavedFrame) (require_idr : bool) (track : SdpVideoTrack)
    (Hfs : on_stream us s0 None (rtp_bytes fs)) :
  let sprop := map annexb_from_raw_nal (option_list (sprop_sps track) ++ option_list (sprop_pps track)) in
  Forall (fun n => n ∈ sent us ++ sprop)
    (on_frames fs (mkPath Depacketizer.new (initial_gate require_idr track) None)).2.
Proof.
  cbv zeta. apply on_frames_sent with (last := None); [|done|].
  { intros n Hn. apply elem_of_app. by left. }
  split_and!; [apply in_step_new|by apply initial_gate_within|done].
Qed.

End facts.

(** ** Sources of datagrams *)
Section sources.
Context {Ip : Type} `{EqDecision Ip}.
Implicit Types (s : @Udp.t Ip) (e : @Udp.turn Ip).

(** A readable RTP packet, in time, from a source the server did not announce. *)
Definition foreign (x : @Udp.ExpectedRtpSource Ip) (e : @Udp.turn Ip) : bool :=
  match e with
  | Udp.Received remaining (Udp.Datagram b src) =>
      (0 <? remaining) && is_ok (parse b) &&
      (negb (bool_decide (src.1 = Udp.exp_ip x)) ||
       match Udp.exp_port x with Some p => negb (src.2 =? p) | None => false end)
  | _ => false
  end.

(** Equal but for the counter of mismatches. *)
Definition same_rx (s s' : @Udp.t Ip) : Prop :=
  Udp.rx s = Udp.rx s' /\ Udp.validator s = Udp.validator s' /\ Udp.first_valid_rtp s = Udp.first_valid_rtp s'.

Lemma validate_expected x (src : Ip * Z) v :
  Udp.expected v = Some x -> (Udp.validate src v).1 = v.
Proof. intros Hx. unfold Udp.validate. rewrite Hx. by repeat case_match. Qed.

Lemma step_same_rx e s s' :
  same_rx s s' ->
  same_rx (Udp.step e s).1.1 (Udp.step e s').1.1 /\ (Udp.step e s).1.2 = (Udp.step e s').1.2 /\
  (Udp.step e s).2 = (Udp.step e s').2.
Proof.
  destruct s as [p v m f], s' as [p' v' m' f']. intros (Hp & Hv & Hf). cbn in *. subst p' v' f'.
  destruct e as [|rem r]; [done|]. cbn [Udp.step Udp.first_valid_rtp].
  destruct (if f then r else if rem <=? 0 then Udp.Late else r) as [b src| |]; [|done..].
  unfold Udp.on_datagram. destruct (parse b) as [pkt| |]; [|done..]. cbn [Udp.validator Udp.rx].
  destruct (Udp.validate src v) as [v1 [|re]]; [|done]. by destruct (on_packet pkt p).
Qed.

Lemma receive_same_rx es s s' :
  same_rx s s' -> (Udp.receive es s).1.2 = (Udp.receive es s').1.2 /\ (Udp.receive es s).2 = (Udp.receive es s').2.
Proof.
  revert s s'. induction es as [|e es IH]; intros s s' Hs; [done|]. cbn [Udp.receive].
  destruct (step_same_rx e s s' Hs) as (H1 & H2 & H3).
  destruct (Udp.step e s) as [[s1 o1] v1], (Udp.step e s') as [[s2 o2] v2]. cbn [fst snd] in *. subst o2 v2.
  destruct v1; [|done..]. destruct (IH s1 s2 H1) as [H4 H5].
  destruct (Udp.receive es s1) as [[? ?] ?], (Udp.receive es s2) as [[? ?] ?]. cbn in *. by subst.
Qed.

Lemma step_foreign x e s :
  Udp.expected (Udp.validator s) = Some x -> foreign x e = true ->
  same_rx (Udp.step e s).1.1 s /\ (Udp.step e s).1.2 = [] /\ (Udp.step e s).2 = Udp.Continue.
Proof.
  intros Hx Hf. destruct e as [|rem [b src| |]]; [done| |done..]. cbn [foreign] in Hf.
  rewrite !andb_true_iff, Z.ltb_lt in Hf. destruct Hf as [[Hr Hb] Hsrc].
  assert (Udp.step (Udp.Received rem (Udp.Datagram b src)) s
    = (let '(s, out) := Udp.on_datagram b src s in (s, out, Udp.Continue))) as ->.
  { cbn [Udp.step]. rewrite (proj2 (Z.leb_gt _ _)) by lia. by destruct (Udp.first_valid_rtp s). }
  unfold Udp.on_datagram. destruct (parse b) as [pkt| |]; [|done..].
  unfold Udp.validate. rewrite Hx. destruct (negb (bool_decide _)) eqn:E; [done|].
  destruct (Udp.exp_port x) as [p|]; [|done]. cbn [orb] in Hsrc. by rewrite Hsrc.
Qed.

Lemma step_expected x e s :
  Udp.expected (Udp.validator s) = Some x -> Udp.expected (Udp.validator (Udp.step e s).1.1) = Some x.
Proof.
  intros Hx. destruct e as [|rem r]; [done|]. cbn [Udp.step].
  destruct (if Udp.first_valid_rtp s then _ else _) as [b src| |]; [|done..].
  unfold Udp.on_datagram. destruct (parse b) as [pkt| |]; [|done..].
  pose proof (validate_expected x src _ Hx) as Hv.
  destruct (Udp.validate src (Udp.validator s)) as [v1 [|re]]; cbn [fst] in Hv; subst v1; [|done].
  by destruct (on_packet pkt (Udp.rx s)).
Qed.

(** Once the server's address is known, readable packets from any other
    source, however many and wherever they fall, change nothing of what is
    delivered nor of how the loop ends. *)
Theorem foreign_packets_ignored (x : @Udp.ExpectedRtpSource Ip) (es : list (@Udp.turn Ip)) (s : @Udp.t Ip)
    (Hx : Udp.expected (Udp.validator s) = Some x) :
  (Udp.receive es s).1.2 = (Udp.receive (List.filter (fun e => negb (foreign x e)) es) s).1.2 /\
  (Udp.receive es s).2 = (Udp.receive (List.filter (fun e => negb (foreign x e)) es) s).2.
Proof.
  revert s Hx. induction es as [|e es IH]; intros s Hx; [done|].
  cbn [List.filter]. destruct (foreign x e) eqn:Hf; cbn [negb].
  - destruct (step_foreign x e s Hx Hf) as (H1 & H2 & H3).
    pose proof (step_expected x e s Hx) as Hx1.
    rewrite <- (proj1 (receive_same_rx (List.filter _ es) _ _ H1)), <- (proj2 (receive_same_rx (List.filter _ es) _ _ H1)).
    destruct (IH _ Hx1) as [<- <-]. cbn [Udp.receive].
    destruct (Udp.step e s) as [[s1 o1] v1]. cbn [fst snd] in *. subst o1 v1.
    by destruct (Udp.receive es s1) as [[? ?] ?].
  - cbn [Udp.receive]. pose proof (step_expected x e s Hx) as Hx1.
    destruct (Udp.step e s) as [[s1 o1] v1]. cbn [fst] in Hx1. destruct v1; [|done..].
    destruct (IH s1 Hx1) as [H4 H5].
    destruct (Udp.receive es s1) as [[? ?] ?], (Udp.receive (List.filter _ es) s1) as [[? ?] ?].
    cbn in *. by subst.
Qed.

(** A datagram that is not readable as RTP is not filtered by its source:
    from any address it empties the reassembly, closes the gate and forgets
    the sequence, before the source is looked at. *)
Theorem unreadable_datagram_resets (b : bytes) (src : Ip * Z) (s : @Udp.t Ip)
    (Hb : is_ok (parse b) = false) :
  Udp.on_datagram b src s =
    (Udp.mk (mkPath Depacketizer.new (SyncGate.reset (gate (Udp.rx s))) None)
       (Udp.validator s) (Udp.mismatches s) (Udp.first_valid_rtp s), []).
Proof. unfold Udp.on_datagram. by destruct (parse b). Qed.

(** What the loop looks at, once the server's address is known: packets from
    there, and anything unreadable. *)
Definition from_server (x : @Udp.ExpectedRtpSource Ip) (src : Ip * Z) : bool :=
  bool_decide (src.1 = Udp.exp_ip x) && match Udp.exp_port x with Some p => src.2 =? p | None => true end.
Definition looked_at (x : @Udp.ExpectedRtpSource Ip) (es : list (@Udp.turn Ip)) : list bytes :=
  omap (fun e => match e with
                 | Udp.Received _ (Udp.Datagram b src) => if from_server x src || negb (is_ok (parse b)) then Some b else None
                 | _ => None
                 end) es.

Lemma validate_from_server x src v :
  Udp.expected v = Some x -> ((Udp.validate src v).2 = Udp.Accept <-> from_server x src = true).
Proof.
  intros Hx. unfold Udp.validate, from_server. rewrite Hx. case_bool_decide; cbn [negb andb]; [|done].
  destruct (Udp.exp_port x) as [p|]; [|done]. by destruct (src.2 =? p).
Qed.

Lemma on_datagram_sent us (s0 : Z) ok x b src s last :
  Forall unit_ok us -> (forall n, n ∈ sent us -> n ∈ ok) -> Udp.expected (Udp.validator s) = Some x ->
  path_sent us s0 ok last (Udp.rx s, []) ->
  forall bs, on_stream us s0 last ((if from_server x src || negb (is_ok (parse b)) then [b] else []) ++ bs) ->
  exists last', on_stream us s0 last' bs /\
    path_sent us s0 ok last' (Udp.rx (Udp.on_datagram b src s).1, map data (Udp.on_datagram b src s).2).
Proof.
  intros Hus Hok Hx Hs bs Hbs. unfold Udp.on_datagram. destruct (parse b) as [pkt|e|] eqn:Hb; cbn [is_ok negb] in Hbs.
  2,3: rewrite orb_true_r in Hbs; cbn [app] in Hbs;
    inversion Hbs as [|? ? ? ? ? Hb'|? ? ? Hb' Hbs']; subst; [by rewrite Hb in Hb'|];
    exists last; split; [exact Hbs'|]; split; [apply in_step_reset|]; split; [apply Hs|constructor].
  rewrite orb_false_r in Hbs. pose proof (validate_from_server x src (Udp.validator s) Hx) as Hv.
  destruct (Udp.validate src (Udp.validator s)) as [v [|r]]; cbn [snd] in Hv.
  - rewrite (proj1 Hv eq_refl) in Hbs. inversion Hbs as [|? ? pkt' i ? Hb' Hp Hn Hbs'|? ? ? Hb']; subst; rewrite Hb in Hb'; [|done].
    injection Hb' as <-. exists (Some i). split; [exact Hbs'|].
    pose proof (on_packet_sent us s0 Hus ok i last pkt (Udp.rx s) Hok Hp Hn Hs) as (H1 & H2 & H3).
    destruct (on_packet pkt (Udp.rx s)) as [p outs]. cbn [fst snd] in *. split_and!; [exact H1|exact H2|]. cbn [snd].
    by rewrite map_map, map_id.
  - destruct (from_server x src) eqn:Hsrc; [by pose proof (proj2 Hv eq_refl)|]. by exists last.
Qed.

(** Over UDP likewise: what the receiver hands on was sent by the camera, or
    is a parameter set of the description, whatever packets arrive from any
    address but the server's. *)
Theorem udp_no_corruption us (s0 : Z) x (es : list (@Udp.turn Ip)) require_idr track :
  Forall unit_ok us -> on_stream us s0 None (looked_at x es) ->
  let sprop := map annexb_from_raw_nal (option_list (sprop_sps track) ++ option_list (sprop_pps track)) in
  Forall (fun n => data n ∈ sent us ++ sprop) (Udp.receive es (Udp.start require_idr track (Some x))).1.2.
Proof.
  intros Hus Hes sprop. set (ok := sent us ++ sprop).
  assert (forall n, n ∈ sent us -> n ∈ ok) as Hok by (intros n Hn; apply elem_of_app; by left).
  enough (forall s last, Udp.expected (Udp.validator s) = Some x -> path_sent us s0 ok last (Udp.rx s, []) ->
    on_stream us s0 last (looked_at x es) -> Forall (fun n => data n ∈ ok) (Udp.receive es s).1.2) as H'.
  { apply (H' _ None); [done| |done]. split_and!; [apply in_step_new|by apply initial_gate_within|constructor]. }
  clear Hes. induction es as [|e es IH]; intros s last Hx Hs Hes; [constructor|]. cbn [Udp.receive].
  pose proof (step_expected x e s Hx) as Hx1. destruct e as [|rem r]; [constructor|]. cbn [Udp.step] in *.
  set (r' := if Udp.first_valid_rtp s then r else if rem <=? 0 then Udp.Late else r) in *.
  assert (r' = r \/ r' = Udp.Late) as [Hr | ->] by (unfold r'; destruct (Udp.first_valid_rtp s), (rem <=? 0); auto); [|constructor].
  rewrite Hr in *. destruct r as [b src| |]; [|constructor..].
  assert (looked_at x (Udp.Received rem (Udp.Datagram b src) :: es) =
    (if from_server x src || negb (is_ok (parse b)) then [b] else []) ++ looked_at x es) as Hl
    by (cbn; by destruct (from_server x src || negb (is_ok (parse b)))).
  rewrite Hl in Hes. destruct (on_datagram_sent us s0 ok x b src s last Hus Hok Hx Hs _ Hes) as (last' & Hes' & H1 & H2 & H3).
  destruct (Udp.on_datagram b src s) as [s1 out]. cbn [fst snd] in *.
  specialize (IH s1 last' Hx1 (conj H1 (conj H2 (Forall_nil_2 _))) Hes').
  destruct (Udp.receive es s1) as [[s2 outs] v]. apply Forall_app. split; [|exact IH]. by apply Forall_map in H3.
Qed.

End sources.

(** ** Witnesses *)
Module ReceiverWitness.

(** An RTP packet with a sequence number and a payload. *)
Definition rtp (seq : Z) (p : bytes) : bytes :=
  encode (mkWire false 96 seq 1000 7 [] None p None).

Definition units : list unit_ := [Single [0x67; 1]; Single [0x68; 2]; Fragmented 0x65 [1; 2] [[3]] [4]].

(** The middle fragment of the second IDR is lost: nothing of it is delivered. *)
Definition us2 : list unit_ := units ++ [Fragmented 0x65 [5] [[6]] [7]].
Definition numbered (us : list unit_) : list InterleavedFrame :=
  imap (fun i p => Rtp (rtp (wrap16 (65533 + Z.of_nat i)) p)) (payloads us).

Definition received_frames : list InterleavedFrame := delete 6%nat (numbered us2).

Definition no_sprop : SdpVideoTrack := mkTrack 96 90000 None [] None None.

Lemma stream_eval us s0 last b i p q bs :
  parse b = Ok q -> payload q = p -> sequence_number q = wrap16 (s0 + Z.of_nat i) ->
  payloads us !! i = Some p -> near last i -> on_stream us s0 (Some i) bs -> on_stream us s0 last (b :: bs).
Proof. intros Hb <- Hs Hp Hn Hbs. by eapply stream_packet. Qed.
#[local] Ltac packet i := eapply (stream_eval _ _ _ _ i); [reflexivity|reflexivity|reflexivity|reflexivity|done || (unfold near; lia)|].

Lemma lossy_network_no_corruption_witness :
  (on_frames received_frames (mkPath Depacketizer.new (initial_gate true no_sprop) None)).2
    = map annexb_from_raw_nal [[0x67; 1]; [0x68; 2]; [0x65; 1; 2; 3; 4]] /\
  Forall (fun n => n ∈ sent us2 ++ [])
    (on_frames received_frames (mkPath Depacketizer.new (initial_gate true no_sprop) None)).2.
Proof.
  split; [vm_compute; reflexivity|].
  apply (lossy_network_no_corruption us2 65533) with (track := no_sprop).
  - unfold us2, units. cbn [app].
    assert (forall b l, 1 <= Z.land b 0x1F <= 23 -> unit_ok (Single (b :: l))) as H1 by (intros b l Hb; by exists b, l).
    constructor; [apply H1; by_eval|]. constructor; [apply H1; by_eval|].
    constructor; [unfold unit_ok, is_byte; lia|]. constructor; [unfold unit_ok, is_byte; lia|]. constructor.
  - let l := eval vm_compute in (rtp_bytes received_frames) in change (rtp_bytes received_frames) with l.
    packet 0%nat. packet 1%nat. packet 2%nat. packet 3%nat. packet 4%nat. packet 5%nat. packet 7%nat. constructor.
Defined.

Definition camera : Z * Z := (1, 5000).
Definition intruder : Z * Z := (2, 5000).
Definition from (src : Z * Z) (b : bytes) : @Udp.turn Z := Udp.Received 1 (Udp.Datagram b src).
Definition server : @Udp.ExpectedRtpSource Z := Udp.mkExpected 1 None.
Definition clean : list (@Udp.turn Z) :=
  map (from camera) [rtp 1 [0x67; 1]; rtp 2 [0x68; 2]; rtp 3 [0x65; 3]].

Lemma foreign_packets_ignored_witness :
  let s := Udp.start true no_sprop (Some server) in
  let es := from intruder (rtp 9 [0x65; 9]) :: clean in
  map data (Udp.receive es s).1.2 = map data (Udp.receive clean s).1.2 /\
  length (Udp.receive clean s).1.2 = 3%nat.
Proof.
  cbv zeta. split; [|vm_compute; reflexivity].
  rewrite (proj1 (foreign_packets_ignored server (from intruder (rtp 9 [0x65; 9]) :: clean)
    (Udp.start true no_sprop (Some server)) eq_refl)).
  vm_compute. reflexivity.
Defined.

(** An intruder's fragment between those of the camera. *)
Lemma udp_no_corruption_witness :
  let es := map (from camera) (take 3 (map (fun f => match f with Rtp b => b | _ => [] end) (numbered units)))
              ++ [from intruder (rtp 0 [0x7c; 0x05; 9])]
              ++ map (from camera) (drop 3 (map (fun f => match f with Rtp b => b | _ => [] end) (numbered units))) in
  map data (Udp.receive es (Udp.start true no_sprop (Some server))).1.2
    = map annexb_from_raw_nal [[0x67; 1]; [0x68; 2]; [0x65; 1; 2; 3; 4]] /\
  Forall (fun n => data n ∈ sent units ++ []) (Udp.receive es (Udp.start true no_sprop (Some server))).1.2.
Proof.
  intros es. split; [vm_compute; reflexivity|]. apply (udp_no_corruption units 65533 server es true no_sprop).
  - unfold units.
    assert (forall b l, 1 <= Z.land b 0x1F <= 23 -> unit_ok (Single (b :: l))) as H1 by (intros b l Hb; by exists b, l).
    constructor; [apply H1; by_eval|]. constructor; [apply H1; by_eval|].
    constructor; [unfold unit_ok, is_byte; lia|]. constructor.
  - let l := eval vm_compute in (looked_at server es) in change (looked_at server es) with l.
    packet 0%nat. packet 1%nat. packet 2%nat. packet 3%nat. packet 4%nat. constructor.
Defined.

(** One unreadable byte from the intruder closes the gate. *)
Lemma unreadable_datagram_resets_witness :
  let s := (Udp.receive clean (Udp.start true no_sprop (Some server))).1.1 in
  SyncGate.synced (gate (Udp.rx s)) = true /\
  SyncGate.synced (gate (Udp.rx (Udp.on_datagram [0] intruder s).1)) = false.
Proof.
  cbv zeta. split; [vm_compute; reflexivity|].
  rewrite (unreadable_datagram_resets [0] intruder _ eq_refl). vm_compute. reflexivity.
Defined.

End ReceiverWitness.
