(* ===== verification/Clip.v ===== *)
(** * Clip files ([core/clip_writer.rs])

    [ClipWriter] batches NAL units into a [.part] file and renames it when the
    clip is complete.  The file system is a parameter: [Fs] has the operations
    the code calls, [FsLaws] what it relies on.  The bytes of a clip are those
    its buffered file has accepted followed by those still pending: the
    writer's operations are shown to act on them as on one byte string. *)
From S2P Require Import Prelude Str.

(** ** The file system

    [F] is its state, [H] a buffered file handle ([BufWriter<File>]). *)
Class Fs (F H E : Type) := {
  fs_create : str -> F -> F * (E + H);           (* File::create *)
  fs_write : H -> bytes -> F -> F * (E + unit);  (* write_all *)
  fs_flush : H -> F -> F * (E + unit);           (* flush *)
  fs_drop : H -> F -> F;                         (* the handle is dropped *)
  fs_rename : str -> str -> F -> F * (E + unit);
  fs_remove : str -> F -> F * (E + unit);        (* remove_file *)
  fs_store : str -> bytes -> F -> F * (E + unit) (* tokio::fs::write *)
}.

(** [contents]: the file under a name; [accepted]: everything a handle has been
    given since it was created, [target]: the name it was created under. *)
Class FsLaws (F H E : Type) `{Fs F H E} := {
  contents : F -> str -> option bytes;
  accepted : F -> H -> bytes;
  target : H -> str;
  create_ok p f f' h : fs_create p f = (f', inr h) -> accepted f' h = [] /\ target h = p;
  write_ok h b f f' : fs_write h b f = (f', inr tt) -> accepted f' h = accepted f h ++ b;
  write_err h b f f' e : fs_write h b f = (f', inl e) -> exists k, accepted f' h = accepted f h ++ take k b;
  flush_ok h f f' : fs_flush h f = (f', inr tt) ->
    accepted f' h = accepted f h /\ contents f' (target h) = Some (accepted f h);
  flush_err h f f' e : fs_flush h f = (f', inl e) -> accepted f' h = accepted f h;
  drop_keeps h f p : contents (fs_drop h f) p = contents f p;
  rename_ok p q f f' : fs_rename p q f = (f', inr tt) -> contents f' q = contents f p;
}.

Module ClipWriter.

Record t (H : Type) := mk {
  part_path : str;
  final_path : str;
  writer : H;
  pending : bytes;
  max_pending_bytes : Z;
  written_bytes : Z;
}.
Arguments mk {H}.
Arguments part_path {H}.
Arguments final_path {H}.
Arguments writer {H}.
Arguments pending {H}.
Arguments max_pending_bytes {H}.
Arguments written_bytes {H}.

Section clip_writer.
Context {F H E : Type} `{Fs F H E}.

(** The methods run on the writer and the file system together. *)
Abbreviation M := (st (t H * F) E).

Definition io {A} (m : F -> F * (E + A)) : M A := fun '(w, f) =>
  match m f with
  | (f, inr a) => ((w, f), Ok a)
  | (f, inl e) => ((w, f), Err e)
  end.
Definition update (g : t H -> t H) : M unit := fun '(w, f) => ((g w, f), Ok tt).
Definition with_pending (p : bytes) (w : t H) : t H :=
  mk (part_path w) (final_path w) (writer w) p (max_pending_bytes w) (written_bytes w).

Definition create (part_path final_path : str) (max_pending_bytes : Z) (f : F) : F * outcome E (t H) :=
  match fs_create part_path f with
  | (f, inr h) => (f, Ok (mk part_path final_path h [] (Z.max max_pending_bytes (16 * 1024)) 0))
  | (f, inl e) => (f, Err e)
  end.

Definition flush_pending (do_flush : bool) : M unit := fun '(w, f) =>
  ((if negb (length (pending w) =? 0)%nat then
     io (fs_write (writer w) (pending w)) ;;
     update (fun w => mk (part_path w) (final_path w) (writer w) [] (max_pending_bytes w)
                        (written_bytes w + Z.of_nat (length (pending w))))
   else mret tt) ;;
   if do_flush then io (fs_flush (writer w)) else mret tt) (w, f).

Definition write_nal (nal : bytes) : M unit := fun '(w, f) =>
  let w := with_pending (pending w ++ nal) w in
  (if max_pending_bytes w <=? Z.of_nat (length (pending w)) then flush_pending false else mret tt) (w, f).

Definition flush : M unit := flush_pending true.

(** [finalize] consumes the writer. *)
Definition finalize (w : t H) (f : F) : F * outcome E str :=
  match flush_pending true (w, f) with
  | ((w, f), Ok _) =>
      let f := fs_drop (writer w) f in
      match fs_rename (part_path w) (final_path w) f with
      | (f, inr _) => (f, Ok (final_path w))
      | (f, inl e) => (f, Err e)
      end
  | ((_, f), Err e) => (f, Err e)
  | ((_, f), Panic) => (f, Panic)
  end.

Definition total_bytes (w : t H) : Z := written_bytes w + Z.of_nat (length (pending w)).

End clip_writer.
End ClipWriter.

(** ** Lemmas *)
Module ClipWriterFacts.
Import ClipWriter.
Section facts.
Context {F H E : Type} `{HL : FsLaws F H E}.

(** The bytes of the clip so far. *)
Definition clip_bytes (w : t H) (f : F) : bytes := accepted f (writer w) ++ pending w.

(** Same files, same handle. *)
Definition same_clip (w w' : t H) : Prop :=
  writer w' = writer w /\ part_path w' = part_path w /\ final_path w' = final_path w /\
  max_pending_bytes w' = max_pending_bytes w.

Lemma flush_pending_ok d w f w' f' :
  flush_pending d (w, f) = ((w', f'), Ok tt) ->
  same_clip w w' /\ clip_bytes w' f' = clip_bytes w f /\ pending w' = [] /\ total_bytes w' = total_bytes w /\
  (d = true -> contents f' (target (writer w')) = Some (accepted f' (writer w'))).
Proof.
  unfold flush_pending. destruct (Nat.eqb_spec (length (pending w)) 0) as [Hz|Hnz]; cbn [negb].
  - apply length_zero_iff_nil in Hz. destruct d; cbn.
    + unfold mbind, st_bind, mret, st_ret, io. destruct (fs_flush (writer w) f) as [f1 [e|[]]] eqn:Hf; [done|].
      intros [= <- <-]. apply flush_ok in Hf as [Ha Hc]. unfold clip_bytes. rewrite Ha. by split_and!.
    + intros [= <- <-]. by split_and!.
  - unfold mbind, st_bind, mret, st_ret, io, update.
    destruct (fs_write (writer w) (pending w) f) as [f1 [e|[]]] eqn:Hw; [done|].
    apply write_ok in Hw. cbn. destruct d.
    + destruct (fs_flush (writer w) f1) as [f2 [e|[]]] eqn:Hf; [done|]. intros [= <- <-].
      apply flush_ok in Hf as [Ha Hc]. unfold clip_bytes, total_bytes. cbn. rewrite Ha, Hw, app_nil_r.
      split_and!; try done; [by cbn; lia|]. by intros _; rewrite Hc, Hw.
    + intros [= <- <-]. unfold clip_bytes, total_bytes. cbn. rewrite Hw, app_nil_r.
      split_and!; try done. cbn; lia.
Qed.

Lemma write_nal_ok nal w f w' f' :
  write_nal nal (w, f) = ((w', f'), Ok tt) ->
  same_clip w w' /\ clip_bytes w' f' = clip_bytes w f ++ nal /\
  total_bytes w' = total_bytes w + Z.of_nat (length nal).
Proof.
  unfold write_nal. cbv zeta. set (w1 := with_pending (pending w ++ nal) w).
  assert (clip_bytes w1 f = clip_bytes w f ++ nal) as H1 by (unfold clip_bytes; cbn; by rewrite app_assoc).
  assert (total_bytes w1 = total_bytes w + Z.of_nat (length nal)) as H2.
  { unfold total_bytes. cbn. rewrite length_app. lia. }
  case_match.
  - intros Hf. apply flush_pending_ok in Hf as (Hs & Hb & _ & Ht & _). by rewrite Hb, Ht.
  - intros [= <- <-]. by split_and!.
Qed.

Lemma finalize_ok w f f' p :
  part_path w = target (writer w) ->
  finalize w f = (f', Ok p) -> p = final_path w /\ contents f' p = Some (clip_bytes w f).
Proof.
  intros Hp. unfold finalize.
  destruct (flush_pending true (w, f)) as [[w1 f1] [[]|e|]] eqn:Hf; [|done..].
  apply flush_pending_ok in Hf as ((Hw & Hpp & Hfp & _) & Hb & Hn & _ & Hc).
  destruct (fs_rename _ _ _) as [f2 [e|[]]] eqn:Hr; [done|]. intros [= <- <-]. split; [done|].
  apply rename_ok in Hr. rewrite Hr, drop_keeps, Hpp, Hp, <- Hw, (Hc eq_refl). f_equal.
  unfold clip_bytes in Hb. rewrite Hn, app_nil_r in Hb. by rewrite Hb.
Qed.

(** A write, in full. *)
Lemma write_nal_eq nal w f :
  write_nal nal (w, f) =
  if max_pending_bytes w <=? Z.of_nat (length (pending w ++ nal)) then
    if (length (pending w ++ nal) =? 0)%nat then ((with_pending (pending w ++ nal) w, f), Ok tt)
    else match fs_write (writer w) (pending w ++ nal) f with
         | (f, inr _) =>
             ((mk (part_path w) (final_path w) (writer w) [] (max_pending_bytes w)
                (written_bytes w + Z.of_nat (length (pending w ++ nal))), f), Ok tt)
         | (f, inl e) => ((with_pending (pending w ++ nal) w, f), Err e)
         end
  else ((with_pending (pending w ++ nal) w, f), Ok tt).
Proof.
  unfold write_nal, flush_pending. cbv zeta.
  change (max_pending_bytes (with_pending (pending w ++ nal) w)) with (max_pending_bytes w).
  change (pending (with_pending (pending w ++ nal) w)) with (pending w ++ nal).
  destruct (max_pending_bytes w <=? _); [|done].
  cbv beta iota. change (pending (with_pending (pending w ++ nal) w)) with (pending w ++ nal).
  destruct (length (pending w ++ nal) =? 0)%nat; cbn [negb]; [done|].
  unfold mbind, st_bind, mret, st_ret, io, update. cbn [writer with_pending].
  by destruct (fs_write (writer w) (pending w ++ nal) f) as [f1 [e|[]]].
Qed.

(** A failed write keeps the NAL unit in [pending]. *)
Lemma write_nal_err nal w f w' f' e :
  write_nal nal (w, f) = ((w', f'), Err e) ->
  same_clip w w' /\ pending w' = pending w ++ nal /\
  exists k, accepted f' (writer w') = accepted f (writer w) ++ take k (pending w ++ nal).
Proof.
  rewrite write_nal_eq. case_match; [|done]. case_match; [done|].
  destruct (fs_write _ _ f) as [f1 [e1|[]]] eqn:Hw; [|done].
  intros [= <- <- <-]. split; [done|]. split; [done|]. by apply write_err in Hw.
Qed.

End facts.
End ClipWriterFacts.

(** ** A file system in memory, for the witnesses

    Writes fail where [fail] says so, and accept nothing then. *)
Module MemFs.
Abbreviation disk := (gmap str bytes).

Definition mem_fs (fail : bytes -> bool) : Fs disk str unit :=
  {| fs_create p (f : disk) := (<[p := []]> f, inr p);
     fs_write h b (f : disk) := if fail b then (f, inl tt) else (<[h := default [] (f !! h) ++ b]> f, inr tt);
     fs_flush h (f : disk) := (<[h := default [] (f !! h)]> f, inr tt);
     fs_drop h (f : disk) := f;
     fs_rename p q (f : disk) := (partial_alter (fun _ => f !! p) q (delete p f), inr tt);
     fs_remove p (f : disk) := (delete p f, inr tt);
     fs_store p b (f : disk) := (<[p := b]> f, inr tt) |}.

Program Definition mem_laws (fail : bytes -> bool) : @FsLaws disk str unit (mem_fs fail) :=
  {| contents f p := f !! p; accepted f h := default [] (f !! h); target h := h |}.
Next Obligation. intros fail p f f' h [= <- <-]. by rewrite lookup_insert_eq. Qed.
Next Obligation.
  intros fail h b f f'. cbn. destruct (fail b); intros [=]. subst. by rewrite lookup_insert_eq.
Qed.
Next Obligation.
  intros fail h b f f' e. cbn. destruct (fail b); intros [=]. subst. exists 0%nat. by rewrite take_0, app_nil_r.
Qed.
Next Obligation. intros fail h f f' [= <-]. by rewrite !lookup_insert_eq. Qed.
Next Obligation. intros fail h f f' e [=]. Qed.
Next Obligation. done. Qed.
Next Obligation. intros fail p q f f' [= <-]. by rewrite lookup_partial_alter_eq. Qed.
End MemFs.
