(* ===== verification/Pipeline.v ===== *)
(** * The server's stream pipeline ([server_pipeline.rs])

    One stream's task: RTP packets become access units, access units a ring of
    the last seconds, and a motion turns the ring and what follows into a clip
    file.  [pipe] is the task's local state, [F] the file system; a turn of the
    task's loop is [on_tick] or [on_msg].  The clocks are read where the code
    reads them: a turn takes its readings as arguments, instants in
    nanoseconds.  A write that the timer cuts short is a [fs_write] that fails
    after accepting some of its bytes: the code treats both alike. *)
From S2P Require Import Prelude Str Rtp H264 Motion Clip.
From Stdlib Require Import Sorting.Sorted.

(** ** What the code uses of the calendar and of the JSON printer *)
Class Calendar `{Chrono} := {
  num_seconds : Duration -> Z;
  to_rfc3339 : DateTime -> str;
  file_stamp : DateTime -> str;    (* format("%Y%m%d_%H%M%S%.3fZ") *)
}.
Class ToJson (A : Type) := to_json : A -> bytes.

Definition secs (n : Z) : Z := n * 1000000000.
(** [Instant::duration_since] saturates at zero. *)
Definition duration_since (now earlier : Z) : Z := Z.max 0 (now - earlier).

Inductive StreamMsg :=
| MsgRtp (b : bytes)
| MsgGap (last new : Z)
| MsgMotion (rule : str) (active : bool) (ts : str).

Record StreamConfig := mkConfig {
  stream_id : Z;
  clip_dir : str;
  ring_secs : Z;
  pre_secs : Z;
  post_secs : Z;
  stale_part_secs : Z;
  max_clip_secs : option Z;
  clip_write_timeout_ms : Z;
  clip_write_retry_count : Z;
  clip_write_retry_backoff_ms : Z;
  stale_secs : Z;
  stats_log_secs : Z;
}.

Record AccessUnit := mkAu { au_ts : Z; nals : list bytes; has_idr : bool }.

Inductive StreamHealthState := Idle | Receiving | Stale.

Section pipeline.
Context `{Calendar} {F Hd E : Type} `{Fs F Hd E}.

Record ClipState := mkClip {
  clip_writer : ClipWriter.t Hd;
  started_at : DateTime;
  clip_rule : str;
  stop_at : Z;
  hard_stop_at : option Z;
}.

Record ClipSidecar := mkSidecar {
  sc_stream_id : Z;
  sc_rule : str;
  sc_filename : str;
  sc_started_at : str;
  sc_ended_at : str;
  sc_duration_secs : Z;
}.

Record StreamRuntimeStats := mkStats {
  total_rtp_packets : Z;
  total_access_units : Z;
  total_gaps : Z;
  total_motion_events : Z;
  total_parse_errors : Z;
  last_rtp_at : option DateTime;
  last_access_unit_at : option DateTime;
  last_gap_at : option DateTime;
  last_motion_at : option DateTime;
  last_error_at : option DateTime;
  last_idr_at : option DateTime;
  last_stats_log_at : option Z;
  last_health_write_at : option Z;
}.

Record StreamHealthSnapshot := mkSnapshot {
  h_stream_id : Z;
  h_state : StreamHealthState;
  h_updated_at : str;
  h_stale_after_secs : Z;
  h_ring_secs : Z;
  h_clip_active : bool;
  h_clip_pending : bool;
  h_counters : Z * Z * Z * Z * Z;
  h_last_rtp_at : option str;
  h_last_access_unit_at : option str;
  h_last_gap_at : option str;
  h_last_motion_at : option str;
  h_last_error_at : option str;
}.

Context `{ToJson ClipSidecar} `{ToJson StreamHealthSnapshot}.

Record NoDecodeEpisode := mkEpisode {
  first_rtp_at : option Z;
  access_units_at_start : Z;
  logged : bool;
}.

Definition no_stats : StreamRuntimeStats :=
  mkStats 0 0 0 0 0 None None None None None None None None.
Definition no_episode : NoDecodeEpisode := mkEpisode None 0 false.

(** The locals of [run_stream]. *)
Record pipe := mkPipe {
  dep : Depacketizer.t;
  expected_seq : option Z;
  synced : bool;
  sps : option bytes;
  pps : option bytes;
  ring : list AccessUnit;
  current_au : list bytes;
  clip : option ClipState;
  clip_pending : bool;
  pending_rule : str;
  pending_ring_snapshot : option (list AccessUnit);
  stats : StreamRuntimeStats;
  no_decode_episode : NoDecodeEpisode;
}.

Definition initial : pipe :=
  mkPipe Depacketizer.new None false None None [] [] None false [] None no_stats no_episode.

(** The clock readings of one turn, each named after the place it is taken. *)
Record readings := mkReadings {
  utc_msg : DateTime;      (* on receipt of the message *)
  utc_error : DateTime;    (* mark_stream_error *)
  at_episode : Z;          (* the first packet of an episode *)
  at_build : Z;            (* build_access_unit *)
  utc_unit : DateTime;
  at_prune : Z;            (* prune_ring *)
  utc_file : DateTime;     (* try_start_clip: the file name *)
  utc_start : DateTime;
  at_start : Z;
  at_tick : Z;             (* should_finalize_clip *)
  utc_end : DateTime;      (* finalize_clip *)
  at_health : Z;
  utc_health : DateTime;
}.

(** *** Helpers *)
Fixpoint scan_nals (nals : list bytes) (sps pps : option bytes) (idr : bool)
    : option bytes * option bytes * bool :=
  match nals with
  | [] => (sps, pps, idr)
  | nal :: nals =>
      match nal_type_from_annexb nal with
      | Some nt =>
          if nt =? 7 then scan_nals nals (Some nal) pps idr
          else if nt =? 8 then scan_nals nals sps (Some nal) idr
          else if nt =? 5 then scan_nals nals sps pps true
          else scan_nals nals sps pps idr
      | None => scan_nals nals sps pps idr
      end
  end.

Definition build_access_unit (now : Z) (nals : list bytes) (sps pps : option bytes)
    : option bytes * option bytes * AccessUnit :=
  let '(sps, pps, has_idr) := scan_nals nals sps pps false in
  (sps, pps, mkAu now nals has_idr).

Fixpoint prune_ring (now : Z) (ring_secs : Z) (ring : list AccessUnit) : list AccessUnit :=
  match ring with
  | front :: ring' =>
      if secs ring_secs <? duration_since now (au_ts front) then prune_ring now ring_secs ring' else ring
  | [] => []
  end.

Definition should_finalize_clip (now stop_at : Z) (hard_stop_at : option Z) : bool :=
  let stop_due := stop_at <=? now in
  let hard_due := match hard_stop_at with Some t => t <=? now | None => false end in
  stop_due || hard_due.

Definition with_stats (s : pipe) (st : StreamRuntimeStats) : pipe :=
  mkPipe (dep s) (expected_seq s) (synced s) (sps s) (pps s) (ring s) (current_au s) (clip s)
    (clip_pending s) (pending_rule s) (pending_ring_snapshot s) st (no_decode_episode s).

Definition mark_stream_error (now : DateTime) (s : StreamRuntimeStats) : StreamRuntimeStats :=
  mkStats (total_rtp_packets s) (total_access_units s) (total_gaps s) (total_motion_events s)
    (sat_add64 (total_parse_errors s) 1) (last_rtp_at s) (last_access_unit_at s) (last_gap_at s)
    (last_motion_at s) (Some now) (last_idr_at s) (last_stats_log_at s) (last_health_write_at s).

Definition derive_rtp_payload_nal_type (payload : bytes) : option Z :=
  first ← payload !! 0%nat;
  let nal_type := Z.land first 0x1F in
  if (1 <=? nal_type) && (nal_type <=? 23) then Some nal_type
  else if nal_type =? 28 then (fun v => Z.land v 0x1F) <$> payload !! 1%nat
  else None.

Definition derive_stream_health_state (last_rtp_at : option DateTime) (stale_secs : Z) (now : DateTime)
    : StreamHealthState :=
  match last_rtp_at with
  | None => Idle
  | Some last =>
      let elapsed_secs := Z.max (num_seconds (signed_duration_since now last)) 0 in
      if elapsed_secs <=? Z.max stale_secs 1 then Receiving else Stale
  end.

(** The watchdog logs once per episode of 30 seconds without an access unit. *)
Definition maybe_log_no_decode_watchdog (now : Z) (st : StreamRuntimeStats) (ep : NoDecodeEpisode)
    : NoDecodeEpisode * bool :=
  match first_rtp_at ep with
  | None => (ep, false)
  | Some started =>
      if access_units_at_start ep <? total_access_units st then (no_episode, false)
      else if logged ep then (ep, false)
      else if duration_since now started <? secs 30 then (ep, false)
      else (mkEpisode (first_rtp_at ep) (access_units_at_start ep) true, true)
  end.

Definition maybe_log_stream_stats (cfg : StreamConfig) (now : Z) (st : StreamRuntimeStats)
    : StreamRuntimeStats :=
  let interval := secs (Z.max (stats_log_secs cfg) 5) in
  if match last_stats_log_at st with Some last => duration_since now last <? interval | None => false end
  then st
  else mkStats (total_rtp_packets st) (total_access_units st) (total_gaps st) (total_motion_events st)
         (total_parse_errors st) (last_rtp_at st) (last_access_unit_at st) (last_gap_at st)
         (last_motion_at st) (last_error_at st) (last_idr_at st) (Some now) (last_health_write_at st).

(** [Path::join] with a plain file name. *)
Definition join (dir name : str) : str :=
  match last dir with
  | None => name
  | Some c => if c =? 47 then dir ++ name else dir ++ 47 :: name
  end.

Definition health_snapshot (cfg : StreamConfig) (now : DateTime) (st : StreamRuntimeStats)
    (clip_active clip_pending : bool) : StreamHealthSnapshot :=
  mkSnapshot (stream_id cfg) (derive_stream_health_state (last_rtp_at st) (stale_secs cfg) now)
    (to_rfc3339 now) (stale_secs cfg) (ring_secs cfg) clip_active clip_pending
    (total_rtp_packets st, total_access_units st, total_gaps st, total_motion_events st, total_parse_errors st)
    (to_rfc3339 <$> last_rtp_at st) (to_rfc3339 <$> last_access_unit_at st) (to_rfc3339 <$> last_gap_at st)
    (to_rfc3339 <$> last_motion_at st) (to_rfc3339 <$> last_error_at st).

Definition io_outcome {A} (p : F * (E + A)) : F * outcome E A :=
  match p with (f, inr a) => (f, Ok a) | (f, inl e) => (f, Err e) end.

Definition store (p : str) (b : bytes) : Prelude.st F E unit := fun f => io_outcome (fs_store p b f).
Definition rename (p q : str) : Prelude.st F E unit := fun f => io_outcome (fs_rename p q f).

Definition write_stream_health (cfg : StreamConfig) (now : DateTime) (st : StreamRuntimeStats)
    (clip_active clip_pending : bool) : Prelude.st F E unit :=
  let final_path := join (clip_dir cfg) (lit "stream_" ++ dec (stream_id cfg) ++ lit ".health.json") in
  let temp_path := join (clip_dir cfg) (lit "stream_" ++ dec (stream_id cfg) ++ lit ".health.json.tmp") in
  let b := to_json (health_snapshot cfg now st clip_active clip_pending) in
  store temp_path b ;; rename temp_path final_path.

Definition maybe_write_stream_health (cfg : StreamConfig) (r : readings) (st : StreamRuntimeStats)
    (clip_active clip_pending : bool) : Prelude.st F E StreamRuntimeStats :=
  let now := at_health r in
  if match last_health_write_at st with Some last => duration_since now last <? secs 1 | None => false end
  then mret st
  else
    write_stream_health cfg (utc_health r) st clip_active clip_pending ;;
    mret (mkStats (total_rtp_packets st) (total_access_units st) (total_gaps st) (total_motion_events st)
            (total_parse_errors st) (last_rtp_at st) (last_access_unit_at st) (last_gap_at st)
            (last_motion_at st) (last_error_at st) (last_idr_at st) (last_stats_log_at st) (Some now)).

(** *** Clips *)
Fixpoint write_all_nals (l : list bytes) : Prelude.st (ClipWriter.t Hd * F) E unit :=
  match l with
  | [] => mret tt
  | nal :: l => ClipWriter.write_nal nal ;; write_all_nals l
  end.

(** The units from the first IDR on. *)
Fixpoint from_first_idr (l : list AccessUnit) : list AccessUnit :=
  match l with
  | [] => []
  | au :: l' => if has_idr au then l else from_first_idr l'
  end.

(** [rule.replace(['/', '\\', ' '], "_")] *)
Definition safe_rule (rule : str) : str :=
  map (fun c => if (c =? 47) || (c =? 92) || (c =? 32) then 95 else c) rule.

(** The preroll: the parameter sets, then the snapshot from its first IDR. *)
Definition preroll (snapshot : option (list AccessUnit)) (sps pps : option bytes) : list bytes :=
  match snapshot with
  | Some l =>
      match from_first_idr l with
      | [] => []
      | units => match sps, pps with Some s, Some p => [s; p] | _, _ => [] end ++ concat (map nals units)
      end
  | None => []
  end.

Definition try_start_clip (cfg : StreamConfig) (r : readings) (rule : str)
    (snapshot : option (list AccessUnit)) (sps pps : option bytes) : Prelude.st F E (option ClipState) :=
  let ts := file_stamp (utc_file r) in
  let name := ts ++ 95 :: dec (stream_id cfg) ++ 95 :: safe_rule rule ++ lit ".h264" in
  let file_path := join (clip_dir cfg) name in
  let part_path := join (clip_dir cfg) (name ++ lit ".part") in
  let units := match snapshot with Some l => from_first_idr l | None => [] end in
  let wrote_any := negb (bool_decide (concat (map nals units) = [])) in
  fun f =>
  match ClipWriter.create part_path file_path (256 * 1024) f with
  | (f, Ok w) =>
      match write_all_nals (preroll snapshot sps pps) (w, f) with
      | ((w, f), Ok _) =>
          if negb wrote_any && (bool_decide (sps = None) || bool_decide (pps = None))
          then (fs_drop (ClipWriter.writer w) f, Ok None)
          else
            let now := at_start r in
            (f, Ok (Some (mkClip w (utc_start r) rule (now + secs (post_secs cfg))
                            ((fun s => now + secs s) <$> max_clip_secs cfg))))
      | ((w, f), Err e) => (fs_drop (ClipWriter.writer w) f, Err e)
      | ((w, f), Panic) => (fs_drop (ClipWriter.writer w) f, Panic)
      end
  | (f, Err e) => (f, Err e)
  | (f, Panic) => (f, Panic)
  end.

(** The attempts to append one NAL unit; the last failure removes the file. *)
Fixpoint write_attempts (attempts : nat) (nal : bytes) (w : ClipWriter.t Hd) (f : F)
    : ClipWriter.t Hd * F * bool :=
  match attempts with
  | O => (w, f, false)
  | S rest =>
      match ClipWriter.write_nal nal (w, f) with
      | ((w, f), Ok _) => (w, f, true)
      | ((w, f), _) =>
          match rest with
          | O => (w, (fs_remove (ClipWriter.part_path w) f).1, false)
          | S _ => write_attempts rest nal w f
          end
      end
  end.

Definition write_active_clip_nal_with_retry (cfg : StreamConfig) (nal : bytes) (c : ClipState) (f : F)
    : ClipState * F * bool :=
  let attempts := sat_add64 (clip_write_retry_count cfg) 1 in
  let '(w, f, ok) := write_attempts (Z.to_nat attempts) nal (clip_writer c) f in
  (mkClip w (started_at c) (clip_rule c) (stop_at c) (hard_stop_at c), f, ok).

(** The NAL units of the newest access unit go to the active clip. *)
Fixpoint write_unit (cfg : StreamConfig) (l : list bytes) (c : ClipState) (f : F) : option ClipState * F :=
  match l with
  | [] => (Some c, f)
  | nal :: l =>
      let '(c, f, ok) := write_active_clip_nal_with_retry cfg nal c f in
      if ok then write_unit cfg l c f else (None, fs_drop (ClipWriter.writer (clip_writer c)) f)
  end.

(** [Path::file_name] of a path that has one. *)
Definition file_name (path : str) : str := default [] (last (split_char 47 path)).
(** [Path::with_extension("json")] on a name that ends in [.h264]. *)
Definition with_json (path : str) : str := take (length path - 5) path ++ lit ".json".

Definition finalize_clip (cfg : StreamConfig) (utc_end : DateTime) (c : option ClipState) : Prelude.st F E unit :=
  match c with
  | None => mret tt
  | Some cs =>
      final_path ← (ClipWriter.finalize (clip_writer cs) : Prelude.st F E str);
      let duration_secs := num_seconds (signed_duration_since utc_end (started_at cs)) in
      let sidecar := mkSidecar (stream_id cfg) (clip_rule cs) (file_name final_path)
                       (to_rfc3339 (started_at cs)) (to_rfc3339 utc_end) duration_secs in
      store (with_json final_path) (to_json sidecar)
  end.

(** *** The loop *)
Definition set_clip (s : pipe) (c : option ClipState) : pipe :=
  mkPipe (dep s) (expected_seq s) (synced s) (sps s) (pps s) (ring s) (current_au s) c
    (clip_pending s) (pending_rule s) (pending_ring_snapshot s) (stats s) (no_decode_episode s).

Definition on_tick (cfg : StreamConfig) (r : readings) (s : pipe) : Prelude.st F E pipe :=
  s ← (match clip s with
       | Some cs =>
           if should_finalize_clip (at_tick r) (stop_at cs) (hard_stop_at cs)
           then finalize_clip cfg (utc_end r) (Some cs) ;; mret (set_clip s None)
           else mret s
       | None => mret s
       end);
  let ep := (maybe_log_no_decode_watchdog (at_tick r) (stats s) (no_decode_episode s)).1 in
  let st := maybe_log_stream_stats cfg (at_tick r) (stats s) in
  st ← maybe_write_stream_health cfg r st (bool_decide (is_Some (clip s))) (clip_pending s);
  mret (mkPipe (dep s) (expected_seq s) (synced s) (sps s) (pps s) (ring s) (current_au s) (clip s)
          (clip_pending s) (pending_rule s) (pending_ring_snapshot s) st ep).

(** [dep.reset(); synced = false; expected_seq = e; current_au.clear();] *)
Definition desync (e : option Z) (s : pipe) : pipe :=
  mkPipe (Depacketizer.reset (dep s)) e false (sps s) (pps s) (ring s) [] (clip s)
    (clip_pending s) (pending_rule s) (pending_ring_snapshot s) (stats s) (no_decode_episode s).

Definition on_gap (r : readings) (s : pipe) : pipe :=
  let st := stats s in
  let st := mkStats (total_rtp_packets st) (total_access_units st) (sat_add64 (total_gaps st) 1)
              (total_motion_events st) (total_parse_errors st) (last_rtp_at st) (last_access_unit_at st)
              (Some (utc_msg r)) (last_motion_at st) (last_error_at st) (last_idr_at st)
              (last_stats_log_at st) (last_health_write_at st) in
  desync None (with_stats s st).

Definition on_motion (r : readings) (rule : str) (active : bool) (s : pipe) : pipe :=
  let st := stats s in
  let st := mkStats (total_rtp_packets st) (total_access_units st) (total_gaps st)
              (sat_add64 (total_motion_events st) 1) (total_parse_errors st) (last_rtp_at st)
              (last_access_unit_at st) (last_gap_at st) (Some (utc_msg r)) (last_error_at st) (last_idr_at st)
              (last_stats_log_at st) (last_health_write_at st) in
  let s := with_stats s st in
  if active then
    match clip s with
    | None => mkPipe (dep s) (expected_seq s) (synced s) (sps s) (pps s) (ring s) (current_au s) (clip s)
                true rule (Some (ring s)) (stats s) (no_decode_episode s)
    | Some _ => s
    end
  else s.

(** A packet has arrived: the counters and the episode. *)
Definition count_packet (r : readings) (s : pipe) : pipe :=
  let st := stats s in
  let st := mkStats (sat_add64 (total_rtp_packets st) 1) (total_access_units st) (total_gaps st)
              (total_motion_events st) (total_parse_errors st) (Some (utc_msg r)) (last_access_unit_at st)
              (last_gap_at st) (last_motion_at st) (last_error_at st) (last_idr_at st)
              (last_stats_log_at st) (last_health_write_at st) in
  let ep := match first_rtp_at (no_decode_episode s) with
            | None => mkEpisode (Some (at_episode r)) (total_access_units st) false
            | Some _ => no_decode_episode s
            end in
  mkPipe (dep s) (expected_seq s) (synced s) (sps s) (pps s) (ring s) (current_au s) (clip s)
    (clip_pending s) (pending_rule s) (pending_ring_snapshot s) st ep.

(** The packet goes through the depacketizer into [current_au]; the result
    says whether the turn goes on and whether the unit is complete. *)
Definition collect (r : readings) (b : bytes) (s : pipe) : pipe * option bool :=
  let s := count_packet r s in
  match parse b with
  | Ok pkt =>
      let next := wrap16 (sequence_number pkt + 1) in
      let gap := match expected_seq s with
                 | Some exp => negb (sequence_number pkt =? exp)
                 | None => false
                 end in
      if gap then (desync (Some next) s, None)
      else
        match Depacketizer.push_rtp_payload (payload pkt) (dep s) with
        | (d, Ok l) =>
            (mkPipe d (Some next) (synced s) (sps s) (pps s) (ring s) (current_au s ++ l) (clip s)
               (clip_pending s) (pending_rule s) (pending_ring_snapshot s) (stats s) (no_decode_episode s),
             Some (marker pkt))
        | (d, _) => (desync None (with_stats s (mark_stream_error (utc_error r) (stats s))), None)
        end
  | _ => (desync None (with_stats s (mark_stream_error (utc_error r) (stats s))), None)
  end.

(** The complete unit is built; it is dropped while the stream is not synced,
    and the first one kept is an IDR behind the parameter sets. *)
Definition take_unit (r : readings) (s : pipe) : pipe * option AccessUnit :=
  let '(sps', pps', au) := build_access_unit (at_build r) (current_au s) (sps s) (pps s) in
  let s' sy := mkPipe (dep s) (expected_seq s) sy sps' pps' (ring s) [] (clip s)
                 (clip_pending s) (pending_rule s) (pending_ring_snapshot s) (stats s) (no_decode_episode s) in
  if synced s then (s' true, Some au)
  else match sps', pps' with
       | Some sp, Some pp =>
           if has_idr au then (s' true, Some (mkAu (au_ts au) ([sp; pp] ++ nals au) true)) else (s' false, None)
       | _, _ => (s' false, None)
       end.

(** The unit enters the ring. *)
Definition push_unit (cfg : StreamConfig) (r : readings) (au : AccessUnit) (s : pipe) : pipe :=
  let st := stats s in
  let st := mkStats (total_rtp_packets st) (sat_add64 (total_access_units st) 1) (total_gaps st)
              (total_motion_events st) (total_parse_errors st) (last_rtp_at st) (Some (utc_unit r))
              (last_gap_at st) (last_motion_at st) (last_error_at st)
              (if has_idr au then Some (utc_unit r) else last_idr_at st)
              (last_stats_log_at st) (last_health_write_at st) in
  mkPipe (dep s) (expected_seq s) (synced s) (sps s) (pps s)
    (prune_ring (at_prune r) (ring_secs cfg) (ring s ++ [au])) (current_au s) (clip s)
    (clip_pending s) (pending_rule s) (pending_ring_snapshot s) st no_episode.

(** A pending clip is started, and the active clip gets the newest unit. *)
Definition start_pending (cfg : StreamConfig) (r : readings) (s : pipe) : Prelude.st F E pipe :=
  if clip_pending s && negb (bool_decide (is_Some (clip s))) then
    start ← try_start_clip cfg r (pending_rule s) (pending_ring_snapshot s) (sps s) (pps s);
    match start with
    | Some c => mret (mkPipe (dep s) (expected_seq s) (synced s) (sps s) (pps s) (ring s) (current_au s)
                        (Some c) false (pending_rule s) None (stats s) (no_decode_episode s))
    | None => mret s
    end
  else mret s.

Definition feed_clip (cfg : StreamConfig) (s : pipe) : Prelude.st F E pipe := fun f =>
  match clip s, last (ring s) with
  | Some cs, Some au => let '(c, f) := write_unit cfg (nals au) cs f in (f, Ok (set_clip s c))
  | _, _ => (f, Ok s)
  end.

Definition on_rtp (cfg : StreamConfig) (r : readings) (b : bytes) (s : pipe) : Prelude.st F E pipe :=
  match collect r b s with
  | (s, Some true) =>
      match current_au s with
      | [] => mret s
      | _ =>
          match take_unit r s with
          | (s, None) => mret s
          | (s, Some au) =>
              s ← start_pending cfg r (push_unit cfg r au s);
              feed_clip cfg s
          end
      end
  | (s, _) => mret s
  end.

Definition on_msg (cfg : StreamConfig) (r : readings) (m : StreamMsg) (s : pipe) : Prelude.st F E pipe :=
  match m with
  | MsgGap _ _ => mret (on_gap r s)
  | MsgMotion rule active _ => mret (on_motion r rule active s)
  | MsgRtp b => on_rtp cfg r b s
  end.

(** One turn of [select!]: the tick's branch is never disabled. *)
Inductive turn := Tick (r : readings) | Msg (r : readings) (m : StreamMsg).

Definition step (cfg : StreamConfig) (t : turn) (s : pipe) : Prelude.st F E pipe :=
  match t with Tick r => on_tick cfg r s | Msg r m => on_msg cfg r m s end.

Fixpoint run (cfg : StreamConfig) (ts : list turn) (s : pipe) : Prelude.st F E pipe :=
  match ts with
  | [] => mret s
  | t :: ts => s ← step cfg t s; run cfg ts s
  end.

(** [cleanup_stale_parts]: a directory entry, whether it is a directory, and
    its modification time if its metadata can be read. *)
Definition is_stale_part (cutoff : Z) (e : str * bool * option (option Z)) : bool :=
  let '(name, is_dir, meta) := e in
  negb is_dir && starts_with (rev (lit ".h264.part")) (rev name) &&
  match meta with
  | None => false
  | Some mtime => default 0 mtime <? cutoff
  end.

Fixpoint cleanup_stale_parts (cutoff : Z) (dir : str) (es : list (str * bool * option (option Z))) (f : F) : F :=
  match es with
  | [] => f
  | e :: es =>
      let f := if is_stale_part cutoff e then (fs_remove (join dir e.1.1) f).1 else f in
      cleanup_stale_parts cutoff dir es f
  end.

(** *** The units a sequence of packets completes *)

(** The turn without the clip: the state, and the unit that entered the ring. *)
Definition media_step (cfg : StreamConfig) (r : readings) (b : bytes) (s : pipe) : pipe * option AccessUnit :=
  match collect r b s with
  | (s, Some true) =>
      match current_au s with
      | [] => (s, None)
      | _ => match take_unit r s with
             | (s, None) => (s, None)
             | (s, Some au) => (push_unit cfg r au s, Some au)
             end
      end
  | (s, _) => (s, None)
  end.

Fixpoint units (cfg : StreamConfig) (l : list (readings * bytes)) (s : pipe) : list AccessUnit :=
  match l with
  | [] => []
  | (r, b) :: l =>
      let '(s, o) := media_step cfg r b s in
      option_list o ++ units cfg l s
  end.

Definition rtp_turns (l : list (readings * bytes)) : list turn := map (fun rb => Msg rb.1 (MsgRtp rb.2)) l.

(** Equal but for the clip. *)
Definition same_media (s s' : pipe) : Prop :=
  dep s = dep s' /\ expected_seq s = expected_seq s' /\ synced s = synced s' /\ sps s = sps s' /\
  pps s = pps s' /\ ring s = ring s' /\ current_au s = current_au s'.

(** The last unit is still in the window when the ring is pruned. *)
Definition prompt (cfg : StreamConfig) (r : readings) : Prop := at_prune r - at_build r <= secs (ring_secs cfg).

End pipeline.

(** ** Pruning the ring *)
Section prune.

(** Pruning a ring in order of time keeps exactly the units of the last
    [ring_secs] seconds. *)
Theorem prune_ring_window (now keep : Z) (ring : list AccessUnit)
    (Hsorted : StronglySorted (fun a b => au_ts a <= au_ts b) ring) :
  prune_ring now keep ring = filter (fun au => duration_since now (au_ts au) <= secs keep) ring.
Proof.
  induction Hsorted as [|au ring Hs IH Hle]; [done|]. cbn [prune_ring]. rewrite filter_cons.
  destruct (Z.ltb_spec (secs keep) (duration_since now (au_ts au))) as [Hlt|Hge].
  - rewrite decide_False by lia. done.
  - rewrite decide_True by lia. f_equal. symmetry.
    clear IH. induction Hle as [|b ring Hb Hle IH]; [done|].
    rewrite filter_cons, decide_True by (unfold duration_since in *; lia).
    f_equal. apply IH. by apply StronglySorted_inv in Hs as [Hs _].
Qed.

Lemma prune_ring_last now keep ring au :
  duration_since now (au_ts au) <= secs keep -> last (prune_ring now keep (ring ++ [au])) = Some au.
Proof.
  intros Hd. induction ring as [|a ring IH]; cbn [app prune_ring].
  - rewrite (proj2 (Z.ltb_ge _ _)) by lia. done.
  - case_match; [exact IH|]. rewrite app_comm_cons. apply last_snoc.
Qed.

End prune.

(** ** Clips on a disk that works *)
Section clips.
Context `{Calendar} {F Hd E : Type} `{HL : FsLaws F Hd E}.
Context `{ToJson ClipSidecar} `{ToJson (StreamHealthSnapshot)}.
Import ClipWriter ClipWriterFacts.

Hypothesis create_works : forall p f, exists f' h, fs_create p f = (f', inr h).
Hypothesis write_works : forall h b f, exists f', fs_write h b f = (f', inr tt).

Lemma write_nal_works nal w f :
  exists w' f', write_nal nal (w, f) = ((w', f'), Ok tt) /\ same_clip w w' /\
    clip_bytes w' f' = clip_bytes w f ++ nal.
Proof.
  destruct (write_nal nal (w, f)) as [[w' f'] [[]|e|]] eqn:Hw.
  - exists w', f'. split; [done|]. by apply write_nal_ok in Hw as (? & ? & _).
  - exfalso. revert Hw. rewrite write_nal_eq. destruct (write_works (writer w) (pending w ++ nal) f) as [f1 ->].
    by repeat case_match.
  - exfalso. revert Hw. rewrite write_nal_eq. destruct (write_works (writer w) (pending w ++ nal) f) as [f1 ->].
    by repeat case_match.
Qed.

Lemma write_all_nals_works l w f :
  exists w' f', write_all_nals l (w, f) = ((w', f'), Ok tt) /\ same_clip w w' /\
    clip_bytes w' f' = clip_bytes w f ++ concat l.
Proof.
  revert w f. induction l as [|nal l IH]; intros w f; cbn [write_all_nals concat].
  - exists w, f. rewrite app_nil_r. done.
  - destruct (write_nal_works nal w f) as (w1 & f1 & Hw & (Hs1 & Hs2 & Hs3 & Hs4) & Hb).
    destruct (IH w1 f1) as (w2 & f2 & Hw2 & (Hs5 & Hs6 & Hs7 & Hs8) & Hb2). exists w2, f2.
    rewrite (st_bind_ok _ _ _ _ _ Hw). split; [done|]. split; [by split_and!; congruence|].
    by rewrite Hb2, Hb, app_assoc.
Qed.

(** Same clip, over a writer that has grown. *)
Definition grown (c c' : @ClipState _ Hd) : Prop :=
  same_clip (clip_writer c) (clip_writer c') /\ stop_at c' = stop_at c /\ hard_stop_at c' = hard_stop_at c.

Lemma write_unit_works cfg l c f :
  0 <= clip_write_retry_count cfg ->
  exists c' f', write_unit cfg l c f = (Some c', f') /\ grown c c' /\
    clip_bytes (clip_writer c') f' = clip_bytes (clip_writer c) f ++ concat l.
Proof.
  intros Hr. revert c f. induction l as [|nal l IH]; intros c f; cbn [write_unit concat].
  - exists c, f. rewrite app_nil_r. done.
  - destruct (write_nal_works nal (clip_writer c) f) as (w1 & f1 & Hw & Hs & Hb).
    unfold write_active_clip_nal_with_retry.
    assert (exists n, Z.to_nat (sat_add64 (clip_write_retry_count cfg) 1) = S n) as [n ->].
    { exists (Z.to_nat (sat_add64 (clip_write_retry_count cfg) 1 - 1)). unfold sat_add64, u64_max. lia. }
    cbn [write_attempts]. rewrite Hw.
    destruct (IH (mkClip w1 (started_at c) (clip_rule c) (stop_at c) (hard_stop_at c)) f1)
      as (c2 & f2 & -> & (Hs2 & Ht & Hh) & Hb2).
    exists c2, f2. split; [done|]. cbn [clip_writer] in *. split.
    + destruct Hs as (?&?&?&?), Hs2 as (?&?&?&?). by split; [split_and!; congruence|].
    + by rewrite Hb2, Hb, app_assoc.
Qed.

Lemma try_start_works cfg r rule snapshot (sp pp : bytes) f :
  exists f' c, try_start_clip cfg r rule snapshot (Some sp) (Some pp) f = (f', Ok (Some c)) /\
    clip_bytes (clip_writer c) f' = concat (preroll snapshot (Some sp) (Some pp)) /\
    part_path (clip_writer c) = target (ClipWriter.writer (clip_writer c)) /\
    stop_at c = at_start r + secs (post_secs cfg).
Proof.
  unfold try_start_clip, create. cbv zeta.
  match goal with |- context [fs_create ?p f] => destruct (create_works p f) as (f1 & h & Hc) end.
  rewrite Hc. apply create_ok in Hc as [Ha Ht].
  match goal with |- context [write_all_nals ?l (?w, f1)] =>
    destruct (write_all_nals_works l w f1) as (w2 & f2 & Hw & (Hs1 & Hs2 & _) & Hb) end.
  rewrite Hw. rewrite (bool_decide_false (Some sp = None)), (bool_decide_false (Some pp = None)) by done. rewrite andb_false_r.
  do 2 eexists. split; [reflexivity|]. cbn [clip_writer stop_at]. split; [|split; [|done]].
  - rewrite Hb. unfold clip_bytes. cbn. by rewrite Ha.
  - by rewrite Hs2, Hs1.
Qed.

(** *** The media part of a turn *)
Lemma media_step_same cfg r b (s s' : @pipe _ Hd) :
  same_media s s' ->
  same_media (media_step cfg r b s).1 (media_step cfg r b s').1 /\
  (media_step cfg r b s).2 = (media_step cfg r b s').2.
Proof.
  destruct s, s'. intros (?&?&?&?&?&?&?). cbn in *. subst. unfold media_step, collect. cbn [expected_seq count_packet].
  destruct (parse b) as [pkt| |]; [|by split_and!..].
  match goal with |- context [if ?c then _ else _] => destruct c end; [by split_and!|].
  cbn [dep count_packet]. destruct (Depacketizer.push_rtp_payload _ _) as [d [l| |]]; [|by split_and!..].
  destruct (marker pkt); [|by split_and!]. cbn [current_au count_packet].
  destruct (_ ++ l) as [|x y]; [by split_and!|].
  unfold take_unit. cbn [current_au sps pps synced count_packet].
  destruct (build_access_unit _ _ _ _) as [[sp pp] au]. 
  repeat case_match; simplify_eq; by split_and!.
Qed.

Lemma units_same cfg l (s s' : @pipe _ Hd) : same_media s s' -> units cfg l s = units cfg l s'.
Proof.
  revert s s'. induction l as [|[r b] l IH]; intros s s' Hs; [done|]. cbn [units].
  destruct (media_step_same cfg r b s s' Hs) as [Hm1 Hm2].
  destruct (media_step cfg r b s) as [s1 o1], (media_step cfg r b s') as [s2 o2]. cbn in Hm1, Hm2. subst.
  by rewrite (IH s1 s2).
Qed.

(** *** A turn on a packet *)
Lemma collect_keeps r b (s : @pipe _ Hd) :
  clip (collect r b s).1 = clip s /\ clip_pending (collect r b s).1 = clip_pending s /\
  pending_rule (collect r b s).1 = pending_rule s /\
  pending_ring_snapshot (collect r b s).1 = pending_ring_snapshot s.
Proof.
  unfold collect. destruct (parse b) as [pkt| |]; [|done..].
  match goal with |- context [if ?c then _ else _] => destruct c end; [done|].
  by destruct (Depacketizer.push_rtp_payload _ _) as [d [l| |]].
Qed.

Lemma take_unit_keeps r (s : @pipe _ Hd) :
  clip (take_unit r s).1 = clip s /\ clip_pending (take_unit r s).1 = clip_pending s /\
  pending_rule (take_unit r s).1 = pending_rule s /\
  pending_ring_snapshot (take_unit r s).1 = pending_ring_snapshot s.
Proof.
  unfold take_unit. destruct (build_access_unit _ _ _ _) as [[sp pp] au]. by repeat case_match.
Qed.

(** A synced stream has both parameter sets. *)
Definition wf (s : @pipe _ Hd) : Prop := synced s = true -> is_Some (sps s) /\ is_Some (pps s).

Lemma scan_nals_keeps l sp pp idr sp' pp' idr' :
  scan_nals l sp pp idr = (sp', pp', idr') ->
  (is_Some sp -> is_Some sp') /\ (is_Some pp -> is_Some pp').
Proof.
  revert sp pp idr. induction l as [|n l IH]; intros sp pp idr Hs; [cbn in Hs; by simplify_eq|].
  cbn [scan_nals] in Hs. repeat case_match; apply IH in Hs as [Hs1 Hs2]; split; intros; eauto.
Qed.

Lemma take_unit_wf r (s : @pipe _ Hd) : wf s -> wf (take_unit r s).1.
Proof.
  unfold wf, take_unit, build_access_unit. intros Hw.
  destruct (scan_nals _ _ _ _) as [[sp pp] idr] eqn:Esc. apply scan_nals_keeps in Esc as [E1 E2].
  destruct (synced s); [intros _; split; [apply E1|apply E2]; by apply Hw|].
  destruct sp as [sp|]; [|done]. destruct pp as [pp|]; [|done]. by case_match.
Qed.

Lemma collect_wf r b (s : @pipe _ Hd) : wf s -> wf (collect r b s).1.
Proof.
  unfold wf, collect. intros Hw. destruct (parse b) as [pkt| |]; [|done..].
  match goal with |- context [if ?c then _ else _] => destruct c end; [done|].
  by destruct (Depacketizer.push_rtp_payload _ _) as [d [l| |]].
Qed.

Lemma take_unit_synced r (s s' : @pipe _ Hd) au : take_unit r s = (s', Some au) -> synced s' = true /\ au_ts au = at_build r.
Proof.
  unfold take_unit, build_access_unit. destruct (scan_nals _ _ _ _) as [[sp pp] idr].
  destruct (synced s); [by intros [= <- <-]|].
  destruct sp as [sp|]; [|done]. destruct pp as [pp|]; [|done]. case_match; [by intros [= <- <-]|done].
Qed.

Lemma media_step_spec cfg r b (s : @pipe _ Hd) :
  let '(s', o) := media_step cfg r b s in
  clip s' = clip s /\ clip_pending s' = clip_pending s /\ pending_rule s' = pending_rule s /\
  pending_ring_snapshot s' = pending_ring_snapshot s /\ (wf s -> wf s') /\
  match o with
  | Some au => synced s' = true /\ (0 <= ring_secs cfg -> prompt cfg r -> last (ring s') = Some au)
  | None => True
  end.
Proof.
  unfold media_step. pose proof (collect_keeps r b s) as (C1 & C2 & C3 & C4). pose proof (collect_wf r b s) as C5.
  destruct (collect r b s) as [s1 [[|]|]]; cbn [fst] in *; [|by split_and!..].
  destruct (current_au s1); [by split_and!|].
  pose proof (take_unit_keeps r s1) as (T1 & T2 & T3 & T4). pose proof (take_unit_wf r s1) as T5.
  destruct (take_unit r s1) as [s2 [au|]] eqn:Et; cbn [fst] in *; [|split_and!; (congruence || auto)].
  apply take_unit_synced in Et as [Es Ets]. unfold push_unit. cbn.
  split_and!; [congruence..|auto|done|]. intros Hk Hp. apply prune_ring_last.
  unfold duration_since, prompt, secs in *. rewrite Ets. lia.
Qed.

Lemma on_rtp_split cfg r b (s : @pipe _ Hd) f :
  on_rtp cfg r b s f =
  match media_step cfg r b s with
  | (s', None) => (f, Ok s')
  | (s', Some _) => (start_pending cfg r s' ≫= feed_clip cfg) f
  end.
Proof.
  unfold on_rtp, media_step. destruct (collect r b s) as [s1 [[|]|]]; [|done..].
  destruct (current_au s1); [done|]. by destruct (take_unit r s1) as [s2 [au|]].
Qed.

Lemma same_media_refl (s : @pipe _ Hd) : same_media s s.
Proof. by repeat split. Qed.

(** An active clip grows by the unit, and only by it. *)
Lemma on_rtp_active cfg r b (s : @pipe _ Hd) c f :
  0 <= clip_write_retry_count cfg -> 0 <= ring_secs cfg -> prompt cfg r -> clip s = Some c ->
  exists s' c' f', on_rtp cfg r b s f = (f', Ok s') /\ clip s' = Some c' /\ grown c c' /\
    same_media (media_step cfg r b s).1 s' /\
    clip_bytes (clip_writer c') f' =
      clip_bytes (clip_writer c) f ++ concat (concat (map nals (option_list (media_step cfg r b s).2))).
Proof.
  intros Hr Hk Hp Hc. rewrite on_rtp_split. pose proof (media_step_spec cfg r b s) as Hm.
  destruct (media_step cfg r b s) as [s1 o]. destruct Hm as (E1 & _ & _ & _ & _ & Ho). rewrite Hc in E1.
  destruct o as [au|]; cbn [option_list map concat fst snd].
  - destruct Ho as [_ Hlast]. specialize (Hlast Hk Hp).
    destruct (write_unit_works cfg (nals au) c f Hr) as (c1 & f1 & Hw & Hg & Hb).
    exists (set_clip s1 (Some c1)), c1, f1. split.
    + unfold start_pending. rewrite E1, bool_decide_true by done. rewrite andb_false_r.
      change ((mret s1 ≫= feed_clip cfg) f) with (feed_clip cfg s1 f). unfold feed_clip.
      by rewrite E1, Hlast, Hw.
    + split; [done|]. split; [done|]. split; [by repeat split|]. rewrite Hb. cbn. by rewrite app_nil_r.
  - exists s1, c, f. split; [done|]. split; [done|]. split; [done|]. split; [by repeat split|]. by rewrite app_nil_r.
Qed.

(** The first unit after a motion starts the clip: the preroll, then the unit. *)
Lemma on_rtp_pending cfg r b (s : @pipe _ Hd) f :
  0 <= clip_write_retry_count cfg -> 0 <= ring_secs cfg -> prompt cfg r -> wf s ->
  clip s = None -> clip_pending s = true ->
  let '(s1, o) := media_step cfg r b s in
  match o with
  | None => on_rtp cfg r b s f = (f, Ok s1) /\ clip s1 = None /\ clip_pending s1 = true /\ wf s1 /\
      pending_ring_snapshot s1 = pending_ring_snapshot s
  | Some au =>
      exists s' c f', on_rtp cfg r b s f = (f', Ok s') /\ clip s' = Some c /\ same_media s1 s' /\
        clip_bytes (clip_writer c) f' =
          concat (preroll (pending_ring_snapshot s) (sps s1) (pps s1)) ++ concat (nals au) /\
        part_path (clip_writer c) = target (writer (clip_writer c)) /\
        stop_at c = at_start r + secs (post_secs cfg)
  end.
Proof.
  intros Hr Hk Hp Hwf Hc Hpend. pose proof (media_step_spec cfg r b s) as Hm. pose proof (on_rtp_split cfg r b s f) as Hs.
  destruct (media_step cfg r b s) as [s1 o]. destruct Hm as (E1 & E2 & E3 & E4 & E5 & Ho). rewrite Hc in E1.
  rewrite Hpend in E2. destruct o as [au|]; [|by split_and!; auto].
  destruct Ho as [Hsy Hlast]. specialize (Hlast Hk Hp). destruct (E5 Hwf Hsy) as [[sp Hsp] [pp Hpp]].
  destruct (try_start_works cfg r (pending_rule s1) (pending_ring_snapshot s1) sp pp f)
    as (f1 & c & Ht & Hb & Hpath & Hstop).
  destruct (write_unit_works cfg (nals au) c f1 Hr) as (c1 & f2 & Hw & ((G1 & G2 & _) & G3 & G4) & Hb2).
  rewrite Hs. unfold start_pending. rewrite E1, E2, bool_decide_false by (by intros []). cbn [andb negb].
  rewrite Hsp, Hpp. do 3 eexists. split.
  - unfold mbind at 1, st_bind at 1. unfold mbind at 1, st_bind at 1. rewrite Ht. cbn [mret st_ret].
    unfold feed_clip. cbn [clip ring]. by rewrite Hlast, Hw.
  - cbn [clip set_clip]. split; [reflexivity|]. split; [by repeat split|]. split.
    + by rewrite Hb2, Hb, E4.
    + split; [by rewrite G2, G1|congruence].
Qed.

Lemma run_active cfg l (s : @pipe _ Hd) c f :
  0 <= clip_write_retry_count cfg -> 0 <= ring_secs cfg -> Forall (fun rb => prompt cfg rb.1) l -> clip s = Some c ->
  exists s' c' f', run cfg (rtp_turns l) s f = (f', Ok s') /\ clip s' = Some c' /\ grown c c' /\
    clip_bytes (clip_writer c') f' = clip_bytes (clip_writer c) f ++ concat (concat (map nals (units cfg l s))).
Proof.
  intros Hr Hk Hp. revert s c f. induction Hp as [|[r b] l Hpr Hp IH]; intros s c f Hc.
  - exists s, c, f. cbn. rewrite app_nil_r. done.
  - destruct (on_rtp_active cfg r b s c f Hr Hk Hpr Hc) as (s1 & c1 & f1 & Ho & Hc1 & Hg & Hsm & Hb).
    destruct (IH s1 c1 f1 Hc1) as (s2 & c2 & f2 & Hrun & Hc2 & Hg2 & Hb2). exists s2, c2, f2.
    cbn [rtp_turns map run]. unfold mbind at 1, st_bind at 1. cbn [step on_msg fst snd]. rewrite Ho.
    split; [exact Hrun|]. split; [done|]. split.
    { destruct Hg as ((?&?&?&?)&?&?), Hg2 as ((?&?&?&?)&?&?). by repeat split; congruence. }
    rewrite Hb2, Hb. cbn [units]. destruct (media_step cfg r b s) as [s0 o]. cbn [fst snd] in *.
    rewrite (units_same _ _ _ _ Hsm), map_app, !concat_app. by rewrite app_assoc.
Qed.


(** A motion whose preroll holds no IDR starts a clip at once, and empty:
    the code does not wait for the next IDR, so the first unit of the clip can
    be one that no decoder can start from. *)
Theorem clip_may_start_without_idr (cfg : StreamConfig) (r : readings) (rule : str)
    (snapshot : list AccessUnit) (sp pp : bytes) (f : F)
    (Hno : Forall (fun au => has_idr au = false) snapshot) :
  exists f' c, try_start_clip cfg r rule (Some snapshot) (Some sp) (Some pp) f = (f', Ok (Some c)) /\
    clip_bytes (clip_writer c) f' = [].
Proof.
  destruct (try_start_works cfg r rule (Some snapshot) sp pp f) as (f' & c & Ht & Hb & _).
  exists f', c. split; [done|]. rewrite Hb. unfold preroll.
  assert (from_first_idr snapshot = []) as ->; [|done].
  clear -Hno. induction Hno as [|au l Hau Hl IH]; cbn; [done|]. by rewrite Hau.
Qed.

End clips.

(** ** Retries and resynchronisation *)
Section retries.
Context `{Calendar} {F Hd E : Type} `{HL : FsLaws F Hd E}.
Import ClipWriter ClipWriterFacts.

(** A NAL unit whose write fails and is retried is in the clip twice: the
    failed attempt has left it in the writer's pending bytes, and the next
    attempt appends it again. *)
Theorem retry_duplicates (w : ClipWriter.t Hd) (nal : bytes) (f f1 f2 : F) (e : E) (n : nat)
    (Hfull : max_pending_bytes w <= Z.of_nat (length (pending w ++ nal))) (Hne : pending w ++ nal <> [])
    (Hfail : fs_write (writer w) (pending w ++ nal) f = (f1, inl e))
    (Hnone : accepted f1 (writer w) = accepted f (writer w))
    (Hthen : fs_write (writer w) ((pending w ++ nal) ++ nal) f1 = (f2, inr tt)) :
  exists w' f', write_attempts (S (S n)) nal w f = (w', f', true) /\
    clip_bytes w' f' = clip_bytes w f ++ nal ++ nal.
Proof.
  set (w1 := with_pending (pending w ++ nal) w).
  assert (write_nal nal (w, f) = ((w1, f1), Err e)) as Hw1.
  { rewrite write_nal_eq, (proj2 (Z.leb_le _ _)), Hfail by done.
    by destruct (Nat.eqb_spec (length (pending w ++ nal)) 0) as [Hz%length_zero_iff_nil|_]. }
  assert (exists w2, write_nal nal (w1, f1) = ((w2, f2), Ok tt)) as [w2 Hw2].
  { rewrite write_nal_eq. cbn [w1 with_pending pending writer max_pending_bytes]. rewrite Hthen.
    destruct (Z.leb_spec (max_pending_bytes w) (Z.of_nat (length ((pending w ++ nal) ++ nal)))) as [_|Hlt].
    - destruct (Nat.eqb_spec (length ((pending w ++ nal) ++ nal)) 0) as [Hz%length_zero_iff_nil|_]; [|by eexists].
      by apply app_eq_nil in Hz as [Hz _].
    - rewrite length_app in Hlt. lia. }
  exists w2, f2. cbn [write_attempts]. rewrite Hw1, Hw2. split; [done|].
  apply write_nal_ok in Hw2 as (_ & -> & _). unfold clip_bytes. cbn. rewrite Hnone. by rewrite <- !app_assoc.
Qed.

Lemma scan_idr l sp pp idr sp' pp' idr' :
  scan_nals l sp pp idr = (sp', pp', idr') ->
  (idr' = true -> idr = true \/ exists n, n ∈ l /\ nal_type_from_annexb n = Some 5).
Proof.
  revert sp pp idr. induction l as [|n l IH]; intros sp pp idr Hs Hi; [cbn in Hs; simplify_eq; by left|].
  cbn [scan_nals] in Hs. destruct (nal_type_from_annexb n) as [nt|] eqn:En.
  - destruct (Z.eqb_spec nt 7); [|destruct (Z.eqb_spec nt 8); [|destruct (Z.eqb_spec nt 5)]];
      destruct (IH _ _ _ Hs Hi) as [Hl|(m & Hm & Hm5)]; try (by left);
      try (right; exists m; split; [by apply elem_of_cons; right|done]).
    right. exists n. subst nt. split; [by apply elem_of_cons; left|done].
  - destruct (IH _ _ _ Hs Hi) as [Hl|(m & Hm & Hm5)]; [by left|].
    right. exists m. split; [by apply elem_of_cons; right|done].
Qed.

(** After a gap, an unreadable packet or a packet out of order, the first
    access unit that enters the ring contains an IDR and starts with the
    current SPS and PPS; until then units are dropped. *)
Theorem resync_unit (r : readings) (s s' : @pipe _ Hd) (au : AccessUnit)
    (Hs : synced s = false) (Hau : take_unit r s = (s', Some au)) :
  synced s' = true /\ has_idr au = true /\
  exists sp pp rest, sps s' = Some sp /\ pps s' = Some pp /\ nals au = sp :: pp :: rest /\
    rest = current_au s /\ exists n, n ∈ rest /\ nal_type_from_annexb n = Some 5.
Proof.
  revert Hau. unfold take_unit, build_access_unit.
  destruct (scan_nals (current_au s) (sps s) (pps s) false) as [[sp pp] idr] eqn:E1. rewrite Hs.
  destruct sp as [sp|]; [|done]. destruct pp as [pp|]; [|done]. cbn [has_idr].
  destruct idr; [|done]. intros [= <- <-]. split; [done|]. split; [done|].
  exists sp, pp, (current_au s). do 4 (split; [done|]).
  destruct (scan_idr _ _ _ _ _ _ _ E1 eq_refl) as [|Hn]; [done|exact Hn].
Qed.

End retries.

(** ** Witnesses, on a disk in memory *)
Module PipelineWitness.
Import MotionWitness MemFs ClipWriterFacts.

Definition calendar : @Calendar clock :=
  @Build_Calendar clock (fun d : Z => d / 1000) (fun t : Z => dec t) (fun t : Z => dec t).
Definition sidecar_json : ToJson ClipSidecar := fun _ => lit "{}".
Definition health_json : ToJson StreamHealthSnapshot := fun _ => lit "{}".
Definition disk_ok : Fs disk str unit := mem_fs (fun _ => false).

Definition cfg : StreamConfig := mkConfig 1 (lit "clips") 10 5 8 3600 None 1000 2 100 10 60.

(** The readings of a turn at [t] milliseconds. *)
Definition at_ms (t : Z) : @readings clock :=
  let i := t * 1000000 in @mkReadings clock t t i i t i t t i i t i t.

Definition packet (seq : Z) (marker : bool) (p : bytes) : bytes :=
  encode (mkWire marker 96 seq 1000 7 [] None p None).

Definition packets : list (@readings clock * bytes) :=
  [(at_ms 1, packet 7 false [0x67; 1]); (at_ms 2, packet 8 false [0x68; 2]);
   (at_ms 3, packet 9 true [0x65; 3]); (at_ms 4, packet 10 true [0x41; 4])].

(** A motion is pending on an empty preroll. *)
Definition pending_state : @pipe clock str :=
  mkPipe Depacketizer.new None false None None [] [] None true (lit "motion") (Some []) no_stats no_episode.

Definition nal (l : bytes) : bytes := ANNEXB_START ++ l.
Definition first_unit : AccessUnit :=
  mkAu 3000000 [nal [0x67; 1]; nal [0x68; 2]; nal [0x67; 1]; nal [0x68; 2]; nal [0x65; 3]] true.
Definition second_unit : AccessUnit := mkAu 4000000 [nal [0x41; 4]] false.


Lemma clip_may_start_without_idr_witness :
  exists f' c, @try_start_clip clock calendar disk str unit disk_ok cfg (at_ms 5) (lit "motion")
      (Some [second_unit]) (Some (nal [0x67])) (Some (nal [0x68])) ∅ = (f', Ok (Some c)) /\
    @clip_bytes disk str unit disk_ok (mem_laws (fun _ => false)) (clip_writer c) f' = [].
Proof.
  apply (@clip_may_start_without_idr clock calendar disk str unit disk_ok (mem_laws (fun _ => false))
    ltac:(intros p f; do 2 eexists; reflexivity) ltac:(intros h b f; eexists; reflexivity)).
  repeat constructor.
Defined.

(** A disk that refuses writes of two bytes. *)
Definition flaky : Fs disk str unit := mem_fs (fun b => (length b =? 2)%nat).

Lemma retry_duplicates_witness :
  exists w' f', @write_attempts disk str unit flaky 3 [5; 6] (ClipWriter.mk (lit "p") (lit "q") (lit "p") [] 1 0) ∅
      = (w', f', true) /\
    @clip_bytes disk str unit flaky (mem_laws (fun b => (length b =? 2)%nat)) w' f' = [5; 6; 5; 6].
Proof.
  destruct (@retry_duplicates disk str unit flaky (mem_laws (fun b => (length b =? 2)%nat))
    (ClipWriter.mk (lit "p") (lit "q") (lit "p") [] 1 0) [5; 6] ∅ ∅ (<[lit "p" := [5; 6; 5; 6]]> ∅) tt 1)
    as (w' & f' & Hw & Hb).
  - cbn. lia.
  - discriminate.
  - reflexivity.
  - reflexivity.
  - vm_compute. reflexivity.
  - exists w', f'. split; [exact Hw|]. rewrite Hb. vm_compute. reflexivity.
Defined.

Definition unsynced : @pipe clock str :=
  mkPipe Depacketizer.new None false (Some (nal [0x67])) (Some (nal [0x68])) [] [nal [0x65; 3]]
    None false [] None no_stats no_episode.

Lemma resync_unit_witness :
  let '(s', o) := take_unit (at_ms 1) unsynced in
  synced s' = true /\ nals <$> o = Some [nal [0x67]; nal [0x68]; nal [0x65; 3]].
Proof.
  destruct (take_unit (at_ms 1) unsynced) as [s' o] eqn:Ht. vm_compute in Ht.
  pose proof (@resync_unit clock str (at_ms 1) unsynced (take_unit (at_ms 1) unsynced).1
    (mkAu 1000000 [nal [0x67]; nal [0x68]; nal [0x65; 3]] true) eq_refl eq_refl) as [Hs _].
  injection Ht as <- <-. split; [exact Hs|reflexivity].
Defined.

Lemma prune_ring_window_witness :
  prune_ring (secs 20) 10 [first_unit; mkAu (secs 11) [] false; mkAu (secs 19) [] false]
  = [mkAu (secs 11) [] false; mkAu (secs 19) [] false].
Proof.
  rewrite (prune_ring_window (secs 20) 10); [vm_compute; reflexivity|].
  repeat constructor; vm_compute; discriminate.
Defined.

End PipelineWitness.
