(* ===== verification/Recorder.v ===== *)
(** * The agent's clip recorder ([core/clip_recorder.rs])

    Motion arms the recorder, the next IDR behind known parameter sets starts a
    clip, and deadlines or limits end it.  [recorder] is [ClipRecorder] and an
    [event] is a branch of its [select!]; the file system is [Fs] of Clip and
    the directory operations below, the channel of finished clips is [MetaTx].
    Clocks are read where the code reads them: an event carries its readings,
    instants and wall-clock times in nanoseconds.  Logging is left out, and so
    is the [else] branch of the loop, which the timer's branch makes
    unreachable. *)
From S2P Require Import Prelude Str H264 Motion Clip Pipeline.
From Stdlib Require Import Sorting.Sorted.

(** ** Directories, besides [Fs]

    [dir_read]: the names of the entries, each possibly an error;
    [dir_metadata]: modification time, if there is one, and length. *)
Class DirFs (F E : Type) := {
  dir_create : str -> F -> F * (E + unit);                  (* create_dir_all *)
  dir_read : str -> F -> F * (E + list (E + str));
  dir_metadata : str -> F -> F * (E + (option Z * Z));
}.

Record ClipRecorderConfig := mkRecCfg {
  output_dir : str;
  post_roll : Z;
  min_clip_duration : Z;
  flush_interval : Z;
  stale_part_max_age : Z;
  write_batch_bytes : Z;
  max_files : option nat;
  max_age_secs : option Z;
  max_total_bytes : option Z;
  max_clip_bytes : option Z;
  max_clip_secs : option Z;
}.

Definition default_config : ClipRecorderConfig :=
  mkRecCfg (lit "clips") (secs 3) (secs 5) (secs 1) (secs (24 * 60 * 60)) (256 * 1024) None None None None None.

Record StickyMotion := mkSticky { sm_rule : string; sm_camera_id : string; sm_event_id : string }.

(** A file of the retention scan: path, modification time, length. *)
Record clip_file := mkFile { cf_path : str; cf_mtime : Z; cf_size : Z }.

(** The entry of the smallest rule name: [iter().min_by_key]. *)
Definition min_rule (st : StateBus.MotionState) : option (string * StateBus.MotionMetadata) :=
  foldr (fun kv acc => match acc with
                       | Some kv' => if String.leb kv.1 kv'.1 then Some kv else acc
                       | None => Some kv
                       end) None (map_to_list st).
Definition sticky_of (kv : string * StateBus.MotionMetadata) : StickyMotion :=
  mkSticky kv.1 (StateBus.m_camera_id kv.2) (StateBus.m_event_id kv.2).

(** ** Retention: which clips are deleted *)
Fixpoint insert_by_mtime (c : clip_file) (l : list clip_file) : list clip_file :=
  match l with
  | [] => [c]
  | d :: l' => if cf_mtime c <=? cf_mtime d then c :: l else d :: insert_by_mtime c l'
  end.
(** [sort_by_key], which is stable. *)
Definition sort_by_mtime (l : list clip_file) : list clip_file := foldr insert_by_mtime [] l.

Fixpoint over_size (max_bytes current_size : Z) (l : list clip_file) : list str :=
  match l with
  | [] => []
  | c :: l =>
      if current_size <=? max_bytes then []
      else cf_path c :: over_size max_bytes (current_size - cf_size c) l
  end.

Definition total_size (l : list clip_file) : Z := foldr (fun c n => cf_size c + n) 0 l.

Definition clips_to_delete (cfg : ClipRecorderConfig) (wall : Z) (clips : list clip_file) : list str :=
  let clips := sort_by_mtime clips in
  let old := match max_age_secs cfg with
             | Some age => map cf_path (filter (fun c => cf_mtime c < wall - secs age) clips)
             | None => []
             end in
  let clips := filter (fun c => cf_path c ∉ old) clips in
  let excess := match max_files cfg with Some n => (length clips - n)%nat | None => 0%nat end in
  let many := map cf_path (take excess clips) in
  let clips := drop excess clips in
  let big := match max_total_bytes cfg with
             | Some max => if max <? total_size clips then over_size max (total_size clips) clips else []
             | None => []
             end in
  old ++ many ++ big.

(** [Path::extension] is [h264]. *)
Definition has_h264_extension (name : str) : bool :=
  starts_with (rev (lit ".h264")) (rev name) && (5 <? length name)%nat.

Section recorder.
Context `{Calendar} {F Hd E : Type} `{Fs F Hd E} `{DirFs F E}.

Record ClipMeta := mkMeta {
  cm_camera_id : string; cm_event_id : string; cm_rule : string; cm_file_path : str; cm_file_size : Z;
  cm_started_at : DateTime; cm_ended_at : DateTime }.
Record ClipSidecar := mkRecSidecar {
  rs_camera_id : string; rs_event_id : string; rs_rule : string; rs_filename : str; rs_file_size_bytes : Z;
  rs_started_at : str; rs_ended_at : str; rs_duration_secs : Z }.

(** The sending end of the metadata channel; a full channel drops. *)
Class MetaTx (T : Type) := meta_try_send : ClipMeta -> T -> T.
Context {T : Type} `{MetaTx T} `{ToJson ClipSidecar}.

Record recording := mkRecording {
  r_rule : string; r_camera_id : string; r_event_id : string;
  r_writer : ClipWriter.t Hd;
  r_stop_at : option Z; r_hard_stop_at : option Z;
  r_started_at : Z; r_started_at_utc : DateTime; r_file_path : str }.
Inductive State :=
| Idle
| Armed (rule camera_id event_id : string) (armed_at : Z)
| Recording (c : recording).

Record recorder := mkRecorder {
  state : State;
  last_sps : option bytes;
  last_pps : option bytes;
  last_motion_state : StateBus.MotionState;
  sticky_motion : option StickyMotion;
  clip_meta_tx : option T }.
Definition new (tx : option T) : recorder := mkRecorder Idle None None ∅ None tx.

Definition set_state (st : State) (s : recorder) : recorder :=
  mkRecorder st (last_sps s) (last_pps s) (last_motion_state s) (sticky_motion s) (clip_meta_tx s).
Definition with_writer (w : ClipWriter.t Hd) (c : recording) : recording :=
  mkRecording (r_rule c) (r_camera_id c) (r_event_id c) w (r_stop_at c) (r_hard_stop_at c)
    (r_started_at c) (r_started_at_utc c) (r_file_path c).
Definition with_stop (t : option Z) (c : recording) : recording :=
  mkRecording (r_rule c) (r_camera_id c) (r_event_id c) (r_writer c) t (r_hard_stop_at c)
    (r_started_at c) (r_started_at_utc c) (r_file_path c).
Definition is_recording (st : State) : bool := match st with Recording _ => true | _ => false end.

(** The clock readings of one event. *)
Record readings := mkRead {
  at_elapsed : Z;        (* Instant::elapsed *)
  at_now : Z;            (* Instant::now *)
  at_rearm : Z;          (* rearm_if_motion_active *)
  utc_file : DateTime;   (* spawn_clip_writer *)
  utc_start : DateTime;
  utc_end : DateTime;
  wall : Z;              (* SystemTime::now *)
}.

(** *** Files *)
Fixpoint scan_clips (dir : str) (es : list (E + str)) (f : F) : F * outcome E (list clip_file) :=
  match es with
  | [] => (f, Ok [])
  | inl e :: _ => (f, Err e)
  | inr name :: es =>
      if negb (has_h264_extension name) then scan_clips dir es f
      else match dir_metadata (join dir name) f with
           | (f, inl _) => scan_clips dir es f
           | (f, inr (mtime, size)) =>
               match scan_clips dir es f with
               | (f, Ok l) => (f, Ok (mkFile (join dir name) (default 0 mtime) size :: l))
               | r => r
               end
           end
  end.
Fixpoint delete_clips (paths : list str) (f : F) : F :=
  match paths with
  | [] => f
  | p :: ps => delete_clips ps (fs_remove (with_json p) (fs_remove p f).1).1
  end.
Definition cleanup_old_clips (cfg : ClipRecorderConfig) (wall : Z) (f : F) : F * outcome E unit :=
  match dir_read (output_dir cfg) f with
  | (f, inl e) => (f, Err e)
  | (f, inr es) =>
      match scan_clips (output_dir cfg) es f with
      | (f, Ok clips) => (delete_clips (clips_to_delete cfg wall clips) f, Ok tt)
      | (f, Err e) => (f, Err e)
      | (f, Panic) => (f, Panic)
      end
  end.

Fixpoint delete_stale_parts (dir : str) (cutoff : Z) (es : list (E + str)) (f : F) : F * outcome E unit :=
  match es with
  | [] => (f, Ok tt)
  | inl e :: _ => (f, Err e)
  | inr name :: es =>
      if negb (starts_with (rev (lit ".h264.part")) (rev name)) then delete_stale_parts dir cutoff es f
      else match dir_metadata (join dir name) f with
           | (f, inl _) => delete_stale_parts dir cutoff es f
           | (f, inr (mtime, _)) =>
               delete_stale_parts dir cutoff es
                 (if default 0 mtime <? cutoff then (fs_remove (join dir name) f).1 else f)
           end
  end.
Definition cleanup_stale_parts (cfg : ClipRecorderConfig) (wall : Z) (f : F) : F * outcome E unit :=
  match dir_read (output_dir cfg) f with
  | (f, inl e) => (f, Err e)
  | (f, inr es) => delete_stale_parts (output_dir cfg) (wall - stale_part_max_age cfg) es f
  end.

Definition spawn_clip_writer (cfg : ClipRecorderConfig) (r : readings) (rule camera_id event_id : string)
    (f : F) : F * outcome E (ClipWriter.t Hd * str) :=
  let ts := file_stamp (utc_file r) in
  let name := ts ++ 95 :: lit camera_id ++ 95 :: lit event_id ++ 95 :: safe_rule (lit rule) ++ lit ".h264" in
  let file_path := join (output_dir cfg) name in
  let part_path := join (output_dir cfg) (name ++ lit ".part") in
  match ClipWriter.create part_path file_path (write_batch_bytes cfg) f with
  | (f, Ok w) => (f, Ok (w, file_path))
  | (f, Err e) => (f, Err e)
  | (f, Panic) => (f, Panic)
  end.

Definition write_sidecar_json (c : recording) (file_path : str) (file_size : Z) (ended_at : DateTime) (f : F) : F :=
  let sidecar := mkRecSidecar (r_camera_id c) (r_event_id c) (r_rule c) (file_name file_path) file_size
                   (to_rfc3339 (r_started_at_utc c)) (to_rfc3339 ended_at)
                   (num_seconds (signed_duration_since ended_at (r_started_at_utc c))) in
  (fs_store (with_json file_path) (to_json sidecar) f).1.

(** Every failure in here is logged and ignored. *)
Definition stop_recording (cfg : ClipRecorderConfig) (r : readings) (s : recorder) (f : F) : recorder * F :=
  match state s with
  | Recording c =>
      let s := set_state Idle s in
      let '((w, f), _) := ClipWriter.flush (r_writer c, f) in
      match ClipWriter.finalize w f with
      | (f, Ok final_path) =>
          let '(f, m) := dir_metadata final_path f in
          let file_size := match m with inr (_, len) => len | inl _ => 0 end in
          let f := write_sidecar_json c final_path file_size (utc_end r) f in
          let meta := mkMeta (r_camera_id c) (r_event_id c) (r_rule c) final_path file_size
                        (r_started_at_utc c) (utc_end r) in
          let s := mkRecorder (state s) (last_sps s) (last_pps s) (last_motion_state s) (sticky_motion s)
                     (meta_try_send meta <$> clip_meta_tx s) in
          (s, (cleanup_old_clips cfg (wall r) f).1)
      | (f, _) => (s, f)
      end
  | _ => (set_state Idle s, f)
  end.

(** *** Motion *)
Definition arm (now : Z) (m : StickyMotion) (s : recorder) : recorder :=
  set_state (Armed (sm_rule m) (sm_camera_id m) (sm_event_id m) now) s.

(** [last_motion_state] and [sticky_motion] on a change of the motion state. *)
Definition note_motion (st : StateBus.MotionState) (s : recorder) : recorder :=
  let sticky :=
    if bool_decide (st = ∅) && negb (is_recording (state s)) then None
    else if negb (bool_decide (st = ∅)) && negb (bool_decide (is_Some (sticky_motion s))) then
      match min_rule st with Some kv => Some (sticky_of kv) | None => sticky_motion s end
    else sticky_motion s in
  mkRecorder (state s) (last_sps s) (last_pps s) st sticky (clip_meta_tx s).

Definition on_motion_state_change (cfg : ClipRecorderConfig) (r : readings) (st : StateBus.MotionState)
    (s : recorder) : recorder :=
  let s := note_motion st s in
  let has_active_motion := negb (bool_decide (st = ∅)) in
  match state s with
  | Idle =>
      if has_active_motion then
        match sticky_motion s with
        | Some m => arm (at_now r) m s
        | None => match min_rule st with Some kv => arm (at_now r) (sticky_of kv) s | None => s end
        end
      else s
  | Armed rule camera_id event_id armed_at =>
      if has_active_motion then set_state (Armed rule camera_id event_id (at_now r)) s
      else if secs 30 <? duration_since (at_elapsed r) armed_at then set_state Idle s
      else s
  | Recording c =>
      if has_active_motion then set_state (Recording (with_stop None c)) s
      else match r_stop_at c with
           | None =>
               let elapsed := duration_since (at_elapsed r) (r_started_at c) in
               let remaining_min := Z.max 0 (min_clip_duration cfg - elapsed) in
               let deadline := if 0 <? remaining_min then at_now r + remaining_min else at_now r + post_roll cfg in
               set_state (Recording (with_stop (Some deadline) c)) s
           | Some _ => s
           end
  end.

Definition rearm_if_motion_active (r : readings) (s : recorder) : recorder :=
  if bool_decide (last_motion_state s = ∅) then s
  else match sticky_motion s with
       | Some m => arm (at_rearm r) m s
       | None => match min_rule (last_motion_state s) with Some kv => arm (at_rearm r) (sticky_of kv) s | None => s end
       end.

Definition due (now : Z) (t : option Z) : bool := match t with Some t => t <=? now | None => false end.

Definition maybe_stop_on_deadline (cfg : ClipRecorderConfig) (r : readings) (s : recorder) (f : F) : recorder * F :=
  match state s with
  | Recording c =>
      let stop_due := due (at_now r) (r_stop_at c) in
      let hard_due := due (at_now r) (r_hard_stop_at c) in
      if stop_due || hard_due then
        let '(s, f) := stop_recording cfg r s f in
        (if hard_due then rearm_if_motion_active r s else s, f)
      else (s, f)
  | _ => (s, f)
  end.

Definition flush_recording (s : recorder) (f : F) : recorder * F :=
  match state s with
  | Recording c =>
      let '((w, f), _) := ClipWriter.flush (r_writer c, f) in (set_state (Recording (with_writer w c)) s, f)
  | _ => (s, f)
  end.

(** *** Video *)
Definition write_ignored (nal : bytes) (s : recorder) (f : F) : recorder * F :=
  match state s with
  | Recording c =>
      let '((w, f), _) := ClipWriter.write_nal nal (r_writer c, f) in (set_state (Recording (with_writer w c)) s, f)
  | _ => (s, f)
  end.

Definition start_recording (cfg : ClipRecorderConfig) (r : readings) (rule camera_id event_id : string)
    (sps pps idr : bytes) (s : recorder) : Prelude.st F E recorder := fun f =>
  match spawn_clip_writer cfg r rule camera_id event_id f with
  | (f, Ok (w, file_path)) =>
      match (ClipWriter.write_nal sps ;; ClipWriter.write_nal pps ;; ClipWriter.write_nal idr) (w, f) with
      | ((w, f), Ok _) =>
          (f, Ok (set_state (Recording (mkRecording rule camera_id event_id w
                    (Some (at_now r + min_clip_duration cfg))
                    ((fun n => at_now r + secs n) <$> max_clip_secs cfg) (at_now r) (utc_start r) file_path)) s))
      | ((w, f), Err e) => (fs_drop (ClipWriter.writer w) f, Err e)
      | ((w, f), Panic) => (fs_drop (ClipWriter.writer w) f, Panic)
      end
  | (f, Err e) => (f, Err e)
  | (f, Panic) => (f, Panic)
  end.

Definition on_nal (cfg : ClipRecorderConfig) (r : readings) (nal : bytes) (s : recorder)
    : Prelude.st F E recorder := fun f =>
  match nal_type_from_annexb nal with
  | None => (f, Ok s)
  | Some nt =>
      if nt =? 7 then
        let '(s, f) := write_ignored nal (mkRecorder (state s) (Some nal) (last_pps s) (last_motion_state s)
                                            (sticky_motion s) (clip_meta_tx s)) f in (f, Ok s)
      else if nt =? 8 then
        let '(s, f) := write_ignored nal (mkRecorder (state s) (last_sps s) (Some nal) (last_motion_state s)
                                            (sticky_motion s) (clip_meta_tx s)) f in (f, Ok s)
      else match state s with
      | Idle => (f, Ok s)
      | Armed rule camera_id event_id armed_at =>
          match last_sps s, last_pps s with
          | Some sps, Some pps =>
              if nt =? 5 then start_recording cfg r rule camera_id event_id sps pps nal s f else (f, Ok s)
          | _, _ => (f, Ok s)
          end
      | Recording c =>
          match ClipWriter.write_nal nal (r_writer c, f) with
          | ((w, f), Ok _) =>
              let s := set_state (Recording (with_writer w c)) s in
              if match max_clip_bytes cfg with
                 | Some max_bytes => max_bytes <=? ClipWriter.total_bytes w
                 | None => false
                 end
              then let '(s, f) := stop_recording cfg r s f in (f, Ok s)
              else (f, Ok s)
          | ((w, f), _) =>
              let '(s, f) := stop_recording cfg r (set_state (Recording (with_writer w c)) s) f in (f, Ok s)
          end
      end
  end.

(** *** The loop *)
Inductive event :=
| Tick (r : readings)
| CleanupTick (r : readings)
| FlushTick
| MotionChanged (r : readings) (st : StateBus.MotionState)
| Nal (r : readings) (nal : bytes).

Definition step (cfg : ClipRecorderConfig) (e : event) (s : recorder) : Prelude.st F E recorder := fun f =>
  match e with
  | Tick r => let '(s, f) := maybe_stop_on_deadline cfg r s f in (f, Ok s)
  | CleanupTick r => ((cleanup_old_clips cfg (wall r) f).1, Ok s)
  | FlushTick => let '(s, f) := flush_recording s f in (f, Ok s)
  | MotionChanged r st => (f, Ok (on_motion_state_change cfg r st s))
  | Nal r nal => on_nal cfg r nal s f
  end.

Fixpoint turns (cfg : ClipRecorderConfig) (es : list event) (s : recorder) : Prelude.st F E recorder :=
  match es with
  | [] => mret s
  | e :: es => s ← step cfg e s; turns cfg es s
  end.

Definition run (cfg : ClipRecorderConfig) (wall : Z) (es : list event) (s : recorder) : Prelude.st F E recorder :=
  (fun f => io_outcome (dir_create (output_dir cfg) f)) ;;
  (fun f => ((cleanup_stale_parts cfg wall f).1, Ok tt)) ;;
  turns cfg es s.
End recorder.

(** ** What a run has seen *)
Section history.
Context `{Chrono}.

(** The NAL units that have a type, and the last one of a type. *)
Definition nals_of (es : list event) : list bytes :=
  omap (fun e => match e with
                 | Nal _ nal => nal_type_from_annexb nal ≫= fun _ => Some nal
                 | _ => None
                 end) es.
Definition last_of (t : Z) (es : list event) : option bytes :=
  last (filter (fun nal => nal_type_from_annexb nal = Some t) (nals_of es)).
(** A motion has been seen. *)
Definition moved (es : list event) : Prop := exists r st, MotionChanged r st ∈ es /\ st <> ∅.
(** The clip of a history: the parameter sets known when some IDR came after a
    motion, that IDR, and every NAL unit since. *)
Definition clip_text (es : list event) (b : bytes) : Prop :=
  exists es1 r idr es2 sps pps, es = es1 ++ Nal r idr :: es2 /\ moved es1 /\
    last_of 7 es1 = Some sps /\ last_of 8 es1 = Some pps /\ nal_type_from_annexb idr = Some 5 /\
    b = concat (sps :: pps :: idr :: nals_of es2).
Definition no_retention (cfg : ClipRecorderConfig) : Prop :=
  max_files cfg = None /\ max_age_secs cfg = None /\ max_total_bytes cfg = None.
End history.

(** Directory operations and [fs_remove] change nothing but what they name. *)
Class DirFsLaws (F Hd E : Type) `{FsLaws F Hd E} `{DirFs F E} := {
  dir_read_frame p f f' r : dir_read p f = (f', r) ->
    (forall q, contents f' q = contents f q) /\ (forall h, accepted f' h = accepted f h);
  dir_metadata_frame p f f' r : dir_metadata p f = (f', r) ->
    (forall q, contents f' q = contents f q) /\ (forall h, accepted f' h = accepted f h);
  remove_keeps p f f' r : fs_remove p f = (f', r) -> forall h, target h <> p -> accepted f' h = accepted f h;
  store_keeps p b f f' r : fs_store p b f = (f', r) -> forall q, q <> p -> contents f' q = contents f q;
}.

(** ** Retention *)
Section retention.
Implicit Types l : list clip_file.
Definition older (c d : clip_file) : Prop := cf_mtime c <= cf_mtime d.

(** What retention promises of the clips it keeps. *)
Definition within_limits (cfg : ClipRecorderConfig) (wall : Z) l : Prop :=
  (forall age, max_age_secs cfg = Some age -> Forall (fun c => wall - secs age <= cf_mtime c) l) /\
  (forall n, max_files cfg = Some n -> (length l <= n)%nat) /\
  (forall max, max_total_bytes cfg = Some max -> total_size l <= max).

Lemma insert_perm c l : insert_by_mtime c l ≡ₚ c :: l.
Proof. induction l as [|d l IH]; [done|]. cbn. case_match; [done|]. rewrite IH. apply perm_swap. Qed.

Lemma sort_perm l : sort_by_mtime l ≡ₚ l.
Proof. induction l as [|c l IH]; [done|]. cbn. by rewrite insert_perm, IH. Qed.

Lemma insert_sorted c l : StronglySorted older l -> StronglySorted older (insert_by_mtime c l).
Proof.
  induction 1 as [|d l Hs IH Hd]; cbn; [by repeat constructor|].
  destruct (Z.leb_spec (cf_mtime c) (cf_mtime d)) as [Hle|Hlt].
  - constructor; [by constructor|]. constructor; [done|].
    eapply Forall_impl; [exact Hd|]. unfold older. intros x Hx. lia.
  - constructor; [done|]. rewrite insert_perm. constructor; [unfold older; lia|done].
Qed.

Lemma sort_sorted l : StronglySorted older (sort_by_mtime l).
Proof. induction l; [constructor|]. by apply insert_sorted. Qed.

Lemma sorted_split cut l :
  StronglySorted older l ->
  exists k, filter (fun c => cf_mtime c < cut) l = take k l /\ (k <= length l)%nat /\
    Forall (fun c => cut <= cf_mtime c) (drop k l) /\ Forall (fun c => cf_mtime c < cut) (take k l).
Proof.
  induction 1 as [|c l Hs (k & Hf & Hk & Hd & Ht) Hc]; [by exists 0%nat|].
  rewrite filter_cons. destruct (decide (cf_mtime c < cut)) as [Hlt|Hge].
  - exists (S k). cbn. rewrite Hf. split; [done|]. split; [lia|]. split; [done|by constructor].
  - exists 0%nat. cbn. split; [|split; [lia|split; [|constructor]]].
    + apply filter_none. eapply Forall_impl; [exact Hc|]. unfold older. intros x Hx. lia.
    + constructor; [lia|]. eapply Forall_impl; [exact Hc|]. unfold older. intros x Hx. lia.
Qed.

Lemma filter_removed k l :
  NoDup (map cf_path l) -> filter (fun c => cf_path c ∉ map cf_path (take k l)) l = drop k l.
Proof.
  intros Hnd. set (P := fun c => cf_path c ∉ map cf_path (take k l)).
  rewrite <- (take_drop k l) in Hnd. rewrite map_app in Hnd. apply NoDup_app in Hnd as (_ & Hdis & _).
  transitivity (filter P (take k l) ++ filter P (drop k l)); [by rewrite <- filter_app, take_drop|].
  rewrite filter_none, filter_all; [done|..].
  - apply Forall_forall. intros c Hc Hin. apply (Hdis _ Hin). by apply list_elem_of_fmap_2.
  - apply Forall_forall. intros c Hc Hn. apply Hn. by apply list_elem_of_fmap_2.
Qed.

Lemma over_size_spec max l :
  0 <= max ->
  exists k, over_size max (total_size l) l = map cf_path (take k l) /\ (k <= length l)%nat /\
    total_size (drop k l) <= max /\ ((0 < k)%nat -> max < total_size (drop (k - 1) l)).
Proof.
  intros Hmax. induction l as [|c l (k & Ho & Hk & Ht & Hlast)]; [exists 0%nat; cbn; repeat split; lia|].
  cbn [over_size total_size foldr]. change (foldr _ 0 l) with (total_size l).
  destruct (Z.leb_spec (cf_size c + total_size l) max) as [Hle|Hlt].
  - exists 0%nat. cbn [take drop]. repeat split; [lia|exact Hle|lia].
  - replace (cf_size c + total_size l - cf_size c) with (total_size l) by lia.
    exists (S k). cbn [take drop length]. rewrite Ho. repeat split; [lia|done|]. intros _.
    destruct k as [|k]; [exact Hlt|]. replace (S (S k) - 1)%nat with (S k) by lia.
    replace (S k - 1)%nat with k in Hlast by lia. apply Hlast. lia.
Qed.

(** Each limit takes an initial segment of the clips in order of age, and the
    last clip it takes breaks it. *)
Lemma old_prefix cfg wall l :
  StronglySorted older l ->
  exists k, match max_age_secs cfg with
      | Some age => map cf_path (filter (fun c => cf_mtime c < wall - secs age) l) | None => [] end
      = map cf_path (take k l) /\ (k <= length l)%nat /\
    (forall age, max_age_secs cfg = Some age -> Forall (fun c => wall - secs age <= cf_mtime c) (drop k l)) /\
    ((0 < k)%nat -> exists age, max_age_secs cfg = Some age /\ Forall (fun c => cf_mtime c < wall - secs age) (take k l)).
Proof.
  intros Hs. destruct (max_age_secs cfg) as [age|]; [|exists 0%nat; repeat split; [lia|done|lia]].
  destruct (sorted_split (wall - secs age) l Hs) as (k & -> & Hk & Hd & Ht).
  exists k. split; [done|]. split; [done|]. split; [by intros ? [= <-]|]. by exists age.
Qed.

Lemma big_prefix cfg l :
  (forall max, max_total_bytes cfg = Some max -> 0 <= max) ->
  exists k, match max_total_bytes cfg with
      | Some max => if max <? total_size l then over_size max (total_size l) l else []
      | None => [] end = map cf_path (take k l) /\
    (forall max, max_total_bytes cfg = Some max -> total_size (drop k l) <= max) /\
    ((0 < k)%nat -> exists max, max_total_bytes cfg = Some max /\ max < total_size (drop (k - 1) l)).
Proof.
  intros Hmax. destruct (max_total_bytes cfg) as [max|]; [|exists 0%nat; repeat split; [done|lia]].
  destruct (over_size_spec max l) as (k & Ho & _ & Ht & Hl); [by apply Hmax|].
  destruct (Z.ltb_spec max (total_size l)) as [Hlt|Hge].
  - exists k. rewrite Ho. split; [done|]. split; [by intros ? [= <-]|]. intros Hk. exists max. auto.
  - exists 0%nat. cbn [take map drop]. split; [done|]. split; [by intros ? [= <-]|lia].
Qed.

(** A clip that is too old cannot be kept. *)
Lemma age_broken cfg wall l k :
  (0 < k <= length l)%nat ->
  (exists age, max_age_secs cfg = Some age /\ Forall (fun c => cf_mtime c < wall - secs age) (take k l)) ->
  ~ within_limits cfg wall (drop (k - 1) l).
Proof.
  intros Hk (age & Ea & Ht) (Wa & _). specialize (Wa _ Ea).
  destruct (drop (k - 1) l) as [|c l'] eqn:El.
  { apply (f_equal length) in El. rewrite length_drop in El. cbn in El. lia. }
  assert (l !! (k - 1)%nat = Some c) as Hc by (by rewrite <- (Nat.add_0_r (k - 1)), <- lookup_drop, El).
  apply Forall_cons in Wa as [Wc _]. rewrite Forall_lookup in Ht. specialize (Ht (k - 1)%nat c).
  rewrite lookup_take_lt in Ht by lia. specialize (Ht Hc). cbn in Ht. lia.
Qed.

(** The clean-up deletes the oldest clips, and no more of them than it
    must: a shortest initial segment of the clips in order of age whose
    removal brings the rest within the limits on age, number and size. *)
Theorem retention_minimal (cfg : ClipRecorderConfig) (wall : Z) (clips : list clip_file)
    (Hnd : NoDup (map cf_path clips)) (Hmax : forall max, max_total_bytes cfg = Some max -> 0 <= max) :
  exists k l, l ≡ₚ clips /\ StronglySorted older l /\
    clips_to_delete cfg wall clips = map cf_path (take k l) /\
    within_limits cfg wall (drop k l) /\
    ((0 < k)%nat -> ~ within_limits cfg wall (drop (k - 1) l)).
Proof.
  set (l := sort_by_mtime clips).
  assert (NoDup (map cf_path l)) as Hndl by (unfold l; by rewrite sort_perm).
  pose proof (sort_sorted clips) as Hs. fold l in Hs.
  destruct (old_prefix cfg wall l Hs) as (k1 & E1 & Hk1 & Hage & Hage').
  set (n2 := match max_files cfg with Some n => (length (drop k1 l) - n)%nat | None => 0%nat end).
  destruct (big_prefix cfg (drop n2 (drop k1 l)) Hmax) as (k3 & E3 & Hsz & Hsz').
  exists (k1 + n2 + k3)%nat, l. split; [apply sort_perm|]. split; [done|].
  assert (forall j, drop (k1 + n2 + j) l = drop j (drop n2 (drop k1 l))) as Edrop
    by (intros j; rewrite !drop_drop; f_equal; lia).
  split; [|split].
  - unfold clips_to_delete. fold l. cbv zeta. rewrite E1, filter_removed by done. fold n2. rewrite E3.
    rewrite <- !map_app. f_equal. rewrite <- Nat.add_assoc.
    by rewrite <- (take_take_drop l k1 (n2 + k3)), <- (take_take_drop (drop k1 l) n2 k3).
  - rewrite Edrop. split; [|split; [|exact Hsz]].
    + intros age Ha. do 2 apply Forall_drop. by apply Hage.
    + intros n Hn. unfold n2. rewrite Hn, !length_drop. lia.
  - intros Hk Hw. destruct (decide (0 < k3)%nat) as [H3|H3].
    + destruct (Hsz' H3) as (max & Em & Hlt). destruct Hw as (_ & _ & Ws). specialize (Ws _ Em).
      replace (k1 + n2 + k3 - 1)%nat with (k1 + n2 + (k3 - 1))%nat in Ws by lia. rewrite Edrop in Ws. lia.
    + destruct (decide (0 < n2)%nat) as [H2|H2].
      * destruct Hw as (_ & Wf & _). unfold n2 in H2. destruct (max_files cfg) as [n|] eqn:En; [|lia].
        specialize (Wf n eq_refl). unfold n2 in Wf. rewrite !length_drop in *. lia.
      * apply (age_broken cfg wall l k1); [lia|apply Hage'; lia|].
        by replace (k1 - 1)%nat with (k1 + n2 + k3 - 1)%nat by lia.
Qed.
End retention.

(** ** Paths *)
Section paths.
Lemma join_app d n x : join d (n ++ x) = join d n ++ x.
Proof. unfold join. destruct (last d); [case_match|]; by rewrite <- ?app_assoc, ?app_comm_cons. Qed.

Lemma with_json_of p : with_json (p ++ lit ".h264") = p ++ lit ".json".
Proof. unfold with_json. rewrite take_app_ex; [done|]. rewrite length_app. cbn. lia. Qed.

Lemma last_with_json p : last (with_json p) = Some 110.
Proof. unfold with_json. by rewrite last_app. Qed.

Lemma has_h264_last dir name : has_h264_extension name = true -> last (join dir name) = Some 52.
Proof.
  unfold has_h264_extension, starts_with. rewrite andb_true_iff. intros [Hs _]. apply bool_decide_eq_true in Hs as [x Hx].
  apply strip_prefix_inv in Hx. apply (f_equal (@rev Z)) in Hx. rewrite rev_involutive, rev_app_distr in Hx.
  rewrite Hx, join_app. by rewrite last_app.
Qed.

Lemma over_size_subset max n l p : p ∈ over_size max n l -> p ∈ map cf_path l.
Proof.
  revert n. induction l as [|c l IH]; intros n; cbn; [done|]. case_match; [intros []%not_elem_of_nil|].
  rewrite !elem_of_cons. intros [->|Hin]; eauto.
Qed.

Lemma clips_to_delete_subset cfg wall clips p : p ∈ clips_to_delete cfg wall clips -> p ∈ map cf_path clips.
Proof.
  assert (map cf_path (sort_by_mtime clips) ≡ₚ map cf_path clips) as Hp by (by rewrite sort_perm).
  rewrite <- Hp. clear Hp. unfold clips_to_delete. set (l := sort_by_mtime clips). cbv zeta.
  set (old := match max_age_secs cfg with Some _ => _ | None => _ end). set (l' := filter _ l).
  assert (forall q, q ∈ map cf_path l' -> q ∈ map cf_path l) as Hl'.
  { intros q (c & -> & Hc)%list_elem_of_fmap. apply list_elem_of_filter in Hc as [_ Hc]. by apply list_elem_of_fmap_2. }
  set (excess := match max_files cfg with Some _ => _ | None => _ end).
  rewrite !elem_of_app. intros [Hin|[Hin|Hin]].
  - unfold old in Hin. destruct (max_age_secs cfg); [|by apply not_elem_of_nil in Hin].
    apply list_elem_of_fmap in Hin as (c & -> & Hc). apply list_elem_of_filter in Hc as [_ Hc]. by apply list_elem_of_fmap_2.
  - apply Hl'. rewrite <- (take_drop excess l'), map_app. apply elem_of_app. by left.
  - apply Hl'. rewrite <- (take_drop excess l'), map_app. apply elem_of_app. right.
    destruct (max_total_bytes cfg); [|by apply not_elem_of_nil in Hin].
    case_match; [|by apply not_elem_of_nil in Hin]. by eapply over_size_subset.
Qed.

Lemma no_retention_deletes cfg wall clips : no_retention cfg -> clips_to_delete cfg wall clips = [].
Proof. intros (Hf & Ha & Ht). unfold clips_to_delete. by rewrite Hf, Ha, Ht. Qed.
End paths.

(** ** Runs on a disk that works *)
Section runs.
Context `{Calendar} {F Hd E : Type} `{HL : FsLaws F Hd E} `{DirFs F E} `{!DirFsLaws F Hd E}.
Context {T : Type} `{!MetaTx T} `{!ToJson ClipSidecar}.
Import ClipWriter ClipWriterFacts.
Implicit Types (s : @recorder _ Hd T) (f : F) (c : @recording _ Hd).

Hypothesis create_works : forall p f, exists f' h, fs_create p f = (f', inr h).
Hypothesis write_works : forall h b f, exists f', fs_write h b f = (f', inr tt).
Hypothesis flush_works : forall h f, exists f', fs_flush h f = (f', inr tt).
Hypothesis rename_works : forall p q f, exists f', fs_rename p q f = (f', inr tt).
Hypothesis mkdir_works : forall p f, exists f', dir_create p f = (f', inr tt).

Lemma flush_pending_works d (w : ClipWriter.t Hd) f : exists w' f', flush_pending d (w, f) = ((w', f'), Ok tt).
Proof.
  unfold flush_pending, mbind, st_bind, mret, st_ret, io, update.
  destruct (write_works (writer w) (pending w) f) as [f1 Hw].
  destruct (negb (length (pending w) =? 0)%nat); [rewrite Hw|].
  - destruct d; [|by do 2 eexists]. destruct (flush_works (writer w) f1) as [f2 Hf]. cbn. rewrite Hf. by do 2 eexists.
  - destruct d; [|by do 2 eexists]. destruct (flush_works (writer w) f) as [f2 Hf]. cbn. rewrite Hf. by do 2 eexists.
Qed.

Lemma write_nal_step nal (w : ClipWriter.t Hd) f :
  exists w' f', write_nal nal (w, f) = ((w', f'), Ok tt) /\ same_clip w w' /\ clip_bytes w' f' = clip_bytes w f ++ nal.
Proof.
  assert (exists w' f', write_nal nal (w, f) = ((w', f'), Ok tt)) as (w' & f' & Hw).
  { rewrite write_nal_eq. case_match; [|by do 2 eexists]. case_match; [by do 2 eexists|].
    destruct (write_works (writer w) (pending w ++ nal) f) as [f1 ->]. by do 2 eexists. }
  exists w', f'. split; [done|]. by destruct (write_nal_ok _ _ _ _ _ Hw) as (? & ? & _).
Qed.

Lemma flush_works_on (w : ClipWriter.t Hd) f :
  exists w' f', flush (w, f) = ((w', f'), Ok tt) /\ same_clip w w' /\ clip_bytes w' f' = clip_bytes w f.
Proof.
  destruct (flush_pending_works true w f) as (w' & f' & Hf). exists w', f'. split; [done|].
  by destruct (flush_pending_ok _ _ _ _ _ Hf) as (? & ? & _).
Qed.

Lemma finalize_works (w : ClipWriter.t Hd) f :
  part_path w = target (writer w) ->
  exists f', finalize w f = (f', Ok (final_path w)) /\ contents f' (final_path w) = Some (clip_bytes w f).
Proof.
  intros Hp. assert (exists f' p, finalize w f = (f', Ok p)) as (f' & p & Hf).
  { unfold finalize. destruct (flush_pending_works true w f) as (w1 & f1 & ->).
    destruct (rename_works (part_path w1) (final_path w1) (fs_drop (writer w1) f1)) as [f2 ->]. by do 2 eexists. }
  destruct (finalize_ok _ _ _ _ Hp Hf) as [-> Hc]. by exists f'.
Qed.

Lemma create_works_on part final n f :
  exists f' w, create part final n f = (f', Ok w) /\ part_path w = part /\ final_path w = final /\
    target (writer w) = part /\ clip_bytes w f' = [].
Proof.
  unfold create. destruct (create_works part f) as (f' & h & Hc). rewrite Hc. apply create_ok in Hc as [Ha Ht].
  do 2 eexists. split; [done|]. unfold clip_bytes. cbn. by rewrite Ha.
Qed.

(** What the names of a clip's files are. *)
Definition named c : Prop :=
  (exists x, r_file_path c = x ++ lit ".h264") /\ final_path (r_writer c) = r_file_path c /\
  part_path (r_writer c) = r_file_path c ++ lit ".part" /\ target (writer (r_writer c)) = part_path (r_writer c).

Lemma named_writer c w : named c -> same_clip (r_writer c) w -> named (with_writer w c).
Proof. intros (Hx & Hf & Hp & Ht) (E1 & E2 & E3 & _). unfold named. cbn. by rewrite E1, E2, E3. Qed.

Lemma named_stop c t : named c -> named (with_stop t c).
Proof. done. Qed.

Lemma delete_clips_keeps paths f h :
  last (target h) = Some 116 -> Forall (fun p => last p = Some 52) paths ->
  accepted (delete_clips paths f) h = accepted f h.
Proof.
  intros Hh. revert f. induction paths as [|p ps IH]; intros f Hps; [done|]. cbn [delete_clips].
  apply Forall_cons in Hps as [Hp Hps]. rewrite IH by done.
  destruct (fs_remove p f) as [f1 r1] eqn:E1. cbn [fst].
  destruct (fs_remove (with_json p) f1) as [f2 r2] eqn:E2. cbn [fst].
  rewrite (remove_keeps _ _ _ _ E2), (remove_keeps _ _ _ _ E1); [done|congruence|].
  intros He. rewrite He, last_with_json in Hh. done.
Qed.

(** A scan changes no file; it lists only clips. *)
Lemma scan_clips_frame dir es f f' o :
  scan_clips dir es f = (f', o) ->
  (forall q, contents f' q = contents f q) /\ (forall h, accepted f' h = accepted f h) /\
  (forall l, o = Ok l -> Forall (fun p => last p = Some 52) (map cf_path l)).
Proof.
  revert f f' o. induction es as [|[e|name] es IH]; intros f f' o; cbn [scan_clips].
  - intros [= <- <-]. split; [done|]. split; [done|]. intros l [= <-]. constructor.
  - intros [= <- <-]. done.
  - destruct (has_h264_extension name) eqn:Hn; cbn [negb]; [|apply IH].
    destruct (dir_metadata (join dir name) f) as [f1 m] eqn:Hm. apply dir_metadata_frame in Hm as [Hc Ha].
    destruct m as [e|[mtime size]].
    + intros Hs. apply IH in Hs as (Hc' & Ha' & Hl). split; [|split]; [congruence|congruence|done].
    + destruct (scan_clips dir es f1) as [f2 o2] eqn:Hs. apply IH in Hs as (Hc' & Ha' & Hl).
      intros Hr. assert (f' = f2) as ->. { destruct o2; by injection Hr as <- _. }
      split; [congruence|]. split; [congruence|]. intros l ->.
      destruct o2 as [l2| |]; [|done..]. injection Hr as <-. cbn [map cf_path].
      constructor; [by apply has_h264_last|by apply Hl].
Qed.

Lemma cleanup_keeps cfg wall f :
  (forall h, last (target h) = Some 116 -> accepted (cleanup_old_clips cfg wall f).1 h = accepted f h) /\
  (no_retention cfg -> forall q, contents (cleanup_old_clips cfg wall f).1 q = contents f q).
Proof.
  unfold cleanup_old_clips. destruct (dir_read (output_dir cfg) f) as [f1 [e|es]] eqn:Hr;
    apply dir_read_frame in Hr as [Hc Ha]; cbn [fst]; [by auto|].
  destruct (scan_clips (output_dir cfg) es f1) as [f2 o] eqn:Hs. apply scan_clips_frame in Hs as (Hc' & Ha' & Hl).
  destruct o as [l|e|]; cbn [fst]; [|split; congruence..]. split.
  - intros h Hh. rewrite delete_clips_keeps; [congruence|done|].
    specialize (Hl l eq_refl). rewrite Forall_forall in *. intros p Hp. by apply Hl, (clips_to_delete_subset cfg wall).
  - intros Hn q. rewrite no_retention_deletes by done. cbn. congruence.
Qed.

Lemma stop_works cfg r s f c :
  state s = Recording c -> named c ->
  exists s' f', stop_recording cfg r s f = (s', f') /\ state s' = Idle /\
    last_sps s' = last_sps s /\ last_pps s' = last_pps s /\ last_motion_state s' = last_motion_state s /\
    (no_retention cfg -> contents f' (r_file_path c) = Some (clip_bytes (r_writer c) f)).
Proof.
  intros Hs ((x & Hx) & Hfp & Hpp & Ht). unfold stop_recording. rewrite Hs.
  destruct (flush_works_on (r_writer c) f) as (w & f1 & -> & (E1 & E2 & E3 & _) & Hb).
  destruct (finalize_works w f1) as (f2 & -> & Hc); [congruence|].
  rewrite E3, Hfp in Hc. rewrite E3, Hfp.
  destruct (dir_metadata (r_file_path c) f2) as [f3 m] eqn:Hm. apply dir_metadata_frame in Hm as [Hm _].
  do 2 eexists. split; [reflexivity|]. split_and!; [done..|]. intros Hn.
  rewrite (proj2 (cleanup_keeps cfg _ _)) by done. unfold write_sidecar_json.
  destruct (fs_store _ _ f3) as [f4 o] eqn:Hst. cbn [fst].
  rewrite (store_keeps _ _ _ _ _ Hst); [congruence|].
  rewrite Hx, with_json_of. intros He%app_inv_head. discriminate He.
Qed.

Lemma nals_of_app es es' : nals_of (es ++ es') = nals_of es ++ nals_of es'.
Proof. apply omap_app. Qed.

Lemma nals_of_nal r nal : nals_of [Nal r nal] = match nal_type_from_annexb nal with Some _ => [nal] | None => [] end.
Proof. unfold nals_of. cbn. by destruct (nal_type_from_annexb nal). Qed.

Lemma last_of_app t es e :
  last_of t (es ++ [e]) =
  match e with
  | Nal _ nal => if bool_decide (nal_type_from_annexb nal = Some t) then Some nal else last_of t es
  | _ => last_of t es
  end.
Proof.
  unfold last_of. rewrite nals_of_app, filter_app. destruct e; try (by rewrite app_nil_r).
  rewrite nals_of_nal. case_bool_decide as Hn.
  - rewrite Hn, filter_cons, decide_True by done. apply last_snoc.
  - destruct (nal_type_from_annexb nal) eqn:E0; [|by rewrite app_nil_r].
    by rewrite filter_cons, decide_False, app_nil_r by congruence.
Qed.

Lemma moved_app es es' : moved es -> moved (es ++ es').
Proof. intros (r & st & Hin & Hst). exists r, st. split; [|done]. apply elem_of_app. by left. Qed.

(** An event that brings no NAL unit, or brings one that the clip gets. *)
Lemma clip_text_snoc es e b : clip_text es b -> clip_text (es ++ [e]) (b ++ concat (nals_of [e])).
Proof.
  intros (es1 & r & idr & es2 & sps & pps & -> & Hm & Hs & Hp & Hi & ->).
  exists es1, r, idr, (es2 ++ [e]), sps, pps. rewrite <- app_assoc. split_and!; try done.
  rewrite nals_of_app. cbn [concat]. by rewrite concat_app, <- !app_assoc.
Qed.

(** What a run keeps up. *)
Record tracks (es : list event) s f : Prop := {
  t_sps : last_sps s = last_of 7 es;
  t_pps : last_pps s = last_of 8 es;
  t_motion : last_motion_state s <> ∅ -> moved es;
  t_armed : state s <> Idle -> moved es;
  t_clip c : state s = Recording c -> named c /\ clip_text es (clip_bytes (r_writer c) f);
}.

(** A clip that an event ends is in its file. *)
Definition ended cfg (es : list event) s s' f' : Prop :=
  forall c, state s = Recording c -> is_recording (state s') = false -> no_retention cfg ->
    exists b, clip_text es b /\ contents f' (r_file_path c) = Some b.

Definition advances cfg es e s f : Prop :=
  exists s' f', step cfg e s f = (f', Ok s') /\ tracks (es ++ [e]) s' f' /\ ended cfg (es ++ [e]) s s' f'.

(** An event that leaves the parameter sets, and the state up to its clip. *)
Lemma tracks_quiet es e s s' f f' :
  nals_of [e] = [] -> tracks es s f -> last_sps s' = last_sps s -> last_pps s' = last_pps s ->
  (last_motion_state s' <> ∅ -> moved (es ++ [e])) -> (state s' <> Idle -> moved (es ++ [e])) ->
  (forall c', state s' = Recording c' -> exists c, state s = Recording c /\ named c' /\
     clip_bytes (r_writer c') f' = clip_bytes (r_writer c) f) ->
  tracks (es ++ [e]) s' f'.
Proof.
  intros Hn [Ts Tp _ _ Tc] Es Ep Hm Ha Hc.
  assert (forall t, last_of t (es ++ [e]) = last_of t es) as Hl.
  { intros t. unfold last_of. by rewrite nals_of_app, Hn, app_nil_r. }
  constructor; rewrite ?Hl; try congruence; try done.
  intros c' Hc'. destruct (Hc c' Hc') as (c & Hs & Hnm & ->). split; [done|].
  destruct (Tc c Hs) as [_ Htext]. apply (clip_text_snoc _ e) in Htext. by rewrite Hn, app_nil_r in Htext.
Qed.

(** A motion change keeps or arms; it neither starts nor ends a clip. *)
Lemma motion_change_shape cfg r st s :
  let s' := on_motion_state_change cfg r st s in
  last_sps s' = last_sps s /\ last_pps s' = last_pps s /\ last_motion_state s' = st /\
  match state s with
  | Recording c => exists t, state s' = Recording (with_stop t c)
  | Armed rule cam ev at_ => is_recording (state s') = false
  | Idle => is_recording (state s') = false /\ (st = ∅ -> state s' = Idle)
  end.
Proof.
  unfold on_motion_state_change. cbv zeta. change (state (note_motion st s)) with (state s).
  destruct (state s) as [|rule cam ev at_|c] eqn:Hst; case_bool_decide; cbn [negb];
    repeat case_match; cbn; rewrite ?Hst; split_and!; try done.
  all: try (eexists; reflexivity).
  exists (r_stop_at c). by destruct c.
Qed.

Lemma motion_advances cfg es r st s f : tracks es s f -> advances cfg es (MotionChanged r st) s f.
Proof.
  intros Htr. pose proof (motion_change_shape cfg r st s) as (Hs & Hp & Hm & Hst). cbv zeta in *.
  set (s' := on_motion_state_change cfg r st s) in *.
  assert (st <> ∅ -> moved (es ++ [MotionChanged r st])) as Hmoved.
  { intros Hne. exists r, st. split; [|done]. apply elem_of_app. right. by apply list_elem_of_singleton. }
  exists s', f. split; [done|]. split.
  - apply (tracks_quiet _ _ s s' f f); try done.
    + by rewrite Hm.
    + intros Hne. destruct (decide (st = ∅)) as [E0|E0]; [|by apply Hmoved]. apply moved_app, (t_armed _ _ _ Htr).
      intros Hidle. rewrite Hidle in Hst. by apply Hne, Hst.
    + intros c' Hc'. destruct (state s) as [|rule cam ev at_|c] eqn:Hss.
      * rewrite Hc' in Hst. by destruct Hst.
      * by rewrite Hc' in Hst.
      * destruct Hst as [t Ht]. exists c. split; [done|]. rewrite Ht in Hc'. injection Hc' as <-.
        split; [|done]. apply named_stop. by destruct (t_clip _ _ _ Htr c Hss).
  - intros c Hc Hrec _. rewrite Hc in Hst. destruct Hst as [t Ht]. by rewrite Ht in Hrec.
Qed.

Lemma tracks_same es e s f : nals_of [e] = [] -> tracks es s f -> tracks (es ++ [e]) s f.
Proof.
  intros Hn Htr. apply (tracks_quiet _ _ s _ f f); try done.
  - intros. by apply moved_app, (t_motion _ _ _ Htr).
  - intros. by apply moved_app, (t_armed _ _ _ Htr).
  - intros c Hc. exists c. by destruct (t_clip _ _ _ Htr c Hc).
Qed.

Lemma flush_advances cfg es s f : tracks es s f -> advances cfg es FlushTick s f.
Proof.
  intros Htr. unfold advances. cbn [step]. unfold flush_recording.
  destruct (state s) as [|rule cam ev at_|c] eqn:Hst.
  3:{ destruct (flush_works_on (r_writer c) f) as (w & f1 & -> & Hsame & Hb).
      eexists _, _. split; [reflexivity|]. split; [|by intros ? _].
      apply (tracks_quiet _ _ s _ f f1); try done.
      - intros Hne. apply moved_app. by apply (t_motion _ _ _ Htr).
      - intros _. apply moved_app, (t_armed _ _ _ Htr). by rewrite Hst.
      - intros c' [= <-]. exists c. split; [done|]. split; [|done]. apply named_writer; [|done].
        by destruct (t_clip _ _ _ Htr c Hst). }
  all: exists s, f; (split; [done|]); split; [by apply tracks_same|by intros ? ?; congruence].
Qed.

Lemma cleanup_advances cfg es r s f : tracks es s f -> advances cfg es (CleanupTick r) s f.
Proof.
  intros Htr. eexists _, _. split; [reflexivity|]. split; [|intros c Hc Hrec; by rewrite Hc in Hrec].
  apply (tracks_quiet _ _ s _ f _); try done.
  - intros. by apply moved_app, (t_motion _ _ _ Htr).
  - intros. by apply moved_app, (t_armed _ _ _ Htr).
  - intros c Hc. exists c. destruct (t_clip _ _ _ Htr c Hc) as [Hn _]. split; [done|]. split; [done|].
    unfold clip_bytes. rewrite (proj1 (cleanup_keeps cfg _ _)); [done|].
    destruct Hn as (_ & _ & Hp & Ht). rewrite Ht, Hp. by rewrite last_app.
Qed.

Lemma rearm_shape r s :
  let s' := rearm_if_motion_active r s in
  last_sps s' = last_sps s /\ last_pps s' = last_pps s /\ last_motion_state s' = last_motion_state s /\
  (is_recording (state s) = false -> is_recording (state s') = false) /\
  (last_motion_state s = ∅ -> state s' = state s).
Proof. unfold rearm_if_motion_active. cbv zeta. repeat case_match; cbn; try case_bool_decide; done. Qed.

Lemma tick_advances cfg es r s f : tracks es s f -> advances cfg es (Tick r) s f.
Proof.
  intros Htr. unfold advances. cbn [step]. unfold maybe_stop_on_deadline.
  assert (tracks (es ++ [Tick r]) s f) as Hsame by (by apply tracks_same).
  destruct (state s) as [|rule cam ev at_|c] eqn:Hst; [exists s, f; split; [done|]; split; [done|]; intros ? ?; congruence..|].
  destruct (due (at_now r) (r_stop_at c) || due (at_now r) (r_hard_stop_at c)).
  2:{ exists s, f. split; [done|]. split; [done|]. intros c' Hc' Hrec. by rewrite Hst in Hrec. }
  destruct (t_clip _ _ _ Htr c Hst) as [Hn Htext].
  destruct (stop_works cfg r s f c Hst Hn) as (s1 & f1 & -> & Hi & E1 & E2 & E3 & Hc).
  set (s' := if due (at_now r) (r_hard_stop_at c) then rearm_if_motion_active r s1 else s1).
  assert (last_sps s' = last_sps s /\ last_pps s' = last_pps s /\ last_motion_state s' = last_motion_state s /\
    is_recording (state s') = false /\ (last_motion_state s = ∅ -> state s' = Idle)) as (Q1 & Q2 & Q3 & Q4 & Q5).
  { unfold s'. destruct (due _ _); [|by rewrite Hi]. destruct (rearm_shape r s1) as (R1 & R2 & R3 & R4 & R5).
    rewrite R1, R2, R3. split_and!; try done; [by apply R4; rewrite Hi|]. intros E0. rewrite R5; congruence. }
  exists s', f1. split; [done|]. split.
  - apply (tracks_quiet _ _ s _ f f1); try done.
    + rewrite Q3. intros. by apply moved_app, (t_motion _ _ _ Htr).
    + intros Hne. apply moved_app, (t_motion _ _ _ Htr). intros E0. by apply Hne, Q5.
    + intros c' Hc'. by rewrite Hc' in Q4.
  - intros c' Hc' _ Hret. rewrite Hst in Hc'. injection Hc' as <-. eexists. split; [|by apply Hc].
    apply (clip_text_snoc _ (Tick r)) in Htext. by rewrite app_nil_r in Htext.
Qed.

(** An event with a NAL unit: a running clip gets it, or it starts one. *)
Lemma tracks_nal es r nal nt s s' f f' :
  nal_type_from_annexb nal = Some nt -> tracks es s f ->
  last_sps s' = (if nt =? 7 then Some nal else last_sps s) ->
  last_pps s' = (if nt =? 8 then Some nal else last_pps s) ->
  last_motion_state s' = last_motion_state s -> (state s' <> Idle -> state s <> Idle) ->
  (forall c', state s' = Recording c' -> named c' /\
     ((exists c, state s = Recording c /\ clip_bytes (r_writer c') f' = clip_bytes (r_writer c) f ++ nal) \/
      (nt = 5 /\ exists sps pps, last_sps s = Some sps /\ last_pps s = Some pps /\
         clip_bytes (r_writer c') f' = sps ++ pps ++ nal))) ->
  tracks (es ++ [Nal r nal]) s' f'.
Proof.
  intros Hn [Ts Tp Tm Ta Tc] Es Ep Em Ea Hc. constructor.
  - rewrite Es, last_of_app, Hn, Ts. destruct (Z.eqb_spec nt 7) as [->|Hne]; [by rewrite bool_decide_true|].
    by rewrite bool_decide_false by congruence.
  - rewrite Ep, last_of_app, Hn, Tp. destruct (Z.eqb_spec nt 8) as [->|Hne]; [by rewrite bool_decide_true|].
    by rewrite bool_decide_false by congruence.
  - rewrite Em. intros. by apply moved_app, Tm.
  - intros. apply moved_app. auto.
  - intros c' Hc'. destruct (Hc c' Hc') as [Hnm [(c & Hs & ->)|(-> & sps & pps & Hs & Hp & ->)]]; (split; [done|]).
    + destruct (Tc c Hs) as [_ Htext]. apply (clip_text_snoc _ (Nal r nal)) in Htext.
      rewrite nals_of_nal, Hn in Htext. cbn [concat] in Htext. by rewrite app_nil_r in Htext.
    + exists es, r, nal, [], sps, pps. cbn. rewrite app_nil_r, <- Ts, <- Tp.
      split_and!; try done. apply Ta, Ea. by rewrite Hc'.
Qed.

Lemma write_ignored_works nal s f :
  (forall c, state s = Recording c -> named c) ->
  exists s' f', write_ignored nal s f = (s', f') /\ last_sps s' = last_sps s /\ last_pps s' = last_pps s /\
    last_motion_state s' = last_motion_state s /\ is_recording (state s') = is_recording (state s) /\
    (state s' <> Idle -> state s <> Idle) /\
    (forall c', state s' = Recording c' -> named c' /\
       exists c, state s = Recording c /\ clip_bytes (r_writer c') f' = clip_bytes (r_writer c) f ++ nal).
Proof.
  intros Hnm. unfold write_ignored. destruct (state s) as [|rule cam ev at_|c] eqn:Hst.
  1,2: exists s, f; split_and!; try done; intros; congruence.
  destruct (write_nal_step nal (r_writer c) f) as (w & f1 & -> & Hsame & Hb).
  eexists _, _. split; [reflexivity|]. split_and!; try done.
  intros c' [= <-]. split; [apply named_writer; auto|]. by exists c.
Qed.

Lemma start_works cfg r rule cam ev sps pps idr s f :
  exists s' f' c, start_recording cfg r rule cam ev sps pps idr s f = (f', Ok s') /\
    state s' = Recording c /\ named c /\ clip_bytes (r_writer c) f' = sps ++ pps ++ idr /\
    last_sps s' = last_sps s /\ last_pps s' = last_pps s /\ last_motion_state s' = last_motion_state s.
Proof.
  unfold start_recording, spawn_clip_writer. cbv zeta.
  set (name := file_stamp (utc_file r) ++ _).
  destruct (create_works_on (join (output_dir cfg) (name ++ lit ".part")) (join (output_dir cfg) name) (write_batch_bytes cfg) f)
    as (f1 & w & -> & Hp & Hf & Ht & Hb).
  destruct (write_nal_step sps w f1) as (w1 & f2 & W1 & S1 & B1).
  destruct (write_nal_step pps w1 f2) as (w2 & f3 & W2 & S2 & B2).
  destruct (write_nal_step idr w2 f3) as (w3 & f4 & W3 & S3 & B3).
  rewrite (st_bind_ok _ _ _ _ _ W1), (st_bind_ok _ _ _ _ _ W2), W3.
  eexists _, _, _. split; [reflexivity|]. split; [reflexivity|].
  destruct S1 as (P1 & P2 & P3 & _), S2 as (Q1 & Q2 & Q3 & _), S3 as (R1 & R2 & R3 & _).
  split; [|split_and!; try done; cbn; by rewrite B3, B2, B1, Hb, <- app_assoc].
  unfold named. cbn [r_file_path r_writer]. split_and!; try congruence.
  - exists (join (output_dir cfg) (take (length name - 5) name)). rewrite <- join_app. f_equal.
    unfold name. rewrite !app_comm_cons, !app_assoc. rewrite take_app_ex; [done|]. rewrite length_app. cbn. lia.
  - rewrite <- join_app. congruence.
Qed.

(** A NAL unit for the running clip, which it may end. *)
Lemma recording_nal_advances cfg es r nal nt s f c :
  nal_type_from_annexb nal = Some nt -> (nt =? 7) = false -> (nt =? 8) = false ->
  tracks es s f -> state s = Recording c -> advances cfg es (Nal r nal) s f.
Proof.
  intros Hnt N7 N8 Htr Hst. pose proof (tracks_nal es r nal nt s) as Hgo. rewrite N7, N8 in Hgo.
  unfold advances. cbn [step]. unfold on_nal. rewrite Hnt, N7, N8, Hst.
  destruct (t_clip _ _ _ Htr c Hst) as [Hnm _].
  destruct (write_nal_step nal (r_writer c) f) as (w & f1 & -> & Hsame & Hb).
  set (s1 := set_state (Recording (with_writer w c)) s).
  assert (tracks (es ++ [Nal r nal]) s1 f1) as Htr1.
  { apply (Hgo s1 f f1); try done; [congruence|]. intros c' [= <-]. split; [by apply named_writer|].
    left. by exists c. }
  destruct (t_clip _ _ _ Htr1 _ eq_refl) as [Hnm1 Htext].
  match goal with |- context [if ?b then _ else (f1, Ok s1)] => destruct b end.
  2:{ exists s1, f1. split; [done|]. split; [done|]. by intros ? _. }
  destruct (stop_works cfg r s1 f1 _ eq_refl Hnm1) as (s' & f' & -> & Hi & E1 & E2 & E3 & Hc).
  exists s', f'. split; [done|]. split.
  - apply (Hgo s' f f'); try done; intros; congruence.
  - intros c0 Hc0 _ Hret. assert (c0 = c) as -> by congruence. eexists. split; [exact Htext|]. by apply Hc.
Qed.

(** A parameter set is remembered, and the running clip gets it. *)
Lemma param_set_advances cfg es r nal nt s s0 f :
  nal_type_from_annexb nal = Some nt -> tracks es s f ->
  last_sps s0 = (if nt =? 7 then Some nal else last_sps s) ->
  last_pps s0 = (if nt =? 8 then Some nal else last_pps s) ->
  last_motion_state s0 = last_motion_state s -> state s0 = state s ->
  exists s' f', write_ignored nal s0 f = (s', f') /\ tracks (es ++ [Nal r nal]) s' f' /\
    ended cfg (es ++ [Nal r nal]) s s' f'.
Proof.
  intros Hnt Htr Hs Hp Hm Hst.
  destruct (write_ignored_works nal s0 f) as (s' & f' & Hw & E1 & E2 & E3 & E4 & E5 & E6).
  { rewrite Hst. intros c Hc. by destruct (t_clip _ _ _ Htr c Hc). }
  exists s', f'. split; [done|]. rewrite Hst in E4, E5, E6. split.
  - apply (tracks_nal es r nal nt s s' f f' Hnt Htr); try congruence; try done.
    intros c' Hc'. destruct (E6 c' Hc') as (? & ?). auto.
  - intros c Hc Hrec. rewrite Hc in E4. cbn in E4. congruence.
Qed.

Lemma nal_advances cfg es r nal s f : tracks es s f -> advances cfg es (Nal r nal) s f.
Proof.
  intros Htr. unfold advances. cbn [step]. unfold on_nal.
  destruct (nal_type_from_annexb nal) as [nt|] eqn:Hnt.
  2:{ exists s, f. split; [done|]. split; [apply tracks_same; [by rewrite nals_of_nal, Hnt|done]|].
      intros c Hc Hrec. by rewrite Hc in Hrec. }
  pose proof (tracks_nal es r nal nt s) as Hgo.
  destruct (Z.eqb_spec nt 7) as [H7|H7]; [|destruct (Z.eqb_spec nt 8) as [H8|H8]].
  { match goal with |- context [write_ignored _ ?s0 _] =>
      destruct (param_set_advances cfg es r nal nt s s0 f Hnt Htr) as (s' & f' & -> & ?); subst nt; [done..|eauto] end. }
  { match goal with |- context [write_ignored _ ?s0 _] =>
      destruct (param_set_advances cfg es r nal nt s s0 f Hnt Htr) as (s' & f' & -> & ?); subst nt; [done..|eauto] end. }
  assert ((nt =? 7) = false /\ (nt =? 8) = false) as [N7 N8] by (by rewrite !Z.eqb_neq).
  destruct (state s) as [|rule cam ev at_|c] eqn:Hst.
  3:{ pose proof (recording_nal_advances cfg es r nal nt s f c Hnt N7 N8 Htr Hst) as Hadv.
      unfold advances in Hadv. cbn [step] in Hadv. unfold on_nal in Hadv. by rewrite Hnt, N7, N8, Hst in Hadv. }
  - exists s, f. split; [done|]. split; [|intros ? ?; congruence]. apply (Hgo s f f); try done. intros c'. by rewrite Hst.
  - assert (tracks (es ++ [Nal r nal]) s f /\ ended cfg (es ++ [Nal r nal]) s s f) as [Hsame Hend].
    { split; [|intros ? ?; congruence]. apply (Hgo s f f); try done. intros c'. by rewrite Hst. }
    destruct (last_sps s) as [sps|] eqn:Hs; [|by exists s, f].
    destruct (last_pps s) as [pps|] eqn:Hp; [|by exists s, f].
    destruct (Z.eqb_spec nt 5) as [->|_]; [|by exists s, f].
    destruct (start_works cfg r rule cam ev sps pps nal s f) as (s' & f' & c & -> & Hc & Hnm & Hb & E1 & E2 & E3).
    exists s', f'. split; [done|]. split; [|intros ? ?; congruence].
    apply (Hgo s' f f'); rewrite ?Hs, ?Hp; try congruence; try done.
    rewrite Hc. intros c' [= <-]. split; [done|]. right. split; [done|]. by exists sps, pps.
Qed.

Lemma step_advances cfg es e s f : tracks es s f -> advances cfg es e s f.
Proof.
  destruct e; [apply tick_advances|apply cleanup_advances|apply flush_advances|apply motion_advances|apply nal_advances].
Qed.

Lemma turns_track cfg es0 es s f :
  tracks es0 s f -> exists s' f', turns cfg es s f = (f', Ok s') /\ tracks (es0 ++ es) s' f'.
Proof.
  revert es0 s f. induction es as [|e es IH]; intros es0 s f Htr.
  - exists s, f. by rewrite app_nil_r.
  - destruct (step_advances cfg es0 e s f Htr) as (s1 & f1 & Hs & Htr1 & _).
    destruct (IH _ _ _ Htr1) as (s2 & f2 & Hr & Htr2). exists s2, f2. cbn [turns].
    rewrite (st_bind_ok _ _ _ _ _ Hs). split; [done|]. by rewrite <- app_assoc in Htr2.
Qed.

End runs.

(** ** Deadlines, on any disk *)
Section deadlines.
Context `{Calendar} {F Hd E : Type} `{Fs F Hd E} `{DirFs F E}.
Context {T : Type} `{!MetaTx T} `{!ToJson ClipSidecar}.
Implicit Types (s : @recorder _ Hd T) (f : F) (c : @recording _ Hd).

Lemma stop_recording_state cfg r s f :
  let s' := (stop_recording cfg r s f).1 in
  state s' = Idle /\ last_motion_state s' = last_motion_state s /\ sticky_motion s' = sticky_motion s.
Proof.
  unfold stop_recording. cbv zeta. destruct (state s) as [| |c] eqn:Hst; [done..|].
  destruct (ClipWriter.flush _) as [[w f1] o]. destruct (ClipWriter.finalize w f1) as [f2 [p|e|]]; [|done..].
  by destruct (dir_metadata p f2).
Qed.

(** A clip's deadlines: the hard stop is fixed at its start, and while there
    is no other deadline the motion is still on. *)
Definition timed cfg s : Prop :=
  forall c, state s = Recording c ->
    r_hard_stop_at c = (fun n => r_started_at c + secs n) <$> max_clip_secs cfg /\
    (r_stop_at c = None -> last_motion_state s <> ∅).

Lemma timed_not_recording cfg s : is_recording (state s) = false -> timed cfg s.
Proof. intros Hs c Hc. by rewrite Hc in Hs. Qed.

Lemma timed_motion cfg r st s : timed cfg s -> timed cfg (on_motion_state_change cfg r st s).
Proof.
  intros Ht. pose proof (motion_change_shape cfg r st s) as (_ & _ & Hm & Hst). cbv zeta in *.
  destruct (state s) as [|rule cam ev at_|c] eqn:Hs.
  - apply timed_not_recording. by destruct Hst.
  - by apply timed_not_recording.
  - destruct Hst as [t Hst']. intros c' Hc'. rewrite Hm. destruct (Ht c Hs) as [Hh Hstop].
    assert (c' = with_stop t c) as -> by congruence. split; [done|]. cbn [r_stop_at with_stop]. intros ->.
    unfold on_motion_state_change in Hc'. change (state (note_motion st s)) with (state s) in Hc'. rewrite Hs in Hc'.
    case_bool_decide as Hem; [|done]. cbn [negb] in Hc'. destruct (r_stop_at c) eqn:Hr; [|done].
    change (state (note_motion st s)) with (state s) in Hc'. rewrite Hs in Hc'. injection Hc' as Hc'.
    apply (f_equal r_stop_at) in Hc'. rewrite Hr in Hc'. done.
Qed.

Lemma timed_same_clip cfg s s' :
  timed cfg s -> last_motion_state s' = last_motion_state s ->
  (forall c', state s' = Recording c' -> exists c w, state s = Recording c /\ c' = with_writer w c) -> timed cfg s'.
Proof. intros Ht Hm Hc c' Hc'. destruct (Hc c' Hc') as (c & w & Hs & ->). rewrite Hm. exact (Ht c Hs). Qed.

Lemma timed_write_ignored cfg nal s f : timed cfg s -> timed cfg (write_ignored nal s f).1.
Proof.
  intros Ht. unfold write_ignored. destruct (state s) as [| |c] eqn:Hs; [by apply timed_not_recording; cbn; rewrite Hs..|].
  destruct (ClipWriter.write_nal nal _) as [[w f1] o]. cbn [fst].
  apply (timed_same_clip _ s); [done..|]. intros c' [= <-]. by exists c, w.
Qed.

Lemma timed_start cfg r rule cam ev sps pps nal s f f' s' :
  start_recording cfg r rule cam ev sps pps nal s f = (f', Ok s') -> timed cfg s'.
Proof.
  unfold start_recording. destruct (spawn_clip_writer _ _ _ _ _ f) as [f1 [[w p]|e|]]; [|done..].
  match goal with |- context [match ?m (w, f1) with _ => _ end] => destruct (m (w, f1)) as [[w1 f2] [u|e|]]; [|done..] end. intros [= _ <-] c [= <-].
  split; [done|]. cbn. done.
Qed.

Lemma timed_nal cfg r nal s f f' s' : timed cfg s -> on_nal cfg r nal s f = (f', Ok s') -> timed cfg s'.
Proof.
  intros Ht. unfold on_nal. destruct (nal_type_from_annexb nal) as [nt|]; [|by intros [= _ <-]].
  destruct (nt =? 7); [|destruct (nt =? 8)].
  1,2: match goal with |- context [write_ignored ?n ?s0 ?f0] =>
         pose proof (timed_write_ignored cfg n s0 f0 Ht) as Hw; destruct (write_ignored n s0 f0) as [s1 f1] end;
       by intros [= _ <-].
  destruct (state s) as [|rule cam ev at_|c] eqn:Hs; [by intros [= _ <-]|..].
  - destruct (last_sps s) as [sps|]; [|by intros [= _ <-]]. destruct (last_pps s) as [pps|]; [|by intros [= _ <-]].
    destruct (nt =? 5); [|by intros [= _ <-]]. apply timed_start.
  - destruct (ClipWriter.write_nal nal _) as [[w f1] o]. set (s1 := set_state (Recording (with_writer w c)) s).
    pose proof (stop_recording_state cfg r s1 f1) as Hstop. cbv zeta in Hstop.
    destruct (stop_recording cfg r s1 f1) as [s2 f2]. cbn [fst] in Hstop.
    assert (timed cfg s2) as Ht2 by (apply timed_not_recording; by rewrite (proj1 Hstop)).
    assert (timed cfg s1) as Ht1 by (apply (timed_same_clip _ s); [done..|]; intros c' [= <-]; by exists c, w).
    destruct o as [u|e|]; [|by intros [= _ <-]..]. by case_match; intros [= _ <-].
Qed.

Lemma tick_shape cfg r s f :
  let s' := (maybe_stop_on_deadline cfg r s f).1 in
  s' = s /\ (forall c, state s = Recording c -> due (at_now r) (r_stop_at c) = false /\ due (at_now r) (r_hard_stop_at c) = false)
  \/ is_recording (state s') = false.
Proof.
  unfold maybe_stop_on_deadline. cbv zeta. destruct (state s) as [| |c] eqn:Hs; [by right; cbn; rewrite Hs..|].
  destruct (due (at_now r) (r_stop_at c)) eqn:E1, (due (at_now r) (r_hard_stop_at c)) eqn:E2; cbn [orb];
    [right..|left; split; [done|]; intros c' [= <-]; done].
  all: pose proof (stop_recording_state cfg r s f) as Hstop; cbv zeta in Hstop;
    destruct (stop_recording cfg r s f) as [s1 f1]; cbn [fst] in *; destruct Hstop as (Hi & _).
  1,3: destruct (rearm_shape r s1) as (_ & _ & _ & Hr & _); apply Hr; by rewrite Hi.
  by rewrite Hi.
Qed.

Lemma timed_step cfg e s f f' s' : timed cfg s -> step cfg e s f = (f', Ok s') -> timed cfg s'.
Proof.
  intros Ht. destruct e as [r|r| |r st|r nal]; cbn [step].
  - pose proof (tick_shape cfg r s f) as Hsh. cbv zeta in Hsh. destruct (maybe_stop_on_deadline cfg r s f) as [s1 f1].
    cbn [fst] in Hsh. intros [= _ <-]. destruct Hsh as [[-> _]|Hsh]; [done|by apply timed_not_recording].
  - by intros [= _ <-].
  - unfold flush_recording. destruct (state s) as [| |c] eqn:Hs; [by intros [= _ <-]..|].
    destruct (ClipWriter.flush _) as [[w f1] o]. intros [= _ <-].
    apply (timed_same_clip _ s); [done..|]. intros c' [= <-]. by exists c, w.
  - intros [= _ <-]. by apply timed_motion.
  - by apply timed_nal.
Qed.

Lemma timed_turns cfg es s f f' s' : timed cfg s -> turns cfg es s f = (f', Ok s') -> timed cfg s'.
Proof.
  revert s f. induction es as [|e es IH]; intros s f Ht; cbn [turns]; [by intros [= _ <-]|].
  unfold mbind, st_bind. destruct (step cfg e s f) as [f1 [s1|e1|]] eqn:Hs; [|done..].
  apply IH. by eapply timed_step.
Qed.

(** The deadlines of a clip, on any disk: in every state a run reaches,
    the hard stop of a running clip is [max_clip_secs] after its start, and
    without another deadline the motion is still on; the first timer tick at
    or after a deadline ends the clip. *)
Theorem recorder_deadlines (cfg : ClipRecorderConfig) (wall : Z) (tx : option T) (es : list event)
    (f0 f : F) s c (Hrun : run cfg wall es (new tx) f0 = (f, Ok s)) (Hs : state s = Recording c) :
  r_hard_stop_at c = (fun n => r_started_at c + secs n) <$> max_clip_secs cfg /\
  (r_stop_at c = None -> last_motion_state s <> ∅) /\
  (forall r, (exists t, r_stop_at c = Some t /\ t <= at_now r) \/
             (exists n, max_clip_secs cfg = Some n /\ r_started_at c + secs n <= at_now r) ->
     is_recording (state (maybe_stop_on_deadline cfg r s f).1) = false).
Proof.
  assert (timed cfg s) as Ht.
  { unfold run, mbind, st_bind in Hrun. destruct (io_outcome _) as [f1 [u|e|]]; [|done..].
    eapply timed_turns; [|exact Hrun]. by apply timed_not_recording. }
  destruct (Ht c Hs) as [Hh Hm]. split; [done|]. split; [done|]. intros r Hdue.
  destruct (tick_shape cfg r s f) as [[_ Hno]|Hrec]; [|done]. destruct (Hno c Hs) as [N1 N2].
  exfalso. destruct Hdue as [(t & Et & Hle)|(n & En & Hle)].
  - rewrite Et in N1. cbn in N1. apply Z.leb_gt in N1. lia.
  - rewrite Hh, En in N2. cbn in N2. apply Z.leb_gt in N2. lia.
Qed.

Definition is_motion_change (e : event) : bool := match e with MotionChanged _ _ => true | _ => false end.

Lemma idle_turns cfg es s f :
  state s = Idle -> Forall (fun e => is_motion_change e = false) es ->
  exists s' f', turns cfg es s f = (f', Ok s') /\ state s' = Idle /\ last_motion_state s' = last_motion_state s.
Proof.
  intros Hs Hes. revert s f Hs. induction Hes as [|e es He _ IH]; intros s f Hs; [by exists s, f|].
  assert (exists s1 f1, step cfg e s f = (f1, Ok s1) /\ state s1 = Idle /\ last_motion_state s1 = last_motion_state s)
    as (s1 & f1 & Hst & Hi & Hm).
  { destruct e as [r|r| |r st|r nal]; [..|done|]; cbn [step].
    - unfold maybe_stop_on_deadline. rewrite Hs. by exists s, f.
    - by exists s, (cleanup_old_clips cfg (wall r) f).1.
    - unfold flush_recording. rewrite Hs. by exists s, f.
    - unfold on_nal, write_ignored. cbn [state]. rewrite Hs.
      destruct (nal_type_from_annexb nal) as [nt|]; [|by exists s, f].
      destruct (nt =? 7); [by do 2 eexists|]. destruct (nt =? 8); [by do 2 eexists|]. by exists s, f. }
  destruct (IH s1 f1 Hi) as (s2 & f2 & Hr & Hi2 & Hm2). exists s2, f2. cbn [turns].
  rewrite (st_bind_ok _ _ _ _ _ Hst). split; [done|]. split; [done|congruence].
Qed.

(** A clip that has just started. *)
Lemma start_shape cfg r idr s s1 f f1 rule cam ev at_ :
  state s = Armed rule cam ev at_ -> step cfg (Nal r idr) s f = (f1, Ok s1) -> is_recording (state s1) = true ->
  exists c, state s1 = Recording c /\ r_stop_at c = Some (at_now r + min_clip_duration cfg) /\
    r_hard_stop_at c = (fun n => at_now r + secs n) <$> max_clip_secs cfg /\
    last_motion_state s1 = last_motion_state s.
Proof.
  intros Hs Hstart Hrec. cbn [step] in Hstart. unfold on_nal, write_ignored in Hstart. cbn [state] in Hstart.
  rewrite Hs in Hstart.
  assert (forall x : recorder, state x = Armed rule cam ev at_ -> (f, Ok (E:=E) x) = (f1, Ok s1) -> False) as Hno.
  { intros x Hx [= _ <-]. by rewrite Hx in Hrec. }
  destruct (nal_type_from_annexb idr) as [nt|]; [|by destruct (Hno s)].
  destruct (nt =? 7); [by eapply Hno in Hstart|]. destruct (nt =? 8); [by eapply Hno in Hstart|].
  destruct (last_sps s) as [sps|]; [|by destruct (Hno s)]. destruct (last_pps s) as [pps|]; [|by destruct (Hno s)].
  destruct (nt =? 5); [|by destruct (Hno s)]. unfold start_recording in Hstart.
  destruct (spawn_clip_writer _ _ _ _ _ f) as [f2 [[w p]|e|]]; [|done..].
  match type of Hstart with context [match ?m (w, f2) with _ => _ end] =>
    destruct (m (w, f2)) as [[w1 f3] [u|e|]]; [|done..] end.
  injection Hstart as _ <-. eexists. split; [reflexivity|]. done.
Qed.

(** A motion that goes on longer than the minimum duration loses its
    recording: a clip starts with a deadline of [min_clip_duration], and
    unless the set of active rules changes, the tick at that deadline ends it
    although the motion is still on, and nothing is recorded until the next
    change. *)
Theorem long_motion_cut (cfg : ClipRecorderConfig) (r r' : readings) (idr : bytes) (es : list event)
    s s1 (f f1 : F) rule cam ev at_ (Hs : state s = Armed rule cam ev at_) (Hmotion : last_motion_state s <> ∅)
    (Hstart : step cfg (Nal r idr) s f = (f1, Ok s1)) (Hrec : is_recording (state s1) = true)
    (Hdue : at_now r + min_clip_duration cfg <= at_now r')
    (Hhard : forall n, max_clip_secs cfg = Some n -> at_now r' < at_now r + secs n)
    (Hes : Forall (fun e => is_motion_change e = false) es) :
  exists s2 f2, turns cfg (Tick r' :: es) s1 f1 = (f2, Ok s2) /\ state s2 = Idle /\
    last_motion_state s2 <> ∅.
Proof.
  destruct (start_shape _ _ _ _ _ _ _ _ _ _ _ Hs Hstart Hrec) as (c & Hc & Hstop & Hh & Hm).
  assert (exists s2 f2, step cfg (Tick r') s1 f1 = (f2, Ok s2) /\ state s2 = Idle /\ last_motion_state s2 = last_motion_state s)
    as (s2 & f2 & Ht & Hi & Hm2).
  { cbn [step]. unfold maybe_stop_on_deadline. rewrite Hc, Hstop, Hh.
    assert (due (at_now r') ((fun n => at_now r + secs n) <$> max_clip_secs cfg) = false) as ->.
    { destruct (max_clip_secs cfg) as [n|]; [|done]. cbn. apply Z.leb_gt. by apply Hhard. }
    cbn [due]. rewrite (proj2 (Z.leb_le _ _)) by done. cbn [orb].
    pose proof (stop_recording_state cfg r' s1 f1) as (Hi & Hm' & _).
    destruct (stop_recording cfg r' s1 f1) as [s2 f2]. cbn [fst] in *. exists s2, f2. split; [done|]. by rewrite Hm'. }
  cbn [turns]. rewrite (st_bind_ok _ _ _ _ _ Ht).
  destruct (idle_turns cfg es s2 f2 Hi Hes) as (s3 & f3 & Hr & Hi3 & Hm3). exists s3, f3.
  split; [done|]. split; [done|congruence].
Qed.

Lemma sticky_change cfg r st s :
  sticky_motion (on_motion_state_change cfg r st s) = sticky_motion (note_motion st s).
Proof. unfold on_motion_state_change. cbv zeta. by repeat case_match. Qed.

(** The identity of a motion outlives it: when a motion ends during its
    clip and the clip then ends, the next motion, of whatever rule, camera and
    event, is recorded under the rule, camera and event of the old one. *)
Theorem stale_event_id (cfg : ClipRecorderConfig) (r1 r2 r3 : readings) (st : StateBus.MotionState)
    s c m (f : F) (Hs : state s = Recording c) (Hm : sticky_motion s = Some m) (Hst : st <> ∅) :
  let s1 := on_motion_state_change cfg r1 ∅ s in
  let s2 := (maybe_stop_on_deadline cfg r2 s1 f).1 in
  is_recording (state s2) = false ->
  state (on_motion_state_change cfg r3 st s2) = Armed (sm_rule m) (sm_camera_id m) (sm_event_id m) (at_now r3).
Proof.
  intros s1 s2 Hend.
  destruct (motion_change_shape cfg r1 ∅ s) as (_ & _ & Hlast & Hsh). rewrite Hs in Hsh. fold s1 in Hlast, Hsh.
  destruct Hsh as [t Ht].
  assert (sticky_motion s1 = Some m) as Hm1.
  { unfold s1. rewrite sticky_change. unfold note_motion. cbn [sticky_motion]. by rewrite Hs. }
  assert (state s2 = Idle /\ sticky_motion s2 = Some m) as [Hi2 Hm2].
  { unfold s2, maybe_stop_on_deadline in *. rewrite Ht in *.
    pose proof (stop_recording_state cfg r2 s1 f) as (Hi & Hl & Hk).
    destruct (due (at_now r2) (r_stop_at (with_stop t c)) || due (at_now r2) (r_hard_stop_at (with_stop t c)));
      [|cbn in Hend; by rewrite Ht in Hend].
    destruct (stop_recording cfg r2 s1 f) as [s3 f3]. cbn [fst] in *.
    assert (rearm_if_motion_active r2 s3 = s3) as Hr.
    { unfold rearm_if_motion_active. by rewrite Hl, Hlast, bool_decide_true. }
    rewrite Hr. destruct (due _ (r_hard_stop_at _)); by rewrite Hi, Hk, Hm1. }
  unfold on_motion_state_change. cbv zeta. change (state (note_motion st s2)) with (state s2). rewrite Hi2.
  rewrite bool_decide_false by done. cbn [negb].
  assert (sticky_motion (note_motion st s2) = Some m) as ->; [|done].
  unfold note_motion. cbn [sticky_motion]. rewrite Hm2, (bool_decide_false (st = ∅)) by done. done.
Qed.
End deadlines.

(** ** Witnesses *)
Module RecorderWitness.
Import MotionWitness MemFs.
Definition nal (l : bytes) : bytes := ANNEXB_START ++ l.
Definition calendar : @Calendar clock :=
  @Build_Calendar clock (fun d : Z => d / 1000) (fun t : Z => dec t) (fun t : Z => dec t).
#[local] Existing Instance clock.
#[local] Existing Instance calendar.
#[export] Instance sidecar_json : ToJson ClipSidecar := fun _ => lit "{}".
#[export] Instance meta_log : MetaTx (list ClipMeta) := fun m l => l ++ [m].

(** A disk without a directory listing. *)
Definition disk_ok : Fs disk str unit := mem_fs (fun _ => false).
Definition disk_laws : @FsLaws disk str unit disk_ok := mem_laws (fun _ => false).
#[local] Existing Instance disk_ok.
#[local] Existing Instance disk_laws.
#[export] Instance disk_dirs : DirFs disk unit := {|
  dir_create p f := (f, inr tt);
  dir_read p f := (f, inr (map (fun kv => inr (file_name kv.1)) (map_to_list f)));
  dir_metadata p f := (f, match f !! p with Some b => inr (Some 0, Z.of_nat (length b)) | None => inl tt end) |}.
#[export] Program Instance disk_dir_laws : DirFsLaws disk str unit.
Next Obligation. intros p f f' r [= <- _]. done. Qed.
Next Obligation. intros p f f' r [= <- _]. done. Qed.
Next Obligation. intros p f f' r [= <- _] h Hne. cbn in *. by rewrite lookup_delete_ne by congruence. Qed.
Next Obligation. intros p b f f' r [= <- _] q Hne. cbn in *. by rewrite lookup_insert_ne by congruence. Qed.

Definition cfg : ClipRecorderConfig :=
  mkRecCfg (lit "clips") (secs 3) (secs 5) (secs 1) (secs 86400) 262144 (Some 10%nat) None None None (Some 60).
Definition at_s (t : Z) : @readings clock :=
  @mkRead clock (secs t) (secs t) (secs t) (t * 1000) (t * 1000) (t * 1000) (secs t).
Definition cell (id : string) : StateBus.MotionState := {["cell"%string := StateBus.mkMetadata "cam" id]}.

Definition events : list event :=
  [MotionChanged (at_s 1) (cell "e1"); Nal (at_s 2) (nal [0x67; 1]); Nal (at_s 2) (nal [0x68; 2]);
   Nal (at_s 3) (nal [0x65; 3]); Nal (at_s 4) (nal [0x41; 4]); MotionChanged (at_s 6) ∅; Tick (at_s 7)].


Lemma retention_minimal_witness :
  let clips := [mkFile (lit "b.h264") 20 10; mkFile (lit "a.h264") 10 10; mkFile (lit "c.h264") 30 10] in
  let keep := mkRecCfg (lit "clips") 0 0 0 0 0 (Some 2%nat) None (Some 15) None None in
  clips_to_delete keep 0 clips = [lit "a.h264"; lit "b.h264"] /\
  exists k l, l ≡ₚ clips /\ StronglySorted older l /\ clips_to_delete keep 0 clips = map cf_path (take k l) /\
    within_limits keep 0 (drop k l) /\ ((0 < k)%nat -> ~ within_limits keep 0 (drop (k - 1) l)).
Proof.
  intros clips keep. split; [vm_compute; reflexivity|]. apply retention_minimal.
  - by_eval.
  - intros max [= <-]. lia.
Defined.

(** A file system that accepts everything and keeps nothing. *)
Definition null_fs : Fs unit unit unit :=
  {| fs_create p f := (f, inr tt); fs_write h b f := (f, inr tt); fs_flush h f := (f, inr tt); fs_drop h f := f;
     fs_rename p q f := (f, inr tt); fs_remove p f := (f, inr tt); fs_store p b f := (f, inr tt) |}.
Definition null_dirs : DirFs unit unit :=
  {| dir_create p f := (f, inr tt); dir_read p f := (f, inr []); dir_metadata p f := (f, inl tt) |}.
#[local] Existing Instance null_fs.
#[local] Existing Instance null_dirs.

Definition writer : ClipWriter.t unit := ClipWriter.mk (lit "p") (lit "q") tt [] 262144 0.
Definition running : @recording clock unit :=
  mkRecording "cell" "cam" "e1" writer (Some (secs 8)) (Some (secs 63)) (secs 3) 3000 (lit "q").
Definition armed : @recorder clock unit (list ClipMeta) :=
  mkRecorder (Armed "cell" "cam" "e1" (secs 1)) (Some (nal [0x67])) (Some (nal [0x68])) (cell "e1")
    (Some (mkSticky "cell" "cam" "e1")) None.

Definition started : list event :=
  [MotionChanged (at_s 1) (cell "e1"); Nal (at_s 2) (nal [0x67]); Nal (at_s 2) (nal [0x68]); Nal (at_s 3) (nal [0x65])].
Definition after_start : @recorder clock unit (list ClipMeta) :=
  Eval vm_compute in
  match run (F:=unit) (E:=unit) cfg 0 started (new None) tt with (_, Ok s) => s | _ => new None end.
Definition the_clip : @recording clock unit :=
  Eval vm_compute in match state after_start with Recording c => c | _ => running end.

Lemma recorder_deadlines_witness :
  r_hard_stop_at the_clip = (fun n => r_started_at the_clip + secs n) <$> max_clip_secs cfg /\
  is_recording (state (maybe_stop_on_deadline (F:=unit) (E:=unit) cfg (at_s 63) after_start tt).1) = false.
Proof.
  assert (run (F:=unit) (E:=unit) cfg 0 started (new None) tt = (tt, Ok after_start)) as Hrun by (vm_compute; reflexivity).
  destruct (recorder_deadlines cfg 0 None started tt tt after_start the_clip Hrun eq_refl) as (Hh & _ & Hd).
  split; [exact Hh|]. apply Hd. right. exists 60. split; [reflexivity|]. vm_compute. discriminate.
Defined.

Lemma long_motion_cut_witness :
  exists s2 f2, turns (F:=unit) (E:=unit) cfg [Tick (at_s 8); Nal (at_s 9) (nal [0x65]); Nal (at_s 9) (nal [0x41])]
      (set_state (Recording the_clip) armed) tt = (f2, Ok s2) /\ state s2 = Idle /\ last_motion_state s2 <> ∅.
Proof.
  apply (long_motion_cut (F:=unit) (E:=unit) cfg (at_s 3) (at_s 8) (nal [0x65])
    [Nal (at_s 9) (nal [0x65]); Nal (at_s 9) (nal [0x41])] armed (set_state (Recording the_clip) armed) tt tt
    "cell" "cam" "e1" (secs 1)).
  - reflexivity.
  - discriminate.
  - vm_compute. reflexivity.
  - reflexivity.
  - vm_compute. discriminate.
  - intros n [= <-]. vm_compute. reflexivity.
  - repeat constructor.
Defined.

Lemma stale_event_id_witness :
  let s := set_state (Recording running) armed in
  let s1 := on_motion_state_change cfg (at_s 6) ∅ s in
  let s2 := (maybe_stop_on_deadline (F:=unit) (E:=unit) cfg (at_s 8) s1 tt).1 in
  state (on_motion_state_change cfg (at_s 20) (cell "e2") s2) = Armed "cell" "cam" "e1" (secs 20).
Proof.
  intros s s1 s2.
  apply (stale_event_id (F:=unit) (E:=unit) cfg (at_s 6) (at_s 8) (at_s 20) (cell "e2") s running
    (mkSticky "cell" "cam" "e1") tt).
  - reflexivity.
  - reflexivity.
  - discriminate.
  - vm_compute. reflexivity.
Defined.
End RecorderWitness.
