(* ===== verification/MpegTs.v ===== *)
(** * MPEG transport stream ([live/v2.rs], from [build_pat_packet] on)

    The segments of the live pipeline: program tables, PES packets of access
    units, and their packetization into 188-byte packets.  The reference is
    the receiving side: [demux] reads the packets of one PID back, [units_of]
    reassembles the PES packets, [parse_pes] reads one. *)
From S2P Require Import Prelude H264.

Definition PAT_PID : Z := 0x0000.
Definition PMT_PID : Z := 0x1000.
Definition VIDEO_PID : Z := 0x0100.
Definition TS_PACKET_SIZE : nat := 188.
Definition H264_STREAM_TYPE : Z := 0x1B.
Definition H264_STREAM_ID : Z := 0xE0.

(** ** CRC *)
Definition crc_bit (crc : Z) : Z :=
  if negb (Z.land crc 0x80000000 =? 0) then Z.lxor (wrap32 (Z.shiftl crc 1)) 0x04C11DB7
  else wrap32 (Z.shiftl crc 1).
Definition crc_byte (crc byte : Z) : Z :=
  Nat.iter 8 crc_bit (Z.lxor crc (wrap32 (Z.shiftl byte 24))).
Definition mpeg_crc32 (b : bytes) : Z := foldl crc_byte 0xFFFFFFFF b.

(** ** Packets *)
Definition pid_hi (pid : Z) : Z := Z.land (wrap8 (Z.shiftr pid 8)) 0x1F.
Definition pid_lo (pid : Z) : Z := wrap8 (Z.land pid 0xFF).

(** The adaptation field that pads a packet of [take] payload bytes. *)
Definition adaptation (take : nat) : bytes :=
  if (take <? 184)%nat then
    let n := (183 - take)%nat in
    wrap8 (Z.of_nat n) :: (if (0 <? n)%nat then 0x00 :: replicate (n - 1) 0xFF else [])
  else [].

Definition ts_packet (pid : Z) (start : bool) (cc : Z) (chunk : bytes) : bytes :=
  let take := length chunk in
  let adaptation_control := if (take <? 184)%nat then 3 else 1 in
  [0x47; Z.lor (Z.shiftl (Z.b2z start) 6) (pid_hi pid); pid_lo pid;
   Z.lor (wrap8 (Z.shiftl adaptation_control 4)) (Z.land cc 0x0F)] ++ adaptation take ++ chunk.

Definition next_cc (cc : Z) : Z := Z.land (wrap8 (cc + 1)) 0x0F.

(** The loop over [offset]; a packet takes at least one byte, so the payload's
    length is enough fuel. *)
Fixpoint packetize_loop (fuel : nat) (pid : Z) (payload : bytes) (payload_unit_start : bool)
    (offset : nat) (first : bool) (cc : Z) (packets : bytes) : bytes * Z :=
  match fuel with
  | O => (packets, cc)
  | S fuel =>
      if (offset <? length payload)%nat then
        let remaining := (length payload - offset)%nat in
        let k := Nat.min remaining 184 in
        let packet := ts_packet pid (first && payload_unit_start) cc (take k (drop offset payload)) in
        packetize_loop fuel pid payload payload_unit_start (offset + k)%nat false (next_cc cc) (packets ++ packet)
      else (packets, cc)
  end.

Definition packetize_ts (pid : Z) (payload : bytes) (cc : Z) (payload_unit_start : bool) : bytes * Z :=
  packetize_loop (length payload) pid payload payload_unit_start 0 true cc [].

(** ** Tables *)
Definition pat_section : bytes :=
  [0x00; 0xB0; 0x0D] ++ to_be 2 1 ++ [0xC1; 0x00; 0x00] ++ to_be 2 1
  ++ [Z.lor 0xE0 (pid_hi PMT_PID); pid_lo PMT_PID].
Definition pmt_section : bytes :=
  [0x02; 0xB0; 0x12] ++ to_be 2 1 ++ [0xC1; 0x00; 0x00]
  ++ [Z.lor 0xE0 (pid_hi VIDEO_PID); pid_lo VIDEO_PID; 0xF0; 0x00; H264_STREAM_TYPE;
      Z.lor 0xE0 (pid_hi VIDEO_PID); pid_lo VIDEO_PID; 0xF0; 0x00].
(** The pointer field, the section and its checksum. *)
Definition table_payload (section : bytes) : bytes := [0x00] ++ section ++ to_be 4 (mpeg_crc32 section).

Definition build_pat_packet (cc : Z) : bytes * Z := packetize_ts PAT_PID (table_payload pat_section) cc true.
Definition build_pmt_packet (cc : Z) : bytes * Z := packetize_ts PMT_PID (table_payload pmt_section) cc true.

(** ** PES *)
Definition encode_pts (pts_90k : Z) : bytes :=
  let pts := Z.land pts_90k (Z.shiftl 1 33 - 1) in
  [Z.lor (Z.lor (Z.shiftl 2 4) (Z.shiftl (Z.land (Z.shiftr pts 30) 0x07) 1)) 1;
   Z.land (Z.shiftr pts 22) 0xFF;
   Z.lor (Z.shiftl (Z.land (Z.shiftr pts 15) 0x7F) 1) 1;
   Z.land (Z.shiftr pts 7) 0xFF;
   Z.lor (Z.shiftl (Z.land pts 0x7F) 1) 1].

Definition build_pes_video (pts_90k : Z) (payload : bytes) : bytes :=
  [0x00; 0x00; 0x01; H264_STREAM_ID] ++ to_be 2 0 ++ [0x80; 0x80; 0x05] ++ encode_pts pts_90k ++ payload.

(** ** Segments *)
Record AccessUnit := mkAu { rtp_timestamp : Z; nals : list bytes; has_idr : bool }.

Definition build_access_unit (nals : list bytes) (rtp_timestamp : Z) : AccessUnit :=
  mkAu rtp_timestamp nals
    (existsb (fun t => t =? 5) (omap nal_type_from_annexb nals)).

(** What [MpegTsSegmentWriter::create] and [write_access_unit] append, with
    the video's continuity counter. *)
Definition segment_header : bytes := (build_pat_packet 0).1 ++ (build_pmt_packet 0).1.
Definition access_unit_packets (au : AccessUnit) (video_cc : Z) : bytes * Z :=
  packetize_ts VIDEO_PID (build_pes_video (rtp_timestamp au) (concat (nals au))) video_cc true.

Fixpoint segment_body (aus : list AccessUnit) (video_cc : Z) : bytes :=
  match aus with
  | [] => []
  | au :: aus =>
      let '(p, cc) := access_unit_packets au video_cc in p ++ segment_body aus cc
  end.
Definition segment (aus : list AccessUnit) : bytes := segment_header ++ segment_body aus 0.

(** ** The receiving side *)
Record ts := mkTs { ts_pid : Z; ts_start : bool; ts_cc : Z; ts_payload : bytes }.

(** One packet of 188 bytes. *)
Definition read_packet (p : bytes) : option ts :=
  match p with
  | b0 :: b1 :: b2 :: b3 :: rest =>
      if b0 =? 0x47 then
        let pid := Z.land b1 0x1F * 256 + b2 in
        let start := negb (Z.land b1 0x40 =? 0) in
        let cc := Z.land b3 0x0F in
        let control := Z.land (Z.shiftr b3 4) 3 in
        if control =? 1 then Some (mkTs pid start cc rest)
        else if control =? 3 then
          match rest with
          | len :: rest => if (Z.to_nat len <=? length rest)%nat then Some (mkTs pid start cc (drop (Z.to_nat len) rest)) else None
          | [] => None
          end
        else None
      else None
  | _ => None
  end.

Fixpoint demux_fuel (fuel : nat) (l : bytes) : option (list ts) :=
  match fuel with
  | O => None
  | S fuel =>
      match l with
      | [] => Some []
      | _ =>
          if (length l <? TS_PACKET_SIZE)%nat then None
          else
            p ← read_packet (take TS_PACKET_SIZE l);
            ps ← demux_fuel fuel (drop TS_PACKET_SIZE l);
            Some (p :: ps)
      end
  end.
Definition demux (l : bytes) : option (list ts) := demux_fuel (S (length l)) l.

(** The packets of a PID, cut before each payload unit start. *)
Fixpoint units_of (ps : list ts) : list bytes :=
  match ps with
  | [] => []
  | p :: ps =>
      match ps with
      | q :: _ =>
          if ts_start q then ts_payload p :: units_of ps
          else match units_of ps with u :: us => (ts_payload p ++ u) :: us | [] => [ts_payload p] end
      | [] => [ts_payload p]
      end
  end.
Definition on_pid (pid : Z) (ps : list ts) : list ts := List.filter (fun p => ts_pid p =? pid) ps.

(** No packet of the PID is missing: counters in turn from [cc]. *)
Fixpoint counters_from (cc : Z) (ps : list ts) : Prop :=
  match ps with
  | [] => True
  | p :: ps => ts_cc p = cc /\ counters_from ((cc + 1) mod 16) ps
  end.

Definition decode_pts (b : bytes) : option Z :=
  match b with
  | [b0; b1; b2; b3; b4] =>
      Some (Z.land (Z.shiftr b0 1) 7 * 2 ^ 30 + b1 * 2 ^ 22 + Z.shiftr b2 1 * 2 ^ 15 + b3 * 2 ^ 7 + Z.shiftr b4 1)
  | _ => None
  end.

(** A video PES packet with a PTS: its time and its payload. *)
Definition parse_pes (l : bytes) : option (Z * bytes) :=
  match l with
  | 0 :: 0 :: 1 :: 0xE0 :: _ :: _ :: 0x80 :: 0x80 :: 5 :: l =>
      pts ← decode_pts (take 5 l); Some (pts, drop 5 l)
  | _ => None
  end.

(** The packets of a payload, without their bytes. *)
Fixpoint pieces (fuel : nat) (pid : Z) (payload : bytes) (start : bool) (cc : Z) : list ts :=
  match fuel with
  | O => []
  | S fuel =>
      match payload with
      | [] => []
      | _ => mkTs pid start cc (take 184 payload) :: pieces fuel pid (drop 184 payload) false (next_cc cc)
      end
  end.
Definition enc (p : ts) : bytes := ts_packet (ts_pid p) (ts_start p) (ts_cc p) (ts_payload p).
Definition packet_ok (p : ts) : Prop :=
  0 <= ts_pid p < 8192 /\ 0 <= ts_cc p < 16 /\ (0 < length (ts_payload p) <= 184)%nat.
(** The list that follows starts a unit, or is empty. *)
Definition starts (ps : list ts) : Prop := match ps with [] => True | p :: _ => ts_start p = true end.
Definition cc_after (cc : Z) (ps : list ts) : Z := Nat.iter (length ps) next_cc cc.

Definition header_pieces : list ts :=
  [mkTs PAT_PID true 0 (table_payload pat_section); mkTs PMT_PID true 0 (table_payload pmt_section)].
Fixpoint body_pieces (aus : list AccessUnit) (cc : Z) : list ts :=
  match aus with
  | [] => []
  | au :: aus =>
      let pes := build_pes_video (rtp_timestamp au) (concat (nals au)) in
      let ps := pieces (length pes) VIDEO_PID pes true cc in
      ps ++ body_pieces aus (cc_after cc ps)
  end.

(** ** The checksum *)
Lemma crc_bit_low v : 0 <= v < 2147483648 -> crc_bit v = 2 * v.
Proof.
  intros Hv. unfold crc_bit.
  replace (Z.land v 0x80000000) with 0.
  - cbn [negb Z.eqb]. rewrite Z.shiftl_mul_pow2 by lia. unfold wrap32. rewrite Z.mod_small; lia.
  - symmetry. apply Z.bits_inj'. intros i Hi. rewrite Z.land_spec, Z.bits_0.
    change 0x80000000 with (2 ^ 31). destruct (decide (i = 31)) as [->|Hne].
    + rewrite (Z.bits_above_log2 v); [done|lia|]. destruct (decide (v = 0)) as [->|]; [done|].
      apply Z.log2_lt_pow2; lia.
    + rewrite Z.pow2_bits_false by lia. by rewrite andb_false_r.
Qed.

Lemma crc_iter_low n v :
  (n <= 8)%nat -> 0 <= v < 16777216 -> Nat.iter n crc_bit v = 2 ^ Z.of_nat n * v.
Proof.
  induction n as [|n IH]; intros Hn Hv; [change (v = 1 * v); lia|].
  change (Nat.iter (S n) crc_bit v) with (crc_bit (Nat.iter n crc_bit v)).
  rewrite IH by lia. assert (2 ^ Z.of_nat n <= 2 ^ 7) by (apply Z.pow_le_mono_r; lia).
  pose proof (Z.pow_pos_nonneg 2 (Z.of_nat n)). rewrite crc_bit_low by nia.
  rewrite Nat2Z.inj_succ, Z.pow_succ_r by lia. ring.
Qed.

(** Feeding the top byte of the register clears it. *)
Lemma crc_byte_top b v :
  is_byte b -> 0 <= v < 16777216 -> crc_byte (b * 16777216 + v) b = 256 * v.
Proof.
  intros Hb Hv. unfold crc_byte, is_byte in *.
  assert (Z.lxor (b * 16777216 + v) (wrap32 (Z.shiftl b 24)) = v) as ->.
  - rewrite Z.shiftl_mul_pow2 by lia. change (2 ^ 24) with 16777216.
    unfold wrap32. rewrite Z.mod_small by lia.
    assert (b * 16777216 + v = Z.lxor (b * 16777216) v) as ->.
    + apply Z.add_nocarry_lxor. apply Z.bits_inj'. intros i Hi. rewrite Z.land_spec, Z.bits_0.
      destruct (decide (i < 24)).
      * change 16777216 with (2 ^ 24). rewrite Z.mul_pow2_bits_low by lia. done.
      * rewrite (Z.bits_above_log2 v); [by rewrite andb_false_r|lia|].
        destruct (decide (v = 0)) as [->|]; [cbn; lia|].
        apply Z.lt_le_trans with 24; [apply Z.log2_lt_pow2; lia|lia].
    + by rewrite (Z.lxor_comm (b * 16777216)), Z.lxor_assoc, Z.lxor_nilpotent, Z.lxor_0_r.
  - rewrite crc_iter_low by lia. reflexivity.
Qed.

Lemma crc_bit_range v : 0 <= v < 4294967296 -> 0 <= crc_bit v < 4294967296.
Proof.
  intros Hv. unfold crc_bit, wrap32.
  pose proof (Z.mod_pos_bound (Z.shiftl v 1) 4294967296 ltac:(lia)) as Hm. case_match; [|done].
  set (x := Z.shiftl v 1 mod 4294967296) in *. split; [apply Z.lxor_nonneg; lia|].
  destruct (decide (Z.lxor x 0x04C11DB7 = 0)) as [->|]; [lia|].
  assert (0 <= Z.lxor x 0x04C11DB7) by (apply Z.lxor_nonneg; lia).
  change 4294967296 with (2 ^ 32). apply Z.log2_lt_pow2; [lia|].
  eapply Z.le_lt_trans; [apply Z.log2_lxor; lia|]. apply Z.max_lub_lt; [|cbn; lia].
  destruct (decide (x = 0)) as [->|]; [cbn; lia|]. apply Z.log2_lt_pow2; lia.
Qed.

Lemma crc_iter_range n v : 0 <= v < 4294967296 -> 0 <= Nat.iter n crc_bit v < 4294967296.
Proof.
  induction n as [|n IH]; intros Hv; [done|].
  change (Nat.iter (S n) crc_bit v) with (crc_bit (Nat.iter n crc_bit v)). by apply crc_bit_range, IH.
Qed.

Lemma crc_byte_range c b : 0 <= c < 4294967296 -> 0 <= crc_byte c b < 4294967296.
Proof.
  intros Hc. unfold crc_byte. apply crc_iter_range. unfold wrap32.
  pose proof (Z.mod_pos_bound (Z.shiftl b 24) 4294967296 ltac:(lia)) as Hm.
  set (x := Z.shiftl b 24 mod 4294967296) in *. split; [apply Z.lxor_nonneg; lia|].
  destruct (decide (Z.lxor c x = 0)) as [->|]; [lia|].
  assert (0 <= Z.lxor c x) by (apply Z.lxor_nonneg; lia).
  change 4294967296 with (2 ^ 32). apply Z.log2_lt_pow2; [lia|].
  eapply Z.le_lt_trans; [apply Z.log2_lxor; lia|].
  apply Z.max_lub_lt; [destruct (decide (c = 0)) as [->|]|destruct (decide (x = 0)) as [->|]];
    try (cbn; lia); apply Z.log2_lt_pow2; lia.
Qed.

Lemma mpeg_crc32_range s : 0 <= mpeg_crc32 s < 4294967296.
Proof.
  unfold mpeg_crc32. assert (0 <= 0xFFFFFFFF < 4294967296) as H by lia. revert H.
  generalize 0xFFFFFFFF. induction s as [|b s IH]; intros c Hc; [done|]. cbn. by apply IH, crc_byte_range.
Qed.

(** The checksum closes a section: a section followed by its own checksum
    has checksum zero, which is what a receiver tests. *)
Theorem crc_residue (s : bytes) : mpeg_crc32 (s ++ to_be 4 (mpeg_crc32 s)) = 0.
Proof.
  unfold mpeg_crc32 at 1. rewrite foldl_app. fold (mpeg_crc32 s).
  pose proof (mpeg_crc32_range s) as Hr. set (c := mpeg_crc32 s) in *.
  assert (exists b0 b1 b2 b3, is_byte b0 /\ is_byte b1 /\ is_byte b2 /\ is_byte b3 /\ to_be 4 c = [b0; b1; b2; b3])
    as (b0 & b1 & b2 & b3 & H0 & H1 & H2 & H3 & Hb).
  { pose proof (to_be_bytes_ok 4 c) as Hok. pose proof (length_to_be 4 c) as Hl.
    destruct (to_be 4 c) as [|b0 [|b1 [|b2 [|b3 [|]]]]]; try done.
    rewrite !Forall_cons in Hok. destruct Hok as (? & ? & ? & ? & _). by exists b0, b1, b2, b3. }
  assert (c = ((b0 * 256 + b1) * 256 + b2) * 256 + b3) as Hc.
  { rewrite <- (from_be_to_be_small 4 c) by (change (256 ^ Z.of_nat 4) with 4294967296; lia).
    rewrite Hb. unfold from_be. cbn. lia. }
  rewrite Hb, Hc. cbn [foldl]. unfold is_byte in *.
  replace (((b0 * 256 + b1) * 256 + b2) * 256 + b3) with (b0 * 16777216 + (b1 * 65536 + b2 * 256 + b3)) by lia.
  rewrite crc_byte_top by (unfold is_byte; lia).
  replace (256 * (b1 * 65536 + b2 * 256 + b3)) with (b1 * 16777216 + (b2 * 65536 + b3 * 256)) by lia.
  rewrite crc_byte_top by (unfold is_byte; lia).
  replace (256 * (b2 * 65536 + b3 * 256)) with (b2 * 16777216 + b3 * 65536) by lia.
  rewrite crc_byte_top by (unfold is_byte; lia).
  replace (256 * (b3 * 65536)) with (b3 * 16777216 + 0) by lia.
  rewrite crc_byte_top by (unfold is_byte; lia). lia.
Qed.

(** ** The presentation time *)
Lemma land_7 x : Z.land x 7 = x mod 8.
Proof. exact (Z.land_ones x 3 ltac:(lia)). Qed.
Lemma land_7F x : Z.land x 0x7F = x mod 128.
Proof. exact (Z.land_ones x 7 ltac:(lia)). Qed.
Lemma land_FF x : Z.land x 0xFF = x mod 256.
Proof. exact (Z.land_ones x 8 ltac:(lia)). Qed.

Lemma pts_fields p :
  0 <= p < 2 ^ 33 ->
  encode_pts p =
    [33 + 2 * (p / 1073741824); p / 4194304 mod 256; 2 * (p / 32768 mod 128) + 1;
     p / 128 mod 256; 2 * (p mod 128) + 1].
Proof.
  intros Hp. unfold encode_pts.
  change (Z.shiftl 1 33 - 1) with (Z.ones 33). rewrite Z.land_ones, Z.mod_small by lia.
  rewrite !Z.shiftr_div_pow2 by lia. change (2 ^ 7) with 128.
  rewrite !land_7, !land_7F, !land_FF.
  change (2 ^ 30) with 1073741824. change (2 ^ 22) with 4194304. change (2 ^ 15) with 32768.
  assert (forall v, 0 <= v < 8 -> Z.lor (Z.lor (Z.shiftl 2 4) (Z.shiftl v 1)) 1 = 33 + 2 * v) as H3.
  { intros v Hv. apply Z.eqb_eq.
    apply (forall_below 8 (fun v => Z.lor (Z.lor (Z.shiftl 2 4) (Z.shiftl v 1)) 1 =? 33 + 2 * v)); [|lia].
    by vm_compute. }
  assert (forall v, 0 <= v < 128 -> Z.lor (Z.shiftl v 1) 1 = 2 * v + 1) as H7.
  { intros v Hv. apply Z.eqb_eq.
    apply (forall_below 128 (fun v => Z.lor (Z.shiftl v 1) 1 =? 2 * v + 1)); [|lia]. by vm_compute. }
  rewrite H3, !H7 by (apply Z.mod_pos_bound; lia).
  rewrite (Z.mod_small (p / 1073741824) 8); [done|].
  split; [apply Z.div_pos; lia|apply Z.div_lt_upper_bound; lia].
Qed.

Lemma pts_roundtrip p : 0 <= p < 2 ^ 33 -> decode_pts (encode_pts p) = Some p.
Proof.
  intros Hp. rewrite pts_fields by done. cbn [decode_pts]. f_equal.
  rewrite land_7, !(Z.shiftr_div_pow2 _ 1) by lia. change (2 ^ 1) with 2.
  change (2 ^ 30) with 1073741824. change (2 ^ 22) with 4194304. change (2 ^ 15) with 32768.
  change (2 ^ 7) with 128.
  assert (0 <= p / 1073741824 < 8) as Ht.
  { split; [apply Z.div_pos; lia|apply Z.div_lt_upper_bound; lia]. }
  replace (33 + 2 * (p / 1073741824)) with ((p / 1073741824 + 16) * 2 + 1) by lia.
  rewrite (Z.div_add_l _ 2), (Z.add_comm (2 * _) 1), (Z.add_comm (2 * (p mod 128)) 1),
    !(Z.mul_comm 2), !Z.div_add by lia.
  change (1 / 2) with 0. Z.to_euclidean_division_equations; lia.
Qed.

Lemma length_encode_pts p : length (encode_pts p) = 5%nat.
Proof. done. Qed.

Lemma pes_roundtrip p payload :
  0 <= p < 2 ^ 33 -> parse_pes (build_pes_video p payload) = Some (p, payload).
Proof.
  intros Hp. unfold build_pes_video, H264_STREAM_ID. change (to_be 2 0) with [0; 0].
  cbn [app parse_pes]. rewrite take_app_ex, drop_app_ex by done. by rewrite pts_roundtrip.
Qed.

(** ** One packet *)
Lemma length_adaptation n : (0 < n <= 184)%nat -> (length (adaptation n) + n = 184)%nat.
Proof.
  intros Hn. unfold adaptation. destruct (Nat.ltb_spec n 184); [|cbn; lia].
  cbn [length]. destruct (Nat.ltb_spec 0 (183 - n)); cbn [length]; [rewrite length_replicate|]; lia.
Qed.

Lemma length_ts_packet pid start cc chunk :
  (0 < length chunk <= 184)%nat -> length (ts_packet pid start cc chunk) = TS_PACKET_SIZE.
Proof.
  intros Hn. unfold ts_packet. rewrite !length_app.
  pose proof (length_adaptation (length chunk) Hn). cbn [length]. unfold TS_PACKET_SIZE. lia.
Qed.

(** The header bytes, by enumeration. *)
Lemma header_pid pid start :
  0 <= pid < 8192 ->
  let b1 := Z.lor (Z.shiftl (Z.b2z start) 6) (pid_hi pid) in
  Z.land b1 0x1F * 256 + pid_lo pid = pid /\ negb (Z.land b1 0x40 =? 0) = start.
Proof.
  intros Hp b1. pose (f := fun pid =>
    forallb (fun start : bool => let b1 := Z.lor (Z.shiftl (Z.b2z start) 6) (pid_hi pid) in
      ((Z.land b1 0x1F * 256 + pid_lo pid =? pid) && Bool.eqb (negb (Z.land b1 0x40 =? 0)) start))
      [true; false]).
  assert (f pid = true) as Hf by (apply (forall_below 8192); [by vm_compute|done]).
  unfold f in Hf. cbn [forallb] in Hf.
  repeat (apply andb_prop in Hf as [? Hf] || (match goal with E : _ && _ = true |- _ => apply andb_prop in E as [? ?] end)).
  destruct start; (split; [by apply Z.eqb_eq|by apply Bool.eqb_prop]).
Qed.

Lemma header_cc (pad : bool) cc :
  0 <= cc < 16 ->
  let b3 := Z.lor (wrap8 (Z.shiftl (if pad then 3 else 1) 4)) (Z.land cc 0x0F) in
  Z.land b3 0x0F = cc /\ Z.land (Z.shiftr b3 4) 3 = (if pad then 3 else 1).
Proof.
  intros Hc b3.
  assert (forallb (fun cc => forallb (fun pad : bool =>
      let b3 := Z.lor (wrap8 (Z.shiftl (if pad then 3 else 1) 4)) (Z.land cc 0x0F) in
      ((Z.land b3 0x0F =? cc) && (Z.land (Z.shiftr b3 4) 3 =? if pad then 3 else 1))%bool)
      [true; false]) (seqZ 0 16) = true) as Hf by by vm_compute.
  pose proof (forall_below 16 _ Hf cc Hc) as Hg. cbn [forallb] in Hg.
  repeat match goal with E : _ && _ = true |- _ => apply andb_prop in E as [? ?] end.
  destruct pad; (split; by apply Z.eqb_eq).
Qed.

Lemma drop_adaptation n chunk :
  (0 < n < 184)%nat ->
  exists len rest, adaptation n ++ chunk = len :: rest /\ (Z.to_nat len <= length rest)%nat /\
    drop (Z.to_nat len) rest = chunk.
Proof.
  intros Hn. unfold adaptation. destruct (Nat.ltb_spec n 184); [|lia].
  assert (wrap8 (Z.of_nat (183 - n)) = Z.of_nat (183 - n)) as -> by (unfold wrap8; rewrite Z.mod_small; lia).
  eexists _, _. cbn [app]. split; [done|]. rewrite Nat2Z.id.
  assert (length (if (0 <? 183 - n)%nat then 0 :: replicate (183 - n - 1) 255 else []) = (183 - n)%nat) as Hl.
  { destruct (Nat.ltb_spec 0 (183 - n)); cbn [length]; [rewrite length_replicate|]; lia. }
  split; [rewrite length_app; lia|]. by rewrite drop_app_ex.
Qed.

Lemma read_enc p : packet_ok p -> read_packet (enc p) = Some p.
Proof.
  destruct p as [pid start cc chunk]. intros (Hp & Hc & Hl). cbn in Hp, Hc, Hl. unfold enc, ts_packet.
  cbn [ts_pid ts_start ts_cc ts_payload app read_packet]. rewrite Z.eqb_refl.
  destruct (header_pid pid start Hp) as [-> ->].
  destruct (header_cc (length chunk <? 184)%nat cc Hc) as [-> ->].
  destruct (Nat.ltb_spec (length chunk) 184) as [Hlt|Hge]; cbn [Z.eqb Pos.eqb].
  - destruct (drop_adaptation (length chunk) chunk ltac:(lia)) as (len & rest & -> & Hle & ->).
    apply Nat.leb_le in Hle. by rewrite Hle.
  - unfold adaptation. destruct (Nat.ltb_spec (length chunk) 184); [lia|]. done.
Qed.

Lemma demux_enc ps : Forall packet_ok ps -> demux (concat (map enc ps)) = Some ps.
Proof.
  intros Hok. unfold demux. assert (length ps <= length (concat (map enc ps)))%nat as Hl.
  { induction Hok as [|p ps (Hp & Hc & Hq) _ IH]; [done|]. cbn [map concat length]. rewrite length_app.
    unfold enc at 1. rewrite length_ts_packet by done. unfold TS_PACKET_SIZE. lia. }
  revert Hl. generalize (length (concat (map enc ps))). induction Hok as [|p ps Hp Hok IH]; intros n Hl; [done|].
  destruct n as [|n]; [cbn in Hl; lia|]. cbn [length] in Hl. cbn [map concat].
  assert (length (enc p) = TS_PACKET_SIZE) as He by (apply length_ts_packet, Hp).
  change (demux_fuel (S (S n)) ?l) with
    (match l with [] => Some [] | _ => if (length l <? TS_PACKET_SIZE)%nat then None else
       p ← read_packet (take TS_PACKET_SIZE l); ps ← demux_fuel (S n) (drop TS_PACKET_SIZE l); Some (p :: ps) end).
  case_match eqn:Hnil; [apply (f_equal length) in Hnil; rewrite length_app, He in Hnil; cbn in Hnil; lia|].
  rewrite <- Hnil. destruct (Nat.ltb_spec (length (enc p ++ concat (map enc ps))) TS_PACKET_SIZE) as [Hlt|_].
  { rewrite length_app, He in Hlt. unfold TS_PACKET_SIZE in Hlt. lia. }
  rewrite take_app_ex, drop_app_ex by done. rewrite (read_enc p Hp). cbn [mbind option_bind].
  rewrite IH by lia. done.
Qed.

(** ** The packets of a payload *)
Lemma next_cc_range cc : 0 <= next_cc cc < 16.
Proof.
  unfold next_cc. change 0x0F with (Z.ones 4). rewrite Z.land_ones by lia. apply Z.mod_pos_bound. lia.
Qed.

Lemma next_cc_mod cc : 0 <= cc < 16 -> next_cc cc = (cc + 1) mod 16.
Proof.
  intros Hc. unfold next_cc, wrap8. rewrite (Z.mod_small (cc + 1) 256) by lia.
  change 0x0F with (Z.ones 4). by rewrite Z.land_ones by lia.
Qed.

Lemma pieces_cons fuel pid payload start cc :
  payload <> [] ->
  pieces (S fuel) pid payload start cc =
    mkTs pid start cc (take 184 payload) :: pieces fuel pid (drop 184 payload) false (next_cc cc).
Proof. by destruct payload. Qed.

Lemma pieces_nil fuel pid start cc : pieces fuel pid [] start cc = [].
Proof. by destruct fuel. Qed.

Lemma pieces_ok fuel pid payload start cc :
  0 <= pid < 8192 -> 0 <= cc < 16 -> Forall packet_ok (pieces fuel pid payload start cc).
Proof.
  intros Hp. revert payload start cc. induction fuel as [|fuel IH]; intros payload start cc Hc; [constructor|].
  destruct payload as [|b l]; [constructor|]. rewrite pieces_cons by done.
  constructor; [|by apply IH, next_cc_range]. repeat split; cbn [ts_pid ts_cc ts_payload]; try lia.
  - cbn [take length]. lia.
  - rewrite length_take. lia.
Qed.

Lemma packetize_loop_pieces fuel pid payload start offset first cc out :
  packetize_loop fuel pid payload start offset first cc out =
  (out ++ concat (map enc (pieces fuel pid (drop offset payload) (first && start) cc)),
   cc_after cc (pieces fuel pid (drop offset payload) (first && start) cc)).
Proof.
  revert offset first cc out. induction fuel as [|fuel IH]; intros offset first cc out.
  - cbn. by rewrite app_nil_r.
  - cbn [packetize_loop]. destruct (Nat.ltb_spec offset (length payload)) as [Hlt|Hge].
    + assert (drop offset payload <> []) as Hne.
      { intros E. apply (f_equal length) in E. rewrite length_drop in E. cbn in E. lia. }
      rewrite pieces_cons by done. rewrite IH. cbn [map concat].
      assert (take (Nat.min (length payload - offset) 184) (drop offset payload) = take 184 (drop offset payload)) as ->.
      { rewrite <- (length_drop payload offset). destruct (decide (length (drop offset payload) <= 184)%nat).
        - rewrite Nat.min_l by done. by rewrite !take_ge by lia.
        - by rewrite Nat.min_r by lia. }
      assert (drop (offset + Nat.min (length payload - offset) 184) payload = drop 184 (drop offset payload)) as ->.
      { rewrite drop_drop. destruct (decide (length payload - offset <= 184)%nat).
        - rewrite Nat.min_l by done. rewrite !drop_ge by lia. done.
        - by rewrite Nat.min_r by lia. }
      unfold cc_after. cbn [length andb]. rewrite <- app_assoc. unfold enc at 2.
      cbn [ts_pid ts_start ts_cc ts_payload]. f_equal. by rewrite Nat.iter_succ_r.
    + rewrite drop_ge by lia. rewrite pieces_nil. cbn. by rewrite app_nil_r.
Qed.

(** The packets of a unit reassemble to it. *)
Lemma units_of_pieces fuel pid payload start cc rest :
  payload <> [] -> (length payload <= fuel)%nat -> starts rest ->
  units_of (pieces fuel pid payload start cc ++ rest) = payload :: units_of rest.
Proof.
  revert payload start cc. induction fuel as [|fuel IH]; intros payload start cc Hne Hf Hs.
  - destruct payload; [done|cbn in Hf; lia].
  - rewrite pieces_cons by done. cbn [app].
    destruct (decide (length payload <= 184)%nat) as [Hle|Hgt].
    + rewrite (drop_ge payload), (take_ge payload), pieces_nil by lia. cbn [app].
      destruct rest as [|q rest]; [done|]. cbn in Hs.
      change (units_of (?p :: q :: rest)) with
        (if ts_start q then ts_payload p :: units_of (q :: rest)
         else match units_of (q :: rest) with u :: us => (ts_payload p ++ u) :: us | [] => [ts_payload p] end).
      by rewrite Hs.
    + assert (drop 184 payload <> []) as Hd.
      { intros E. apply (f_equal length) in E. rewrite length_drop in E. cbn in E. lia. }
      destruct fuel as [|fuel]; [lia|].
      pose proof (IH (drop 184 payload) false (next_cc cc) Hd) as HIH. rewrite length_drop in HIH.
      specialize (HIH ltac:(lia) Hs). revert HIH. rewrite (pieces_cons fuel) by done. cbn [app].
      set (q := mkTs _ _ _ _). set (more := pieces _ _ _ _ _ ++ rest). intros HIH.
      change (units_of (?p :: q :: more)) with
        (match units_of (q :: more) with u :: us => (ts_payload p ++ u) :: us | [] => [ts_payload p] end).
      rewrite HIH. cbn [ts_payload]. by rewrite take_drop.
Qed.

Lemma counters_pieces fuel pid payload start cc rest :
  0 <= cc < 16 ->
  counters_from (cc_after cc (pieces fuel pid payload start cc)) rest ->
  counters_from cc (pieces fuel pid payload start cc ++ rest).
Proof.
  revert payload start cc. induction fuel as [|fuel IH]; intros payload start cc Hc Hr; [done|].
  destruct payload as [|b l]; [done|]. rewrite pieces_cons in * by done. cbn [app counters_from].
  split; [done|]. rewrite <- next_cc_mod by done. apply IH; [apply next_cc_range|].
  revert Hr. unfold cc_after. cbn [length]. by rewrite Nat.iter_succ_r.
Qed.

Lemma on_pid_same fuel pid payload start cc :
  on_pid pid (pieces fuel pid payload start cc) = pieces fuel pid payload start cc.
Proof.
  revert payload start cc. induction fuel as [|fuel IH]; intros payload start cc; [done|].
  destruct payload as [|b l]; [done|]. rewrite pieces_cons by done. unfold on_pid in *. cbn [List.filter ts_pid].
  by rewrite Z.eqb_refl, IH.
Qed.

Lemma on_pid_other fuel pid pid' payload start cc :
  pid <> pid' -> on_pid pid' (pieces fuel pid payload start cc) = [].
Proof.
  intros Hne. revert payload start cc. induction fuel as [|fuel IH]; intros payload start cc; [done|].
  destruct payload as [|b l]; [done|]. rewrite pieces_cons by done. unfold on_pid in *. cbn [List.filter ts_pid].
  destruct (Z.eqb_spec pid pid'); [done|]. apply IH.
Qed.

Lemma on_pid_app pid ps qs : on_pid pid (ps ++ qs) = on_pid pid ps ++ on_pid pid qs.
Proof. apply List.filter_app. Qed.

Lemma cc_after_range cc ps : 0 <= cc < 16 -> 0 <= cc_after cc ps < 16.
Proof. unfold cc_after. destruct (length ps); [done|]. intros _. cbn [Nat.iter]. apply next_cc_range. Qed.

(** ** A segment *)
Lemma packetize_pieces pid payload cc :
  packetize_ts pid payload cc true =
  (concat (map enc (pieces (length payload) pid payload true cc)), cc_after cc (pieces (length payload) pid payload true cc)).
Proof. unfold packetize_ts. by rewrite packetize_loop_pieces. Qed.

Lemma segment_body_pieces aus cc : segment_body aus cc = concat (map enc (body_pieces aus cc)).
Proof.
  revert cc. induction aus as [|au aus IH]; intros cc; [done|].
  cbn [segment_body body_pieces]. unfold access_unit_packets. rewrite packetize_pieces.
  by rewrite IH, map_app, concat_app.
Qed.

Lemma segment_header_pieces : segment_header = concat (map enc header_pieces).
Proof. by_eval. Qed.

Lemma body_pieces_ok aus cc : 0 <= cc < 16 -> Forall packet_ok (body_pieces aus cc).
Proof.
  revert cc. induction aus as [|au aus IH]; intros cc Hc; [constructor|]. cbn [body_pieces].
  apply Forall_app. split; [by apply pieces_ok|]. by apply IH, cc_after_range.
Qed.

Lemma segment_pieces aus :
  demux (segment aus) = Some (header_pieces ++ body_pieces aus 0).
Proof.
  unfold segment. rewrite segment_header_pieces, segment_body_pieces, <- concat_app, <- map_app.
  apply demux_enc, Forall_app. split; [|by apply body_pieces_ok].
  repeat constructor; vm_compute; try done; lia.
Qed.

Lemma body_video aus cc : on_pid VIDEO_PID (body_pieces aus cc) = body_pieces aus cc.
Proof.
  revert cc. induction aus as [|au aus IH]; intros cc; [done|]. cbn [body_pieces].
  by rewrite on_pid_app, on_pid_same, IH.
Qed.

Lemma body_other pid aus cc : pid <> VIDEO_PID -> on_pid pid (body_pieces aus cc) = [].
Proof.
  intros Hne. revert cc. induction aus as [|au aus IH]; intros cc; [done|]. cbn [body_pieces].
  by rewrite on_pid_app, on_pid_other, IH.
Qed.

Lemma body_starts aus cc : starts (body_pieces aus cc).
Proof. by destruct aus. Qed.

Lemma body_units aus cc :
  units_of (body_pieces aus cc) = map (fun au => build_pes_video (rtp_timestamp au) (concat (nals au))) aus.
Proof.
  revert cc. induction aus as [|au aus IH]; intros cc; [done|]. cbn [body_pieces map].
  rewrite units_of_pieces; [by rewrite IH|done|done|apply body_starts].
Qed.

Lemma body_counters aus cc : 0 <= cc < 16 -> counters_from cc (body_pieces aus cc).
Proof.
  revert cc. induction aus as [|au aus IH]; intros cc Hc; [done|]. cbn [body_pieces].
  apply counters_pieces; [done|]. by apply IH, cc_after_range.
Qed.

Lemma body_played aus cc : Forall (fun au => is_u32 (rtp_timestamp au)) aus ->
  map parse_pes (units_of (body_pieces aus cc)) = map (fun au => Some (rtp_timestamp au, concat (nals au))) aus.
Proof.
  intros Hts. rewrite body_units, map_map. induction Hts as [|au aus Hau _ IH]; [done|]. cbn [map].
  unfold is_u32 in Hau. rewrite pes_roundtrip, IH by lia. done.
Qed.

(** A player reads a file: the video's presentation times and payloads. *)
Definition played (file : bytes) : option (list (option (Z * bytes))) :=
  ps ← demux file; Some (map parse_pes (units_of (on_pid VIDEO_PID ps))).
Lemma segment_played aus : Forall (fun au => is_u32 (rtp_timestamp au)) aus ->
  played (segment aus) = Some (map (fun au => Some (rtp_timestamp au, concat (nals au))) aus).
Proof.
  intros Hts. unfold played. rewrite segment_pieces. cbn [mbind option_bind].
  by rewrite on_pid_app, body_video, <- (body_played aus 0).
Qed.

(** C5: what a segment says to a player.  Reading the file back packet by
    packet succeeds; the video PID carries exactly one PES packet per access
    unit, in order, with the access unit's RTP time as its presentation time
    and its NAL units, byte for byte, as its payload; the continuity counters
    of the video run on over the access units without a hole; and the file
    opens with one program association table and one program map table. *)
Theorem segment_demux (aus : list AccessUnit) :
  Forall (fun au => is_u32 (rtp_timestamp au)) aus ->
  exists ps, demux (segment aus) = Some ps /\
    map parse_pes (units_of (on_pid VIDEO_PID ps)) =
      map (fun au => Some (rtp_timestamp au, concat (nals au))) aus /\
    counters_from 0 (on_pid VIDEO_PID ps) /\
    units_of (on_pid PAT_PID ps) = [table_payload pat_section] /\
    units_of (on_pid PMT_PID ps) = [table_payload pmt_section].
Proof.
  intros Hts. eexists. split; [apply segment_pieces|]. rewrite !on_pid_app, body_video, !body_other by done.
  change (on_pid VIDEO_PID header_pieces) with (@nil ts).
  change (on_pid PAT_PID header_pieces) with [mkTs PAT_PID true 0 (table_payload pat_section)].
  change (on_pid PMT_PID header_pieces) with [mkTs PMT_PID true 0 (table_payload pmt_section)].
  cbn [app]. split; [by apply body_played|split; [by apply body_counters|done]].
Qed.

(** ** Witness: two access units, the first over two packets *)
Definition two_units : list AccessUnit :=
  [mkAu 90000 [[0; 0; 0; 1; 0x65] ++ replicate 200 7] true; mkAu 93000 [[0; 0; 0; 1; 0x41; 9]] false].

Lemma segment_demux_witness :
  exists ps, demux (segment two_units) = Some ps /\
    map parse_pes (units_of (on_pid VIDEO_PID ps)) =
      map (fun au => Some (rtp_timestamp au, concat (nals au))) two_units /\
    counters_from 0 (on_pid VIDEO_PID ps) /\
    units_of (on_pid PAT_PID ps) = [table_payload pat_section] /\
    units_of (on_pid PMT_PID ps) = [table_payload pmt_section].
Proof. apply (segment_demux two_units). repeat constructor; vm_compute; done. Defined.

Example two_units_length : length (segment two_units) = (5 * 188)%nat.
Proof. by vm_compute. Qed.
