(* ===== verification/LiveV2.v ===== *)
(** * The live pipeline ([live/v2.rs])

    One stream's task in the second version of the server: RTP packets become
    access units, access units MPEG transport stream segments (MpegTs), and
    segments a sliding HLS playlist.  Every file a player can see is written
    under a temporary name and renamed.  [live] is the task's local state,
    [output] the part of it that [finalize_segment] and [handle_discontinuity]
    act on; [F] is the file system.  The clocks are read where the code reads
    them: a turn takes its readings as arguments, instants in nanoseconds.
    Handles that a failing function still holds are dropped with it, which has
    no effect on the files and is not written out; nor is logging. *)
From stdpp Require Import sorting.
From S2P Require Import Prelude Str Rtp H264 Motion Clip Pipeline MpegTs.

(** ** The file system, besides [Fs] *)
Class LiveFs (F E : Type) := {
  fs_mkdir : str -> F -> F * (E + unit);           (* create_dir_all *)
  fs_exists : str -> F -> F * bool;                (* metadata(..).is_ok() *)
  fs_read : str -> F -> F * (E + bytes);
  fs_remove_dir : str -> F -> F * (E + unit);      (* remove_dir_all *)
}.
Class FromJson (A : Type) := from_json : bytes -> option A.
(** A duration in nanoseconds as seconds with three decimals ([{:.3}]). *)
Class PrintSecs := print_secs : Z -> str.

(** A path, cut before its last component. *)
Record path := mkPath { dir : str; name : str }.
Definition full (p : path) : str := join (dir p) (name p).
Definition temp_path_for (p : path) : path := mkPath (dir p) (name p ++ lit ".tmp").

Record LivePipelineV2Config := mkCfg {
  stream_id : Z;
  output_root : str;
  health_dir : str;
  stale_secs : Z;
  stats_log_secs : Z;
  segment_secs : Z;
  window_secs : Z;
  h264_sync_seed : option (bytes * bytes);
}.

(** [format!("{seq:06}")] *)
Definition pad6 (n : Z) : str := replicate (6 - length (dec n)) 48 ++ dec n.
Definition segment_name (seq : Z) : str := lit "seg_" ++ pad6 seq ++ lit ".ts".

Definition DEFAULT_V2_SESSION_RETENTION_SECS : Z := 300.
Definition DEFAULT_V2_SESSION_KEEP_COUNT : Z := 3.

Definition wrap64 (v : Z) : Z := v mod 18446744073709551616.

Section live.
Context `{Calendar} {F Hd E : Type} `{Fs F Hd E} `{LiveFs F E} `{PrintSecs}.
Abbreviation M := (Prelude.st F E).

Definition io {A} (m : F -> F * (E + A)) : M A := fun f => io_outcome (m f).
Definition drop_handle (h : Hd) : M unit := fun f => (fs_drop h f, Ok tt).
Definition ask {A} (m : F -> F * A) : M A := fun f => let '(f, a) := m f in (f, Ok a).

(** *** [AtomicPublisher] *)
Record AtomicPublisher := mkPublisher { final_path : path; temp_path : path; writer : Hd }.

Definition publisher_create (final_path : path) : M AtomicPublisher :=
  let temp_path := temp_path_for final_path in
  io (fs_mkdir (dir final_path)) ;;
  h ← io (fs_create (full temp_path));
  mret (mkPublisher final_path temp_path h).
Definition write_all (p : AtomicPublisher) (b : bytes) : M unit := io (fs_write (writer p) b).
Definition publish (p : AtomicPublisher) : M path :=
  io (fs_flush (writer p)) ;;
  drop_handle (writer p) ;;
  io (fs_rename (full (temp_path p)) (full (final_path p))) ;;
  mret (final_path p).
Definition discard (p : AtomicPublisher) : M unit :=
  drop_handle (writer p) ;;
  there ← ask (fs_exists (full (temp_path p)));
  if there : bool then io (fs_remove (full (temp_path p))) else mret tt.
Definition publish_bytes (final_path : path) (b : bytes) : M unit :=
  p ← publisher_create final_path;
  write_all p b ;;
  publish p ;;
  mret tt.

(** *** [MpegTsSegmentWriter] *)
Record MpegTsSegmentWriter := mkSegmentWriter {
  publisher : AtomicPublisher; pat_cc : Z; pmt_cc : Z; video_cc : Z }.

Definition segment_writer_create (p : path) : M MpegTsSegmentWriter :=
  publisher ← publisher_create p;
  let '(pat, pat_cc) := build_pat_packet 0 in
  write_all publisher pat ;;
  let '(pmt, pmt_cc) := build_pmt_packet 0 in
  write_all publisher pmt ;;
  mret (mkSegmentWriter publisher pat_cc pmt_cc 0).
Definition write_access_unit (au : AccessUnit) (w : MpegTsSegmentWriter) : M MpegTsSegmentWriter :=
  let '(ts, cc) := access_unit_packets au (video_cc w) in
  write_all (publisher w) ts ;;
  mret (mkSegmentWriter (publisher w) (pat_cc w) (pmt_cc w) cc).

(** *** [PlaylistState] *)
Record SegmentEntry := mkEntry { seq : Z; duration : Z; filename : str; discontinuity : bool }.

Record PlaylistState := mkPlaylist {
  target_duration_secs : Z;
  max_segments : Z;
  next_segment_seq : Z;
  entries : list SegmentEntry;
}.

Definition playlist_new (segment_secs window_secs : Z) : PlaylistState :=
  let target := Z.max segment_secs 1 in
  let max_segments := wrap64 (Z.max window_secs target + target - 1) / target + 1 in
  mkPlaylist target (Z.max max_segments 3) 1 [].

Definition next_segment_path (output_root : str) (p : PlaylistState) : PlaylistState * (Z * path) :=
  let seq := next_segment_seq p in
  (mkPlaylist (target_duration_secs p) (max_segments p) (seq + 1) (entries p),
   (seq, mkPath output_root (segment_name seq))).

(** The text of [index.m3u8]. *)
Definition entry_lines (e : SegmentEntry) : str :=
  (if discontinuity e then lit "#EXT-X-DISCONTINUITY" ++ [10] else []) ++
  lit "#EXTINF:" ++ print_secs (duration e) ++ lit "," ++ [10] ++ filename e ++ [10].
Definition playlist_text (target_duration_secs : Z) (es : list SegmentEntry) : str :=
  let media_sequence := match es with e :: _ => seq e | [] => 0 end in
  lit "#EXTM3U" ++ [10] ++ lit "#EXT-X-VERSION:3" ++ [10] ++ lit "#EXT-X-INDEPENDENT-SEGMENTS" ++ [10] ++
  lit "#EXT-X-TARGETDURATION:" ++ dec target_duration_secs ++ [10] ++
  lit "#EXT-X-MEDIA-SEQUENCE:" ++ dec media_sequence ++ [10] ++ concat (map entry_lines es).

Definition index_path (root : str) : path := mkPath root (lit "index.m3u8").
Definition publish_entries (root : str) (p : PlaylistState) (es : list SegmentEntry) : M unit :=
  publish_bytes (index_path root) (as_bytes (playlist_text (target_duration_secs p) es)).

(** [while next_entries.len() > max_segments { pop_front }]: what is evicted,
    and what stays. *)
Fixpoint evict (max_segments : Z) (es : list SegmentEntry) : list str * list SegmentEntry :=
  match es with
  | e :: es' =>
      if max_segments <? Z.of_nat (length es) then
        let '(gone, es') := evict max_segments es' in (filename e :: gone, es')
      else ([], es)
  | [] => ([], [])
  end.

Fixpoint remove_evicted (root : str) (l : list str) : M unit :=
  match l with
  | [] => mret tt
  | filename :: l =>
      let old_path := join root filename in
      there ← ask (fs_exists old_path);
      (if there : bool then io (fs_remove old_path) else mret tt) ;;
      remove_evicted root l
  end.

Definition push_segment (root : str) (seq duration : Z) (discontinuity : bool) (p : PlaylistState)
    : M PlaylistState :=
  let e := mkEntry seq (Z.max duration 1000000) (segment_name seq) discontinuity in
  let '(evicted, next_entries) := evict (max_segments p) (entries p ++ [e]) in
  publish_entries root p next_entries ;;
  remove_evicted root evicted ;;
  mret (mkPlaylist (target_duration_secs p) (max_segments p) (next_segment_seq p) next_entries).

(** *** Segments *)
Record CurrentSegment := mkSegment {
  seg_seq : Z;
  seg_writer : MpegTsSegmentWriter;
  started_at : Z;
  access_units_written : Z;
  seg_discontinuity : bool;
}.

(** What [finalize_segment] and [handle_discontinuity] act on. *)
Record output := mkOutput {
  playlist : PlaylistState;
  current_segment : option CurrentSegment;
  pending_discontinuity : bool;
  discontinuity_count : Z;
  latest_segment_seq : Z;
}.

Definition open_segment (root : str) (now : Z) (o : output) : M output :=
  let '(p, (seq, path)) := next_segment_path root (playlist o) in
  w ← segment_writer_create path;
  mret (mkOutput p (Some (mkSegment seq w now 0 (pending_discontinuity o))) false
          (discontinuity_count o) (latest_segment_seq o)).

Definition should_rotate_segment (now : Z) (current_segment : option CurrentSegment) (next_au : AccessUnit)
    (target_segment_secs : Z) : bool :=
  match current_segment with
  | None => false
  | Some s =>
      (0 <? access_units_written s) &&
      (secs (Z.max target_segment_secs 1) <=? duration_since now (started_at s)) && has_idr next_au
  end.

Definition finalize_segment (root : str) (now : Z) (o : output) : M (output * bool) :=
  match current_segment o with
  | None => mret (o, false)
  | Some s =>
      let o' p latest := mkOutput p None (pending_discontinuity o) (discontinuity_count o) latest in
      if access_units_written s =? 0 then
        discard (publisher (seg_writer s)) ;; mret (o' (playlist o) (latest_segment_seq o), false)
      else
        let duration := duration_since now (started_at s) in
        publish (publisher (seg_writer s)) ;;
        p ← push_segment root (seg_seq s) duration (seg_discontinuity s) (playlist o);
        mret (o' p (seg_seq s), true)
  end.

Definition handle_discontinuity (root : str) (now : Z) (o : output) : M output :=
  let saw_published_output :=
    (0 <? latest_segment_seq o) || bool_decide (is_Some (current_segment o)) in
  x ← finalize_segment root now o;
  let o := x.1 in
  if saw_published_output : bool then
    mret (mkOutput (playlist o) (current_segment o) true (sat_add64 (discontinuity_count o) 1)
            (latest_segment_seq o))
  else mret o.

(** *** Statistics and health *)
Record StreamRuntimeStats := mkStats {
  total_rtp_packets : Z;
  total_access_units : Z;
  total_gaps : Z;
  total_motion_events : Z;
  total_parse_errors : Z;
  last_rtp_at : option DateTime;
  last_access_unit_at : option DateTime;
  last_gap_at : option DateTime;
  last_motion_at : option DateTime;
  last_error_at : option DateTime;
  last_idr_at : option DateTime;
  last_segment_write_at : option DateTime;
  last_stats_log_at : option Z;
  last_health_write_at : option Z;
}.
Definition no_stats : StreamRuntimeStats :=
  mkStats 0 0 0 0 0 None None None None None None None None None.

Record NoPublishEpisode := mkEpisode { first_rtp_at : option Z; segment_seq_at_start : Z; logged : bool }.
Definition no_episode : NoPublishEpisode := mkEpisode None 0 false.

(** The updates of the counters, each with the clock it reads. *)
Definition saw_packet (now : DateTime) (t : StreamRuntimeStats) : StreamRuntimeStats :=
  mkStats (sat_add64 (total_rtp_packets t) 1) (total_access_units t) (total_gaps t) (total_motion_events t)
    (total_parse_errors t) (Some now) (last_access_unit_at t) (last_gap_at t) (last_motion_at t)
    (last_error_at t) (last_idr_at t) (last_segment_write_at t) (last_stats_log_at t) (last_health_write_at t).
Definition saw_gap (now : DateTime) (t : StreamRuntimeStats) : StreamRuntimeStats :=
  mkStats (total_rtp_packets t) (total_access_units t) (sat_add64 (total_gaps t) 1) (total_motion_events t)
    (total_parse_errors t) (last_rtp_at t) (last_access_unit_at t) (Some now) (last_motion_at t)
    (last_error_at t) (last_idr_at t) (last_segment_write_at t) (last_stats_log_at t) (last_health_write_at t).
Definition saw_motion (now : DateTime) (t : StreamRuntimeStats) : StreamRuntimeStats :=
  mkStats (total_rtp_packets t) (total_access_units t) (total_gaps t) (sat_add64 (total_motion_events t) 1)
    (total_parse_errors t) (last_rtp_at t) (last_access_unit_at t) (last_gap_at t) (Some now)
    (last_error_at t) (last_idr_at t) (last_segment_write_at t) (last_stats_log_at t) (last_health_write_at t).
Definition mark_stream_error (now : DateTime) (t : StreamRuntimeStats) : StreamRuntimeStats :=
  mkStats (total_rtp_packets t) (total_access_units t) (total_gaps t) (total_motion_events t)
    (sat_add64 (total_parse_errors t) 1) (last_rtp_at t) (last_access_unit_at t) (last_gap_at t) (last_motion_at t)
    (Some now) (last_idr_at t) (last_segment_write_at t) (last_stats_log_at t) (last_health_write_at t).
Definition saw_unit (now : DateTime) (idr : bool) (t : StreamRuntimeStats) : StreamRuntimeStats :=
  mkStats (total_rtp_packets t) (sat_add64 (total_access_units t) 1) (total_gaps t) (total_motion_events t)
    (total_parse_errors t) (last_rtp_at t) (Some now) (last_gap_at t) (last_motion_at t) (last_error_at t)
    (if idr then Some now else last_idr_at t) (last_segment_write_at t) (last_stats_log_at t)
    (last_health_write_at t).
Definition saw_write (now : DateTime) (t : StreamRuntimeStats) : StreamRuntimeStats :=
  mkStats (total_rtp_packets t) (total_access_units t) (total_gaps t) (total_motion_events t)
    (total_parse_errors t) (last_rtp_at t) (last_access_unit_at t) (last_gap_at t) (last_motion_at t)
    (last_error_at t) (last_idr_at t) (Some now) (last_stats_log_at t) (last_health_write_at t).
Definition with_log (now : Z) (t : StreamRuntimeStats) : StreamRuntimeStats :=
  mkStats (total_rtp_packets t) (total_access_units t) (total_gaps t) (total_motion_events t)
    (total_parse_errors t) (last_rtp_at t) (last_access_unit_at t) (last_gap_at t) (last_motion_at t)
    (last_error_at t) (last_idr_at t) (last_segment_write_at t) (Some now) (last_health_write_at t).
Definition with_health (now : Z) (t : StreamRuntimeStats) : StreamRuntimeStats :=
  mkStats (total_rtp_packets t) (total_access_units t) (total_gaps t) (total_motion_events t)
    (total_parse_errors t) (last_rtp_at t) (last_access_unit_at t) (last_gap_at t) (last_motion_at t)
    (last_error_at t) (last_idr_at t) (last_segment_write_at t) (last_stats_log_at t) (Some now).

(** The startup watchdog; the boolean says that it logs. *)
Definition maybe_log_no_publish_watchdog (now : Z) (segment_seq : Z) (ep : NoPublishEpisode)
    : NoPublishEpisode * bool :=
  match first_rtp_at ep with
  | None => (ep, false)
  | Some started =>
      if segment_seq_at_start ep <? segment_seq then (no_episode, false)
      else if logged ep then (ep, false)
      else if duration_since now started <? secs 30 then (ep, false)
      else (mkEpisode (first_rtp_at ep) (segment_seq_at_start ep) true, true)
  end.

Definition maybe_log_stream_stats (cfg : LivePipelineV2Config) (now : Z) (t : StreamRuntimeStats)
    : StreamRuntimeStats :=
  let interval := secs (Z.max (stats_log_secs cfg) 5) in
  if match last_stats_log_at t with Some last => duration_since now last <? interval | None => false end
  then t else with_log now t.

Record StreamHealthSnapshot := mkSnapshot {
  h_stream_id : Z;
  h_current_session_id : str;
  h_state : StreamHealthState;
  h_updated_at : str;
  h_stale_after_secs : Z;
  h_ring_secs : Z;
  h_clip_active : bool;
  h_clip_pending : bool;
  h_total_rtp_packets : Z;
  h_total_access_units : Z;
  h_total_gaps : Z;
  h_total_motion_events : Z;
  h_total_parse_errors : Z;
  h_last_rtp_at : option str;
  h_last_access_unit_at : option str;
  h_last_gap_at : option str;
  h_last_motion_at : option str;
  h_last_error_at : option str;
  h_last_idr_at : option str;
  h_last_segment_write_at : option str;
  h_last_segment_write_ts : option str;
  h_segment_seq : Z;
  h_discontinuity_count : Z;
}.

Record CurrentSessionPointer := mkPointer {
  session_id : str;
  p_started_at : str;
  generation : Z;
  writer_state : str;
  p_updated_at : str;
  last_segment_seq : Z;
}.
Record LiveSessionContext := mkContext {
  c_session_id : str;
  c_output_root : str;
  c_generation : Z;
  c_started_at : DateTime;
}.

Context `{ToJson StreamHealthSnapshot} `{ToJson CurrentSessionPointer} `{FromJson CurrentSessionPointer}.

Definition derive_stream_health_state (last_rtp_at : option DateTime) (stale_secs : Z) (now : DateTime)
    : StreamHealthState :=
  match last_rtp_at with
  | None => Idle
  | Some last =>
      let elapsed_secs := Z.max (num_seconds (signed_duration_since now last)) 0 in
      if elapsed_secs <=? Z.max stale_secs 1 then Receiving else Stale
  end.

Definition health_snapshot (cfg : LivePipelineV2Config) (now : DateTime) (t : StreamRuntimeStats)
    (segment_seq discontinuity_count : Z) (current_session_id : str) : StreamHealthSnapshot :=
  mkSnapshot (stream_id cfg) current_session_id
    (derive_stream_health_state (last_rtp_at t) (stale_secs cfg) now) (to_rfc3339 now) (stale_secs cfg)
    0 false false (total_rtp_packets t) (total_access_units t) (total_gaps t) (total_motion_events t)
    (total_parse_errors t) (to_rfc3339 <$> last_rtp_at t) (to_rfc3339 <$> last_access_unit_at t)
    (to_rfc3339 <$> last_gap_at t) (to_rfc3339 <$> last_motion_at t) (to_rfc3339 <$> last_error_at t)
    (to_rfc3339 <$> last_idr_at t) (to_rfc3339 <$> last_segment_write_at t)
    (to_rfc3339 <$> last_segment_write_at t) segment_seq discontinuity_count.

Definition health_path (cfg : LivePipelineV2Config) : path :=
  mkPath (health_dir cfg) (lit "stream_" ++ dec (stream_id cfg) ++ lit ".health.json").
Definition write_stream_health (cfg : LivePipelineV2Config) (now : DateTime) (t : StreamRuntimeStats)
    (segment_seq discontinuity_count : Z) (current_session_id : str) : M unit :=
  publish_bytes (health_path cfg)
    (to_json (health_snapshot cfg now t segment_seq discontinuity_count current_session_id)).
Definition maybe_write_stream_health (cfg : LivePipelineV2Config) (at_health : Z) (utc_health : DateTime)
    (t : StreamRuntimeStats) (segment_seq discontinuity_count : Z) (current_session_id : str)
    : M StreamRuntimeStats :=
  if match last_health_write_at t with Some last => duration_since at_health last <? secs 1 | None => false end
  then mret t
  else
    write_stream_health cfg utc_health t segment_seq discontinuity_count current_session_id ;;
    mret (with_health at_health t).

(** *** Sessions *)
Definition pointer_path (camera_root : str) : path := mkPath camera_root (lit "current.json").

(** [read_current_generation]: a pointer that cannot be read counts as none. *)
Definition read_current_generation (camera_root : str) : M Z := fun f =>
  match fs_read (full (pointer_path camera_root)) f with
  | (f, inl _) => (f, Ok 1)
  | (f, inr raw) =>
      (f, Ok match from_json raw with
             | Some pointer => Z.max (sat_add64 (generation pointer) 1) 1
             | None => 1
             end)
  end.

Definition write_current_session_pointer (camera_root : str) (utc_now : DateTime) (c : LiveSessionContext)
    (state : str) (last_segment_seq : Z) : M unit :=
  publish_bytes (pointer_path camera_root)
    (to_json (mkPointer (c_session_id c) (to_rfc3339 (c_started_at c)) (c_generation c) state
                (to_rfc3339 utc_now) last_segment_seq)).

(** [initialize_live_session], with the fresh session id; the clean-up it
    spawns is [cleanup_old_sessions]. *)
Definition initialize_live_session (camera_root fresh_id : str) (utc_now : DateTime) : M LiveSessionContext :=
  io (fs_mkdir camera_root) ;;
  generation ← read_current_generation camera_root;
  let session_output_root := join camera_root fresh_id in
  io (fs_mkdir session_output_root) ;;
  mret (mkContext fresh_id session_output_root generation utc_now).

(** An entry of the camera's directory: its name if it is UTF-8, and from its
    metadata whether it is a directory and when it was modified. *)
Record DirEntry := mkDirEntry { e_name : option str; e_metadata : option (bool * option Z) }.

Definition old_session (current_session_id : str) (e : DirEntry) : option (str * Z) :=
  match e_metadata e with
  | None => None
  | Some (is_dir, modified) =>
      if negb is_dir then None
      else name ← e_name e;
           if bool_decide (name = current_session_id) then None else Some (name, default 0 modified)
  end.

(** [sort_by(|a, b| b.1.cmp(&a.1))]: newest first, and stable. *)
Fixpoint insert_session (s : str * Z) (l : list (str * Z)) : list (str * Z) :=
  match l with
  | [] => [s]
  | s' :: l' => if s'.2 <? s.2 then s :: l else s' :: insert_session s l'
  end.
Definition sort_sessions (l : list (str * Z)) : list (str * Z) := foldl (fun acc s => insert_session s acc) [] l.

(** The sessions whose removal is tried, of the sorted list from index [idx]. *)
Fixpoint expired (now retention_secs : Z) (keep_old : Z) (idx : Z) (l : list (str * Z)) : list str :=
  match l with
  | [] => []
  | (name, modified) :: l =>
      let rest := expired now retention_secs keep_old (idx + 1) l in
      if idx <? keep_old then rest
      else if Z.max 0 (now - modified) / 1000000000 <=? retention_secs then rest
      else name :: rest
  end.
Fixpoint remove_sessions (camera_root : str) (l : list str) (f : F) : F :=
  match l with
  | [] => f
  | name :: l => remove_sessions camera_root l (fs_remove_dir (join camera_root name) f).1
  end.
Definition sessions_to_remove (current_session_id : str) (now retention_secs keep_count : Z) (es : list DirEntry)
    : list str :=
  expired now retention_secs (Z.max 0 (keep_count - 1)) 0 (sort_sessions (omap (old_session current_session_id) es)).
Definition cleanup_old_sessions (camera_root current_session_id : str) (now retention_secs keep_count : Z)
    (es : list DirEntry) (f : F) : F :=
  remove_sessions camera_root (sessions_to_remove current_session_id now retention_secs keep_count es) f.

(** The two environment variables. *)
Definition load_session_gc_config (retention keep : option str) : Z * Z :=
  (Z.max (default DEFAULT_V2_SESSION_RETENTION_SECS (retention ≫= parse_u64)) 30,
   Z.max (default DEFAULT_V2_SESSION_KEEP_COUNT (keep ≫= parse_usize)) 1).

(** *** The loop *)

(** The locals of [run_stream_v2]. *)
Record live := mkLive {
  dep : Depacketizer.t;
  sync_gate : SyncGate.t;
  expected_seq : option Z;
  current_au_nals : list bytes;
  current_au_rtp_ts : option Z;
  stats : StreamRuntimeStats;
  out : output;
  no_publish_episode : NoPublishEpisode;
}.

Definition initial (cfg : LivePipelineV2Config) : live :=
  let gate := SyncGate.new true in
  let gate := match h264_sync_seed cfg with
              | Some (sps, pps) => SyncGate.set_sprop_param_sets sps pps gate
              | None => gate
              end in
  mkLive Depacketizer.new gate None [] None no_stats
    (mkOutput (playlist_new (segment_secs cfg) (window_secs cfg)) None false 0 0) no_episode.

(** The clock readings of one turn, each named after the place it is taken. *)
Record readings := mkReadings {
  utc_msg : DateTime;      (* on receipt of the message *)
  at_episode : Z;          (* the first packet of an episode *)
  utc_error : DateTime;    (* mark_stream_error *)
  utc_gap : DateTime;      (* a hole in the sequence numbers *)
  utc_unit : DateTime;
  at_rotate : Z;           (* should_rotate_segment *)
  at_finalize : Z;         (* finalize_segment *)
  at_open : Z;             (* open_segment *)
  utc_write : DateTime;    (* the unit is written *)
  utc_pointer : DateTime;  (* current.json *)
  at_tick : Z;
  at_health : Z;
  utc_health : DateTime;
}.

Definition with_stats (t : StreamRuntimeStats) (s : live) : live :=
  mkLive (dep s) (sync_gate s) (expected_seq s) (current_au_nals s) (current_au_rtp_ts s) t (out s)
    (no_publish_episode s).
Definition with_out (o : output) (s : live) : live :=
  mkLive (dep s) (sync_gate s) (expected_seq s) (current_au_nals s) (current_au_rtp_ts s) (stats s) o
    (no_publish_episode s).
Definition with_episode (e : NoPublishEpisode) (s : live) : live :=
  mkLive (dep s) (sync_gate s) (expected_seq s) (current_au_nals s) (current_au_rtp_ts s) (stats s) (out s) e.
Definition with_unit (nals : list bytes) (ts : option Z) (s : live) : live :=
  mkLive (dep s) (sync_gate s) (expected_seq s) nals ts (stats s) (out s) (no_publish_episode s).

Section turns.
Variable cfg : LivePipelineV2Config.
Variable session : LiveSessionContext.

Definition on_tick (r : readings) (s : live) : M live :=
  let ep := (maybe_log_no_publish_watchdog (at_tick r) (latest_segment_seq (out s)) (no_publish_episode s)).1 in
  let t := maybe_log_stream_stats cfg (at_tick r) (stats s) in
  t ← maybe_write_stream_health cfg (at_health r) (utc_health r) t (latest_segment_seq (out s))
        (discontinuity_count (out s)) (c_session_id session);
  mret (with_episode ep (with_stats t s)).

(** Media is lost: the segment is closed, and the depacketizer, the gate and
    the unit in progress are reset. *)
Definition lose (r : readings) (expected : option Z) (s : live) : M live :=
  o ← handle_discontinuity (c_output_root session) (at_finalize r) (out s);
  mret (mkLive (Depacketizer.reset (dep s)) (SyncGate.reset (sync_gate s)) expected [] None (stats s) o
          (no_publish_episode s)).

Definition on_gap (r : readings) (s : live) : M live :=
  lose r None (with_stats (saw_gap (utc_msg r) (stats s)) s).
Definition on_motion (r : readings) (s : live) : live :=
  with_stats (saw_motion (utc_msg r) (stats s)) s.

Definition count_packet (r : readings) (s : live) : live :=
  let ep := match first_rtp_at (no_publish_episode s) with
            | None => mkEpisode (Some (at_episode r)) (latest_segment_seq (out s)) false
            | Some _ => no_publish_episode s
            end in
  with_episode ep (with_stats (saw_packet (utc_msg r) (stats s)) s).

(** [for nal in nals { for gated in sync_gate.push_nal(nal) { .. } }] *)
Fixpoint gate_all (l : list bytes) (g : SyncGate.t) : SyncGate.t * list bytes :=
  match l with
  | [] => (g, [])
  | nal :: l =>
      let '(g, gated) := SyncGate.push_nal nal g in
      let '(g, more) := gate_all l g in
      (g, gated ++ more)
  end.

(** The packet goes through the depacketizer and the gate; the packet that
    completes an access unit returns it. *)
Definition collect (r : readings) (b : bytes) (s : live) : M (live * option AccessUnit) :=
  let s := count_packet r s in
  match parse b with
  | Ok pkt =>
      let next := wrap16 (sequence_number pkt + 1) in
      let hole := match expected_seq s with Some e => negb (sequence_number pkt =? e) | None => false end in
      s ← (if hole then lose r (expected_seq s) (with_stats (saw_gap (utc_gap r) (stats s)) s) else mret s);
      let ts := default (timestamp pkt) (current_au_rtp_ts s) in
      match Depacketizer.push_rtp_payload (payload pkt) (dep s) with
      | (d, Ok nals) =>
          let '(g, gated) := gate_all nals (sync_gate s) in
          let nals := current_au_nals s ++ gated in
          let s := mkLive d g (Some next) nals (Some ts) (stats s) (out s) (no_publish_episode s) in
          if marker pkt then
            match nals with
            | [] => mret (with_unit [] None s, None)
            | _ => mret (with_unit [] None s, Some (build_access_unit nals ts))
            end
          else mret (s, None)
      | (d, _) =>
          s ← lose r None (with_stats (mark_stream_error (utc_error r) (stats s)) s);
          mret (s, None)
      end
  | _ =>
      s ← lose r None (with_stats (mark_stream_error (utc_error r) (stats s)) s);
      mret (s, None)
  end.

(** A segment that is long enough ends before an IDR. *)
Definition rotate (r : readings) (au : AccessUnit) (s : live) : M live :=
  if should_rotate_segment (at_rotate r) (current_segment (out s)) au (segment_secs cfg) then
    x ← finalize_segment (c_output_root session) (at_finalize r) (out s);
    (if x.2 : bool then
       write_current_session_pointer (output_root cfg) (utc_pointer r) session (lit "ready")
         (latest_segment_seq x.1)
     else mret tt) ;;
    mret (with_episode no_episode (with_out x.1 s))
  else mret s.

Definition append_unit (r : readings) (au : AccessUnit) (s : live) : M live :=
  match current_segment (out s) with
  | None => mret s
  | Some seg =>
      w ← write_access_unit au (seg_writer seg);
      let seg := mkSegment (seg_seq seg) w (started_at seg) (sat_add64 (access_units_written seg) 1)
                   (seg_discontinuity seg) in
      let o := out s in
      let pending := pending_discontinuity o && negb (has_idr au && (0 <? latest_segment_seq o)) in
      mret (with_stats (saw_write (utc_write r) (stats s))
              (with_out (mkOutput (playlist o) (Some seg) pending (discontinuity_count o) (latest_segment_seq o)) s))
  end.

(** A complete unit: it goes to the current segment, or opens one if it is an
    IDR; a unit that could only open one is dropped. *)
Definition on_unit (r : readings) (au : AccessUnit) (s : live) : M live :=
  let s := with_stats (saw_unit (utc_unit r) (has_idr au) (stats s)) s in
  s ← rotate r au s;
  match current_segment (out s) with
  | Some _ => append_unit r au s
  | None =>
      if has_idr au then
        o ← open_segment (c_output_root session) (at_open r) (out s);
        append_unit r au (with_out o s)
      else mret s
  end.

Definition on_rtp (r : readings) (b : bytes) (s : live) : M live :=
  x ← collect r b s;
  match x.2 with
  | Some au => on_unit r au x.1
  | None => mret x.1
  end.

Definition on_msg (r : readings) (m : StreamMsg) (s : live) : M live :=
  match m with
  | MsgGap _ _ => on_gap r s
  | MsgMotion _ _ _ => mret (on_motion r s)
  | MsgRtp b => on_rtp r b s
  end.

Inductive turn := Tick (r : readings) | Msg (r : readings) (m : StreamMsg).
Definition step (t : turn) (s : live) : M live :=
  match t with Tick r => on_tick r s | Msg r m => on_msg r m s end.
Fixpoint run (ts : list turn) (s : live) : M live :=
  match ts with
  | [] => mret s
  | t :: ts => s ← step t s; run ts s
  end.

(** After the loop: the channel is closed. *)
Definition finish (r : readings) (s : live) : M live :=
  x ← finalize_segment (c_output_root session) (at_finalize r) (out s);
  let o := x.1 in
  (if x.2 : bool then
     write_current_session_pointer (output_root cfg) (utc_pointer r) session (lit "ready") (latest_segment_seq o)
   else mret tt) ;;
  (if 0 <? latest_segment_seq o then
     write_current_session_pointer (output_root cfg) (utc_pointer r) session (lit "stopped") (latest_segment_seq o)
   else mret tt) ;;
  write_stream_health cfg (utc_health r) (stats s) (latest_segment_seq o) (discontinuity_count o)
    (c_session_id session) ;;
  mret (with_out o s).
End turns.

(** The whole task, for the messages and ticks of its life. *)
Definition run_stream_v2 (cfg : LivePipelineV2Config) (fresh_id : str) (utc_start : DateTime)
    (ts : list turn) (last : readings) : M live :=
  session ← initialize_live_session (output_root cfg) fresh_id utc_start;
  s ← run cfg session ts (initial cfg);
  finish cfg session last s.

(** *** What becomes of the media

    The state that decides what the access units are, apart from the files
    and the clocks, and what a packet does to it. *)
Record media := mkMedia {
  m_dep : Depacketizer.t; m_gate : SyncGate.t; m_expected : option Z;
  m_nals : list bytes; m_ts : option Z }.
Definition media_of (s : live) : media :=
  mkMedia (dep s) (sync_gate s) (expected_seq s) (current_au_nals s) (current_au_rtp_ts s).

Inductive event := Lost | Unit_ (au : AccessUnit).

Definition lose_media (expected : option Z) (m : media) : media :=
  mkMedia (Depacketizer.reset (m_dep m)) (SyncGate.reset (m_gate m)) expected [] None.

Definition feed (b : bytes) (m : media) : media * list event :=
  match parse b with
  | Ok pkt =>
      let hole := match m_expected m with Some e => negb (sequence_number pkt =? e) | None => false end in
      let m := if hole then lose_media (m_expected m) m else m in
      let lost := if hole then [Lost] else [] in
      let ts := default (timestamp pkt) (m_ts m) in
      match Depacketizer.push_rtp_payload (payload pkt) (m_dep m) with
      | (d, Ok nals) =>
          let '(g, gated) := gate_all nals (m_gate m) in
          let nals := m_nals m ++ gated in
          let next := Some (wrap16 (sequence_number pkt + 1)) in
          if marker pkt then
            (mkMedia d g next [] None,
             lost ++ match nals with [] => [] | _ => [Unit_ (build_access_unit nals ts)] end)
          else (mkMedia d g next nals (Some ts), lost)
      | (d, _) => (lose_media None m, lost ++ [Lost])
      end
  | _ => (lose_media None m, [Lost])
  end.

(** The losses and the access units of a sequence of turns. *)
Fixpoint events (ts : list turn) (m : media) : list event :=
  match ts with
  | [] => []
  | Msg _ (MsgRtp b) :: ts => let '(m, evs) := feed b m in evs ++ events ts m
  | Msg _ (MsgGap _ _) :: ts => Lost :: events ts (lose_media None m)
  | _ :: ts => events ts m
  end.

(** The access units worth showing: after a loss, from the next IDR on. *)
Fixpoint shown (open : bool) (evs : list event) : list AccessUnit :=
  match evs with
  | [] => []
  | Lost :: evs => shown false evs
  | Unit_ au :: evs => if open || has_idr au then au :: shown true evs else shown false evs
  end.
Fixpoint open_after (open : bool) (evs : list event) : bool :=
  match evs with
  | [] => open
  | Lost :: evs => open_after false evs
  | Unit_ au :: evs => open_after (open || has_idr au) evs
  end.

End live.

(** ** What the code relies on of the file system

    An operation changes nothing but the files it names. *)
Definition frame `{FsLaws F Hd E} (P : str -> Prop) (f f' : F) : Prop :=
  (forall p, ~ P p -> contents f' p = contents f p) /\
  (forall h, ~ P (target h) -> accepted f' h = accepted f h).

Class LiveFsLaws (F Hd E : Type) `{FsLaws F Hd E} `{LiveFs F E} := {
  create_frame p f f' r : fs_create p f = (f', r) -> frame (fun x => x = p) f f';
  write_frame h b f f' r : fs_write h b f = (f', r) -> frame (fun x => x = target h) f f';
  flush_frame h f f' r : fs_flush h f = (f', r) -> frame (fun x => x = target h) f f';
  drop_frame h f : frame (fun x => x = target h) f (fs_drop h f);
  rename_frame p q f f' r : fs_rename p q f = (f', r) -> frame (fun x => x = p \/ x = q) f f';
  remove_frame p f f' r : fs_remove p f = (f', r) -> frame (fun x => x = p) f f';
  mkdir_frame p f f' r : fs_mkdir p f = (f', r) -> frame (fun _ => False) f f';
  exists_frame p f f' r : fs_exists p f = (f', r) -> frame (fun _ => False) f f';
  read_frame p f f' r : fs_read p f = (f', r) -> frame (fun _ => False) f f';
  read_ok p f f' b : fs_read p f = (f', inr b) -> contents f p = Some b;
}.

(** ** Paths *)
Section paths.
Definition plain (n : str) : Prop := 47 ∉ n.

Lemma join_shape d n : exists d', join d n = d' ++ n /\ (d' = [] \/ exists k, d' = k ++ [47]).
Proof.
  unfold join. destruct (last d) as [c|] eqn:El; [|exists []; by split; [|left]].
  apply last_Some in El as [k ->]. destruct (Z.eqb_spec c 47) as [->|_].
  - exists (k ++ [47]). split; [done|right; by exists k].
  - exists ((k ++ [c]) ++ [47]). split; [by rewrite <- (app_assoc _ [47])|right; by exists (k ++ [c])].
Qed.

(** The last component of a path is determined by the path. *)
Lemma join_inj d e n m : plain n -> plain m -> join d n = join e m -> n = m.
Proof.
  intros Hn Hm Hj. destruct (join_shape d n) as (d' & Ed & Hd), (join_shape e m) as (e' & Ee & He).
  rewrite Ed, Ee in Hj. clear Ed Ee.
  assert (forall a b x y, plain y -> a ++ x = b ++ y -> (a = [] \/ exists k, a = k ++ [47]) ->
    (length x <= length y)%nat -> x = y) as Hk.
  { intros a b x y Hy Ha Hsh Hl. apply app_eq_inv in Ha as [(k & -> & Hk)|(k & -> & Hk)].
    - destruct (decide (k = [])) as [->|Hne]; [by rewrite Hk|]. exfalso. apply Hy. rewrite Hk. apply elem_of_app. left.
      destruct Hsh as [Hnil|(l & Hl')]; [by apply app_eq_nil in Hnil as [_ ->]|].
      destruct k as [|z k _] using rev_ind; [done|]. rewrite app_assoc in Hl'. apply app_inj_tail in Hl' as [_ ->].
      apply elem_of_app. right. by apply list_elem_of_singleton.
    - apply (f_equal length) in Hk as Hlen. rewrite length_app in Hlen.
      destruct k; [by rewrite Hk|cbn in Hlen; lia]. }
  destruct (decide (length n <= length m)%nat); [by eapply Hk|]. symmetry. eapply Hk; [exact Hn|by symmetry in Hj|done|lia].
Qed.

Lemma full_ne p q : plain (name p) -> plain (name q) -> name p <> name q -> full p <> full q.
Proof. intros Hp Hq Hne He. apply Hne. by eapply join_inj. Qed.

Lemma plain_app a b : plain a -> plain b -> plain (a ++ b).
Proof. unfold plain. rewrite not_elem_of_app. done. Qed.

Lemma plain_lit l : forallb (fun c => negb (c =? 47)) l = true -> plain l.
Proof.
  unfold plain. induction l as [|c l IH]; [intros _; apply not_elem_of_nil|]. cbn [forallb].
  rewrite andb_true_iff, negb_true_iff, Z.eqb_neq. intros [Hc Hl]. apply not_elem_of_cons. split; [congruence|auto].
Qed.

Lemma plain_dec n : 0 <= n -> plain (dec n).
Proof.
  intros Hn Hin. pose proof (dec_digits n Hn) as Hd. rewrite Forall_forall in Hd. specialize (Hd _ Hin). cbn in Hd. lia.
Qed.

Lemma plain_segment n : 0 <= n -> plain (segment_name n).
Proof.
  intros Hn. unfold segment_name, pad6. repeat apply plain_app; try (by apply plain_lit).
  - intros Hin. apply elem_of_replicate in Hin as [[=] _].
  - by apply plain_dec.
Qed.

Lemma segment_name_inj a b : 0 <= a -> 0 <= b -> segment_name a = segment_name b -> a = b.
Proof.
  intros Ha Hb He. unfold segment_name in He. apply app_inv_head, app_inv_tail in He. unfold pad6 in He.
  apply (f_equal (parse_digits (Z.max a b) 0)) in He. rewrite !parse_digits_zeros in He by lia. congruence.
Qed.
End paths.
