(* ===== verification/LiveV2Facts.v ===== *)
(** * The live pipeline, proved ([live/v2.rs])

    The segments, the manifest and the media of a run of LiveV2: what is on
    disk after any sequence of turns is the playlist's window of the access
    units worth showing. *)
From Stdlib Require Import Sorting.Sorted.
From S2P Require Import Prelude Str Rtp H264 Motion Clip Pipeline MpegTs LiveV2.

(** ** What a run keeps *)
Section invariant.
Context `{Calendar} {F Hd E : Type} `{FsLaws F Hd E} `{LiveFs F E} `{PrintSecs}.

Definition seg_path (root : str) (seq : Z) : path := mkPath root (segment_name seq).
Definition idr_first (aus : list AccessUnit) : Prop :=
  exists au rest, aus = au :: rest /\ has_idr au = true.

(** The video's continuity counter after some units. *)
Fixpoint units_cc (aus : list AccessUnit) (cc : Z) : Z :=
  match aus with [] => cc | au :: aus => units_cc aus (access_unit_packets au cc).2 end.

(** The playlist's entries are segments with consecutive numbers from [first]
    on, whose files hold these units. *)
Fixpoint window_ok (f : F) (root : str) (first : Z) (es : list SegmentEntry) (segs : list (list AccessUnit))
    : Prop :=
  match es, segs with
  | [], [] => True
  | e :: es, aus :: segs =>
      seq e = first /\ filename e = segment_name first /\
      contents f (full (seg_path root first)) = Some (segment aus) /\
      window_ok f root (first + 1) es segs
  | _, _ => False
  end.

(** The open segment has accepted these units. *)
Definition current_ok (f : F) (root : str) (s : @CurrentSegment Hd) (aus : list AccessUnit) : Prop :=
  let w := seg_writer s in let p := publisher w in
  final_path p = seg_path root (seg_seq s) /\ temp_path p = temp_path_for (final_path p) /\
  target (writer p) = full (temp_path p) /\
  accepted f (writer p) = segment aus /\ video_cc w = units_cc aus 0 /\
  0 <= access_units_written s /\ (access_units_written s = 0 <-> aus = []).

(** [hist]: the units of every segment finished so far; [cur]: those of the
    open one. *)
Record output_ok (root : str) (f : F) (o : output) (hist : list (list AccessUnit)) (cur : list AccessUnit)
    : Prop := mkOutputOk {
  ok_latest : latest_segment_seq o = Z.of_nat (length hist);
  ok_max : 1 <= max_segments (playlist o);
  ok_hist : Forall idr_first hist;
  ok_cur : cur = [] \/ idr_first cur;
  ok_window : exists gone kept, hist = gone ++ kept /\
    window_ok f root (Z.of_nat (length gone) + 1) (entries (playlist o)) kept /\
    Z.of_nat (length kept) = Z.min (Z.of_nat (length hist)) (max_segments (playlist o));
  ok_manifest : hist <> [] ->
    contents f (full (index_path root)) =
      Some (as_bytes (playlist_text (target_duration_secs (playlist o)) (entries (playlist o))));
  ok_current : match current_segment o with
    | None => cur = [] /\ next_segment_seq (playlist o) = latest_segment_seq o + 1
    | Some s => current_ok f root s cur /\ seg_seq s = latest_segment_seq o + 1 /\
        next_segment_seq (playlist o) = latest_segment_seq o + 2
    end;
}.

(** The files of a session: segments and the manifest; the names of the
    others start differently. *)
Definition ours (n : str) : Prop := plain n /\ (take 2 n = lit "se" \/ take 2 n = lit "in").
Definition foreign (n : str) : Prop := plain n /\ take 2 n <> lit "se" /\ take 2 n <> lit "in" /\ (2 <= length n)%nat.

Definition close (hist : list (list AccessUnit)) (cur : list AccessUnit) : list (list AccessUnit) :=
  match cur with [] => hist | _ => hist ++ [cur] end.
Definition open_segment_is (o : @output Hd) : bool := bool_decide (is_Some (current_segment o)).
End invariant.

(** ** Files *)
Section files.
Context {F Hd E : Type} `{HL : LiveFsLaws F Hd E}.

Lemma frame_refl P (f : F) : frame P f f.
Proof. by split. Qed.

Lemma frame_trans P (f f1 f2 : F) : frame P f f1 -> frame P f1 f2 -> frame P f f2.
Proof. intros [A1 B1] [A2 B2]. split; intros x Hx; [by rewrite A2, A1|by rewrite B2, B1]. Qed.

Lemma frame_mono (P Q : str -> Prop) (f f1 : F) : frame P f f1 -> (forall x, P x -> Q x) -> frame Q f f1.
Proof. intros [A B] HPQ. split; intros x Hx; [apply A|apply B]; auto. Qed.

Lemma io_inv {A} (m : F -> F * (E + A)) f f' a : io m f = (f', Ok a) -> m f = (f', inr a).
Proof. unfold io, io_outcome. destruct (m f) as [f1 [e|x]]; intros [=]; by subst. Qed.

Lemma ask_inv {A} (m : F -> F * A) f f' (a : A) : ask (E:=E) m f = (f', Ok a) -> m f = (f', a).
Proof. unfold ask. destruct (m f). intros [=]. by subst. Qed.

Lemma bind_inv {S A B} (m : Prelude.st S E A) (g : A -> Prelude.st S E B) f f' b :
  (m ≫= g) f = (f', Ok b) -> exists f1 a, m f = (f1, Ok a) /\ g a f1 = (f', Ok b).
Proof. unfold mbind, st_bind. destruct (m f) as [f1 [a|e|]]; intros Hg; [by exists f1, a|done|done]. Qed.

Lemma ret_inv {S A} (a b : A) (f f' : S) : (mret a : Prelude.st S E A) f = (f', Ok b) -> f' = f /\ b = a.
Proof. intros [=]. by subst. Qed.
End files.

Ltac inv_ok :=
  repeat match goal with
  | Hx : (_ ≫= _) _ = (_, Ok _) |- _ =>
      let f := fresh "f" in let a := fresh "a" in let Hm := fresh "Hm" in
      apply bind_inv in Hx as (f & a & Hm & Hx)
  | Hx : io _ _ = (_, Ok _) |- _ => apply io_inv in Hx
  | Hx : ask _ _ = (_, Ok _) |- _ => apply ask_inv in Hx
  | Hx : mret _ _ = (_, Ok _) |- _ => apply ret_inv in Hx as [-> ->]
  | Hx : drop_handle _ _ = (_, Ok _) |- _ => injection Hx as <- <-
  end.

Section publishing.
Context {F Hd E : Type} `{HL : LiveFsLaws F Hd E}.

Lemma publisher_create_ok p (f f' : F) pub :
  publisher_create p f = (f', Ok pub) ->
  final_path pub = p /\ temp_path pub = temp_path_for p /\ target (writer pub) = full (temp_path_for p) /\
  accepted f' (writer pub) = [] /\ frame (fun x => x = full (temp_path_for p)) f f'.
Proof.
  unfold publisher_create. intros Hp. inv_ok. cbn.
  pose proof (create_frame _ _ _ _ Hm0) as Hf. apply create_ok in Hm0 as [Ha Ht]. split_and!; [done..|].
  apply frame_trans with f0; [|done]. eapply frame_mono; [by eapply mkdir_frame|done].
Qed.

Lemma write_all_ok pub b (f f' : F) u :
  write_all pub b f = (f', Ok u) ->
  accepted f' (writer pub) = accepted f (writer pub) ++ b /\ frame (fun x => x = target (writer pub)) f f'.
Proof.
  unfold write_all. intros Hw. inv_ok. destruct u. split; [by eapply write_ok|by eapply write_frame].
Qed.

Lemma publish_ok pub (f f' : F) q :
  target (writer pub) = full (temp_path pub) -> publish pub f = (f', Ok q) ->
  q = final_path pub /\ contents f' (full (final_path pub)) = Some (accepted f (writer pub)) /\
  frame (fun x => x = full (temp_path pub) \/ x = full (final_path pub)) f f'.
Proof.
  intros Ht Hp. unfold publish in Hp. inv_ok. destruct a, a1. split; [done|].
  pose proof (flush_frame _ _ _ _ Hm) as F1. apply flush_ok in Hm as [Ha Hc].
  pose proof (drop_frame (writer pub) f0) as F2.
  pose proof (rename_frame _ _ _ _ _ Hm1) as F3. apply rename_ok in Hm1. split.
  - rewrite Hm1, drop_keeps, <- Ht. exact Hc.
  - rewrite Ht in *. eapply frame_trans; [|exact F3].
    eapply frame_trans; eapply frame_mono; [exact F1|by left|exact F2|by left].
Qed.

Lemma publish_bytes_ok p b (f f' : F) u :
  publish_bytes p b f = (f', Ok u) ->
  contents f' (full p) = Some b /\ frame (fun x => x = full (temp_path_for p) \/ x = full p) f f'.
Proof.
  unfold publish_bytes. intros Hp. inv_ok.
  apply publisher_create_ok in Hm as (Ef & Et & Htg & Ha & F1). apply write_all_ok in Hm0 as [Hw F2].
  apply publish_ok in Hm1 as (_ & Hc & F3); [|by rewrite Et].
  rewrite Ef, Et in *. split; [by rewrite Hc, Hw, Ha|].
  eapply frame_trans; [|exact F3]. rewrite Htg in F2.
  eapply frame_trans; eapply frame_mono; [exact F1|by left|exact F2|by left].
Qed.
End publishing.

(** ** The window *)
Section window.
Context `{Calendar} {F Hd E : Type} `{HL : LiveFsLaws F Hd E} `{PrintSecs}.

Lemma window_length (f : F) root first es segs : window_ok f root first es segs -> length es = length segs.
Proof.
  revert first segs. induction es as [|e es IH]; intros first [|aus segs] Hw; try done.
  destruct Hw as (_ & _ & _ & Hw). cbn. f_equal. by eapply IH.
Qed.

Lemma window_mono (f f' : F) root first es segs :
  (forall k, first <= k < first + Z.of_nat (length es) ->
     contents f' (full (seg_path root k)) = contents f (full (seg_path root k))) ->
  window_ok f root first es segs -> window_ok f' root first es segs.
Proof.
  revert first segs. induction es as [|e es IH]; intros first [|aus segs] Hk Hw; try done.
  destruct Hw as (Hs & Hn & Hc & Hw). cbn [length] in Hk. cbn [window_ok].
  split_and!; [done|done|by rewrite Hk by lia|]. apply IH; [|done]. intros k Hr. apply Hk. lia.
Qed.

Lemma window_snoc (f : F) root first es segs e aus :
  window_ok f root first es segs ->
  let seq := first + Z.of_nat (length segs) in
  LiveV2.seq e = seq -> filename e = segment_name seq -> contents f (full (seg_path root seq)) = Some (segment aus) ->
  window_ok f root first (es ++ [e]) (segs ++ [aus]).
Proof.
  revert first segs. induction es as [|e1 es IH]; intros first [|a1 segs] Hw seq Hs Hn Hc; try done.
  - cbn in *. subst seq. rewrite Z.add_0_r in *. done.
  - destruct Hw as (Hs1 & Hn1 & Hc1 & Hw). cbn [app window_ok]. split_and!; [done..|].
    subst seq. cbn [length] in *. rewrite Nat2Z.inj_succ in *.
    replace (first + Z.succ (Z.of_nat (length segs))) with (first + 1 + Z.of_nat (length segs)) in * by lia.
    by apply IH.
Qed.

(** Eviction keeps the end of the window. *)
Lemma evict_spec max es segs (f : F) root first :
  1 <= max -> window_ok f root first es segs ->
  exists gone kept,
    segs = gone ++ kept /\ (evict max es).1 = map segment_name (seqZ first (Z.of_nat (length gone))) /\
    window_ok f root (first + Z.of_nat (length gone)) (evict max es).2 kept /\
    Z.of_nat (length kept) = Z.min (Z.of_nat (length segs)) max.
Proof.
  intros Hmax. revert first segs. induction es as [|e es IH]; intros first segs Hw.
  - destruct segs; [|done]. exists [], []. cbn. split_and!; try done. lia.
  - pose proof (window_length _ _ _ _ _ Hw) as Hlen. cbn [evict].
    destruct (Z.ltb_spec max (Z.of_nat (length (e :: es)))) as [Hlt|Hge].
    + destruct segs as [|aus segs]; [done|]. destruct Hw as (Hs & Hn & Hc & Hw).
      destruct (IH _ _ Hw) as (gone & kept & -> & Hg & Hk & Hl). exists (aus :: gone), kept.
      destruct (evict max es) as [g' k']. cbn [fst snd] in *. split; [done|]. split; [|split].
      * rewrite Hn, Hg. cbn [length]. rewrite (seqZ_cons first) by lia. cbn [map].
        by replace (Z.pred (Z.of_nat (S (length gone)))) with (Z.of_nat (length gone)) by lia.
      * cbn [length]. by replace (first + Z.of_nat (S (length gone))) with (first + 1 + Z.of_nat (length gone)) by lia.
      * cbn [length] in *. rewrite length_app in *. lia.
    + exists [], segs. cbn [fst snd length map]. rewrite Z.add_0_r. split_and!; try done. cbn [length] in *. lia.
Qed.

Lemma seg_path_plain root k : 0 <= k -> plain (name (seg_path root k)).
Proof. apply plain_segment. Qed.

Lemma seg_path_ne root a b : 0 <= a -> 0 <= b -> a <> b -> full (seg_path root a) <> full (seg_path root b).
Proof.
  intros Ha Hb Hne. apply full_ne; [by apply plain_segment..|]. cbn. intros He. by apply Hne, segment_name_inj.
Qed.

Lemma ours_segment root k : 0 <= k -> ours (name (seg_path root k)).
Proof. intros Hk. split; [by apply plain_segment|by left]. Qed.
Lemma ours_index root : ours (name (index_path root)).
Proof. split; [by apply plain_lit|by right]. Qed.

Lemma plain_temp p : plain (name p) -> plain (name (temp_path_for p)).
Proof. intros Hp. apply plain_app; [done|by apply plain_lit]. Qed.

Lemma foreign_temp p : foreign (name p) -> foreign (name (temp_path_for p)).
Proof.
  intros (Hp & Hs & Hi & Hl). split; [by apply plain_temp|]. unfold temp_path_for. cbn [name].
  rewrite take_app_le by done. split_and!; [done..|]. rewrite length_app. lia.
Qed.

Lemma foreign_ours p q : foreign (name p) -> ours (name q) -> full q <> full p.
Proof.
  intros (Hp & Hs & Hi & _) [Hq Ho]. apply full_ne; [done..|]. intros He. rewrite He in Ho. by destruct Ho.
Qed.

(** Files that end differently. *)
Lemma segment_ne_temp a b root root' :
  0 <= a -> 0 <= b -> full (seg_path root a) <> full (temp_path_for (seg_path root' b)).
Proof.
  intros Ha Hb. apply full_ne; [by apply plain_segment|by apply plain_temp, plain_segment|].
  change (segment_name a <> segment_name b ++ lit ".tmp").
  intros He. apply (f_equal (fun l => head (rev l))) in He. unfold segment_name in He.
  rewrite !rev_app_distr in He. discriminate He.
Qed.

Lemma index_ne_segment root root' k : 0 <= k -> full (index_path root) <> full (seg_path root' k).
Proof. intros Hk. apply full_ne; [by apply plain_lit|by apply plain_segment|]. cbn. discriminate. Qed.
Lemma index_ne_segment_temp root root' k : 0 <= k -> full (index_path root) <> full (temp_path_for (seg_path root' k)).
Proof. intros Hk. apply full_ne; [by apply plain_lit|by apply plain_temp, plain_segment|]. cbn. discriminate. Qed.
Lemma index_temp_ne_segment root root' k : 0 <= k -> full (seg_path root' k) <> full (temp_path_for (index_path root)).
Proof. intros Hk. apply full_ne; [by apply plain_segment|by apply plain_temp, plain_lit|]. cbn. discriminate. Qed.
Lemma index_temp_ne_segment_temp root root' k :
  0 <= k -> full (temp_path_for (seg_path root' k)) <> full (temp_path_for (index_path root)).
Proof. intros Hk. apply full_ne; [by apply plain_temp, plain_segment|by apply plain_temp, plain_lit|]. cbn. discriminate. Qed.

Lemma remove_evicted_ok root first n (f f' : F) :
  0 <= first -> remove_evicted root (map segment_name (seqZ first (Z.of_nat n))) f = (f', Ok tt) ->
  forall p, (forall k, first <= k < first + Z.of_nat n -> p <> full (seg_path root k)) ->
    contents f' p = contents f p.
Proof.
  revert first f. induction n as [|n IH]; intros first f Hf Hr p Hp; [by injection Hr as <-|].
  rewrite seqZ_cons in Hr by lia. cbn [map remove_evicted] in Hr. inv_ok.
  replace (Z.pred (Z.of_nat (S n))) with (Z.of_nat n) in Hr by lia.
  rewrite (IH (Z.succ first) _ ltac:(lia) Hr p) by (intros k Hk; apply Hp; lia).
  assert (contents f1 p = contents f0 p) as ->; [|by apply (proj1 (exists_frame _ _ _ _ Hm)); intros []].
  destruct a; [|by injection Hm0 as <-]. apply io_inv in Hm0. apply (proj1 (remove_frame _ _ _ _ Hm0)).
  intros ->. by eapply (Hp first); [lia|].
Qed.
End window.

(** ** The output *)
Section output.
Context `{Calendar} {F Hd E : Type} `{HL : LiveFsLaws F Hd E} `{PrintSecs}.

Lemma push_segment_ok root q d disc p (f f' : F) p' gone kept aus :
  q = Z.of_nat (length gone + length kept) + 1 -> 1 <= max_segments p ->
  window_ok f root (Z.of_nat (length gone) + 1) (entries p) kept ->
  contents f (full (seg_path root q)) = Some (segment aus) ->
  push_segment root q d disc p f = (f', Ok p') ->
  target_duration_secs p' = target_duration_secs p /\ max_segments p' = max_segments p /\
  next_segment_seq p' = next_segment_seq p /\
  contents f' (full (index_path root)) = Some (as_bytes (playlist_text (target_duration_secs p') (entries p'))) /\
  exists gone' kept', gone ++ kept ++ [aus] = gone' ++ kept' /\
    window_ok f' root (Z.of_nat (length gone') + 1) (entries p') kept' /\
    Z.of_nat (length kept') = Z.min (Z.of_nat (length kept) + 1) (max_segments p).
Proof.
  intros -> Hmax Hw Hc Hp. unfold push_segment in Hp.
  set (e := mkEntry _ _ _ _) in Hp. set (first := Z.of_nat (length gone) + 1) in *.
  assert (window_ok f root first (entries p ++ [e]) (kept ++ [aus])) as Hw1.
  { assert (Z.of_nat (length gone + length kept) + 1 = first + Z.of_nat (length kept)) as Eq by lia.
    apply window_snoc; [done|exact Eq|by rewrite <- Eq|by rewrite <- Eq]. }
  destruct (evict_spec _ _ _ _ _ _ Hmax Hw1) as (g & k & Hgk & Hev & Hwk & Hlk).
  destruct (evict _ _) as [evicted next]. cbn [fst snd] in Hev, Hwk. inv_ok.
  apply publish_bytes_ok in Hm as [Hidx Hframe]. destruct a0. rewrite Hev in Hm0.
  assert (0 <= first) as Hfirst by lia.
  pose proof (remove_evicted_ok _ _ _ _ _ Hfirst Hm0) as Hkeep.
  cbn [target_duration_secs max_segments next_segment_seq entries]. split_and!; [done..| |].
  - rewrite Hkeep; [exact Hidx|]. intros j Hj. apply index_ne_segment. lia.
  - exists (gone ++ g), k. split; [by rewrite Hgk, app_assoc|]. split; [|rewrite Hlk, length_app; cbn; lia].
    rewrite length_app. replace (Z.of_nat (length gone + length g) + 1) with (first + Z.of_nat (length g)) by lia.
    eapply window_mono; [|exact Hwk]. intros j Hj. rewrite Hkeep.
    + apply (proj1 Hframe). intros [He|He]; revert He.
      * apply index_temp_ne_segment. lia.
      * intros He. symmetry in He. revert He. apply index_ne_segment. lia.
    + intros i Hi. apply seg_path_ne; lia.
Qed.

Lemma ours_temp root k : 0 <= k -> ours (name (temp_path_for (seg_path root k))).
Proof. intros Hk. split; [by apply plain_temp, plain_segment|by left]. Qed.

(** What other files are written does not matter. *)
Lemma output_ok_frame P root (f f' : F) o hist cur :
  frame P f f' -> (forall p, ours (name p) -> ~ P (full p)) -> output_ok root f o hist cur ->
  output_ok root f' o hist cur.
Proof.
  intros [Hc Ha] Hours [Hl Hmax Hh Hcur (gone & kept & Ehist & Hw & Hlen) Hman Hseg].
  split; try done.
  - exists gone, kept. split; [done|]. split; [|done]. eapply window_mono; [|exact Hw].
    intros k Hk. apply Hc, Hours, ours_segment. lia.
  - intros Hne. rewrite Hc; [by apply Hman|]. apply Hours, ours_index.
  - destruct (current_segment o) as [s|]; [|done]. destruct Hseg as ((H1' & H2' & H3' & H4' & H5' & H6' & H7') & Hs & Hn).
    split; [|done]. split_and!; try done; [|tauto..]. rewrite Ha; [done|].
    rewrite H3', H2', H1'. apply Hours, ours_temp. lia.
Qed.

Lemma publish_foreign p b root (f f' : F) u o hist cur :
  foreign (name p) -> publish_bytes p b f = (f', Ok u) -> output_ok root f o hist cur -> output_ok root f' o hist cur.
Proof.
  intros Hfo Hp. apply publish_bytes_ok in Hp as [_ Hf]. apply (output_ok_frame _ _ _ _ _ _ _ Hf).
  intros q Hq [He|He]; revert He; apply foreign_ours; try done. by apply foreign_temp.
Qed.

(** *** Opening a segment *)
Lemma open_segment_ok root now o (f f' : F) o' hist :
  output_ok root f o hist [] -> current_segment o = None -> open_segment root now o f = (f', Ok o') ->
  output_ok root f' o' hist [] /\ latest_segment_seq o' = latest_segment_seq o /\
  exists s, current_segment o' = Some s /\ seg_discontinuity s = pending_discontinuity o.
Proof.
  intros [Hl Hmax Hh Hcur (gone & kept & Ehist & Hw & Hlen) Hman Hseg] Hnone Ho.
  rewrite Hnone in Hseg. destruct Hseg as [_ Hnext]. unfold open_segment, next_segment_path in Ho. inv_ok.
  rename a into w. unfold segment_writer_create in Hm. inv_ok.
  destruct (build_pat_packet 0) as [pat pcc] eqn:Ep. destruct (build_pmt_packet 0) as [pmt mcc] eqn:Em. inv_ok.
  set (p := mkPath root (segment_name (next_segment_seq (playlist o)))) in *.
  assert (p = seg_path root (next_segment_seq (playlist o))) as Epath by done.
  apply publisher_create_ok in Hm0 as (Ef & Et & Htg & Hac & F1).
  apply write_all_ok in Hm1 as [Hw1 F2]. apply write_all_ok in Hm2 as [Hw2 F3]. rewrite Htg in F2, F3.
  assert (frame (fun x => x = full (temp_path_for p)) f f3) as HF by eauto using frame_trans.
  assert (0 <= next_segment_seq (playlist o)) by lia.
  assert (segment [] = pat ++ pmt) as Eseg by (unfold segment, segment_header; rewrite Ep, Em; apply app_nil_r).
  cbn [latest_segment_seq current_segment]. split; [|split; [done|eexists; by split]].
  split; cbn [playlist current_segment latest_segment_seq max_segments entries target_duration_secs next_segment_seq];
    try done.
  - exists gone, kept. split; [done|]. split; [|done]. eapply window_mono; [|exact Hw].
    intros k Hk. apply (proj1 HF). rewrite Epath. apply segment_ne_temp; lia.
  - intros Hne. rewrite (proj1 HF); [by apply Hman|]. rewrite Epath. by apply index_ne_segment_temp.
  - cbn [seg_seq]. split; [|lia]. unfold current_ok. cbn [seg_writer publisher seg_seq video_cc access_units_written].
    rewrite Ef, Et, Htg. split_and!; try done. by rewrite Hw2, Hw1, Hac, Eseg.
Qed.

(** *** Writing a unit *)
Lemma segment_body_snoc aus au cc :
  segment_body (aus ++ [au]) cc = segment_body aus cc ++ (access_unit_packets au (units_cc aus cc)).1.
Proof.
  revert cc. induction aus as [|a aus IH]; intros cc; cbn [app segment_body units_cc].
  - destruct (access_unit_packets au cc). by rewrite app_nil_r.
  - destruct (access_unit_packets a cc) as [p c]. cbn [snd]. by rewrite IH, app_assoc.
Qed.

Lemma units_cc_snoc aus au cc : units_cc (aus ++ [au]) cc = (access_unit_packets au (units_cc aus cc)).2.
Proof. revert cc. induction aus as [|a aus IH]; intros cc; [done|]. cbn [app units_cc]. apply IH. Qed.

Lemma append_unit_ok root r au s (f f' : F) s' hist cur seg :
  output_ok root f (out s) hist cur -> current_segment (out s) = Some seg -> (cur <> [] \/ has_idr au = true) ->
  append_unit r au s f = (f', Ok s') ->
  output_ok root f' (out s') hist (cur ++ [au]) /\ media_of s' = media_of s /\
  latest_segment_seq (out s') = latest_segment_seq (out s) /\
  exists seg', current_segment (out s') = Some seg' /\ seg_discontinuity seg' = seg_discontinuity seg.
Proof.
  intros [Hl Hmax Hh Hcur (gone & kept & Ehist & Hw & Hlen) Hman Hseg] Hsome Hidr Ha.
  unfold append_unit in Ha. rewrite Hsome in Ha, Hseg. inv_ok. unfold write_access_unit in Hm.
  destruct Hseg as ((H1' & H2' & H3' & H4' & H5' & H6' & H7') & Hs & Hn).
  destruct (access_unit_packets au (video_cc (seg_writer seg))) as [ts cc] eqn:Ets. inv_ok.
  apply write_all_ok in Hm0 as [Hac HF]. rewrite H3', H2', H1' in HF.
  assert (0 <= seg_seq seg) by lia. cbn [out with_out with_stats current_segment latest_segment_seq].
  split; [|split_and!; [done..|eexists; by split]]. split; try done; cbn.
  - right. destruct Hcur as [->|(hd & rest & -> & Hi)]; [destruct Hidr as [|Hi]; [done|]|];
      [by exists au, []|by exists hd, (rest ++ [au])].
  - exists gone, kept. split; [done|]. split; [|done]. eapply window_mono; [|exact Hw].
    intros k Hk. apply (proj1 HF). apply segment_ne_temp; lia.
  - intros Hne. rewrite (proj1 HF); [by apply Hman|]. by apply index_ne_segment_temp.
  - split; [|done]. unfold current_ok. cbn. rewrite H5' in Ets. split_and!; try done.
    + rewrite Hac, H4'. unfold segment. by rewrite segment_body_snoc, Ets, <- app_assoc.
    + by rewrite units_cc_snoc, Ets.
    + unfold sat_add64, u64_max. lia.
    + split; [unfold sat_add64, u64_max; intros Hz; lia|intros He; by destruct cur].
Qed.
End output.

(** ** The turns *)
Section turns.
Context `{Calendar} {F Hd E : Type} `{HL : LiveFsLaws F Hd E} `{PrintSecs}.

(** Between turns an open segment has a unit. *)
Definition no_empty (o : @LiveV2.output Hd) (cur : list AccessUnit) : Prop := current_segment o = None \/ cur <> [].

Lemma concat_close (hist : list (list AccessUnit)) cur : concat (close hist cur) = concat hist ++ cur.
Proof. destruct cur; cbn; [by rewrite app_nil_r|]. rewrite concat_app. cbn. by rewrite app_nil_r. Qed.

Lemma finalize_segment_ok root now o (f f' : F) x hist cur :
  output_ok root f o hist cur -> no_empty o cur -> finalize_segment root now o f = (f', Ok x) ->
  output_ok root f' x.1 (close hist cur) [] /\ current_segment x.1 = None /\
  x.2 = open_segment_is o /\ pending_discontinuity x.1 = pending_discontinuity o.
Proof.
  intros [Hl Hmax Hh Hcur (gone & kept & Ehist & Hw & Hlen) Hman Hseg] Hne Hf.
  unfold finalize_segment, open_segment_is in *. destruct (current_segment o) as [s|] eqn:Es.
  2:{ inv_ok. destruct Hseg as [-> Hn]. cbn [fst snd close]. split; [|done]. split; try done; [by exists gone, kept|].
      rewrite Es. done. }
  destruct Hseg as ((P1 & P2 & P3 & P4 & P5 & P6 & P7) & Hs & Hn). destruct Hne as [|Hne]; [congruence|].
  destruct (Z.eqb_spec (access_units_written s) 0) as [Hz|_]; [tauto|]. inv_ok. cbn [fst snd].
  apply publish_ok in Hm as (_ & Hc & HF); [|done]. rewrite P2, P1 in HF. rewrite P1, P4 in Hc.
  assert (close hist cur = hist ++ [cur]) as -> by by destruct cur.
  assert (0 <= seg_seq s) by lia.
  assert (length hist = length gone + length kept)%nat as Hlh by by rewrite Ehist, length_app.
  assert (seg_seq s = Z.of_nat (length gone + length kept) + 1) as Eq by (rewrite Hs, Hl, Hlh; done).
  pose proof (window_length _ _ _ _ _ Hw) as Hwl.
  assert (window_ok f0 root (Z.of_nat (length gone) + 1) (entries (playlist o)) kept) as Hw0.
  { eapply window_mono; [|exact Hw]; intros k Hk; apply (proj1 HF); intros [He|He]; revert He;
      [apply segment_ne_temp; lia|apply seg_path_ne; lia]. }
  destruct (push_segment_ok root _ _ _ _ _ _ _ gone kept cur Eq Hmax Hw0 Hc Hm0)
    as (T1 & T2 & T3 & Hidx & gone' & kept' & Ehist' & Hw' & Hlen').
  split; [|split; [done|split; [|done]]]; [|by rewrite bool_decide_true].
  split; cbn [playlist current_segment latest_segment_seq].
  - rewrite length_app. cbn [length]. lia.
  - by rewrite T2.
  - apply Forall_app. split; [done|]. constructor; [|done]. by destruct Hcur as [->|].
  - by left.
  - exists gone', kept'. rewrite Ehist, <- app_assoc. split; [done|]. split; [done|].
    rewrite Hlen', T2, !length_app. cbn [length]. lia.
  - done.
  - split; [done|]. lia.
Qed.

Lemma handle_discontinuity_ok root now o (f f' : F) o' hist cur :
  output_ok root f o hist cur -> no_empty o cur -> handle_discontinuity root now o f = (f', Ok o') ->
  output_ok root f' o' (close hist cur) [] /\ current_segment o' = None /\
  pending_discontinuity o' =
    (pending_discontinuity o || (0 <? latest_segment_seq o) || open_segment_is o).
Proof.
  intros Hok Hne Hh. unfold handle_discontinuity in Hh. inv_ok.
  destruct (finalize_segment_ok _ _ _ _ _ _ _ _ Hok Hne Hm) as ([Q1 Q2 Q3 Q4 Q5 Q6 Q7] & Hnone & _ & Hp).
  rewrite Hnone in Q7. fold (open_segment_is o) in Hh.
  destruct ((0 <? latest_segment_seq o) || open_segment_is o) eqn:Esaw; inv_ok; cbn [pending_discontinuity current_segment].
  - split; [|split; [done|by rewrite <- orb_assoc, Esaw, orb_true_r]]. split; try done. cbn. by rewrite Hnone.
  - split; [split; try done; by rewrite Hnone|split; [done|]]. by rewrite Hp, <- orb_assoc, Esaw, orb_false_r.
Qed.

Variable cfg : LivePipelineV2Config.
Variable session : LiveSessionContext.
Context `{ToJson StreamHealthSnapshot} `{ToJson CurrentSessionPointer} `{FromJson CurrentSessionPointer}.
Hypothesis Hid : 0 <= stream_id cfg.
Abbreviation root := (c_output_root session).

Lemma foreign_health : foreign (name (health_path cfg)).
Proof.
  split_and!; [|done..|cbn; lia]. unfold health_path. cbn [name].
  apply plain_app; [by apply plain_lit|]. apply plain_app; [by apply plain_dec|by apply plain_lit].
Qed.
Lemma foreign_pointer r : foreign (name (pointer_path r)).
Proof. split_and!; [by apply plain_lit|done..|cbn; lia]. Qed.

(** The state of a run: what is on disk, and the media collected so far. *)
Definition live_ok (f : F) (s : live) (hist : list (list AccessUnit)) (cur : list AccessUnit) : Prop :=
  output_ok root f (out s) hist cur /\ no_empty (out s) cur.

(** After some events: the units worth showing have been written. *)
Definition advanced (hist hist' : list (list AccessUnit)) (cur cur' : list AccessUnit) (s s' : @live _ Hd)
    (evs : list event) : Prop :=
  concat hist' ++ cur' = concat hist ++ cur ++ shown (open_segment_is (out s)) evs /\
  open_segment_is (out s') = open_after (open_segment_is (out s)) evs.

Lemma shown_app o e1 e2 : shown o (e1 ++ e2) = shown o e1 ++ shown (open_after o e1) e2.
Proof.
  revert o. induction e1 as [|[|au] e1 IH]; intros o; cbn [app shown open_after]; [done|apply IH|].
  destruct (o || has_idr au); cbn [app]; by rewrite IH.
Qed.
Lemma open_after_app o e1 e2 : open_after o (e1 ++ e2) = open_after (open_after o e1) e2.
Proof. revert o. induction e1 as [|[|au] e1 IH]; intros o; cbn [app open_after]; [done|apply IH|apply IH]. Qed.

Lemma advanced_trans h1 h2 h3 c1 c2 c3 (s1 s2 s3 : @live _ Hd) e1 e2 :
  advanced h1 h2 c1 c2 s1 s2 e1 -> advanced h2 h3 c2 c3 s2 s3 e2 -> advanced h1 h3 c1 c3 s1 s3 (e1 ++ e2).
Proof.
  intros [A1 B1] [A2 B2]. split; [|by rewrite open_after_app, <- B1].
  rewrite A2, shown_app, <- B1, app_assoc, A1. by rewrite <- !app_assoc.
Qed.

Lemma advanced_nil h c (s s' : @live _ Hd) : out s' = out s -> advanced h h c c s s' [].
Proof. intros Ho. unfold advanced. rewrite Ho. cbn. by rewrite app_nil_r. Qed.

Lemma lose_ok r e s (f f' : F) s' hist cur :
  live_ok f s hist cur -> lose session r e s f = (f', Ok s') ->
  live_ok f' s' (close hist cur) [] /\ media_of s' = lose_media e (media_of s) /\
  advanced hist (close hist cur) cur [] s s' [Lost].
Proof.
  intros [Hok Hne] Hl. unfold lose in Hl. inv_ok.
  destruct (handle_discontinuity_ok _ _ _ _ _ _ _ _ Hok Hne Hm) as (Ho & Hnone & _).
  split; [split; [done|by left]|]. split; [done|]. unfold advanced. cbn [shown open_after].
  rewrite concat_close, !app_nil_r. split; [done|]. unfold open_segment_is. cbn [out]. by rewrite Hnone.
Qed.

Lemma live_ok_out f (s s' : live) hist cur : out s' = out s -> live_ok f s hist cur -> live_ok f s' hist cur.
Proof. unfold live_ok. by intros ->. Qed.

Lemma advanced_out h h' c c' (s1 s2 s : @live _ Hd) evs : out s2 = out s1 -> advanced h h' c c' s1 s evs -> advanced h h' c c' s2 s evs.
Proof. unfold advanced. by intros ->. Qed.

(** A packet: its losses close segments, its unit is still to be written. *)
Lemma collect_ok r b s (f f' : F) x hist cur :
  live_ok f s hist cur -> collect session r b s f = (f', Ok x) ->
  exists hist' cur' evs, live_ok f' x.1 hist' cur' /\ advanced hist hist' cur cur' s x.1 evs /\
    media_of x.1 = (feed b (media_of s)).1 /\
    (feed b (media_of s)).2 = evs ++ (match x.2 with Some au => [Unit_ au] | None => [] end).
Proof.
  intros Hok Hc. unfold collect in Hc. unfold feed.
  assert (out (count_packet r s) = out s) as Eout by done.
  assert (media_of (count_packet r s) = media_of s) as Em by done.
  set (s0 := count_packet r s) in *. clearbody s0.
  destruct (parse b) as [pkt|e|].
  2,3: inv_ok; apply (live_ok_out _ s s0) in Hok; [|done];
    destruct (lose_ok _ _ (with_stats _ s0) _ _ _ _ _ Hok Hm) as (Ho & Hmd & Hadv); cbn [fst snd];
    eexists _, _, [Lost]; split_and!; [exact Ho|by apply (advanced_out _ _ _ _ _ s) in Hadv|by rewrite Hmd, <- Em|done].
  replace (m_expected (media_of s)) with (expected_seq s0) by (by rewrite <- Em).
  set (hole := match expected_seq s0 with Some _ => _ | None => _ end) in *.
  apply bind_inv in Hc as (f1 & s1 & Hlose & Hc).
  assert (exists hist1 cur1, live_ok f1 s1 hist1 cur1 /\
    advanced hist hist1 cur cur1 s s1 (if hole then [Lost] else []) /\
    media_of s1 = if hole then lose_media (expected_seq s0) (media_of s) else media_of s) as (h1 & c1 & Hok1 & Hadv1 & Hm1).
  { destruct hole.
    - apply (live_ok_out _ s s0) in Hok; [|done].
      destruct (lose_ok _ _ (with_stats _ s0) _ _ _ _ _ Hok Hlose) as (Ho & Hmd & Hadv).
      eexists _, _. split_and!; [exact Ho|by apply (advanced_out _ _ _ _ _ s) in Hadv|by rewrite Hmd, <- Em].
    - inv_ok. exists hist, cur. split_and!; [by apply (live_ok_out _ s)|by apply advanced_nil|done]. }
  rewrite <- Hm1. clear Hm1 Hlose. cbn [media_of m_ts m_dep m_gate m_nals].
  destruct (Depacketizer.push_rtp_payload (payload pkt) (dep s1)) as [d [nals|e|]].
  - destruct (gate_all nals (sync_gate s1)) as [g gated].
    eexists h1, c1, _. destruct (marker pkt); [destruct (current_au_nals s1 ++ gated) as [|n l] eqn:En|];
      inv_ok; cbn [fst snd]; (split; [by apply (live_ok_out _ s1)|]); (split; [exact Hadv1|]); by rewrite ?app_nil_r.
  - inv_ok. destruct (lose_ok _ _ (with_stats _ s1) _ _ _ _ _ Hok1 Hm) as (Ho & Hmd & Hadv). cbn [fst snd].
    eexists _, _, _. split; [exact Ho|]. split; [by eapply advanced_trans|]. split; [exact Hmd|by rewrite app_nil_r].
  - inv_ok. destruct (lose_ok _ _ (with_stats _ s1) _ _ _ _ _ Hok1 Hm) as (Ho & Hmd & Hadv). cbn [fst snd].
    eexists _, _, _. split; [exact Ho|]. split; [by eapply advanced_trans|]. split; [exact Hmd|by rewrite app_nil_r].
Qed.

Lemma rotate_ok r au s (f f' : F) s' hist cur :
  live_ok f s hist cur -> rotate cfg session r au s f = (f', Ok s') ->
  media_of s' = media_of s /\
  ((s' = s /\ f' = f) \/ (has_idr au = true /\ live_ok f' s' (close hist cur) [] /\ current_segment (out s') = None)).
Proof.
  intros [Hok Hne] Hr. unfold rotate in Hr.
  destruct (should_rotate_segment _ _ _ _) eqn:Er; [|by inv_ok; split; [|left]]. inv_ok. split; [done|right].
  split.
  { revert Er. unfold should_rotate_segment. destruct (current_segment (out s)); [|done].
    by rewrite !andb_true_iff; intros [_ ->]. }
  destruct (finalize_segment_ok _ _ _ _ _ _ _ _ Hok Hne Hm) as (Ho & Hnone & _). split; [|done].
  split; [|by left]. cbn [out with_out with_episode]. destruct a.2; inv_ok; [|done].
  eapply publish_foreign; [apply foreign_pointer|exact Hm0|exact Ho].
Qed.

Lemma on_unit_ok r au s (f f' : F) s' hist cur :
  live_ok f s hist cur -> on_unit cfg session r au s f = (f', Ok s') ->
  exists hist' cur', live_ok f' s' hist' cur' /\ advanced hist hist' cur cur' s s' [Unit_ au] /\
    media_of s' = media_of s.
Proof.
  intros Hok Hu. unfold on_unit in Hu. apply bind_inv in Hu as (f1 & s1 & Hrot & Hu).
  set (s0 := with_stats _ s) in *. assert (out s0 = out s) as Eout by done.
  assert (media_of s0 = media_of s) as Em by done. clearbody s0.
  apply (live_ok_out _ s s0) in Hok; [|done].
  destruct (rotate_ok _ _ _ _ _ _ _ _ Hok Hrot) as [Em1 Hcase].
  assert (exists h1 c1, live_ok f1 s1 h1 c1 /\ concat h1 ++ c1 = concat hist ++ cur /\
    (current_segment (out s1) = None -> has_idr au = true \/ open_segment_is (out s) = false) /\
    (is_Some (current_segment (out s1)) -> open_segment_is (out s) = true))
    as (h1 & c1 & [Hok1 Hne1] & Hcat & Hnone & Hsome).
  { destruct Hcase as [[-> ->]|(Hi & Hok1 & Hn)].
    - exists hist, cur. unfold open_segment_is. rewrite <- Eout. split_and!; [done..|intros Hn; right; by rewrite Hn|].
      intros Hs. by apply bool_decide_eq_true.
    - exists (close hist cur), []. rewrite concat_close, app_nil_r, Hn. split_and!; [done..|by left|by intros []]. }
  unfold advanced. cbn [shown open_after]. destruct (current_segment (out s1)) as [seg|] eqn:Eseg.
  - assert (c1 <> []) as Hc1 by (destruct Hne1; congruence).
    destruct (append_unit_ok root _ _ _ _ _ _ _ _ _ Hok1 Eseg (or_introl Hc1) Hu) as (Ho & Hmd & _ & seg' & Es' & _).
    exists h1, (c1 ++ [au]). rewrite Hsome by done. cbn [orb]. split; [split; [done|right; by destruct c1]|].
    split; [|congruence]. split; [by rewrite app_assoc, Hcat, <- app_assoc|].
    unfold open_segment_is. by rewrite Es'.
  - destruct (has_idr au) eqn:Hi.
    + apply bind_inv in Hu as (f2 & o & Hopen & Hu). destruct Hok1 as [Q1 Q2 Q3 Q4 Q5 Q6 Q7]. rewrite Eseg in Q7.
      destruct Q7 as [-> Q7]. assert (output_ok root f1 (out s1) h1 []) as Hok1 by (split; try done; by rewrite Eseg).
      destruct (open_segment_ok _ _ _ _ _ _ _ Hok1 Eseg Hopen) as (Ho & _ & seg & Es & _).
      destruct (append_unit_ok root _ _ (with_out o s1) _ _ _ _ _ _ Ho Es (or_intror Hi) Hu)
        as (Ho' & Hmd & _ & seg' & Es' & _).
      exists h1, [au]. rewrite orb_true_r. split; [split; [done|by right]|].
      split; [|rewrite Hmd; cbn; by rewrite <- Em, <- Em1]. rewrite app_nil_r in Hcat.
      split; [by rewrite Hcat, <- app_assoc|]. unfold open_segment_is. by rewrite Es'.
    + destruct Hnone as [|Hopen]; [done|done|]. inv_ok. exists h1, c1. rewrite Hopen. cbn [orb].
      split; [done|]. split; [|congruence]. rewrite app_nil_r. split; [done|]. unfold open_segment_is. by rewrite Eseg.
Qed.

Lemma on_tick_ok r s (f f' : F) s' hist cur :
  live_ok f s hist cur -> on_tick cfg session r s f = (f', Ok s') ->
  live_ok f' s' hist cur /\ out s' = out s /\ media_of s' = media_of s.
Proof.
  intros [Hok Hne] Ht. unfold on_tick, maybe_write_stream_health in Ht. cbv zeta in Ht. inv_ok.
  split; [|done]. split; [|done]. cbn [out with_episode with_stats]. 
  match type of Hm with (if ?c then _ else _) _ = _ => destruct c end; inv_ok; [done|].
  match goal with Hw : write_stream_health _ _ _ _ _ _ _ = _ |- _ =>
    eapply publish_foreign; [apply foreign_health|exact Hw|exact Hok] end.
Qed.

(** One turn, and its events. *)
Definition turn_events (t : turn) (m : media) : media * list event :=
  match t with
  | Msg _ (MsgRtp b) => feed b m
  | Msg _ (MsgGap _ _) => (lose_media None m, [Lost])
  | _ => (m, [])
  end.

Lemma events_cons (t : turn) ts m : events (t :: ts) m = (turn_events t m).2 ++ events ts (turn_events t m).1.
Proof. destruct t as [r|r [b|l n|rule a ts']]; cbn; [done| |done|done]. by destruct (feed b m). Qed.

Lemma step_ok t s (f f' : F) s' hist cur :
  live_ok f s hist cur -> step cfg session t s f = (f', Ok s') ->
  exists hist' cur', live_ok f' s' hist' cur' /\
    advanced hist hist' cur cur' s s' (turn_events t (media_of s)).2 /\
    media_of s' = (turn_events t (media_of s)).1.
Proof.
  intros Hok Hs. destruct t as [r|r [b|l n|rule a ts']]; cbn [step on_msg turn_events fst snd] in *.
  - destruct (on_tick_ok _ _ _ _ _ _ _ Hok Hs) as (Ho & Eo & Em). exists hist, cur.
    split; [done|]. split; [by apply advanced_nil|done].
  - unfold on_rtp in Hs. apply bind_inv in Hs as (f1 & x & Hc & Hs).
    destruct (collect_ok _ _ _ _ _ _ _ _ Hok Hc) as (h1 & c1 & evs & Ho & Hadv & Em & ->).
    destruct x.2 as [au|].
    + destruct (on_unit_ok _ _ _ _ _ _ _ _ Ho Hs) as (h2 & c2 & Ho2 & Hadv2 & Em2). exists h2, c2.
      split; [done|]. split; [by eapply advanced_trans|congruence].
    + inv_ok. exists h1, c1. rewrite app_nil_r. split; [done|]. by split.
  - unfold on_gap in Hs. eapply (live_ok_out _ s (with_stats _ s)) in Hok; [|done].
    destruct (lose_ok _ _ _ _ _ _ _ _ Hok Hs) as (Ho & Em & Hadv). eexists _, _. split; [exact Ho|]. by split.
  - inv_ok. exists hist, cur. split; [by apply (live_ok_out _ s)|]. split; [by apply advanced_nil|done].
Qed.

Lemma run_ok ts s (f f' : F) s' hist cur :
  live_ok f s hist cur -> run cfg session ts s f = (f', Ok s') ->
  exists hist' cur', live_ok f' s' hist' cur' /\ advanced hist hist' cur cur' s s' (events ts (media_of s)).
Proof.
  revert s f hist cur. induction ts as [|t ts IH]; intros s f hist cur Hok Hr.
  - cbn [run] in Hr. inv_ok. exists hist, cur. split; [done|]. by apply advanced_nil.
  - cbn [run] in Hr. apply bind_inv in Hr as (f1 & s1 & Hs & Hr).
    destruct (step_ok _ _ _ _ _ _ _ Hok Hs) as (h1 & c1 & Ho1 & Hadv1 & Em1).
    destruct (IH _ _ _ _ Ho1 Hr) as (h2 & c2 & Ho2 & Hadv2). exists h2, c2. split; [done|].
    rewrite events_cons, <- Em1. by eapply advanced_trans.
Qed.

Lemma initial_ok (f : F) : live_ok f (initial cfg) [] [].
Proof.
  split; [|by left]. split; cbn; try done; [lia|by left|].
  exists [], []. split_and!; [done..|]. cbn. lia.
Qed.
End turns.

(** ** The marks of lost media *)
Section marks.
Context `{Calendar} {F Hd E : Type} `{HL : LiveFsLaws F Hd E} `{PrintSecs}.

(** The segment after number [last], if it has been opened, is marked; if it
    has not been, the next one will be. *)
Definition marked (last : Z) (o : @LiveV2.output Hd) : Prop :=
  last <= latest_segment_seq o /\
  (forall e, e ∈ entries (playlist o) -> seq e = last + 1 -> discontinuity e = true) /\
  (latest_segment_seq o = last ->
     match current_segment o with
     | Some s => seg_discontinuity s = true
     | None => pending_discontinuity o = true
     end).

Lemma evict_sub max es e : e ∈ (evict max es).2 -> e ∈ es.
Proof.
  induction es as [|e1 es IH]; [done|]. cbn [evict]. destruct (max <? _); [|done].
  destruct (evict max es) as [g k]. cbn [snd] in *. intros He. apply elem_of_cons. right. by apply IH.
Qed.

Lemma window_seqs (f : F) root first es segs e :
  window_ok f root first es segs -> e ∈ es -> first <= seq e < first + Z.of_nat (length es).
Proof.
  revert first segs. induction es as [|e1 es IH]; intros first [|aus segs] Hw He; try done; [by apply elem_of_nil in He|].
  destruct Hw as (Hs & _ & _ & Hw). cbn [length]. apply elem_of_cons in He as [->|He]; [lia|].
  specialize (IH _ _ Hw He). lia.
Qed.

Lemma finalize_marked root now last o (f f' : F) x hist cur :
  output_ok root f o hist cur -> no_empty o cur -> marked last o -> finalize_segment root now o f = (f', Ok x) ->
  marked last x.1.
Proof.
  intros [Q1 Q2 Q3 Q4 Q5 Q6 Q7] Hne (M1 & M2 & M3) Hf. unfold finalize_segment in Hf. unfold no_empty in Hne.
  destruct (current_segment o) as [s|] eqn:Es; [|inv_ok; cbn [fst]; unfold marked; rewrite Es; done].
  destruct Q7 as ((_ & _ & _ & _ & _ & _ & P7) & Hs & _). destruct Hne as [|Hne]; [done|].
  destruct (Z.eqb_spec (access_units_written s) 0) as [Hz|_]; [tauto|]. inv_ok. cbn [fst].
  unfold push_segment in Hm0. destruct (evict _ _) as [gone next] eqn:Eev. inv_ok.
  split; [cbn; lia|]. split; [|cbn; intros He; exfalso; lia]. cbn [playlist entries]. intros e He Hseq.
  assert (e ∈ (evict (max_segments (playlist o))
      (entries (playlist o) ++ [mkEntry (seg_seq s) (Z.max (duration_since now (started_at s)) 1000000)
         (segment_name (seg_seq s)) (seg_discontinuity s)])).2) as Hin by (by rewrite Eev).
  apply evict_sub, elem_of_app in Hin as [Hin|Hin]; [by apply M2|].
  apply list_elem_of_singleton in Hin as ->. cbn in Hseq |- *. apply M3. lia.
Qed.

Lemma handle_discontinuity_marked root now last o (f f' : F) o' hist cur :
  output_ok root f o hist cur -> no_empty o cur -> marked last o -> handle_discontinuity root now o f = (f', Ok o') ->
  marked last o'.
Proof.
  intros Hok Hne Hmk Hh. unfold handle_discontinuity in Hh. inv_ok.
  destruct (finalize_marked _ _ _ _ _ _ _ _ _ Hok Hne Hmk Hm) as (M1 & M2 & M3).
  destruct (finalize_segment_ok _ _ _ _ _ _ _ _ Hok Hne Hm) as (_ & Hnone & _). rewrite Hnone in M3.
  destruct (_ || _); inv_ok; split_and!; try done; cbn [current_segment pending_discontinuity]; by rewrite Hnone.
Qed.

(** A loss after output sets the mark. *)
Lemma handle_discontinuity_marks root now o (f f' : F) o' hist cur :
  output_ok root f o hist cur -> no_empty o cur -> (0 < latest_segment_seq o \/ is_Some (current_segment o)) ->
  handle_discontinuity root now o f = (f', Ok o') -> marked (latest_segment_seq o') o'.
Proof.
  intros Hok Hne Hout Hh.
  destruct (handle_discontinuity_ok _ _ _ _ _ _ _ _ Hok Hne Hh) as ([Q1 Q2 Q3 Q4 (gone & kept & Eh & Hw & _) Q6 Q7] & Hnone & Hp).
  split; [done|]. rewrite Hnone. split.
  - intros e He Hseq. pose proof (window_seqs _ _ _ _ _ _ Hw He) as Hr. pose proof (window_length _ _ _ _ _ Hw).
    rewrite Q1, Eh, length_app in Hseq. lia.
  - intros _. rewrite Hp. unfold open_segment_is. destruct Hout as [Hl|Hs].
    + rewrite (proj2 (Z.ltb_lt _ _)) by done. by rewrite orb_true_r.
    + rewrite bool_decide_true by done. by rewrite orb_true_r.
Qed.

Variable cfg : LivePipelineV2Config.
Variable session : LiveSessionContext.
Context `{ToJson StreamHealthSnapshot} `{ToJson CurrentSessionPointer} `{FromJson CurrentSessionPointer}.
Hypothesis Hid : 0 <= stream_id cfg.

Lemma lose_marked last r e s (f f' : F) s' hist cur :
  live_ok session f s hist cur -> marked last (out s) -> lose session r e s f = (f', Ok s') -> marked last (out s').
Proof.
  intros [Ho Hn] Hmk Hl. unfold lose in Hl. apply bind_inv in Hl as (f1 & o & Hd' & Hl). inv_ok.
  by eapply handle_discontinuity_marked.
Qed.

Lemma collect_marked last r b s (f f' : F) x hist cur :
  live_ok session f s hist cur -> marked last (out s) -> collect session r b s f = (f', Ok x) -> marked last (out x.1).
Proof.
  intros Hok Hmk Hc. unfold collect in Hc. assert (out (count_packet r s) = out s) as Eo by done.
  set (s0 := count_packet r s) in *. clearbody s0. rewrite <- Eo in Hmk.
  apply (live_ok_out session _ s s0) in Hok; [|done]. clear Eo.
  assert (forall e t (f1 f2 : F) s1 s2 h c, live_ok session f1 s1 h c -> marked last (out s1) ->
    (s' ← lose session r e (with_stats t s1); mret (s', @None AccessUnit)) f1 = (f2, Ok s2) -> marked last (out s2.1)) as Hlose.
  { intros e t f1 f2 s1 s2 h c Hok1 Hmk1 Hl. apply bind_inv in Hl as (f3 & s3 & Hl & Hr). inv_ok.
    eapply (lose_marked _ _ _ (with_stats t s1)); [exact Hok1|exact Hmk1|exact Hl]. }
  destruct (parse b) as [pkt|e|]; [|by eapply Hlose..].
  set (hole := match expected_seq s0 with Some _ => _ | None => _ end) in *.
  apply bind_inv in Hc as (f1 & s1 & Hl & Hc).
  assert (marked last (out s1) /\ exists h c, live_ok session f1 s1 h c) as [Hmk1 (h1 & c1 & Hok1)].
  { destruct hole; [|inv_ok; eauto]. split.
    - eapply (lose_marked _ _ _ (with_stats _ s0)); [exact Hok|exact Hmk|exact Hl].
    - destruct (lose_ok session _ _ (with_stats _ s0) _ _ _ _ _ Hok Hl) as (Ho & _). eauto. }
  destruct (Depacketizer.push_rtp_payload (payload pkt) (dep s1)) as [d [nals|e|]]; [|by eapply Hlose..].
  destruct (gate_all nals (sync_gate s1)) as [g gated].
  destruct (marker pkt); [destruct (current_au_nals s1 ++ gated)|]; by inv_ok.
Qed.

Lemma on_unit_marked last r au s (f f' : F) s' hist cur :
  live_ok session f s hist cur -> marked last (out s) -> on_unit cfg session r au s f = (f', Ok s') ->
  marked last (out s').
Proof.
  intros Hok Hmk Hu. unfold on_unit in Hu. apply bind_inv in Hu as (f1 & s1 & Hrot & Hu).
  set (s0 := with_stats _ s) in *. assert (out s0 = out s) as Eo by done. clearbody s0. rewrite <- Eo in Hmk.
  apply (live_ok_out session _ s s0) in Hok; [|done].
  assert (marked last (out s1)) as Hmk1.
  { unfold rotate in Hrot. destruct (should_rotate_segment _ _ _ _); inv_ok; [|done].
    cbn [out with_episode with_out]. destruct Hok as [Ho Hn]. by eapply finalize_marked. }
  assert (forall s2 f2, marked last (out s2) -> append_unit r au s2 f2 = (f', Ok s') -> marked last (out s')) as Happ.
  { intros s2 f2 (M1 & M2 & M3) Ha. unfold append_unit in Ha.
    destruct (current_segment (out s2)) as [seg|] eqn:Es; inv_ok; [|split_and!; by rewrite ?Es]. by split_and!. }
  destruct (current_segment (out s1)) as [seg|] eqn:Es; [by eapply Happ|].
  destruct (has_idr au); [|by inv_ok]. apply bind_inv in Hu as (f2 & o & Hopen & Hu).
  eapply Happ; [|exact Hu]. cbn [out with_out]. destruct Hmk1 as (M1 & M2 & M3). rewrite Es in M3.
  unfold open_segment, next_segment_path in Hopen. inv_ok. by split_and!.
Qed.

Lemma run_marked last ts s (f f' : F) s' hist cur :
  live_ok session f s hist cur -> marked last (out s) -> run cfg session ts s f = (f', Ok s') -> marked last (out s').
Proof.
  revert s f hist cur. induction ts as [|t ts IH]; intros s f hist cur Hok Hmk Hr; cbn [run] in Hr; [by inv_ok|].
  apply bind_inv in Hr as (f1 & s1 & Hs & Hr).
  destruct (step_ok cfg session Hid _ _ _ _ _ _ _ Hok Hs) as (h1 & c1 & Ho1 & _).
  refine (IH _ _ _ _ Ho1 _ Hr). destruct t as [r|r [b|l n|rule a ts']]; cbn [step on_msg] in Hs.
  - destruct (on_tick_ok cfg session Hid _ _ _ _ _ _ _ Hok Hs) as (_ & -> & _). done.
  - unfold on_rtp in Hs. apply bind_inv in Hs as (f2 & x & Hc & Hs).
    pose proof (collect_marked _ _ _ _ _ _ _ _ _ Hok Hmk Hc) as Hmk2.
    destruct (collect_ok session _ _ _ _ _ _ _ _ Hok Hc) as (h2 & c2 & _ & Hok2 & _).
    destruct x.2; [by eapply on_unit_marked|by inv_ok].
  - eapply (lose_marked _ _ _ (with_stats _ s)); [exact Hok|exact Hmk|exact Hs].
  - by inv_ok.
Qed.
End marks.

(** ** The theorems *)
Section theorems.
Context `{Calendar} {F Hd E : Type} `{HL : LiveFsLaws F Hd E} `{PrintSecs}.
Context `{ToJson StreamHealthSnapshot} `{ToJson CurrentSessionPointer} `{FromJson CurrentSessionPointer}.

(** C2: at any moment of a stream's life, what has been written is what is
    worth showing: the access units of the packets that arrived, less those
    between a loss and the next IDR, in order, each once, cut into segments
    that each start with an IDR.  The manifest on disk lists the playlist's
    window, the last [max_segments] finished segments (all of them at first)
    with consecutive numbers, and under every name it lists there is a
    complete transport stream file of that segment's units. *)
Theorem live_refines (cfg : LivePipelineV2Config) (session : LiveSessionContext) (ts : list turn)
    (f f' : F) (s : live) (Hid : 0 <= stream_id cfg)
    (Hrun : run cfg session ts (initial cfg) f = (f', Ok s)) :
  let root := c_output_root session in let p := playlist (out s) in
  exists gone kept cur,
    concat (gone ++ kept) ++ cur = shown false (events ts (media_of (initial (Hd:=Hd) cfg))) /\
    Forall idr_first (gone ++ kept) /\
    latest_segment_seq (out s) = Z.of_nat (length (gone ++ kept)) /\
    Z.of_nat (length kept) = Z.min (Z.of_nat (length (gone ++ kept))) (max_segments p) /\
    window_ok f' root (Z.of_nat (length gone) + 1) (entries p) kept /\
    (gone ++ kept <> [] ->
       contents f' (full (index_path root)) = Some (as_bytes (playlist_text (target_duration_secs p) (entries p)))) /\
    match current_segment (out s) with
    | Some seg => current_ok f' root seg cur /\ seg_seq seg = latest_segment_seq (out s) + 1
    | None => cur = []
    end.
Proof.
  destruct (run_ok cfg session Hid ts _ _ _ _ _ _ (initial_ok cfg session f) Hrun)
    as (hist & cur & [[Q1 Q2 Q3 Q4 (gone & kept & -> & Hw & Hlen) Q6 Q7] _] & [Hcat _]).
  exists gone, kept, cur. split_and!; try done. destruct (current_segment (out s)); [by destruct Q7 as (? & ? & _)|by destruct Q7].
Qed.

(** A stream that ends loses nothing: when the channel closes, every unit
    worth showing is in a finished segment, and none is left open. *)
Theorem stream_complete (cfg : LivePipelineV2Config) (fresh_id : str) (utc_start : DateTime) (ts : list turn)
    (last : readings) (f f' : F) (s : live) (Hid : 0 <= stream_id cfg)
    (Hrun : run_stream_v2 cfg fresh_id utc_start ts last f = (f', Ok s)) :
  let root := join (output_root cfg) fresh_id in let p := playlist (out s) in
  exists gone kept,
    concat (gone ++ kept) = shown false (events ts (media_of (initial (Hd:=Hd) cfg))) /\
    window_ok f' root (Z.of_nat (length gone) + 1) (entries p) kept /\
    Z.of_nat (length kept) = Z.min (Z.of_nat (length (gone ++ kept))) (max_segments p) /\
    (gone ++ kept <> [] ->
       contents f' (full (index_path root)) = Some (as_bytes (playlist_text (target_duration_secs p) (entries p)))) /\
    current_segment (out s) = None.
Proof.
  unfold run_stream_v2 in Hrun. apply bind_inv in Hrun as (f1 & session & Hi & Hrun).
  apply bind_inv in Hrun as (f2 & s1 & Hr & Hfin).
  assert (c_output_root session = join (output_root cfg) fresh_id) as Eroot
    by (unfold initialize_live_session in Hi; by inv_ok).
  destruct (run_ok cfg session Hid ts _ _ _ _ _ _ (initial_ok cfg session f1) Hr) as (hist & cur & [Hok Hne] & [Hcat _]).
  unfold finish in Hfin. apply bind_inv in Hfin as (f3 & x & Hf & Hfin).
  destruct (finalize_segment_ok _ _ _ _ _ _ _ _ Hok Hne Hf) as (Hok3 & Hnone & _).
  apply bind_inv in Hfin as (f4 & u4 & Hready & Hfin). apply bind_inv in Hfin as (f5 & u5 & Hstop & Hfin).
  apply bind_inv in Hfin as (f6 & u6 & Hhealth & Hfin). inv_ok. cbn [out with_out].
  assert (output_ok (c_output_root session) f4 x.1 (close hist cur) []) as Hok4.
  { destruct x.2; [|by inv_ok]. eapply publish_foreign; [apply foreign_pointer|exact Hready|exact Hok3]. }
  assert (output_ok (c_output_root session) f5 x.1 (close hist cur) []) as Hok5.
  { destruct (0 <? _); [|by inv_ok]. eapply publish_foreign; [apply foreign_pointer|exact Hstop|exact Hok4]. }
  assert (output_ok (c_output_root session) f6 x.1 (close hist cur) []) as [Q1 Q2 Q3 Q4 (gone & kept & Eh & Hw & Hlen) Q6 Q7].
  { eapply publish_foreign; [by apply foreign_health|exact Hhealth|exact Hok5]. }
  rewrite Eroot, Eh in *. exists gone, kept. split_and!; try done. by rewrite <- Eh, concat_close.
Qed.

End theorems.

(** ** Sessions *)
Section sessions.

Definition newer (a b : str * Z) : Prop := b.2 <= a.2.

Lemma insert_session_perm s l : insert_session s l ≡ₚ s :: l.
Proof.
  induction l as [|s' l IH]; [done|]. cbn [insert_session]. case_match; [done|].
  rewrite IH. by constructor.
Qed.

Lemma sort_sessions_perm l : sort_sessions l ≡ₚ l.
Proof.
  unfold sort_sessions. enough (forall acc, foldl (fun acc s => insert_session s acc) acc l ≡ₚ acc ++ l) as Hl by apply Hl.
  induction l as [|s l IH]; intros acc; cbn [foldl]; [by rewrite app_nil_r|].
  rewrite IH, insert_session_perm. apply (Permutation_middle acc l s).
Qed.

Lemma insert_session_sorted s l : StronglySorted newer l -> StronglySorted newer (insert_session s l).
Proof.
  induction 1 as [|s' l Hs IH Hle]; cbn [insert_session]; [by repeat constructor|].
  destruct (Z.ltb_spec s'.2 s.2) as [Hlt|Hge].
  - constructor; [by constructor|]. constructor; [unfold newer; lia|].
    eapply Forall_impl; [exact Hle|]. unfold newer. intros; lia.
  - constructor; [done|]. rewrite insert_session_perm. constructor; [unfold newer; lia|done].
Qed.

Lemma sort_sessions_sorted l : StronglySorted newer (sort_sessions l).
Proof.
  unfold sort_sessions. enough (forall acc, StronglySorted newer acc ->
    StronglySorted newer (foldl (fun acc s => insert_session s acc) acc l)) as Hl by (apply Hl; constructor).
  induction l as [|s l IH]; intros acc Ha; cbn [foldl]; [done|]. by apply IH, insert_session_sorted.
Qed.

Definition aged (now retention_secs : Z) (s : str * Z) : Prop :=
  retention_secs < Z.max 0 (now - s.2) / 1000000000.
#[local] Instance aged_dec now r s : Decision (aged now r s).
Proof. unfold aged. apply _. Defined.

Lemma expired_spec now retention keep idx l :
  expired now retention keep idx l = (filter (aged now retention) (drop (Z.to_nat (keep - idx)) l)).*1.
Proof.
  revert idx. induction l as [|[n m] l IH]; intros idx; [by rewrite drop_nil|]. cbn [expired].
  destruct (Z.ltb_spec idx keep) as [Hlt|Hge].
  - rewrite IH. replace (Z.to_nat (keep - idx)) with (S (Z.to_nat (keep - (idx + 1)))) by lia. done.
  - rewrite IH. replace (Z.to_nat (keep - (idx + 1))) with 0%nat by lia.
    replace (Z.to_nat (keep - idx)) with 0%nat by lia. rewrite !drop_0, filter_cons.
    destruct (Z.leb_spec (Z.max 0 (now - m) / 1000000000) retention).
    + rewrite decide_False by (unfold aged; cbn; lia). done.
    + rewrite decide_True by (unfold aged; cbn; lia). done.
Qed.

(** The clean-up of old sessions: of the camera's other session
    directories, in order of their age, the newest [keep_count - 1] stay, and
    of the rest exactly those older than the retention go; the current
    session is never among them. *)
Theorem cleanup_removes (current : str) (now retention keep_count : Z) (es : list DirEntry) :
  let olds := omap (old_session current) es in
  let removed := sessions_to_remove current now retention keep_count es in
  (current ∉ removed) /\
  exists sorted, sorted ≡ₚ olds /\ StronglySorted newer sorted /\
    removed = (filter (aged now retention) (drop (Z.to_nat (keep_count - 1)) sorted)).*1.
Proof.
  cbv zeta. unfold sessions_to_remove. rewrite expired_spec.
  replace (Z.to_nat (Z.max 0 (keep_count - 1) - 0)) with (Z.to_nat (keep_count - 1)) by lia. split.
  - intros Hin. apply list_elem_of_fmap in Hin as ([n m] & -> & Hin). cbn in Hin.
    apply list_elem_of_filter in Hin as [_ Hin]. apply subseteq_drop in Hin.
    rewrite sort_sessions_perm in Hin. apply list_elem_of_omap in Hin as (e & _ & He).
    revert He. unfold old_session. destruct (e_metadata e) as [[d md]|]; [|done]. destruct (negb d); [done|].
    destruct (e_name e) as [k|]; [cbn|done]. case_bool_decide; [done|]. by intros [= -> _].
  - eexists. split; [apply sort_sessions_perm|]. split; [apply sort_sessions_sorted|done].
Qed.
End sessions.

Section generations.
Context `{Calendar} {F Hd E : Type} `{HL : LiveFsLaws F Hd E}.
Context `{ToJson CurrentSessionPointer} `{FromJson CurrentSessionPointer}.

(** What is printed can be parsed. *)
Definition pointers_readable : Prop := forall p : CurrentSessionPointer, from_json (to_json p) = Some p.

(** Generations grow over restarts: a session that starts after another
    has left its pointer, and can read it, has a greater generation, up to the
    largest [u64]. *)
Theorem generation_grows (camera_root state : str) (utc : DateTime) (c : LiveSessionContext) (n : Z)
    (f f1 f2 : F) (g : Z) (raw : bytes) (f3 : F)
    (Hjson : pointers_readable)
    (Hgen : 0 <= c_generation c < u64_max)
    (Hwrite : write_current_session_pointer camera_root utc c state n f = (f1, Ok tt))
    (Hread : fs_read (full (pointer_path camera_root)) f1 = (f3, inr raw))
    (Hnext : read_current_generation camera_root f1 = (f2, Ok g)) :
  g = c_generation c + 1.
Proof.
  unfold write_current_session_pointer in Hwrite. apply publish_bytes_ok in Hwrite as [Hc _].
  unfold read_current_generation in Hnext. rewrite Hread in Hnext. apply read_ok in Hread.
  rewrite Hc in Hread. injection Hread as <-. rewrite Hjson in Hnext. cbn [generation] in Hnext.
  injection Hnext as _ <-. unfold sat_add64. lia.
Qed.
End generations.

(** ** Witnesses, on a disk that logs what becomes of each file *)
Module LiveV2Witness.
Import MotionWitness.

Abbreviation log := (list (str * option bytes)).
Fixpoint look (p : str) (f : log) : option bytes :=
  match f with [] => None | (q, b) :: f => if bool_decide (p = q) then b else look p f end.

Definition log_fs : Fs log str unit :=
  {| fs_create p (f : log) := ((p, Some []) :: f, inr p);
     fs_write h b (f : log) := ((h, Some (default [] (look h f) ++ b)) :: f, inr tt);
     fs_flush h (f : log) := ((h, Some (default [] (look h f))) :: f, inr tt);
     fs_drop h (f : log) := f;
     fs_rename p q (f : log) := ((q, look p f) :: (p, None) :: f, inr tt);
     fs_remove p (f : log) := ((p, None) :: f, inr tt);
     fs_store p b (f : log) := ((p, Some b) :: f, inr tt) |}.

Lemma look_eq p b f : look p ((p, b) :: f) = b.
Proof. cbn. by rewrite bool_decide_true. Qed.
Lemma look_ne p q b f : p <> q -> look p ((q, b) :: f) = look p f.
Proof. intros Hne. cbn. by rewrite bool_decide_false. Qed.

Program Definition log_laws : @FsLaws log str unit log_fs :=
  {| contents f p := look p f; accepted f h := default [] (look h f); target h := h |}.
Next Obligation. intros p f f' h [= <- <-]. by rewrite look_eq. Qed.
Next Obligation. intros h b f f' [= <-]. by rewrite look_eq. Qed.
Next Obligation. intros h b f f' e [=]. Qed.
Next Obligation. intros h f f' [= <-]. by rewrite look_eq. Qed.
Next Obligation. intros h f f' e [=]. Qed.
Next Obligation. done. Qed.
Next Obligation. intros p q f f' [= <-]. by rewrite look_eq. Qed.

Definition live_disk : LiveFs log unit :=
  {| fs_mkdir p (f : log) := (f, inr tt); fs_exists p (f : log) := (f, bool_decide (is_Some (look p f)));
     fs_read p (f : log) := (f, match look p f with Some b => inr b | None => inl tt end);
     fs_remove_dir p (f : log) := (f, inr tt) |}.

Lemma log_frame (P : str -> Prop) (f : log) (q : str) b :
  P q -> @frame log str unit log_fs log_laws P f ((q, b) :: f).
Proof. intros Hq. split; intros x Hx; cbn; rewrite bool_decide_false; (done || (intros ->; done)). Qed.

Program Definition live_laws : @LiveFsLaws log str unit log_fs log_laws live_disk := {| LiveV2.exists_frame := _ |}.
Next Obligation. intros p f f' r [= <- <-]. by apply log_frame. Qed.
Next Obligation. intros h b f f' r [= <- <-]. by apply log_frame. Qed.
Next Obligation. intros h f f' r [= <- <-]. by apply log_frame. Qed.
Next Obligation. intros h f. done. Qed.
Next Obligation.
  intros p q f f' r [= <- <-].
  eapply (@frame_trans log str unit log_fs log_laws); apply log_frame; [by left|by right].
Qed.
Next Obligation. intros p f f' r [= <- <-]. by apply log_frame. Qed.
Next Obligation. intros p f f' r [= <- <-]. done. Qed.
Next Obligation. intros p f f' r [= <- <-]. done. Qed.
Next Obligation. intros p f f' r [= <- <-]. done. Qed.
Next Obligation. intros p f f' b. cbn. destruct (look p f); intros [=]; by subst. Qed.

#[local] Existing Instances clock PipelineWitness.calendar log_fs log_laws live_disk live_laws.
#[local] Instance print_ms : PrintSecs := fun d => dec (d / 1000000).
#[local] Instance pointer_json : ToJson CurrentSessionPointer := fun _ => lit "{}".
#[local] Instance pointer_parse : FromJson CurrentSessionPointer := fun _ => None.
#[local] Instance live_health_json : ToJson (@LiveV2.StreamHealthSnapshot) := fun _ => lit "{}".

Definition lcfg : LivePipelineV2Config := mkCfg 7 (lit "cam") (lit "health") 10 60 2 6 None.
Definition sess : LiveSessionContext := mkContext (lit "s1") (lit "cam/s1") 1 0.

(** The readings of a turn at [t] milliseconds. *)
Definition at_ (t : Z) : LiveV2.readings :=
  let i := t * 1000000 in LiveV2.mkReadings t i t t t i i i t t i i t.
Definition rtp (t seq : Z) (m : bool) (p : bytes) : turn := LiveV2.Msg (at_ t) (MsgRtp (PipelineWitness.packet seq m p)).

(** Parameter sets and an IDR, a slice, a hole in the numbers with an IDR. *)
Definition turns : list turn :=
  [rtp 1 7 false [0x67; 1]; rtp 2 8 false [0x68; 2]; rtp 3 9 true [0x65; 3]; rtp 4 10 true [0x41; 4];
   LiveV2.Tick (at_ 5); rtp 6 12 true [0x65; 5]].

Definition final (ts : list turn) : log * outcome unit (@live clock str) := run lcfg sess ts (initial lcfg) [].
Definition state_of (o : outcome unit (@live clock str)) : live := match o with Ok s => s | _ => initial lcfg end.

Lemma live_refines_witness :
  exists gone kept cur,
    concat (gone ++ kept) ++ cur = shown false (LiveV2.events turns (media_of (initial (Hd:=str) lcfg))) /\
    window_ok (final turns).1 (lit "cam/s1") (Z.of_nat (length gone) + 1)
      (entries (playlist (out (state_of (final turns).2)))) kept.
Proof.
  destruct (live_refines lcfg sess turns [] (final turns).1 (state_of (final turns).2)
    ltac:(vm_compute; discriminate) ltac:(vm_compute; reflexivity))
    as (gone & kept & cur & Hcat & _ & _ & _ & Hw & _). exists gone, kept, cur. split; [exact Hcat|exact Hw].
Defined.

(** The two access units before the hole, and the one after it. *)
Example shown_units :
  length (shown false (LiveV2.events turns (media_of (initial (Hd:=str) lcfg)))) = 3%nat /\
  map discontinuity (entries (playlist (out (state_of (final turns).2)))) = [false] /\
  (seg_discontinuity <$> current_segment (out (state_of (final turns).2))) = Some true.
Proof. by vm_compute. Qed.

Definition whole : log * outcome unit (@live clock str) := run_stream_v2 lcfg (lit "s1") (0 : @DateTime clock) turns (at_ 9) [].

Lemma stream_complete_witness :
  exists gone kept,
    concat (gone ++ kept) = shown false (LiveV2.events turns (media_of (initial (Hd:=str) lcfg))) /\
    window_ok whole.1 (lit "cam/s1") (Z.of_nat (length gone) + 1)
      (entries (playlist (out (state_of whole.2)))) kept.
Proof.
  destruct (stream_complete lcfg (lit "s1") (0 : @DateTime clock) turns (at_ 9) [] whole.1 (state_of whole.2)
    ltac:(vm_compute; discriminate) ltac:(vm_compute; reflexivity))
    as (gone & kept & Hcat & Hw & _). exists gone, kept. split; [exact Hcat|exact Hw].
Defined.

Definition before : list turn := take 4 turns.
Definition lost : log * outcome unit (@live clock str) :=
  lose sess (at_ 5) None (state_of (final before).2) (final before).1.
Definition after : log * outcome unit (@live clock str) :=
  run lcfg sess [rtp 6 12 true [0x65; 5]] (state_of lost.2) lost.1.


Lemma cleanup_removes_example :
  sessions_to_remove (lit "now") (secs 1000) 300 2
    [mkDirEntry (Some (lit "now")) (Some (true, Some (secs 1))); mkDirEntry (Some (lit "a")) (Some (true, Some (secs 10)));
     mkDirEntry (Some (lit "b")) (Some (true, Some (secs 20))); mkDirEntry (Some (lit "c")) (Some (true, Some (secs 900)));
     mkDirEntry (Some (lit "x.json")) (Some (false, Some 0))] = [lit "b"; lit "a"].
Proof. by vm_compute. Qed.

(** A pointer format that can be read back: strings behind their lengths. *)
Definition put (x : str) : bytes := Z.of_nat (length x) :: x.
Definition get (b : bytes) : option (str * bytes) :=
  match b with n :: b => Some (take (Z.to_nat n) b, drop (Z.to_nat n) b) | [] => None end.
Definition flat_json : ToJson CurrentSessionPointer := fun p =>
  put (session_id p) ++ put (p_started_at p) ++ put (writer_state p) ++ put (p_updated_at p) ++ [generation p; last_segment_seq p].
Definition flat_parse : FromJson CurrentSessionPointer := fun b =>
  '(a, b) ← get b; '(c, b) ← get b; '(d, b) ← get b; '(e, b) ← get b;
  match b with [g; n] => Some (mkPointer a c g d e n) | _ => None end.

Lemma get_put x b : get (put x ++ b) = Some (x, b).
Proof. unfold get, put. cbn [app]. by rewrite Nat2Z.id, take_app_length, drop_app_length. Qed.

Lemma flat_roundtrip p : flat_parse (flat_json p) = Some p.
Proof.
  unfold flat_parse, flat_json. rewrite get_put. cbn [mbind option_bind]. rewrite get_put. cbn [mbind option_bind].
  rewrite get_put. cbn [mbind option_bind]. rewrite get_put. cbn [mbind option_bind]. by destruct p.
Qed.

Definition written : log :=
  (@write_current_session_pointer clock PipelineWitness.calendar log str unit log_fs live_disk flat_json
     (lit "cam") 5 sess (lit "ready") 3 []).1.

Lemma generation_grows_witness :
  (@read_current_generation log unit live_disk flat_parse (lit "cam") written).2 = Ok 2.
Proof.
  change (Ok 2) with (@Ok unit Z 2).
  assert (@read_current_generation log unit live_disk flat_parse (lit "cam") written = (written, Ok 2)) as Hr
    by (vm_compute; reflexivity).
  rewrite Hr. cbn [snd]. apply (f_equal (@Ok unit Z)).
  refine (@generation_grows clock PipelineWitness.calendar log str unit log_fs log_laws live_disk live_laws
    flat_json flat_parse (lit "cam") (lit "ready") 5 sess 3 [] written written 2
    (default [] (look (full (pointer_path (lit "cam"))) written)) written flat_roundtrip _ _ _ Hr);
    vm_compute; (reflexivity || split; congruence).
Defined.
End LiveV2Witness.
