(* ===== verification/Ingest.v ===== *)
(** * The ingest server ([bin/server_ingest.rs])

    One connection of an agent: the HELLO, then messages that are routed to
    the pipelines of their streams over bounded channels.  [server] is what
    the connections share: the registry of streams and the tasks spawned for
    them.  The other connections and tasks run in between: [env k] is what
    they do before the [k]-th shared operation of a message.  The channels
    (tokio) and JSON (serde) are parameters. *)
From S2P Require Import Prelude Io Str H264 Sdp Pipeline LiveV2 Proto.

(** ** What the code uses of a bounded channel

    [accepted]: everything ever put into a channel.  [drop_rx]: its receiver
    is dropped. *)
Inductive try_result := Sent | Full | Closed.
Class TryMpsc (W Tx Msg : Type) := {
  tx_closed : W -> Tx -> bool;
  try_send : Tx -> Msg -> W -> W * try_result;
  new_channel : nat -> W -> W * Tx;
  same_channel : Tx -> Tx -> bool;
  drop_rx : Tx -> W -> W;
  accepted : W -> Tx -> list Msg;
}.
Class TryMpscLaws (W Tx Msg : Type) `{TryMpsc W Tx Msg} := {
  send_when_closed tx m w : tx_closed w tx = true -> try_send tx m w = (w, Closed);
  send_when_open tx m w : tx_closed w tx = false ->
    (forall tx', tx_closed (try_send tx m w).1 tx' = tx_closed w tx') /\
    (forall tx', tx' <> tx -> accepted (try_send tx m w).1 tx' = accepted w tx') /\
    (((try_send tx m w).2 = Sent /\ accepted (try_send tx m w).1 tx = accepted w tx ++ [m]) \/
     ((try_send tx m w).2 = Full /\ accepted (try_send tx m w).1 tx = accepted w tx));
  new_channel_fresh n w :
    tx_closed w (new_channel n w).2 = true /\ tx_closed (new_channel n w).1 (new_channel n w).2 = false /\
    (forall tx, tx <> (new_channel n w).2 -> tx_closed (new_channel n w).1 tx = tx_closed w tx) /\
    (forall tx, accepted (new_channel n w).1 tx = accepted w tx);
  drop_closes tx w : tx_closed (drop_rx tx w) tx = true;
  same_channel_eq tx tx' : same_channel tx tx' = true <-> tx = tx';
}.

(** A JSON value, its [active] field, and its decoding ([serde_json]). *)
Record MotionPayload := mkMotion { active : bool; rule : option str; ts : option str }.
Class MotionJson := {
  json_value : Type;
  from_slice : bytes -> option json_value;
  active_is_boolean : json_value -> bool;
  from_value : json_value -> option MotionPayload;
}.

Record HelloStream := mkHelloStream {
  h_stream_id : Z; h_name : str; h264_sps_b64 : option str; h264_pps_b64 : option str }.
Record HelloPayload := mkHello { agent_id : str; token : str; hello_streams : list HelloStream }.

Inductive LivePipelineVersion := V1 | V2.

(** What the process reads from its environment at start. *)
Record settings := mkSettings {
  s_clip_dir : str; s_ring_secs : Z; s_pre_secs : Z; s_post_secs : Z; s_stale_part_secs : Z;
  s_max_clip_secs : option Z; s_clip_write_timeout_ms : Z; s_clip_write_retry_count : Z;
  s_clip_write_retry_backoff_ms : Z; s_stale_secs : Z; s_stats_log_secs : Z;
  s_version : LivePipelineVersion; s_segment_secs : Z; s_window_secs : Z;
}.

Definition DEFAULT_SERVER_BIND : str := lit "127.0.0.1:9000".
Definition INSECURE_DEFAULT_SERVER_TOKEN : str := lit "devtoken".

(** [runtime_var]: a variable that is set to something. *)
Definition runtime_var (v : option str) : option str :=
  v ≫= fun v => if bool_decide (trim v = []) then None else Some v.
Definition runtime_u64 (v : option str) (d : Z) : Z := default d (runtime_var v ≫= parse_u64).
Definition runtime_opt_u64 (v : option str) : option Z := runtime_var v ≫= parse_u64.
Definition resolved_server_bind (bind : option str) : str := default DEFAULT_SERVER_BIND bind.
Inductive token_error := TokenMissing | TokenInsecure.
Definition validate_server_token (t : option str) : outcome token_error str :=
  match t with
  | None => Err TokenMissing
  | Some t => if bool_decide (t = INSECURE_DEFAULT_SERVER_TOKEN) then Err TokenInsecure else Ok t
  end.
Definition runtime_live_pipeline_version (v : option str) : LivePipelineVersion :=
  if bool_decide (map ascii_lower (trim (default (lit "v1") (runtime_var v))) = lit "v2") then V2 else V1.

(** What [main] reads; [var] is [AgentConfig::runtime_var]. *)
Definition read_settings (var : str -> option str) : settings :=
  let u64 name d := runtime_u64 (var (lit name)) d in
  let pre := u64 "CLIP_PRE_SECS"%string 3 in
  mkSettings (default (lit "clips") (runtime_var (var (lit "CLIP_DIR"))))
    (u64 "CLIP_RING_SECS"%string pre) pre (u64 "CLIP_POST_SECS"%string 5)
    (u64 "CLIP_STALE_PART_SECS"%string (24 * 60 * 60)) (runtime_opt_u64 (var (lit "CLIP_MAX_SECS")))
    (u64 "CLIP_WRITE_TIMEOUT_MS"%string 5000) (u64 "CLIP_WRITE_RETRY_COUNT"%string 2)
    (u64 "CLIP_WRITE_RETRY_BACKOFF_MS"%string 250) (u64 "STREAM_STALE_SECS"%string 15)
    (u64 "STREAM_STATS_LOG_SECS"%string 60)
    (runtime_live_pipeline_version (var (lit "LIVE_PIPELINE_VERSION")))
    (u64 "LIVE_HLS_SEGMENT_SECS"%string 2) (u64 "LIVE_HLS_WINDOW_SECS"%string 12).

Section ingest.
Context {W Tx R E : Type} `{TryMpsc W Tx StreamMsg} `{AsyncRead R E} `{Base64} `{MotionJson} `{FromJson HelloPayload}.

(** *** Messages *)
Inductive seed_error := PpsMissing | SpsMissing | BadBase64 | EmptySet.
Definition decode_opt (value : str) : outcome seed_error bytes :=
  raw ← ok_or (b64_decode value) BadBase64;
  bail_if (bool_decide (raw = [])) EmptySet ;;
  mret raw.
Definition decode_h264_sync_seed (s : HelloStream) : outcome seed_error (option (bytes * bytes)) :=
  match h264_sps_b64 s, h264_pps_b64 s with
  | None, None => Ok None
  | Some _, None => Err PpsMissing
  | None, Some _ => Err SpsMissing
  | Some sps_b64, Some pps_b64 =>
      sps_raw ← decode_opt sps_b64;
      pps_raw ← decode_opt pps_b64;
      mret (Some (annexb_from_raw_nal sps_raw, annexb_from_raw_nal pps_raw))
  end.

Definition parse_motion_msg (payload : bytes) : option StreamMsg :=
  value ← from_slice payload;
  if negb (active_is_boolean value) then None
  else
    parsed ← from_value value;
    Some (MsgMotion (default (lit "motion") (rule parsed)) (active parsed) (default [] (ts parsed))).

(** What a message of the connection is to its stream; [None] is dropped. *)
Definition to_stream_msg (m : Msg) : option StreamMsg :=
  if msg_type m =? RTP then Some (MsgRtp (payload m))
  else if msg_type m =? GAP then
    match decode_gap (E:=E) (payload m) with
    | Ok (last, new) => Some (MsgGap last new)
    | _ => None
    end
  else if msg_type m =? MOTION then parse_motion_msg (payload m)
  else None.

(** *** The registry *)
Record StreamHandle := mkHandle { tx : Tx; generation : Z }.
(** A spawned pipeline: its configurations and its end of the channel. *)
Record task := mkTask {
  t_stream : Z; t_generation : Z; t_tx : Tx; t_version : LivePipelineVersion;
  t_cfg : StreamConfig; t_v2_cfg : LivePipelineV2Config }.
Record server := mkServer {
  streams : gmap Z StreamHandle;
  spawned : list task;
  active_streams : Z;
  world : W;
}.
Definition with_world (w : W) (s : server) : server :=
  mkServer (streams s) (spawned s) (active_streams s) w.
Definition with_streams (m : gmap Z StreamHandle) (s : server) : server :=
  mkServer m (spawned s) (active_streams s) (world s).

Definition stream_config (c : settings) (stream_id : Z) : StreamConfig :=
  mkConfig stream_id (s_clip_dir c) (s_ring_secs c) (s_pre_secs c) (s_post_secs c) (s_stale_part_secs c)
    (s_max_clip_secs c) (s_clip_write_timeout_ms c) (s_clip_write_retry_count c)
    (s_clip_write_retry_backoff_ms c) (s_stale_secs c) (s_stats_log_secs c).
Definition v2_config (c : settings) (stream_id : Z) (seed : option (bytes * bytes)) : LivePipelineV2Config :=
  mkCfg stream_id (join (join (s_clip_dir c) (lit "hls_v2")) (dec stream_id)) (s_clip_dir c) (s_stale_secs c)
    (s_stats_log_secs c) (s_segment_secs c) (s_window_secs c) seed.

Definition ensure_stream (c : settings) (stream_id : Z) (seed : option (bytes * bytes)) (s : server)
    : server * Tx :=
  let fresh generation :=
    let '(w, tx) := new_channel 4096 (world s) in
    (mkServer (<[stream_id := mkHandle tx generation]> (streams s))
       (spawned s ++ [mkTask stream_id generation tx (s_version c) (stream_config c stream_id)
                        (v2_config c stream_id seed)])
       (active_streams s) w, tx) in
  match streams s !! stream_id with
  | Some handle =>
      if negb (tx_closed (world s) (tx handle)) then (s, tx handle)
      else fresh (sat_add64 (generation handle) 1)
  | None => fresh 1
  end.

(** [try_send_stream_msg]: a message that comes back goes to a new pipeline. *)
Definition try_send_stream_msg (t : Tx) (msg : StreamMsg) (s : server) : server * option StreamMsg :=
  match try_send t msg (world s) with
  | (w, Closed) => (with_world w s, Some msg)
  | (w, _) => (with_world w s, None)
  end.

Definition evict_stream_if_same_sender (stream_id : Z) (t : Tx) (s : server) : server :=
  match streams s !! stream_id with
  | Some handle => if same_channel (tx handle) t then with_streams (delete stream_id (streams s)) s else s
  | None => s
  end.

(** The tasks: started, its pipeline over (the receiver is dropped), cleaned up. *)
Definition task_started (s : server) : server :=
  mkServer (streams s) (spawned s) (active_streams s + 1) (world s).
Definition pipeline_ended (t : Tx) (s : server) : server := with_world (drop_rx t (world s)) s.
Definition task_cleanup (stream_id generation_ : Z) (s : server) : server :=
  let m := match streams s !! stream_id with
           | Some handle => if generation handle =? generation_ then delete stream_id (streams s) else streams s
           | None => streams s
           end in
  mkServer m (spawned s) (active_streams s - 1) (world s).

(** *** A connection *)
Variable env : nat -> server -> server.

Definition send_or_recreate_stream_msg (c : settings) (t : Tx) (stream_id : Z) (msg : StreamMsg) (s : server)
    : server :=
  match try_send_stream_msg t msg (env 1 s) with
  | (s, None) => s
  | (s, Some msg) =>
      let s := evict_stream_if_same_sender stream_id t (env 2 s) in
      let '(s, fresh_tx) := ensure_stream c stream_id None (env 3 s) in
      (try_send_stream_msg fresh_tx msg (env 4 s)).1
  end.

Definition on_msg (c : settings) (m : Msg) (s : server) : server :=
  let '(s, t) := ensure_stream c (stream_id m) None (env 0 s) in
  match to_stream_msg m with
  | Some msg => send_or_recreate_stream_msg c t (stream_id m) msg s
  | None => s
  end.

Definition on_hello_stream (c : settings) (h : HelloStream) (s : server) : server :=
  let seed := match decode_h264_sync_seed h with Ok seed => seed | _ => None end in
  (ensure_stream c (h_stream_id h) seed (env 0 s)).1.

(** The loop ends with the first message that cannot be read. *)
Fixpoint conn_loop (fuel : nat) (c : settings) (r : R) (s : server) : R * server * option (proto_error E) :=
  match fuel with
  | O => (r, s, None)
  | S fuel =>
      match read_msg r with
      | (r, Ok m) => conn_loop fuel c r (on_msg c m s)
      | (r, Err e) => (r, s, Some e)
      | (r, Panic) => (r, s, None)
      end
  end.

Inductive conn_error := ReadError (e : proto_error E) | NotHello | BadHello | InvalidToken | OutOfFuel.

Definition handle_conn (fuel : nat) (c : settings) (server_token : str) (r : R) (s : server)
    : R * server * conn_error :=
  match read_msg r with
  | (r, Ok m) =>
      if negb (msg_type m =? HELLO) then (r, s, NotHello)
      else match from_json (payload m) with
           | None => (r, s, BadHello)
           | Some hello =>
               if negb (bool_decide (token hello = server_token)) then (r, s, InvalidToken)
               else
                 let s := foldl (fun s h => on_hello_stream c h s) s (hello_streams hello) in
                 match conn_loop fuel c r s with
                 | (r, s, Some e) => (r, s, ReadError e)
                 | (r, s, None) => (r, s, OutOfFuel)
                 end
           end
  | (r, Err e) => (r, s, ReadError e)
  | (r, Panic) => (r, s, OutOfFuel)
  end.
End ingest.

(** The messages at the front of a byte string, by the reference decoder. *)
Fixpoint frames (E : Type) (fuel : nat) (l : bytes) : list Msg :=
  match fuel with
  | O => []
  | S fuel => match decode_msg (E:=E) l with Frame m rest => m :: frames E fuel rest | _ => [] end
  end.

(** ** One connection, with the other tasks quiet *)
Section delivery.
Context {W Tx R E : Type} `{HM : TryMpscLaws W Tx StreamMsg} `{HR : AsyncReadLaws R E}
  `{Base64} `{MotionJson} `{FromJson HelloPayload}.
Abbreviation to_msg := (to_stream_msg (E:=E)).

(** The other tasks only drain the queues. *)
Definition quiet (env : nat -> server -> server) : Prop :=
  forall k (s : @server W Tx), streams (env k s) = streams s /\
    (forall t, tx_closed (world (env k s)) t = tx_closed (world s) t) /\
    (forall t, accepted (world (env k s)) t = accepted (world s) t).
Definition never_full : Prop :=
  forall (t : Tx) (m : StreamMsg) (w : W), tx_closed w t = false -> (try_send t m w).2 = Sent.

(** The messages of a stream. *)
Definition of_stream (id : Z) (ms : list Msg) : list StreamMsg :=
  omap (fun m => if stream_id m =? id then to_msg m else None) ms.

(** The stream's handle is its own, and its channel is open. *)
Definition serves (id : Z) (h : StreamHandle) (s : @server W Tx) : Prop :=
  streams s !! id = Some h /\ tx_closed (world s) (tx h) = false /\
  forall j hj, streams s !! j = Some hj -> tx hj = tx h -> j = id.

Lemma serves_env env k id h s :
  quiet env -> serves id h s -> serves id h (env k s) /\ accepted (world (env k s)) (tx h) = accepted (world s) (tx h).
Proof.
  intros Hq (H1' & H2' & H3'). destruct (Hq k s) as (E1 & E2 & E3). unfold serves. rewrite E1, E2, E3. done.
Qed.

Lemma ensure_other c j seed id h (s : @server W Tx) :
  serves id h s -> serves id h (ensure_stream c j seed s).1 /\
    accepted (world (ensure_stream c j seed s).1) (tx h) = accepted (world s) (tx h) /\
    (j = id -> ensure_stream c j seed s = (s, tx h)) /\
    (j <> id -> (ensure_stream c j seed s).2 <> tx h /\
       tx_closed (world (ensure_stream c j seed s).1) (ensure_stream c j seed s).2 = false).
Proof.
  intros (Hs & Ho & Hown). unfold ensure_stream.
  destruct (new_channel 4096 (world s)) as [w t] eqn:En.
  destruct (new_channel_fresh 4096 (world s)) as (F1 & F2 & F3 & F4). rewrite En in F1, F2, F3, F4. cbn in F1, F2, F3, F4.
  assert (t <> tx h) as Hne by congruence.
  assert (forall g l, j <> id ->
    serves id h (mkServer (<[j := mkHandle t g]> (streams s)) l (active_streams s) w) /\ accepted w (tx h) = accepted (world s) (tx h)) as Hfresh.
  { intros g l Hj. split; [|by rewrite F4]. split_and!; cbn [streams world].
    - by rewrite lookup_insert_ne.
    - rewrite F3 by congruence. done.
    - intros i hi. destruct (decide (i = j)) as [->|Hi].
      + rewrite lookup_insert_eq. by intros [= <-].
      + rewrite lookup_insert_ne by done. apply Hown. }
  destruct (decide (j = id)) as [->|Hj].
  - rewrite Hs, Ho. cbn. done.
  - destruct (streams s !! j) as [hj|] eqn:Ej.
    + destruct (tx_closed (world s) (tx hj)) eqn:Ec; cbn [negb].
      * cbn [fst snd world]. destruct (Hfresh (sat_add64 (generation hj) 1) (spawned s ++ [mkTask j (sat_add64 (generation hj) 1) t (s_version c) (stream_config c j) (v2_config c j seed)]) Hj).
        split_and!; done.
      * cbn [fst snd]. split; [done|]. split; [done|]. split; [done|]. intros _. split; [|done].
        intros He. by apply Hj, (Hown _ _ Ej).
    + cbn [fst snd world]. destruct (Hfresh 1 (spawned s ++ [mkTask j 1 t (s_version c) (stream_config c j) (v2_config c j seed)]) Hj).
      split_and!; done.
Qed.

Lemma try_send_serves t msg id h (s : @server W Tx) :
  serves id h s -> tx_closed (world s) t = false ->
  serves id h (try_send_stream_msg t msg s).1 /\ (try_send_stream_msg t msg s).2 = None /\
  (t <> tx h -> accepted (world (try_send_stream_msg t msg s).1) (tx h) = accepted (world s) (tx h)) /\
  (t = tx h -> exists l, sublist l [msg] /\ accepted (world (try_send_stream_msg t msg s).1) (tx h) = accepted (world s) (tx h) ++ l /\
     (never_full -> l = [msg])).
Proof.
  intros (Hs & Ho & Hown) Hopen. unfold try_send_stream_msg.
  destruct (send_when_open t msg (world s) Hopen) as (G1 & G2 & G3).
  pose proof (fun Hn : never_full => Hn t msg (world s) Hopen) as Hnf.
  destruct (try_send t msg (world s)) as [w res]. cbn [fst snd] in *.
  assert (serves id h (with_world w s)) as Hw by (split_and!; cbn; [done|by rewrite G1|done]).
  destruct G3 as [[-> Ha]|[-> Ha]]; cbn [fst snd with_world world].
  - split; [done|]. split; [done|]. split; [intros; by rewrite G2|]. intros ->. exists [msg]. by rewrite Ha.
  - split; [done|]. split; [done|]. split; [intros; by rewrite G2|]. intros ->. exists [].
    rewrite Ha, app_nil_r. split; [apply sublist_nil_l|]. split; [done|]. intros Hn. by specialize (Hnf Hn).
Qed.

(** What a step adds to the stream's channel. *)
Definition adds (id : Z) (h : StreamHandle) (s s' : @server W Tx) (msgs : list StreamMsg) : Prop :=
  serves id h s' /\ exists l, sublist l msgs /\
    accepted (world s') (tx h) = accepted (world s) (tx h) ++ l /\ (never_full -> l = msgs).

Lemma adds_nil id h s s' :
  serves id h s' -> accepted (world s') (tx h) = accepted (world s) (tx h) -> adds id h s s' [].
Proof. intros Hs Ha. split; [done|]. exists []. by rewrite app_nil_r. Qed.

Lemma adds_app id h s1 s2 s3 l1 l2 : adds id h s1 s2 l1 -> adds id h s2 s3 l2 -> adds id h s1 s3 (l1 ++ l2).
Proof.
  intros [_ (k1 & Hk1 & Ha1 & Hn1)] [Hs (k2 & Hk2 & Ha2 & Hn2)]. split; [done|]. exists (k1 ++ k2).
  split; [by apply sublist_app|]. split; [by rewrite Ha2, Ha1, app_assoc|]. intros Hn. by rewrite Hn1, Hn2.
Qed.

Section quiet.
Variable env : nat -> @server W Tx -> @server W Tx.
Hypothesis Hq : quiet env.

Lemma on_msg_adds c m id h s : serves id h s -> adds id h s (on_msg (E:=E) env c m s) (of_stream id [m]).
Proof.
  intros Hs. unfold on_msg. destruct (serves_env _ 0%nat _ _ _ Hq Hs) as [Hs0 Ha0].
  destruct (ensure_other c (stream_id m) None _ _ _ Hs0) as (Hs1 & Ha1 & Hsame & Hother).
  destruct (ensure_stream c (stream_id m) None (env 0 s)) as [s1 t] eqn:En. cbn [fst snd] in *.
  unfold of_stream. cbn [omap list_omap].
  destruct (to_msg m) as [msg|] eqn:Em.
  2:{ assert ((if stream_id m =? id then None else None) = @None StreamMsg) as -> by by destruct (stream_id m =? id).
      apply adds_nil; [done|congruence]. }
  unfold send_or_recreate_stream_msg. destruct (serves_env _ 1%nat _ _ _ Hq Hs1) as [Hs2 Ha2].
  assert (tx_closed (world (env 1 s1)) t = false) as Hopen.
  { rewrite (proj1 (proj2 (Hq 1%nat s1))). destruct (decide (stream_id m = id)) as [Heq|Hne].
    - specialize (Hsame Heq). simplify_eq. by destruct Hs1 as (_ & ? & _).
    - by apply Hother. }
  destruct (try_send_serves t msg _ _ _ Hs2 Hopen) as (Hs3 & Hnone & Hne & Heq).
  destruct (try_send_stream_msg t msg (env 1 s1)) as [s3 o]. cbn [fst snd] in *. subst o.
  destruct (Z.eqb_spec (stream_id m) id) as [Hid|Hid].
  - specialize (Hsame Hid). simplify_eq. destruct (Heq eq_refl) as (l & Hl & Ha & Hn).
    split; [done|]. exists l. split; [done|]. split; [congruence|done].
  - destruct (Hother Hid) as [Ht _]. apply adds_nil; [done|]. rewrite (Hne Ht). congruence.
Qed.

Lemma decode_rest m rest (l : bytes) :
  decode_msg (E:=E) l = Frame m rest -> bytes_ok l -> bytes_ok rest /\ (length rest < length l)%nat.
Proof.
  unfold decode_msg. destruct (Nat.ltb_spec (length l) 16) as [|Hge]; [done|]. repeat case_match; try done.
  intros [= <- <-] Hok. split; [by apply Forall_drop|]. rewrite length_drop. lia.
Qed.
Lemma decode_payload m rest (l : bytes) : decode_msg (E:=E) l = Frame m rest -> bytes_ok l -> bytes_ok (payload m).
Proof.
  unfold decode_msg. destruct (Nat.ltb_spec (length l) 16) as [|Hge]; [done|]. repeat case_match; try done.
  intros [= <- <-] Hok. by apply Forall_take, Forall_drop.
Qed.

Lemma conn_loop_adds fuel c (r : R) id h s :
  bytes_ok (pending r) -> (length (pending r) < fuel)%nat -> serves id h s ->
  exists r' s' e, conn_loop env fuel c r s = (r', s', Some e) /\
    adds id h s s' (of_stream id (frames E fuel (pending r))).
Proof.
  revert r s. induction fuel as [|fuel IH]; intros r s Hok Hf Hs; [lia|].
  pose proof (read_msg_decode r Hok) as Hr. cbn [conn_loop frames].
  destruct (decode_msg (pending r)) as [m rest| |why] eqn:Ed.
  - destruct Hr as (r1 & Hr & Hp). rewrite Hr. destruct (decode_rest _ _ _ Ed Hok) as [Hok' Hl].
    pose proof (on_msg_adds c m id h s Hs) as Ha. rewrite <- Hp in *.
    destruct (IH r1 (on_msg env c m s) Hok' ltac:(lia) (proj1 Ha)) as (r' & s' & e & Hc & Ha').
    exists r', s', e. split; [exact Hc|].
    change (m :: frames E fuel (pending r1)) with ([m] ++ frames E fuel (pending r1)).
    unfold of_stream. rewrite omap_app. by eapply adds_app.
  - destruct Hr as (r1 & e & Hr). rewrite Hr. exists r1, s, (Io e). split; [done|]. by apply adds_nil.
  - destruct Hr as (r1 & Hr). rewrite Hr. exists r1, s, why. split; [done|]. by apply adds_nil.
Qed.

Lemma hello_adds c l id h s : serves id h s -> adds id h s (foldl (fun s x => on_hello_stream env c x s) s l) [].
Proof.
  revert s. induction l as [|x l IH]; intros s Hs; [by apply adds_nil|]. cbn [foldl].
  change (@nil StreamMsg) with (@nil StreamMsg ++ []). eapply adds_app; [|apply IH].
  - unfold on_hello_stream. destruct (serves_env _ 0%nat _ _ _ Hq Hs) as [Hs0 Ha0].
    destruct (ensure_other c (h_stream_id x) (match decode_h264_sync_seed x with Ok seed => seed | _ => None end) _ _ _ Hs0)
      as (Hs1 & Ha1 & _). apply adds_nil; [done|congruence].
  - unfold on_hello_stream. destruct (serves_env _ 0%nat _ _ _ Hq Hs) as [Hs0 _].
    by apply ensure_other.
Qed.
End quiet.


(** Without the token nothing happens: if the server's state changes at
    all, the connection has begun with a HELLO that carries the token. *)
Theorem conn_needs_token (env : nat -> server -> server) (fuel : nat) (c : settings) (server_token : str)
    (r r' : R) (s s' : @server W Tx) (e : conn_error) (Hok : bytes_ok (pending r))
    (Hconn : handle_conn env fuel c server_token r s = (r', s', e)) (Hchange : s' <> s) :
  exists m rest hello, decode_msg (E:=E) (pending r) = Frame m rest /\ msg_type m = HELLO /\
    from_json (payload m) = Some hello /\ token hello = server_token.
Proof.
  pose proof (read_msg_decode r Hok) as Hr. unfold handle_conn in Hconn.
  destruct (decode_msg (pending r)) as [m rest| |why] eqn:Ed.
  - destruct Hr as (r1 & Hr & Hp). rewrite Hr in Hconn.
    destruct (Z.eqb_spec (msg_type m) HELLO) as [Ht|]; cbn [negb] in Hconn; [|by simplify_eq].
    destruct (from_json (payload m)) as [hello|] eqn:Ej; [|by simplify_eq].
    case_bool_decide as Htok; cbn [negb] in Hconn; [|by simplify_eq]. by exists m, rest, hello.
  - destruct Hr as (r1 & e1 & Hr). rewrite Hr in Hconn. by simplify_eq.
  - destruct Hr as (r1 & Hr). rewrite Hr in Hconn. by simplify_eq.
Qed.

(** A stream without a registered pipeline gets one of the first generation. *)
Lemma ensure_absent c id seed (s : @server W Tx) :
  streams s !! id = None ->
  exists w t, new_channel 4096 (world s) = (w, t) /\
    ensure_stream c id seed s =
      (mkServer (<[id := mkHandle t 1]> (streams s))
         (spawned s ++ [mkTask id 1 t (s_version c) (stream_config c id) (v2_config c id seed)])
         (active_streams s) w, t) /\
    tx_closed (world s) t = true /\ tx_closed w t = false.
Proof.
  intros Hn. unfold ensure_stream. rewrite Hn. pose proof (new_channel_fresh 4096 (world s)) as (F1 & F2 & _).
  destruct (new_channel 4096 (world s)) as [w t]. exists w, t. done.
Qed.

Lemma evict_same id h (s : @server W Tx) :
  streams s !! id = Some h -> evict_stream_if_same_sender id (tx h) s = with_streams (delete id (streams s)) s.
Proof.
  intros Hh. unfold evict_stream_if_same_sender. rewrite Hh. by rewrite (proj2 (same_channel_eq (tx h) (tx h)) eq_refl).
Qed.

(** The clean-up of an old pipeline can unregister its successor.  A
    stream's first pipeline ends while a message is on its way to it; the
    message starts a fresh pipeline, in the first generation again because
    the old handle has been evicted; then the old task's clean-up, which
    compares generations, removes the fresh pipeline's handle although its
    channel is open, and the next message starts a third pipeline next to it. *)
Theorem stale_cleanup_unregisters (c : settings) (m : Msg) (msg : StreamMsg) (s : @server W Tx) (h : StreamHandle)
    (Hh : streams s !! stream_id m = Some h) (Hopen : tx_closed (world s) (tx h) = false)
    (Hfirst : generation h = 1) (Hmsg : to_msg m = Some msg) :
  let ends k s := if decide (k = 1%nat) then pipeline_ended (tx h) s else s in
  let s1 := on_msg (E:=E) ends c m s in
  let s2 := task_cleanup (stream_id m) (generation h) s1 in
  let s3 := (ensure_stream c (stream_id m) None s2).1 in
  exists fresh third,
    streams s1 !! stream_id m = Some fresh /\ tx_closed (world s2) (tx fresh) = false /\
    streams s2 !! stream_id m = None /\
    streams s3 !! stream_id m = Some third /\ tx third <> tx fresh /\
    map t_stream (spawned s3) = map t_stream (spawned s) ++ [stream_id m; stream_id m].
Proof.
  intros ends s1 s2 s3.
  set (s0 := with_streams (delete (stream_id m) (streams s)) (pipeline_ended (tx h) s)).
  destruct (ensure_absent c (stream_id m) None s0) as (w & t & _ & Hens & _ & Hopen1); [apply lookup_delete_eq|].
  set (s0' := mkServer _ _ _ w) in Hens.
  assert (s1 = (try_send_stream_msg t msg s0').1) as Es1.
  { unfold s1, on_msg. change (ends 0%nat s) with s. unfold ensure_stream at 1. rewrite Hh, Hopen. cbn [negb].
    rewrite Hmsg. unfold send_or_recreate_stream_msg, try_send_stream_msg at 1.
    change (ends 1%nat s) with (pipeline_ended (tx h) s). cbn [world pipeline_ended with_world].
    rewrite send_when_closed by apply drop_closes.
    change (ends 2%nat ?x) with x. change (ends 3%nat ?x) with x.
    rewrite (evict_same (stream_id m) h) by exact Hh.
    change (with_streams _ _) with s0. by rewrite Hens. }
  destruct (send_when_open t msg w Hopen1) as (G1 & _ & _).
  assert (exists w', s1 = with_world w' s0' /\ tx_closed w' t = false) as (w' & Es1' & Hopen2).
  { rewrite Es1. unfold try_send_stream_msg. cbn [world s0']. specialize (G1 t). rewrite Hopen1 in G1.
    destruct (try_send t msg w) as [w' []]; by exists w'. }
  assert (streams s1 !! stream_id m = Some (mkHandle t 1)) as Hs1 by (rewrite Es1'; apply lookup_insert_eq).
  assert (streams s2 !! stream_id m = None) as Hs2.
  { unfold s2, task_cleanup. cbn [streams]. rewrite Hs1, Hfirst. cbn. apply lookup_delete_eq. }
  assert (world s2 = w') as Hw2 by (unfold s2, task_cleanup; cbn; by rewrite Es1').
  destruct (ensure_absent c (stream_id m) None s2 Hs2) as (w3 & t3 & _ & Hens3 & Hold & _).
  exists (mkHandle t 1), (mkHandle t3 1). unfold s3. rewrite Hens3. cbn [fst streams tx spawned].
  split; [done|]. split; [by rewrite Hw2|]. split; [done|]. split; [apply lookup_insert_eq|].
  split; [intros ->; congruence|].
  unfold s2, task_cleanup. cbn [spawned]. rewrite Es1'. cbn [spawned with_world s0' s0 with_streams pipeline_ended].
  by rewrite !map_app, <- app_assoc.
Qed.
End delivery.

(** ** Witnesses *)
Module IngestWitness.

(** A channel: its capacity, whether its receiver is gone, what it accepted. *)
Abbreviation chans := (list (nat * bool * list StreamMsg)).
Definition list_chans : TryMpsc chans nat StreamMsg :=
  {| tx_closed (w : chans) tx := match w !! tx with Some (_, c, _) => c | None => true end;
     try_send tx m (w : chans) :=
       match w !! tx with
       | Some (n, false, l) => if (length l <? n)%nat then (<[tx := (n, false, l ++ [m])]> w, Sent) else (w, Full)
       | _ => (w, Closed)
       end;
     new_channel n (w : chans) := (w ++ [(n, false, [])], length w);
     same_channel := Nat.eqb;
     drop_rx tx (w : chans) := match w !! tx with Some (n, _, l) => <[tx := (n, true, l)]> w | None => w end;
     accepted (w : chans) tx := match w !! tx with Some (_, _, l) => l | None => [] end |}.

Lemma list_chans_laws : @TryMpscLaws chans nat StreamMsg list_chans.
Proof.
  split; cbn [tx_closed try_send new_channel same_channel drop_rx accepted list_chans fst snd].
  - intros tx m w Hc. by destruct (w !! tx) as [[[n [|]] l]|].
  - intros tx m w Hc. destruct (w !! tx) as [[[n [|]] l]|] eqn:Ew; [done| |done].
    pose proof (lookup_lt_Some _ _ _ Ew) as Hlt. destruct (length l <? n)%nat; cbn [fst snd]; [|split_and!; [done..|right; by rewrite Ew]].
    split; [|split; [|left]].
    + intros tx'. destruct (decide (tx' = tx)) as [->|Hne]; [rewrite list_lookup_insert_eq by done; by rewrite ?Ew|by rewrite list_lookup_insert_ne].
    + intros tx' Hne. by rewrite list_lookup_insert_ne.
    + by rewrite list_lookup_insert_eq.
  - intros n w. rewrite (lookup_ge_None_2 w) by done. rewrite lookup_app_r, Nat.sub_diag by lia. split_and!; [done..| |].
    + intros tx Hne. destruct (decide (tx < length w)%nat).
      * by rewrite lookup_app_l.
      * by rewrite !lookup_ge_None_2 by (rewrite ?length_app; cbn; lia).
    + intros tx. destruct (decide (tx < length w)%nat); [by rewrite lookup_app_l|]. rewrite (lookup_ge_None_2 w) by lia.
      destruct (decide (tx = length w)) as [->|]; [by rewrite lookup_app_r, Nat.sub_diag by lia|].
      by rewrite lookup_ge_None_2 by (rewrite length_app; cbn; lia).
  - intros tx w. destruct (w !! tx) as [[[n b] l]|] eqn:Ew; cbn; [|by rewrite ?Ew].
    by rewrite list_lookup_insert_eq by (by eapply lookup_lt_Some).
  - apply Nat.eqb_eq.
Qed.

Import ListStream.
#[local] Existing Instances list_chans list_chans_laws SdpWitness.hex_masked.
#[local] Instance motion_json : MotionJson :=
  {| json_value := bytes; from_slice b := Some b; active_is_boolean _ := true;
     from_value b := Some (mkMotion true None None) |}.
#[local] Instance hello_json : FromJson HelloPayload := fun _ => Some (mkHello (lit "agent") (lit "secret") []).

Definition c0 : settings := mkSettings (lit "clips") 3 3 5 86400 None 5000 2 250 15 60 V2 2 12.
(** Stream 1 has a pipeline on channel 0. *)
Definition h0 : StreamHandle := mkHandle 0%nat 1.
Definition start : @server chans nat := mkServer {[1 := h0]} [] 1 [(4096%nat, false, [])].
Definition idle : nat -> @server chans nat -> @server chans nat := fun _ s => s.
Definition conn : bytes :=
  encode_msg (mkMsg HELLO 0 []) ++ encode_msg (mkMsg RTP 1 [7]) ++ encode_msg (mkMsg RTP 2 [8])
  ++ encode_msg (mkMsg GAP 1 [0; 5; 0; 9]) ++ encode_msg (mkMsg MOTION 1 []).
Definition after_hello : bytes := drop 16 conn.

Lemma start_serves : serves 1 h0 start.
Proof.
  split_and!; [done..|]. intros j hj. cbn [streams start]. destruct (decide (j = 1)) as [->|Hne]; [done|].
  by rewrite lookup_singleton_ne.
Qed.


Lemma conn_needs_token_witness :
  exists m rest hello, decode_msg (E:=eof) conn = Frame m rest /\ msg_type m = HELLO /\
    from_json (payload m) = Some hello /\ token hello = lit "secret".
Proof.
  refine (conn_needs_token (E:=eof) idle 200 c0 (lit "secret") conn
    (handle_conn (E:=eof) idle 200 c0 (lit "secret") conn start).1.1 start
    (handle_conn (E:=eof) idle 200 c0 (lit "secret") conn start).1.2
    (handle_conn (E:=eof) idle 200 c0 (lit "secret") conn start).2 _ _ _).
  - by_eval.
  - by repeat destruct (handle_conn _ _ _ _ _ _) as [[] ?].
  - intros Hs. apply (f_equal (fun s => length (spawned s))) in Hs. vm_compute in Hs. discriminate.
Defined.

Lemma stale_cleanup_unregisters_witness :
  let m := mkMsg RTP 1 [7] in
  let ends k s := if decide (k = 1%nat) then pipeline_ended (tx h0) s else s in
  streams (task_cleanup 1 1 (on_msg (E:=eof) ends c0 m start)) !! 1 = None.
Proof.
  destruct (stale_cleanup_unregisters (E:=eof) c0 (mkMsg RTP 1 [7]) (MsgRtp [7]) start h0
    ltac:(vm_compute; reflexivity) ltac:(vm_compute; reflexivity) eq_refl eq_refl)
    as (fresh & third & _ & _ & Hnone & _). exact Hnone.
Defined.
End IngestWitness.
