(* ===== verification/Uplink.v ===== *)
(** * The agent's uplink ([agent_uplink.rs])

    The agent sends its media and motion events to the server over one TLS
    connection.  Producers put messages into two queues; the connection's task
    writes them as records.  Here are the record format, the producers' side,
    one turn of the connection's [select!] loop, whose branches are tried in
    order, and the delays between connections.  The queues (tokio), TLS, JSON
    and the clock are parameters; logging and the periodic log of the counters
    are left out.  [UplinkTask] has what comes before and between connections. *)
From stdpp Require Import sorting.
From S2P Require Import Prelude Io Str Sdp Pipeline Proto.

Definition MAX_PAYLOAD : Z := 2 * 1024 * 1024.
Definition RECORD_HELLO : Z := 1.
Definition RECORD_RTP : Z := 2.
Definition RECORD_EVENT : Z := 3.
Definition RECORD_PING : Z := 4.
Definition RECORD_CLOSE : Z := 5.
Definition RECORD_HELLO_OK : Z := 6.
Definition RECORD_ERROR : Z := 7.
Definition RECORD_GAP : Z := 8.

Record Record_ := mkRecord { record_type : Z; flags : Z; rec_payload : bytes }.

Inductive uplink_error (E : Type) := RecordTooLarge (len : Z) | UpIo (e : E).
Arguments RecordTooLarge {E}.
Arguments UpIo {E}.

(** ** Records *)
Definition read_record {R E} `{AsyncRead R E} : st R (uplink_error E) Record_ :=
  header ← read_exact_m UpIo 6;
  t ← lift_outcome (index header 0);
  f ← lift_outcome (index header 1);
  let len := field header 2 4 in
  st_bail_if (MAX_PAYLOAD <? len) (RecordTooLarge len) ;;
  payload ← (if 0 <? len then read_exact_m UpIo (Z.to_nat len) else mret []);
  mret (mkRecord t f payload).

Definition record_header (record_type flags : Z) (payload : bytes) : bytes :=
  [record_type; flags] ++ to_be 4 (wrap32 (Z.of_nat (length payload))).
Definition write_record {W E} `{AsyncWrite W E} (record_type flags : Z) (payload : bytes)
    : st W (uplink_error E) unit :=
  st_bail_if (MAX_PAYLOAD <? Z.of_nat (length payload)) (RecordTooLarge (Z.of_nat (length payload))) ;;
  write_all_m UpIo (record_header record_type flags payload) ;;
  (if negb (length payload =? 0)%nat then write_all_m UpIo payload else mret tt) ;;
  flush_m UpIo.

(** What a record is on the wire, and the reference decoder. *)
Definition encode_record (r : Record_) : bytes :=
  record_header (record_type r) (flags r) (rec_payload r) ++ rec_payload r.
Definition record_wf (r : Record_) : Prop :=
  is_byte (record_type r) /\ is_byte (flags r) /\ bytes_ok (rec_payload r) /\
  Z.of_nat (length (rec_payload r)) <= MAX_PAYLOAD.
Inductive record_frame := RFrame (r : Record_) (rest : bytes) | RTruncated | RTooLarge (len : Z).
Definition decode_record (l : bytes) : record_frame :=
  match l with
  | t :: f :: _ :: _ :: _ :: _ :: rest =>
      let len := field l 2 4 in
      if MAX_PAYLOAD <? len then RTooLarge len
      else if Z.of_nat (length rest) <? len then RTruncated
      else RFrame (mkRecord t f (take (Z.to_nat len) rest)) (drop (Z.to_nat len) rest)
  | _ => RTruncated
  end.

Definition encode_rtp_tls (stream_id : Z) (rtp_bytes : bytes) : bytes := to_be 4 stream_id ++ rtp_bytes.
Definition encode_gap_tls (stream_id last_seq new_seq : Z) : bytes :=
  to_be 4 stream_id ++ to_be 2 last_seq ++ to_be 2 new_seq.

(** ** The HELLO *)
Record HelloIngestConfig := mkIngest {
  clip_pre_secs : option Z; clip_post_secs : option Z; clip_ring_secs : option Z;
  clip_stale_part_secs : option Z; clip_max_secs : option Z; clip_write_timeout_ms : option Z;
  clip_write_retry_count : option Z; clip_write_retry_backoff_ms : option Z }.
Definition is_none {A} (o : option A) : bool := match o with None => true | Some _ => false end.
Definition is_empty (c : HelloIngestConfig) : bool :=
  is_none (clip_pre_secs c) && is_none (clip_post_secs c) && is_none (clip_ring_secs c)
  && is_none (clip_stale_part_secs c) && is_none (clip_max_secs c) && is_none (clip_write_timeout_ms c)
  && is_none (clip_write_retry_count c) && is_none (clip_write_retry_backoff_ms c).

Record H264ParameterSets := mkSets { sps : bytes; pps : bytes }.
Record HelloStream := mkHelloStream {
  hs_stream_id : Z; hs_name : str; hs_camera_id : str; hs_ingest : option HelloIngestConfig;
  hs_h264_sps_b64 : option str; hs_h264_pps_b64 : option str }.

Definition hello_stream `{Base64} (stream_camera_map : gmap Z str) (stream_ingest : option HelloIngestConfig)
    (sets : gmap Z H264ParameterSets) (e : Z * str) : HelloStream :=
  let '(stream_id, name) := e in
  let '(sps_b64, pps_b64) := match sets !! stream_id with
                             | Some s => (Some (b64_encode (sps s)), Some (b64_encode (pps s)))
                             | None => (None, None)
                             end in
  mkHelloStream stream_id name (default (lit "stream-" ++ dec stream_id) (stream_camera_map !! stream_id))
    stream_ingest sps_b64 pps_b64.

Definition key_le (a b : HelloStream) : Prop := hs_stream_id a <= hs_stream_id b.
#[export] Instance key_le_dec : RelDecision key_le.
Proof. intros a b. unfold key_le. apply _. Defined.

(** [sort_by_key] by the stream id; the ids are the keys of a map. *)
Definition build_streams_info `{Base64} (stream_map stream_camera_map : gmap Z str)
    (stream_ingest : option HelloIngestConfig) (sets : gmap Z H264ParameterSets) : list HelloStream :=
  merge_sort key_le (map (hello_stream stream_camera_map stream_ingest sets) (map_to_list stream_map)).

(** ** Events *)
Record MotionEnvelope := mkEnvelope {
  e_stream_id : Z; e_rule : str; e_active : bool; e_ts : str; e_camera_id : str; e_event_id : str }.
Record EventPayload := mkEventPayload {
  v_stream_id : str; v_event_type : str; v_state : str; v_event_ts_unix_ms : Z; v_confidence : Z;
  v_rule : option str; v_event_id : option str; v_camera_id : option str }.
(** [parse_from_rfc3339], in milliseconds. *)
Class Rfc3339 := timestamp_millis : str -> option Z.

Definition build_event_payload `{Rfc3339} (now_ms : Z) (msg : MotionEnvelope) : EventPayload :=
  let event_ts := default now_ms (timestamp_millis (e_ts msg)) in
  let event_id :=
    match e_event_id msg with
    | [] => if 0 <? event_ts then Some (lit "stream" ++ dec (e_stream_id msg) ++ lit "-" ++ dec event_ts) else None
    | id => Some id
    end in
  mkEventPayload (dec (e_stream_id msg)) (lit "motion") (if e_active msg then lit "start" else lit "stop")
    event_ts 0 (Some (e_rule msg)) event_id (Some (e_camera_id msg)).

(** ** The queues

    A queue in first-in first-out order: a send either appends or is refused;
    a receive takes the front, or finds it empty. *)
Class Queue (Q A : Type) := {
  q_send : A -> Q -> Q * bool;
  q_recv : Q -> Q * option A;
}.
Class QueueLaws (Q A : Type) `{Queue Q A} := {
  items : Q -> list A;
  send_accepted a q q' : q_send a q = (q', true) -> items q' = items q ++ [a];
  send_refused a q q' : q_send a q = (q', false) -> items q' = items q;
  recv_front q q' a : q_recv q = (q', Some a) -> items q = a :: items q';
  recv_empty q q' : q_recv q = (q', None) -> items q = [] /\ items q' = [];
}.

Section uplink.
Context {W E QM QE : Type} `{AsyncWrite W E} `{Queue QM Msg} `{Queue QE MotionEnvelope} `{Rfc3339} `{ToJson EventPayload}.

(** What [Uplink] and the connection's task share. *)
Record uplink := mkUplink {
  media : QM; motion : QE;
  rtp_sent : Z; gap_sent : Z; motion_sent : Z; dropped : Z;
  cancelled : bool;
  stream_h264_parameter_sets : gmap Z H264ParameterSets;
}.
Definition with_queues (m : QM) (e : QE) (u : uplink) : uplink :=
  mkUplink m e (rtp_sent u) (gap_sent u) (motion_sent u) (dropped u) (cancelled u) (stream_h264_parameter_sets u).
Definition with_counts (r g m d : Z) (u : uplink) : uplink :=
  mkUplink (media u) (motion u) r g m d (cancelled u) (stream_h264_parameter_sets u).

Definition send_media (m : Msg) (u : uplink) : uplink :=
  match q_send m (media u) with
  | (q, true) => with_queues q (motion u) u
  | (q, false) =>
      let u := with_queues q (motion u) u in
      with_counts (rtp_sent u) (gap_sent u) (motion_sent u) (dropped u + 1) u
  end.
Definition send_rtp (stream_id : Z) (rtp_bytes : bytes) (u : uplink) : uplink :=
  send_media (mkMsg RTP stream_id rtp_bytes) u.
Definition send_gap (stream_id last_seq new_seq : Z) (u : uplink) : uplink :=
  send_media (mkMsg GAP stream_id (encode_gap_tls stream_id last_seq new_seq)) u.
Definition send_motion (m : MotionEnvelope) (u : uplink) : uplink :=
  with_queues (media u) (q_send m (motion u)).1 u.
Definition shutdown (u : uplink) : uplink :=
  mkUplink (media u) (motion u) (rtp_sent u) (gap_sent u) (motion_sent u) (dropped u) true (stream_h264_parameter_sets u).
Definition set_stream_h264_parameter_sets (stream_id : Z) (s p : bytes) (u : uplink) : uplink :=
  mkUplink (media u) (motion u) (rtp_sent u) (gap_sent u) (motion_sent u) (dropped u) (cancelled u)
    (<[stream_id := mkSets s p]> (stream_h264_parameter_sets u)).

(** *** A turn of the connection

    What is ready besides the queues: something from the reader's task, or a
    tick of the ping timer. *)
Inductive incoming := Received (r : Record_) | ReadFailed | ReaderGone.
Record ready := mkReady { from_reader : option incoming; ping_due : bool; now_ms : Z }.

Inductive turn_result := Continue | Break.

Definition ok_or_break (p : W * outcome (uplink_error E) unit) (u u' : uplink) : W * uplink * turn_result :=
  match p with (w, Ok _) => (w, u', Continue) | (w, _) => (w, u, Break) end.

Definition on_incoming (r : incoming) (w : W) (u : uplink) : W * uplink * turn_result :=
  match r with
  | Received rec =>
      if record_type rec =? RECORD_PING then ((write_record RECORD_PING 0 [] w).1, u, Continue)
      else if record_type rec =? RECORD_CLOSE then (w, u, Break)
      else if record_type rec =? RECORD_ERROR then (w, u, Break)
      else (w, u, Continue)
  | ReadFailed | ReaderGone => (w, u, Break)
  end.

Definition on_motion (now_ms : Z) (m : MotionEnvelope) (w : W) (u : uplink) : W * uplink * turn_result :=
  let payload := to_json (build_event_payload now_ms m) in
  ok_or_break (write_record RECORD_EVENT 0 payload w) u
    (with_counts (rtp_sent u) (gap_sent u) (motion_sent u + 1) (dropped u) u).

Definition on_media (m : Msg) (w : W) (u : uplink) : W * uplink * turn_result :=
  if msg_type m =? RTP then
    ok_or_break (write_record RECORD_RTP 0 (encode_rtp_tls (stream_id m) (payload m)) w) u
      (with_counts (rtp_sent u + 1) (gap_sent u) (motion_sent u) (dropped u) u)
  else if msg_type m =? GAP then
    ok_or_break (write_record RECORD_GAP 0 (payload m) w) u
      (with_counts (rtp_sent u) (gap_sent u + 1) (motion_sent u) (dropped u) u)
  else (w, u, Continue).

(** The branches, in their order. *)
Definition turn (i : ready) (w : W) (u : uplink) : W * uplink * turn_result :=
  if cancelled u then (w, u, Break)
  else match from_reader i with
  | Some r => on_incoming r w u
  | None =>
      match q_recv (motion u) with
      | (q, Some m) => on_motion (now_ms i) m w (with_queues (media u) q u)
      | (q, None) =>
          let u := with_queues (media u) q u in
          match q_recv (media u) with
          | (q, Some m) => on_media m w (with_queues q (motion u) u)
          | (q, None) =>
              let u := with_queues q (motion u) u in
              if ping_due i then ok_or_break (write_record RECORD_PING 0 [] w) u u else (w, u, Continue)
          end
      end
  end.

(** What happens on a connection: turns of its task, and calls of producers. *)
Inductive event := Turn (i : ready) | SendRtp (stream_id : Z) (b : bytes)
  | SendGap (stream_id last_seq new_seq : Z) | SendMotion (m : MotionEnvelope)
  | Shutdown | SetParameterSets (stream_id : Z) (s p : bytes).

(** A call of a producer; it needs no connection. *)
Definition call (e : event) (u : uplink) : uplink :=
  match e with
  | Turn _ => u
  | SendRtp id b => send_rtp id b u
  | SendGap id l n => send_gap id l n u
  | SendMotion m => send_motion m u
  | Shutdown => shutdown u
  | SetParameterSets id s p => set_stream_h264_parameter_sets id s p u
  end.
Definition step (e : event) (w : W) (u : uplink) : W * uplink * turn_result :=
  match e with Turn i => turn i w u | e => (w, call e u, Continue) end.
Fixpoint run (es : list event) (w : W) (u : uplink) : W * uplink * turn_result :=
  match es with
  | [] => (w, u, Continue)
  | e :: es => match step e w u with (w, u, Continue) => run es w u | r => r end
  end.
End uplink.

(** ** Between connections

    How an attempt to connect ends, and how long the task then waits: the
    delay, and the [backoff] of the next attempt, in seconds. *)
Inductive attempt := TlsConfigFailed | ConnectFailed | HandshakeFailed | HelloFailed | SessionEnded.
Definition double (backoff : Z) : Z := Z.min (backoff * 2) 30.
Definition after_attempt (a : attempt) (backoff : Z) : Z * Z :=
  match a with
  | TlsConfigFailed | ConnectFailed | HandshakeFailed => (backoff, double backoff)
  | HelloFailed => (1, 1)
  | SessionEnded => (1, double 1)
  end.
Fixpoint delays (l : list attempt) (backoff : Z) : list Z :=
  match l with
  | [] => []
  | a :: l => let '(d, b) := after_attempt a backoff in d :: delays l b
  end.

(** ** What a connection's run amounts to *)

(** A message the connection's task takes up, and the record it becomes. *)
Inductive sent := OfMedia (m : Msg) | OfMotion (now_ms : Z) (m : MotionEnvelope) | OfPing.
Definition media_of (s : sent) : option Msg := match s with OfMedia m => Some m | _ => None end.
Definition motion_of (s : sent) : option MotionEnvelope := match s with OfMotion _ m => Some m | _ => None end.
Definition record_of `{Rfc3339} `{ToJson EventPayload} (s : sent) : Record_ :=
  match s with
  | OfMedia m =>
      if msg_type m =? RTP then mkRecord RECORD_RTP 0 (encode_rtp_tls (stream_id m) (payload m))
      else mkRecord RECORD_GAP 0 (payload m)
  | OfMotion now_ms m => mkRecord RECORD_EVENT 0 (to_json (build_event_payload now_ms m))
  | OfPing => mkRecord RECORD_PING 0 []
  end.
Definition wire `{Rfc3339} `{ToJson EventPayload} (s : sent) : bytes := encode_record (record_of s).

(** What the producers hand over during [es]. *)
Definition offered_media (e : event) : option Msg :=
  match e with
  | SendRtp id b => Some (mkMsg RTP id b)
  | SendGap id l n => Some (mkMsg GAP id (encode_gap_tls id l n))
  | _ => None
  end.
Definition offered_motion (e : event) : option MotionEnvelope :=
  match e with SendMotion m => Some m | _ => None end.
Definition is_media (m : Msg) : Prop := msg_type m = RTP \/ msg_type m = GAP.
Definition rtp_count (l : list sent) : Z :=
  Z.of_nat (length (filter (fun m => msg_type m = RTP) (omap media_of l))).
Definition gap_count (l : list sent) : Z :=
  Z.of_nat (length (filter (fun m => msg_type m = GAP) (omap media_of l))).

(** An unbounded channel takes every message while its receiver lives. *)
Class Unbounded (Q A : Type) `{Queue Q A} := accepts a q : (q_send a q).2 = true.

(** A TCP or TLS stream that has failed once is of no further use. *)
Class FailStop (W E : Type) `{AsyncWriteLaws W E} := {
  broken : W -> Prop;
  write_breaks w b w' e : write_all w b = (w', inl e) -> broken w';
  flush_breaks w w' e : flush_writer w = (w', inl e) -> broken w';
  stays_broken w b : broken w -> b <> [] ->
    exists w' e, write_all w b = (w', inl e) /\ written w' = written w /\ broken w';
}.

(** The reader's task: the records of the connection, one after the other. *)
Fixpoint read_records {R E} `{AsyncRead R E} (n : nat) : st R (uplink_error E) (list Record_) :=
  match n with
  | O => mret []
  | S n' => r ← read_record; rs ← read_records n'; mret (r :: rs)
  end.

(** ** Lemmas *)
Lemma decode_encode_record r rest : record_wf r -> decode_record (encode_record r ++ rest) = RFrame r rest.
Proof.
  destruct r as [t f p]. intros (_ & _ & _ & Hlen). cbn [rec_payload] in Hlen. unfold MAX_PAYLOAD in Hlen.
  unfold encode_record, record_header. cbn [record_type flags rec_payload].
  cbn [to_be app]. unfold decode_record.
  change (field _ 2 4) with (from_be (to_be 4 (wrap32 (Z.of_nat (length p))))).
  unfold wrap32. rewrite Z.mod_small, from_be_to_be_small by (cbn; lia).
  rewrite (proj2 (Z.ltb_ge _ _)) by (unfold MAX_PAYLOAD; lia).
  rewrite (proj2 (Z.ltb_ge _ _)) by (rewrite length_app; lia).
  rewrite Nat2Z.id, take_app_ex, drop_app_ex by done. done.
Qed.

Lemma read_record_decode {R E} `{AsyncReadLaws R E} r :
  bytes_ok (pending r) ->
  match decode_record (pending r) with
  | RFrame rec rest => exists r', read_record r = (r', Ok rec) /\ pending r' = rest
  | RTruncated => exists r' e, read_record r = (r', Err (UpIo e))
  | RTooLarge len => exists r', read_record r = (r', Err (RecordTooLarge len))
  end.
Proof.
  intros Hok. unfold read_record.
  destruct (Nat.le_gt_cases 6 (length (pending r))) as [Hge|Hlt].
  2:{ destruct (read_exact_m_eof UpIo r 6 Hlt) as (r' & e & Hr).
      assert (decode_record (pending r) = RTruncated) as ->.
      { destruct (pending r) as [|? [|? [|? [|? [|? [|]]]]]]; try done. cbn in Hlt. lia. }
      exists r', e. by rewrite (st_bind_err _ _ _ _ _ Hr). }
  destruct (read_exact_m_full UpIo r 6 Hge) as (r1 & Hr & Hp).
  rewrite (st_bind_ok _ _ _ _ _ Hr). rewrite field_take by lia.
  destruct (pending r) as [|t [|f [|a [|b [|c [|d rest]]]]]] eqn:Hpend; try (cbn in Hge; lia).
  unfold decode_record. set (l := t :: f :: a :: b :: c :: d :: rest) in *.
  rewrite st_bind_lift, (index_lookup _ 0 t), st_bind_lift, (index_lookup _ 1 f) by done.
  pose proof (field_nonneg l 2 4 Hok) as Hnn. set (n := field l 2 4) in *.
  rewrite st_bind_bail. destruct (Z.ltb_spec MAX_PAYLOAD n) as [|Hmax]; [by eexists|].
  assert (pending r1 = rest) as Hp1 by (rewrite Hp; done). clear Hp.
  destruct (Z.ltb_spec (Z.of_nat (length rest)) n) as [Hs|Hs].
  - rewrite (proj2 (Z.ltb_lt _ _)) by lia.
    destruct (read_exact_m_eof UpIo r1 (Z.to_nat n)) as (r' & e & Hr2); [rewrite Hp1; lia|].
    exists r', e. by rewrite (st_bind_err _ _ _ _ _ Hr2).
  - destruct (Z.ltb_spec 0 n) as [Hpos|Hz].
    + destruct (read_exact_m_full UpIo r1 (Z.to_nat n)) as (r' & Hr2 & Hp2); [rewrite Hp1; lia|].
      exists r'. rewrite (st_bind_ok _ _ _ _ _ Hr2), Hp2, Hp1. done.
    + exists r1. rewrite st_bind_ret. replace n with 0 by lia. by rewrite Hp1.
Qed.

Lemma encode_record_bytes_ok r : record_wf r -> bytes_ok (encode_record r).
Proof. intros (? & ? & ? & _). unfold encode_record, record_header. solve_bytes. Qed.

Section writing.
Context {W E : Type} `{FailStop W E}.

(** [write_record] puts the record on the wire; or it refuses it before
    writing; or the writer is broken, having taken a prefix of it. *)
Lemma write_record_inv t f p w w' o :
  write_record t f p w = (w', o) ->
  (o = Ok tt /\ written w' = written w ++ encode_record (mkRecord t f p)) \/
  (is_ok o = false /\ exists k, written w' = written w ++ take k (encode_record (mkRecord t f p)) /\
     (broken w' \/ w' = w /\ k = 0%nat)).
Proof.
  unfold write_record. rewrite st_bind_bail.
  destruct (MAX_PAYLOAD <? Z.of_nat (length p)).
  { intros [= <- <-]. right. split; [done|]. exists 0%nat. rewrite take_0, app_nil_r. auto. }
  set (h := record_header t f p). change (encode_record (mkRecord t f p)) with (h ++ p).
  unfold write_all_m, flush_m, io_result, mbind, st_bind.
  destruct (write_all w h) as [w1 [e|[]]] eqn:Hw1.
  { cbv beta iota. intros [= <- <-]. right. split; [done|]. destruct (write_all_err _ _ _ _ Hw1) as [k Hk].
    exists (k `min` length h)%nat. split; [|left; by eapply write_breaks].
    rewrite take_app_le by lia. rewrite Hk. f_equal. symmetry.
    destruct (Nat.le_ge_cases k (length h)); [by rewrite Nat.min_l|].
    by rewrite Nat.min_r, !take_ge by lia. }
  apply write_all_ok in Hw1.
  destruct p as [|b p]; cbn [length Nat.eqb negb].
  - cbv beta iota. cbn [mret st_ret]. destruct (flush_writer w1) as [w2 [e|[]]] eqn:Hf; cbv beta iota; intros [= <- <-];
      pose proof (flush_written _ _ _ Hf) as Hf'.
    + right. split; [done|]. exists (length h). rewrite app_nil_r, take_ge by done.
      split; [congruence|]. left. by eapply flush_breaks.
    + left. split; [done|]. rewrite app_nil_r. congruence.
  - destruct (write_all w1 (b :: p)) as [w2 [e|[]]] eqn:Hw2.
    { cbv beta iota. intros [= <- <-]. right. split; [done|]. destruct (write_all_err _ _ _ _ Hw2) as [k Hk].
      exists (length h + k)%nat. split; [|left; by eapply write_breaks].
      rewrite take_app_add. rewrite Hk, Hw1. by rewrite <- app_assoc. }
    apply write_all_ok in Hw2.
    destruct (flush_writer w2) as [w3 [e|[]]] eqn:Hf; cbv beta iota; intros [= <- <-];
      pose proof (flush_written _ _ _ Hf) as Hf'; rewrite Hw2, Hw1, <- app_assoc in Hf'.
    + right. split; [done|]. exists (length (h ++ b :: p)). rewrite take_ge by done.
      split; [done|]. left. by eapply flush_breaks.
    + left. done.
Qed.

Lemma write_record_broken t f p w w' o :
  broken w -> write_record t f p w = (w', o) ->
  is_ok o = false /\ written w' = written w /\ broken w'.
Proof.
  intros Hb. unfold write_record. rewrite st_bind_bail.
  destruct (MAX_PAYLOAD <? Z.of_nat (length p)); [by intros [= <- <-]|].
  unfold write_all_m, io_result, mbind, st_bind.
  destruct (stays_broken w (record_header t f p) Hb) as (w1 & e & -> & Hw & Hb'); [done|].
  cbv beta iota. by intros [= <- <-].
Qed.
End writing.

Section progress.
Context {W E QM QE : Type} `{HW : FailStop W E} `{HM : QueueLaws QM Msg} `{HQ : QueueLaws QE MotionEnvelope}
  `{!Unbounded QE MotionEnvelope} `{Rfc3339} `{ToJson EventPayload}.
Implicit Types (w : W) (u : uplink (QM:=QM) (QE:=QE)).

(** What a stretch [es] of a connection's life did: the records [recs] it put
    on the wire whole, the accepted media [acc], what it took from a queue and
    failed to send, and the bytes of a record cut short. *)
Record progress (es : list event) w u w' u' (recs : list sent) (acc : list Msg) (lost : list sent)
    (cut : bytes) : Prop := {
  p_wire : written w' = written w ++ concat (wire <$> recs) ++ cut;
  p_cut : cut = [] \/ broken w';
  p_broken : broken w -> recs = [] /\ cut = [] /\ broken w';
  p_media : items (media u) ++ acc = omap media_of recs ++ omap media_of lost ++ items (media u');
  p_motion : items (motion u) ++ omap offered_motion es
             = omap motion_of recs ++ omap motion_of lost ++ items (motion u');
  p_acc : acc `sublist_of` omap offered_media es;
  p_dropped : dropped u' = dropped u + Z.of_nat (length (omap offered_media es) - length acc);
  p_rtp : rtp_sent u' = rtp_sent u + rtp_count recs;
  p_gap : gap_sent u' = gap_sent u + gap_count recs;
  p_event : motion_sent u' = motion_sent u + Z.of_nat (length (omap motion_of recs));
}.

Lemma count_app (l1 l2 : list sent) :
  rtp_count (l1 ++ l2) = rtp_count l1 + rtp_count l2 /\ gap_count (l1 ++ l2) = gap_count l1 + gap_count l2.
Proof. unfold rtp_count, gap_count. rewrite !omap_app, !filter_app, !length_app. lia. Qed.

Lemma progress_nil w u : progress [] w u w u [] [] [] [].
Proof. constructor; cbn; rewrite ?app_nil_r; auto; unfold rtp_count, gap_count; cbn; lia. Qed.

Lemma progress_app es1 es2 w u w1 u1 w2 u2 r1 r2 a1 a2 l c1 c2 :
  progress es1 w u w1 u1 r1 a1 [] c1 -> progress es2 w1 u1 w2 u2 r2 a2 l c2 ->
  exists c, progress (es1 ++ es2) w u w2 u2 (r1 ++ r2) (a1 ++ a2) l c.
Proof.
  intros P1 P2. exists (c1 ++ c2). destruct (count_app r1 r2) as [Hr Hg].
  pose proof (sublist_length _ _ (p_acc _ _ _ _ _ _ _ _ _ P1)).
  pose proof (sublist_length _ _ (p_acc _ _ _ _ _ _ _ _ _ P2)).
  destruct P1, P2. cbn in *. constructor.
  - rewrite p_wire1, p_wire0, fmap_app, concat_app, <- !app_assoc. do 2 f_equal.
    destruct p_cut0 as [->|Hb]; [done|]. destruct (p_broken1 Hb) as (-> & -> & _). done.
  - destruct p_cut0 as [->|Hb]; [by destruct p_cut1 as [->|]; auto|]. right. by apply p_broken1.
  - intros Hb. destruct (p_broken0 Hb) as (-> & -> & Hb1). by destruct (p_broken1 Hb1) as (-> & -> & ?).
  - rewrite app_assoc, p_media0, <- app_assoc, p_media1, omap_app, <- app_assoc. done.
  - rewrite omap_app, app_assoc, p_motion0, <- app_assoc, p_motion1, omap_app, <- app_assoc. done.
  - rewrite omap_app. by apply sublist_app.
  - rewrite omap_app, !length_app. lia.
  - lia.
  - lia.
  - rewrite omap_app, length_app. lia.
Qed.

(** One turn's outcome: at most one message in flight is lost, and only when
    the connection ends. *)
Definition turned (es : list event) w u w' u' (r : turn_result) : Prop :=
  exists recs acc lost cut, progress es w u w' u' recs acc lost cut /\
    (r = Continue -> lost = []) /\ (length lost <= 1)%nat.

Lemma send_one i x w u0 u1 u2 w' u' r :
  ok_or_break (write_record (record_type (record_of x)) 0 (rec_payload (record_of x)) w) u1 u2 = (w', u', r) ->
  items (media u0) = omap media_of [x] ++ items (media u1) ->
  items (motion u0) = omap motion_of [x] ++ items (motion u1) ->
  (media u2 = media u1 /\ motion u2 = motion u1 /\ dropped u2 = dropped u1 /\ dropped u1 = dropped u0) ->
  (rtp_sent u1 = rtp_sent u0 /\ gap_sent u1 = gap_sent u0 /\ motion_sent u1 = motion_sent u0) ->
  (rtp_sent u2 = rtp_sent u0 + rtp_count [x] /\ gap_sent u2 = gap_sent u0 + gap_count [x] /\
   motion_sent u2 = motion_sent u0 + Z.of_nat (length (omap motion_of [x]))) ->
  turned [Turn i] w u0 w' u' r.
Proof.
  intros Hw Hm He (Qm & Qe & D2 & D1) (R1 & G1 & M1) (R2 & G2 & M2).
  assert (encode_record (mkRecord (record_type (record_of x)) 0 (rec_payload (record_of x))) = wire x) as Hx.
  { unfold wire. destruct x; try done. cbn. by case_match. }
  destruct (write_record _ _ _ w) as [w1 o] eqn:Hwr.
  pose proof (write_record_inv _ _ _ _ _ _ Hwr) as Hinv. rewrite Hx in Hinv.
  destruct Hinv as [[-> Hwire]|[Ho (k & Hwire & Hb)]].
  - injection Hw as <- <- <-. exists [x], [], [], []. split; [|by auto]. constructor.
    + cbn. by rewrite !app_nil_r.
    + auto.
    + intros Hbr. by destruct (write_record_broken _ _ _ _ _ _ Hbr Hwr).
    + by rewrite Qm, app_nil_r.
    + rewrite Qe. cbn [omap list_omap offered_motion]. by rewrite app_nil_r.
    + constructor.
    + cbn. lia.
    + done.
    + done.
    + done.
  - assert (w' = w1 /\ u' = u1 /\ r = Break) as (-> & -> & ->).
    { destruct o as [[]|e|]; [done|..]; by injection Hw as <- <- <-. }
    exists [], [], [x], (take k (wire x)). split; [|split; [done|cbn; lia]]. constructor.
    + done.
    + destruct Hb as [|[_ ->]]; auto.
    + intros Hbr. destruct (write_record_broken _ _ _ _ _ _ Hbr Hwr) as (_ & Hw1 & ?).
      split; [done|]. split; [|done].
      apply (app_inv_head (written w)). rewrite <- Hwire, Hw1. by rewrite app_nil_r.
    + by rewrite app_nil_r.
    + cbn [omap list_omap offered_motion]. rewrite app_nil_r. done.
    + constructor.
    + cbn. lia.
    + unfold rtp_count. cbn. lia.
    + unfold gap_count. cbn. lia.
    + cbn. lia.
Qed.

(** A step that neither writes nor touches a queue. *)
Lemma idle_progress es w u r :
  omap offered_motion es = [] -> omap offered_media es = [] -> turned es w u w u r.
Proof.
  intros Hm Hd. exists [], [], [], []. split; [|by auto]. constructor; rewrite ?Hm, ?Hd; cbn;
    rewrite ?app_nil_r; auto; unfold rtp_count, gap_count; cbn; lia.
Qed.

Lemma on_media_progress i m w u0 u w' u' r :
  on_media m w u = (w', u', r) -> is_media m ->
  items (media u0) = m :: items (media u) -> items (motion u0) = items (motion u) ->
  (dropped u = dropped u0 /\ rtp_sent u = rtp_sent u0 /\ gap_sent u = gap_sent u0 /\ motion_sent u = motion_sent u0) ->
  turned [Turn i] w u0 w' u' r.
Proof.
  intros Hw Hty Hm He (D & R & G & M). unfold on_media in Hw.
  destruct Hty as [Hty|Hty]; rewrite Hty in Hw.
  - eapply (send_one i (OfMedia m)); [cbn; rewrite Hty; exact Hw|..]; try done.
    unfold rtp_count, gap_count. cbn [omap list_omap media_of]. rewrite !filter_cons, Hty.
    rewrite decide_True, decide_False by done. cbn. lia.
  - eapply (send_one i (OfMedia m)); [cbn; rewrite Hty; exact Hw|..]; try done.
    unfold rtp_count, gap_count. cbn [omap list_omap media_of]. rewrite !filter_cons, Hty.
    rewrite decide_False, decide_True by done. cbn. lia.
Qed.

(** The answer to a ping: a failed write is ignored, the writer is broken. *)
Lemma pong_progress i w u : turned [Turn i] w u (write_record RECORD_PING 0 [] w).1 u Continue.
Proof.
  destruct (write_record RECORD_PING 0 [] w) as [w1 o] eqn:Hwr. cbn [fst].
  change (turned [Turn i] w u w1 u Continue).
  pose proof (write_record_inv _ _ _ _ _ _ Hwr) as [[-> Hwire]|[Ho (k & Hwire & Hb)]].
  - apply (send_one i OfPing w u u u w1 u Continue); [|done..|split; [|split]; unfold rtp_count, gap_count; cbn; lia].
    cbn [record_of record_type rec_payload]. by rewrite Hwr.
  - exists [], [], [], (take k (wire OfPing)). split; [|split; [done|cbn; lia]].
    constructor; cbn [omap list_omap offered_motion offered_media]; rewrite ?app_nil_r; try done;
      try (unfold rtp_count, gap_count; cbn; lia).
    + destruct Hb as [|[_ ->]]; auto.
    + intros Hbr. destruct (write_record_broken _ _ _ _ _ _ Hbr Hwr) as (_ & Hw1 & ?).
      split; [done|]. split; [|done].
      apply (app_inv_head (written w)). change (wire OfPing) with (encode_record (mkRecord RECORD_PING 0 [])).
      rewrite <- Hwire, Hw1. by rewrite app_nil_r.
Qed.

Lemma turn_progress i w u w' u' r :
  Forall is_media (items (media u)) -> turn i w u = (w', u', r) -> turned [Turn i] w u w' u' r.
Proof.
  intros Hty Ht. unfold turn in Ht.
  destruct (cancelled u); [injection Ht as <- <- <-; by apply idle_progress|].
  destruct (from_reader i) as [[rec| |]|]; [|injection Ht as <- <- <-; by apply idle_progress..|].
  { cbn [on_incoming] in Ht. destruct (record_type rec =? RECORD_PING).
    { injection Ht as <- <- <-. apply pong_progress. }
    repeat case_match; injection Ht as <- <- <-; by apply idle_progress. }
  destruct (q_recv (motion u)) as [q [m|]] eqn:Hq.
  { apply recv_front in Hq. unfold on_motion in Ht.
    eapply (send_one i (OfMotion (now_ms i) m)); [exact Ht|..]; try done.
    unfold rtp_count, gap_count. cbn. lia. }
  apply recv_empty in Hq as [Hq Hq'].
  destruct (q_recv (media (with_queues (media u) q u))) as [qm [m|]] eqn:Hqm; cbn [media with_queues] in Hqm.
  { apply recv_front in Hqm. rewrite Hqm in Hty. apply Forall_cons in Hty as [Hm _].
    eapply on_media_progress; [exact Ht|done|done|cbn; congruence|done]. }
  apply recv_empty in Hqm as [Hqm Hqm'].
  destruct (ping_due i).
  - eapply (send_one i OfPing); [exact Ht|cbn; congruence..|done|done|].
    unfold rtp_count, gap_count. cbn. lia.
  - injection Ht as <- <- <-. exists [], [], [], []. split; [|by auto].
    constructor; cbn; rewrite ?app_nil_r; auto; try congruence; unfold rtp_count, gap_count; cbn; lia.
Qed.

Lemma send_media_progress e m w u :
  omap offered_media [e] = [m] -> omap offered_motion [e] = [] ->
  turned [e] w u w (send_media m u) Continue.
Proof.
  intros He Hn. unfold send_media. destruct (q_send m (media u)) as [q [|]] eqn:Hs.
  - apply send_accepted in Hs. exists [], [m], [], []. split; [|by auto].
    constructor; rewrite ?He, ?Hn; cbn; rewrite ?app_nil_r; auto; unfold rtp_count, gap_count; cbn; lia.
  - apply send_refused in Hs. exists [], [], [], []. split; [|by auto].
    constructor; rewrite ?He, ?Hn; cbn; rewrite ?app_nil_r; auto; try (unfold rtp_count, gap_count; cbn; lia).
    apply sublist_nil_l.
Qed.

Lemma step_progress e w u w' u' r :
  Forall is_media (items (media u)) -> step e w u = (w', u', r) -> turned [e] w u w' u' r.
Proof.
  intros Hty. destruct e as [i|id b|id l n|m| |id s p]; cbn [step call].
  - by apply turn_progress.
  - intros [= <- <- <-]. by apply send_media_progress.
  - intros [= <- <- <-]. by apply send_media_progress.
  - intros [= <- <- <-]. exists [], [], [], []. split; [|by auto]. unfold send_motion.
    destruct (q_send m (motion u)) as [q ok] eqn:Hs.
    pose proof (accepts m (motion u)) as Hok. rewrite Hs in Hok. cbn in Hok. subst ok.
    apply send_accepted in Hs.
    constructor; cbn; rewrite ?app_nil_r; auto; unfold rtp_count, gap_count; cbn; lia.
  - intros [= <- <- <-]. exists [], [], [], []. split; [|by auto].
    constructor; cbn; rewrite ?app_nil_r; auto; unfold rtp_count, gap_count; cbn; lia.
  - intros [= <- <- <-]. exists [], [], [], []. split; [|by auto].
    constructor; cbn; rewrite ?app_nil_r; auto; unfold rtp_count, gap_count; cbn; lia.
Qed.

Lemma progress_typed es w u w' u' recs acc lost cut :
  progress es w u w' u' recs acc lost cut -> Forall is_media (items (media u)) ->
  Forall is_media (items (media u')).
Proof.
  intros P Hty. destruct P as [_ _ _ Hm _ Ha _ _ _ _].
  assert (Forall is_media (items (media u) ++ acc)) as Hall.
  { apply Forall_app. split; [done|]. apply Forall_forall. intros m Hin.
    pose proof (elem_of_sublist _ _ _ Hin Ha) as (e & _ & He)%list_elem_of_omap.
    destruct e; simplify_eq/=; [by left|by right]. }
  rewrite Hm in Hall. by do 2 apply Forall_app in Hall as [_ Hall].
Qed.

Lemma run_progress es w u w' u' r :
  Forall is_media (items (media u)) -> run es w u = (w', u', r) ->
  exists es1 es2, es = es1 ++ es2 /\ (r = Continue -> es2 = []) /\ turned es1 w u w' u' r.
Proof.
  revert w u. induction es as [|e es IH]; intros w u Hty; cbn [run].
  { intros [= <- <- <-]. exists [], []. split; [done|]. split; [done|]. by apply idle_progress. }
  destruct (step e w u) as [[w1 u1] [|]] eqn:Hs.
  2:{ intros [= <- <- <-]. exists [e], es. split; [done|]. split; [done|]. by apply step_progress. }
  pose proof (step_progress _ _ _ _ _ _ Hty Hs) as (r1 & a1 & l1 & c1 & P1 & Hl & _).
  rewrite (Hl eq_refl) in P1. intros Hr.
  destruct (IH _ _ (progress_typed _ _ _ _ _ _ _ _ _ P1 Hty) Hr) as (es1 & es2 & -> & Hes & Ht).
  destruct Ht as (r2 & a2 & l2 & c2 & P2 & Hl2 & Hlen).
  destruct (progress_app _ _ _ _ _ _ _ _ _ _ _ _ _ _ _ P1 P2) as [c P].
  exists (e :: es1), es2. split; [done|]. split; [done|]. by exists (r1 ++ r2), (a1 ++ a2), l2, c.
Qed.
End progress.

Lemma delays_step a l b : delays (a :: l) b = (after_attempt a b).1 :: delays l (after_attempt a b).2.
Proof. cbn. by destruct (after_attempt a b). Qed.

Lemma read_records_ok {R E} `{AsyncReadLaws R E} recs rest r :
  Forall record_wf recs -> bytes_ok rest -> pending r = concat (encode_record <$> recs) ++ rest ->
  exists r', read_records (length recs) r = (r', Ok recs) /\ pending r' = rest.
Proof.
  intros Hwf Hrest. revert r. induction Hwf as [|rec recs Hrec Hwf IH]; intros r Hp; cbn [length read_records].
  - by exists r.
  - rewrite fmap_cons in Hp. cbn [concat] in Hp. rewrite <- app_assoc in Hp.
    assert (bytes_ok (concat (encode_record <$> recs))) as Hcat.
    { clear -Hwf. induction Hwf; [constructor|]. rewrite fmap_cons. apply Forall_app. auto using encode_record_bytes_ok. }
    pose proof (read_record_decode r) as Hd. rewrite Hp, decode_encode_record in Hd by done.
    destruct Hd as (r1 & Hr1 & Hp1).
    { apply Forall_app. split; [by apply encode_record_bytes_ok|]. by apply Forall_app. }
    rewrite (st_bind_ok _ _ _ _ _ Hr1). destruct (IH r1 Hp1) as (r2 & Hr2 & Hp2).
    exists r2. by rewrite (st_bind_ok _ _ _ _ _ Hr2).
Qed.

(** ** Properties *)

(** A connection's run, whatever the interleaving of its task with the
    producers and however it ends, is exact: the wire holds whole records, each
    the encoding of a message taken from a queue or of a ping, followed by the
    bytes of a record cut short when the stream failed; the accepted media
    and the motion events leave their queues in order, each one once; at most
    one message in flight is lost, and none while the connection lives; the
    counters count what was sent, and every refused media message is counted
    as dropped. *)
Theorem uplink_exact {W E QM QE} `{FailStop W E} `{QueueLaws QM Msg} `{QueueLaws QE MotionEnvelope}
    `{!Unbounded QE MotionEnvelope} `{Rfc3339} `{ToJson EventPayload}
    (es : list event) (w w' : W) (u u' : uplink) (r : turn_result) :
  Forall is_media (items (media u)) -> run es w u = (w', u', r) ->
  exists es1 es2 recs acc lost cut,
    es = es1 ++ es2 /\ (r = Continue -> es2 = [] /\ lost = []) /\ (length lost <= 1)%nat /\
    written w' = written w ++ concat (wire <$> recs) ++ cut /\ (cut = [] \/ broken w') /\
    items (media u) ++ acc = omap media_of (recs ++ lost) ++ items (media u') /\
    items (motion u) ++ omap offered_motion es1 = omap motion_of (recs ++ lost) ++ items (motion u') /\
    acc `sublist_of` omap offered_media es1 /\
    dropped u' = dropped u + Z.of_nat (length (omap offered_media es1) - length acc) /\
    rtp_sent u' = rtp_sent u + rtp_count recs /\ gap_sent u' = gap_sent u + gap_count recs /\
    motion_sent u' = motion_sent u + Z.of_nat (length (omap motion_of recs)).
Proof.
  intros Hty Hr. destruct (run_progress es w u w' u' r Hty Hr) as (es1 & es2 & -> & Hes & recs & acc & lost & cut & P & Hl & Hlen).
  exists es1, es2, recs, acc, lost, cut. destruct P as [Hw Hc _ Hm He Ha Hd Hrt Hg Hv].
  rewrite !omap_app, <- !app_assoc. repeat split; auto.
Qed.

(** The records one side writes are read back by [read_record] unchanged
    and in order, whatever follows them; [read_record] is total and implements
    the reference decoder: a length over the limit is refused before the
    payload is read, and a stream that ends inside a record is an error. *)
Theorem read_record_refines_decoder {R E} `{AsyncReadLaws R E} (r : R) :
  bytes_ok (pending r) ->
  match decode_record (pending r) with
  | RFrame rec rest => exists r', read_record r = (r', Ok rec) /\ pending r' = rest
  | RTruncated => exists r' e, read_record r = (r', Err (UpIo e))
  | RTooLarge len => exists r', read_record r = (r', Err (RecordTooLarge len))
  end /\
  (forall recs rest, Forall record_wf recs -> bytes_ok rest ->
     pending r = concat (encode_record <$> recs) ++ rest ->
     exists r', read_records (length recs) r = (r', Ok recs) /\ pending r' = rest).
Proof. intros Hok. split; [by apply read_record_decode|]. intros recs rest Hwf Hb. by apply read_records_ok. Qed.

(** The waits between connections: from one second, doubling with every
    connection that could not be set up, never over thirty; one second after a
    rejected HELLO or a session that ended. *)
Theorem backoff_bounds (l : list attempt) (a : attempt) (n : nat) :
  Forall (fun d => 1 <= d <= 30) (delays l 1) /\
  (a = TlsConfigFailed \/ a = ConnectFailed \/ a = HandshakeFailed ->
   delays (replicate n a) 1 = map (fun i => Z.min (2 ^ Z.of_nat i) 30) (seq 0 n)) /\
  (forall b, (after_attempt HelloFailed b).1 = 1 /\ (after_attempt SessionEnded b).1 = 1).
Proof.
  split; [|split; [|done]].
  - assert (forall b, 1 <= b <= 30 -> Forall (fun d => 1 <= d <= 30) (delays l b)) as Hall; [|apply Hall; lia].
    induction l as [|x l IH]; intros b Hb; [constructor|]. rewrite delays_step.
    constructor; [destruct x; cbn; lia|]. apply IH. destruct x; unfold after_attempt, double; cbn [snd]; lia.
  - intros Ha. assert (forall k, delays (replicate n a) (Z.min (2 ^ Z.of_nat k) 30)
      = map (fun i => Z.min (2 ^ Z.of_nat i) 30) (seq k n)) as Hall; [|exact (Hall 0%nat)].
    induction n as [|n IH]; intros k; [done|]. cbn [replicate seq map]. rewrite delays_step.
    assert (after_attempt a (Z.min (2 ^ Z.of_nat k) 30) = (Z.min (2 ^ Z.of_nat k) 30, Z.min (2 ^ Z.of_nat (S k)) 30)) as ->.
    { rewrite Nat2Z.inj_succ, Z.pow_succ_r by lia.
      destruct Ha as [->|[->| ->]]; unfold after_attempt, double; f_equal; lia. }
    cbn [fst snd]. by rewrite IH.
Qed.

(** ** Witnesses *)
Module UplinkWitness.
(** A connection that accepts [room] more bytes, then fails. *)
Record limited := mkLimited { log : bytes; room : nat }.
Inductive io_error := Reset.
#[export] Instance limited_write : AsyncWrite limited io_error := {
  write_all w b :=
    if decide (length b <= room w)%nat then (mkLimited (log w ++ b) (room w - length b), inr tt)
    else (mkLimited (log w ++ take (room w) b) 0, inl Reset);
  flush_writer w := (w, inr tt);
}.
#[export] Program Instance limited_laws : AsyncWriteLaws limited io_error := { written := log }.
Next Obligation. intros w b w' Hw. cbn in Hw. case_decide; by simplify_eq/=. Qed.
Next Obligation. intros w b w' e Hw. cbn in Hw. case_decide; simplify_eq/=. by eexists. Qed.
Next Obligation. intros w w' res [= <- <-]. done. Qed.
#[export] Program Instance limited_fail_stop : FailStop limited io_error := { broken w := room w = 0%nat }.
Next Obligation. intros w b w' e Hw. cbn in Hw. case_decide; by simplify_eq/=. Qed.
Next Obligation. intros w w' e [=]. Qed.
Next Obligation.
  intros w b Hr Hb. cbn in *. destruct b as [|x b]; [done|]. rewrite Hr, decide_False by (cbn; lia).
  eexists _, _. split; [done|]. cbn. by rewrite app_nil_r.
Qed.

(** A queue of two media messages, and an unbounded one of events. *)
#[export] Instance media_queue : Queue (list Msg) Msg := {
  q_send a q := if (length q <? 2)%nat then (q ++ [a], true) else (q, false);
  q_recv q := match q with a :: q => (q, Some a) | [] => ([], None) end;
}.
#[export] Program Instance media_queue_laws : QueueLaws (list Msg) Msg := { items q := q }.
Next Obligation. intros a q q' Hs. cbn in Hs. case_match; by simplify_eq. Qed.
Next Obligation. intros a q q' Hs. cbn in Hs. case_match; by simplify_eq. Qed.
Next Obligation. intros q q' a Hs. destruct q; by simplify_eq/=. Qed.
Next Obligation. intros q q' Hs. destruct q; by simplify_eq/=. Qed.
#[export] Instance event_queue : Queue (list MotionEnvelope) MotionEnvelope := {
  q_send a q := (q ++ [a], true);
  q_recv q := match q with a :: q => (q, Some a) | [] => ([], None) end;
}.
#[export] Program Instance event_queue_laws : QueueLaws (list MotionEnvelope) MotionEnvelope := { items q := q }.
Next Obligation. intros a q q' [= <-]. done. Qed.
Next Obligation. intros a q q' [=]. Qed.
Next Obligation. intros q q' a Hs. destruct q; by simplify_eq/=. Qed.
Next Obligation. intros q q' Hs. destruct q; by simplify_eq/=. Qed.
#[export] Instance event_queue_unbounded : Unbounded (list MotionEnvelope) MotionEnvelope.
Proof. intros a q. done. Qed.
#[export] Instance no_dates : Rfc3339 := fun _ => None.
#[export] Instance empty_json : ToJson EventPayload := fun _ => [123; 125].

Definition start : uplink (QM:=list Msg) (QE:=list MotionEnvelope) := mkUplink [] [] 0 0 0 0 false ∅.
Definition idle : ready := mkReady None false 1000.
Definition cell_motion : MotionEnvelope := mkEnvelope 7 (lit "cell") true [] (lit "cam") [].
(** Three packets for a queue of two, an event that overtakes them, and a
    connection that fails inside the second packet's record. *)
Definition events : list event :=
  [SendRtp 7 [1]; SendGap 7 1 2; SendRtp 7 [3]; SendMotion cell_motion; Turn idle; Turn idle; Turn idle; Turn idle].

Definition w' : limited := mkLimited [3; 0; 0; 0; 0; 2; 123; 125; 2; 0; 0; 0; 0; 5; 0; 0; 0; 7; 1; 8; 0; 0; 0; 0] 0.
Definition u' : uplink (QM:=list Msg) (QE:=list MotionEnvelope) := mkUplink [] [] 1 0 1 1 false ∅.
Lemma uplink_exact_witness :
  exists es1 es2 recs acc lost cut,
    events = es1 ++ es2 /\ (Break = Continue -> es2 = [] /\ lost = []) /\ (length lost <= 1)%nat /\
    log w' = [] ++ concat (wire <$> recs) ++ cut /\ (cut = [] \/ room w' = 0%nat) /\
    [] ++ acc = omap media_of (recs ++ lost) ++ media u' /\
    [] ++ omap offered_motion es1 = omap motion_of (recs ++ lost) ++ motion u' /\
    acc `sublist_of` omap offered_media es1 /\
    dropped u' = dropped start + Z.of_nat (length (omap offered_media es1) - length acc) /\
    rtp_sent u' = rtp_sent start + rtp_count recs /\ gap_sent u' = gap_sent start + gap_count recs /\
    motion_sent u' = motion_sent start + Z.of_nat (length (omap motion_of recs)).
Proof.
  exact (uplink_exact (W:=limited) (E:=io_error) events (mkLimited [] 24) w' start u' Break
    ltac:(exact (Forall_nil_2 _)) ltac:(vm_compute; reflexivity)).
Defined.

Import ListStream.
Lemma read_record_refines_decoder_witness :
  read_record (encode_record (mkRecord RECORD_PING 0 []) ++ encode_record (mkRecord RECORD_CLOSE 0 [9]))
    = (encode_record (mkRecord RECORD_CLOSE 0 [9]), Ok (E:=uplink_error eof) (mkRecord RECORD_PING 0 [])) /\
  match decode_record (encode_record (mkRecord RECORD_PING 0 [])) with
  | RFrame rec rest => exists r', read_record (encode_record (mkRecord RECORD_PING 0 []))
                                  = (r', Ok (E:=uplink_error eof) rec) /\ pending (E:=eof) r' = rest
  | RTruncated => exists r' e, read_record (encode_record (mkRecord RECORD_PING 0 []))
                               = (r', Err (E:=uplink_error eof) (UpIo e))
  | RTooLarge len => exists r', read_record (encode_record (mkRecord RECORD_PING 0 []))
                               = (r', Err (E:=uplink_error eof) (RecordTooLarge len))
  end.
Proof.
  split; [vm_compute; reflexivity|].
  refine (proj1 (read_record_refines_decoder (E:=eof) (encode_record (mkRecord RECORD_PING 0 [])) _)).
  by_eval.
Defined.

Lemma backoff_bounds_witness :
  delays [ConnectFailed; HandshakeFailed; ConnectFailed; ConnectFailed; ConnectFailed; ConnectFailed; HelloFailed] 1
    = [1; 2; 4; 8; 16; 30; 1] /\
  delays (replicate 7 ConnectFailed) 1 = map (fun i => Z.min (2 ^ Z.of_nat i) 30) (seq 0 7).
Proof.
  split; [reflexivity|]. apply (proj1 (proj2 (backoff_bounds [] ConnectFailed 7))). right. left. reflexivity.
Defined.
End UplinkWitness.
