(* ===== verification/Config.v ===== *)
(** * The agent's configuration ([config/agent_config.rs])

    A configuration is a JSON value: read from two files, merged with updates
    of the server, checked, and turned into the table of runtime variables the
    rest of the agent reads.  [Value] is serde_json's type, its objects
    association lists in the order of the keys; printing and parsing JSON, URLs
    and the file system are parameters. *)
From S2P Require Import Prelude Str Pipeline.
From Stdlib Require Import Sorting.Sorted.
Delimit Scope string_scope with string.

(** ** JSON values

    A number is an integer, or carries the text it is printed as. *)
#[local] Unset Elimination Schemes.
Inductive Value :=
| Null
| Bool (b : bool)
| Number (n : Z)
| Float (printed : str)
| String (s : str)
| Array (l : list Value)
| Object (m : list (str * Value)).
#[local] Set Elimination Schemes.
Abbreviation Map := (list (str * Value)).

(** Keys are ordered as byte strings, which is the order of their characters. *)
Fixpoint str_ltb (a b : str) : bool :=
  match a, b with
  | _, [] => false
  | [], _ :: _ => true
  | x :: a, y :: b => (x <? y) || ((x =? y) && str_ltb a b)
  end.

Fixpoint obj_get (k : str) (m : Map) : option Value :=
  match m with
  | [] => None
  | (k', v) :: m => if bool_decide (k = k') then Some v else obj_get k m
  end.
Fixpoint obj_insert (k : str) (v : Value) (m : Map) : Map :=
  match m with
  | [] => [(k, v)]
  | (k', v') :: m' =>
      if bool_decide (k = k') then (k, v) :: m'
      else if str_ltb k k' then (k, v) :: m
      else (k', v') :: obj_insert k v m'
  end.
Definition obj_remove (k : str) (m : Map) : Map := filter (fun kv => kv.1 <> k) m.

(** [o.and_then(f)] *)
Notation "o ?> f" := (mbind (M:=option) f o) (at level 61, left associativity).

(** [Value::get], [as_str], [as_bool], [as_u64], [as_array], [as_object] *)
Definition get (k : String.string) (v : Value) : option Value :=
  match v with Object m => obj_get (lit k) m | _ => None end.
Definition as_str (v : Value) : option str := match v with String s => Some s | _ => None end.
Definition as_bool (v : Value) : option bool := match v with Bool b => Some b | _ => None end.
Definition as_u64 (v : Value) : option Z :=
  match v with Number n => if (0 <=? n) && (n <=? u64_max) then Some n else None | _ => None end.
Definition as_array (v : Value) : option (list Value) := match v with Array l => Some l | _ => None end.
(** [value.get(k).unwrap_or(&Value::Null)] *)
Definition section (v : Value) (k : String.string) : Value := default Null (get k v).
Definition or_else {A} (a b : option A) : option A := match a with Some _ => a | None => b end.
Definition blank (s : str) : bool := bool_decide (trim s = []).

(** ** What the code uses of the URL parser and of the JSON printer *)
Inductive Host := Domain (d : str) | Ipv4 (loopback : bool) | Ipv6 (loopback : bool).
Record Url := mkUrl {
  scheme : str; host : option Host; host_str : option str; port : option Z;
  port_or_known_default : option Z; url_path : str; url_text : str }.
Class UrlParser := parse_url : str -> option Url.
Class JsonText := { to_string : Value -> str; to_string_pretty : Value -> str; from_str : str -> option Value }.

(** ** Settings *)
Record MotionConfig := mkMotionConfig { m_enabled : bool }.
Record ServerConfig := mkServerConfig {
  s_enabled : bool; base_url : str; bearer_token : str; retry_interval_secs : Z; max_retries : Z }.
Record CleanupConfig := mkCleanup { interval_secs : Z; min_free_bytes : Z }.
Record AgentConfig := mkAgentConfig {
  camera_id : str; motion : MotionConfig; server : ServerConfig; cleanup : CleanupConfig }.

Definition base_url_prefix (s : ServerConfig) : str := trim_end_matches 47 (base_url s).
Definition default_config : AgentConfig :=
  mkAgentConfig (lit "unknown-camera") (mkMotionConfig true)
    (mkServerConfig false (lit "http://127.0.0.1:8080") (lit "devtoken") 2 5)
    (mkCleanup 30 2000000000).

Definition value_to_string (v : Value) : option str :=
  match v with
  | Null => None
  | String s => if blank s then None else Some s
  | Number n => Some (if n <? 0 then 45 :: dec (- n) else dec n)
  | Float printed => Some printed
  | Bool true => Some (lit "1")
  | Bool false => Some (lit "0")
  | Array _ | Object _ => None
  end.
Definition parse_bool (v : str) : option bool :=
  let v := trim v in
  if bool_decide (v ∈ [lit "1"; lit "true"; lit "TRUE"; lit "yes"; lit "YES"]) then Some true
  else if bool_decide (v ∈ [lit "0"; lit "false"; lit "FALSE"; lit "no"; lit "NO"]) then Some false
  else None.
Definition bool_to_runtime_string (b : bool) : str := if b then lit "1" else lit "0".
Fixpoint has_non_null (v : Value) : bool :=
  match v with
  | Null => false
  | Array items => existsb has_non_null items
  | Object m => existsb (fun kv => has_non_null kv.2) m
  | _ => true
  end.

Definition merge_string (v : Value) (k : String.string) (d : str) : str :=
  match get k v ?> as_str with Some s => if blank s then d else s | None => d end.
Definition merge_bool (v : Value) (k : String.string) (d : bool) : bool := default d (get k v ?> as_bool).
Definition merge_u64 (v : Value) (k : String.string) (d : Z) : Z := default d (get k v ?> as_u64).

Definition motion_enabled_value (v : Value) : option bool :=
  or_else (get "motion" v ?> get "enabled" ?> as_bool) (get "motion_enabled" v ?> as_bool).

(** The first element of [cameras]. *)
Definition first_camera (v : Value) : option Value := get "cameras" v ?> as_array ?> head.
Definition merge_camera_id (v : Value) (d : str) : str :=
  let direct := merge_string v "camera_id" d in
  if negb (bool_decide (direct = d)) then direct
  else match first_camera v ?> get "id" ?> as_str with
       | Some id => if blank id then direct else id
       | None => direct
       end.
Definition merge_motion_enabled (v : Value) (d : bool) : bool :=
  default d (or_else (motion_enabled_value v) (first_camera v ?> motion_enabled_value)).

(** ** Merging *)
Fixpoint merge_value (base update : Value) {struct update} : Value :=
  match base, update with
  | Object base_map, Object update_map =>
      Object ((fix merge_into (base_map update_map : Map) {struct update_map} : Map :=
        match update_map with
        | [] => base_map
        | (key, value) :: update_map =>
            merge_into (match obj_get key base_map with
                        | Some existing => obj_insert key (merge_value existing value) base_map
                        | None => obj_insert key value base_map
                        end) update_map
        end) base_map update_map)
  | _, _ => update
  end.

Definition has_canonical_cameras (v : Value) : bool := bool_decide (is_Some (get "cameras" v ?> as_array)).

Definition legacy_keys : list str := map lit
  ["camera_id"; "user"; "pass"; "stream_id"; "transport"; "motion"; "motion_enabled"; "features";
   "local_clip_enabled"; "rtsp_receiver_enabled"; "rtsp"; "rtsp_url"; "rtsp_host"; "rtsp_port"; "rtsp_path";
   "rtsp_user"; "rtsp_pass"; "rtp_port"; "rtcp_port"; "onvif"; "onvif_url"; "onvif_host"; "onvif_port";
   "onvif_user"; "onvif_pass"; "onvif_debug"; "onvif_dump_xml"; "onvif_sub_termination";
   "onvif_renew_every_secs"; "onvif_pull_timeout"; "onvif_pull_limit"; "onvif_resubscribe_after_errors";
   "onvif_min_poll_gap_ms"; "onvif_after_sub_delay_ms"; "onvif_connrefused_retries";
   "onvif_connrefused_backoff_ms"; "cam1_camera_id"; "cam1_stream_id"; "cam1_transport"; "cam1_rtsp_url";
   "cam1_rtsp_user"; "cam1_rtsp_pass"; "cam1_rtp_port"; "cam1_rtcp_port"; "cam2_camera_id"; "cam2_stream_id";
   "cam2_transport"; "cam2_rtsp_url"; "cam2_rtsp_user"; "cam2_rtsp_pass"; "cam2_rtp_port"; "cam2_rtcp_port"]%string.
(** [to_lowercase], as far as a comparison with an ASCII key can tell: beside
    the ASCII capitals only the Kelvin sign has an ASCII letter for it. *)
Definition lower_char (c : Z) : Z := if c =? 0x212A then 107 else ascii_lower c.
Definition is_legacy (k : str) : bool := bool_decide (map lower_char k ∈ legacy_keys).
Definition strip_top_level_legacy_camera_fields (v : Value) : Value :=
  match v with Object m => Object (filter (fun kv => is_legacy kv.1 = false) m) | _ => v end.

(** What [merge_remote_camera_json] makes of the file's value. *)
Definition merge_remote (current update : Value) : Value :=
  if has_canonical_cameras update then
    merge_value (strip_top_level_legacy_camera_fields current) (strip_top_level_legacy_camera_fields update)
  else merge_value current update.

(** ** The server's address *)
Section urls.
Context `{UrlParser} `{JsonText}.

Inductive url_error := EmptyUrl | InvalidUrl | MissingHost | InsecureHttp | UnsupportedScheme (s : str).
Definition is_local_server_host (h : Host) : bool :=
  match h with
  | Domain d => eq_ignore_ascii_case d (lit "localhost")
  | Ipv4 loopback | Ipv6 loopback => loopback
  end.
Definition validate_server_base_url (base_url : str) (allow_insecure_http : bool) : outcome url_error str :=
  let trimmed := trim base_url in
  bail_if (bool_decide (trimmed = [])) EmptyUrl ;;
  parsed ← ok_or (parse_url trimmed) InvalidUrl;
  h ← ok_or (host parsed) MissingHost;
  if bool_decide (scheme parsed = lit "https") then Ok (url_text parsed)
  else if bool_decide (scheme parsed = lit "http") then
    if allow_insecure_http || is_local_server_host h then Ok (url_text parsed) else Err InsecureHttp
  else Err (UnsupportedScheme (scheme parsed)).

(** [override] is the runtime variable, [env] the process's. *)
Definition allow_insecure_server_http (override env : option str) : bool :=
  default false (or_else (override ?> parse_bool) (env ?> parse_bool)).

Definition validate_server_base_url_in_config_value (allow : bool) (v : Value) : outcome url_error unit :=
  match get "server" v ?> get "base_url" ?> as_str with
  | Some u => if bool_decide (trim u = []) then Ok tt
              else (validate_server_base_url (trim u) allow ;; mret tt)
  | None => Ok tt
  end.

Definition merge_server_camera_configs (allow : bool) (camera_value server_value : Value) : outcome url_error Value :=
  validate_server_base_url_in_config_value allow server_value ;;
  mret (match get "server" server_value with
        | Some s =>
            if has_non_null s then
              match camera_value with Object m => Object (obj_insert (lit "server") s m) | _ => camera_value end
            else camera_value
        | None => camera_value
        end).

Definition wrap_u32 (n : Z) : Z := wrap32 n.
Definition merge_with_defaults (allow : bool) (v : Value) : outcome url_error AgentConfig :=
  let d := default_config in
  let server_val := section v "server" in
  let cleanup_val := section v "cleanup" in
  let motion_enabled := merge_motion_enabled v (m_enabled (motion d)) in
  base_url ← validate_server_base_url (merge_string server_val "base_url" (base_url (server d))) allow;
  mret (mkAgentConfig (merge_camera_id v (camera_id d))
    (mkMotionConfig (merge_bool (section v "motion") "enabled" motion_enabled))
    (mkServerConfig (merge_bool server_val "enabled" (s_enabled (server d))) base_url
       (merge_string server_val "bearer_token" (bearer_token (server d)))
       (merge_u64 server_val "retry_interval_secs" (retry_interval_secs (server d)))
       (wrap_u32 (merge_u64 server_val "max_retries" (max_retries (server d)))))
    (mkCleanup (merge_u64 cleanup_val "interval_secs" (interval_secs (cleanup d)))
       (merge_u64 cleanup_val "min_free_bytes" (min_free_bytes (cleanup d))))).

(** ** The addresses of a camera *)
Definition non_blank (o : option str) : option str := o ?> fun s => if blank s then None else Some s.
Definition build_rtsp_url (rtsp : Value) : option str :=
  match non_blank (get "url" rtsp ?> as_str) with
  | Some url => Some url
  | None =>
      host ← non_blank (get "host" rtsp ?> as_str);
      let port := default 554 (get "port" rtsp ?> as_u64) in
      let path := default [] (get "path" rtsp ?> as_str) in
      let path := match path with [] => [] | c :: _ => if c =? 47 then path else 47 :: path end in
      Some (lit "rtsp://" ++ host ++ 58 :: dec port ++ path)
  end.
Definition rtsp_host (rtsp : Value) : option str :=
  match non_blank (get "host" rtsp ?> as_str) with
  | Some h => Some h
  | None => url ← build_rtsp_url rtsp; parsed ← parse_url url; host_str parsed
  end.
Definition rtsp_port (rtsp : Value) : option str :=
  match get "port" rtsp ?> value_to_string with
  | Some p => Some p
  | None => url ← build_rtsp_url rtsp; parsed ← parse_url url; Some (dec (default 554 (port parsed)))
  end.
Definition rtsp_path (rtsp : Value) : option str :=
  match non_blank (get "path" rtsp ?> as_str) with
  | Some p => Some p
  | None => url ← build_rtsp_url rtsp; parsed ← parse_url url; non_blank (Some (url_path parsed))
  end.
Definition onvif_host (onvif : Value) : option str :=
  match non_blank (get "host" onvif ?> as_str) with
  | Some h => Some h
  | None => url ← get "url" onvif ?> as_str; parsed ← parse_url url; host_str parsed
  end.
Definition onvif_port (onvif : Value) : option str :=
  match get "port" onvif ?> value_to_string with
  | Some p => Some p
  | None => url ← get "url" onvif ?> as_str; parsed ← parse_url url;
      Some (dec (default 2020 (port_or_known_default parsed)))
  end.
End urls.

(** ** Runtime variables

    A call of one of the [set_map_if_*] functions: the variable, its value if
    there is one, and whether an earlier value stays. *)
Abbreviation vars := (gmap str str).
Record setting := mkSetting { key : str; value : option str; only_unset : bool }.
Definition apply_setting (m : vars) (s : setting) : vars :=
  match value s with
  | Some v => if only_unset s && bool_decide (is_Some (m !! key s)) then m else <[key s := v]> m
  | None => m
  end.
Definition set_map_if_value (k : str) (v : option Value) : setting := mkSetting k (v ?> value_to_string) false.
Definition set_map_if_unset (k : str) (v : option Value) : setting := mkSetting k (v ?> value_to_string) true.
Definition set_map_if_string (k : str) (v : option str) : setting := mkSetting k (non_blank v) false.
Definition set_map_if_unset_string (k : str) (v : option str) : setting := mkSetting k (non_blank v) true.
Definition set_map_if_bool (k : str) (v : option bool) : setting :=
  mkSetting k (bool_to_runtime_string <$> v) false.
Definition set_map_if_unset_bool (k : str) (v : option bool) : setting :=
  mkSetting k (bool_to_runtime_string <$> v) true.

Section overrides.
Context `{UrlParser} `{JsonText}.

Definition compact_json_string (v : Value) : option str := Some (to_string v).

Definition server_settings (v : Value) : list setting :=
  let server := section v "server" in
  let cleanup := section v "cleanup" in
  [ set_map_if_value (lit "CAMERA_ID") (get "camera_id" v);
    set_map_if_value (lit "AGENT_ID") (get "agent_id" v);
    set_map_if_value (lit "SERVER_ENABLED") (get "enabled" server);
    set_map_if_value (lit "SERVER_BASE_URL") (get "base_url" server);
    set_map_if_value (lit "SERVER_BEARER_TOKEN") (get "bearer_token" server);
    set_map_if_unset (lit "AGENT_TOKEN") (get "bearer_token" server);
    set_map_if_unset (lit "SERVER_TOKEN") (get "bearer_token" server);
    set_map_if_value (lit "SERVER_RETRY_INTERVAL_SECS") (get "retry_interval_secs" server);
    set_map_if_value (lit "SERVER_MAX_RETRIES") (get "max_retries" server);
    set_map_if_value (lit "CLIP_CLEANUP_INTERVAL_SECS") (get "interval_secs" cleanup);
    set_map_if_value (lit "CLIP_MIN_FREE_BYTES") (get "min_free_bytes" cleanup) ].

Definition ingest_settings (v : Value) : list setting :=
  let ingest := section v "ingest" in
  [ set_map_if_unset (lit "CLIP_DIR") (get "clip_dir" ingest);
    set_map_if_value (lit "CLIP_PRE_SECS") (get "clip_pre_secs" ingest);
    set_map_if_value (lit "CLIP_POST_SECS") (get "clip_post_secs" ingest);
    set_map_if_value (lit "CLIP_RING_SECS") (get "clip_ring_secs" ingest);
    set_map_if_unset (lit "CLIP_STALE_PART_SECS") (get "clip_stale_part_secs" ingest);
    set_map_if_unset (lit "CLIP_MAX_SECS") (get "clip_max_secs" ingest);
    set_map_if_unset (lit "CLIP_WRITE_TIMEOUT_MS") (get "clip_write_timeout_ms" ingest);
    set_map_if_unset (lit "CLIP_WRITE_RETRY_COUNT") (get "clip_write_retry_count" ingest);
    set_map_if_unset (lit "CLIP_WRITE_RETRY_BACKOFF_MS") (get "clip_write_retry_backoff_ms" ingest);
    set_map_if_value (lit "LIVE_PIPELINE_VERSION") (get "live_pipeline_version" ingest);
    set_map_if_value (lit "LIVE_HLS_SEGMENT_SECS") (get "live_hls_segment_secs" ingest);
    set_map_if_value (lit "LIVE_HLS_WINDOW_SECS") (get "live_hls_window_secs" ingest) ].

Definition forward_settings (v : Value) : list setting :=
  let forward := section v "forward_agent" in
  let logging := section v "logging" in
  let version := section v "version" in
  [ set_map_if_value (lit "AGENT_MODE") (get "mode" forward);
    set_map_if_value (lit "SERVER_ADDR") (get "server_addr" forward);
    set_map_if_value (lit "MOTION_MERGE_SECS") (get "motion_merge_secs" forward);
    set_map_if_value (lit "HEARTBEAT_INTERVAL_SECS") (get "heartbeat_interval_secs" forward);
    set_map_if_value (lit "CONFIG_PULL_INTERVAL_SECS") (get "config_pull_interval_secs" forward);
    set_map_if_value (lit "RUST_LOG") (get "rust_log" logging);
    set_map_if_value (lit "SENTINEL_VERSION") (get "sentinel_version" version) ].

Definition camera_prefix (slot : Z) : str := lit "CAM" ++ dec slot ++ lit "_".
Definition cam_id (cam : Value) : option Value := or_else (get "camera_id" cam) (get "id" cam).
Definition cam_agent_id (cam : Value) : option Value := or_else (get "agent_id" cam) (cam_id cam).

(** The variables of the camera in a slot. *)
Definition camera_settings (slot : Z) (cam : Value) : list setting :=
  let name k := camera_prefix slot ++ lit k in
  let user := get "user" cam in
  let pass := get "pass" cam in
  let rtsp := section cam "rtsp" in
  let onvif := section cam "onvif" in
  let features := section cam "features" in
  [ set_map_if_value (name "CAMERA_ID") (cam_id cam);
    set_map_if_value (name "AGENT_ID") (cam_agent_id cam);
    set_map_if_value (name "STREAM_ID") (or_else (get "stream_id" rtsp) (get "stream_id" cam));
    set_map_if_value (name "TRANSPORT") (or_else (get "transport" cam) (get "transport" rtsp));
    set_map_if_string (name "RTSP_URL") (build_rtsp_url rtsp);
    set_map_if_string (name "RTSP_HOST") (rtsp_host rtsp);
    set_map_if_string (name "RTSP_PORT") (rtsp_port rtsp);
    set_map_if_string (name "RTSP_PATH") (rtsp_path rtsp);
    set_map_if_value (name "RTSP_USER") user;
    set_map_if_value (name "RTSP_PASS") pass;
    set_map_if_string (name "ONVIF_HOST") (onvif_host onvif);
    set_map_if_string (name "ONVIF_PORT") (onvif_port onvif);
    set_map_if_value (name "ONVIF_USER") user;
    set_map_if_value (name "ONVIF_PASS") pass;
    set_map_if_value (name "ONVIF_DEBUG") (get "debug" onvif);
    set_map_if_value (name "ONVIF_DUMP_XML") (get "dump_xml" onvif);
    set_map_if_value (name "ONVIF_SUB_TERMINATION") (get "sub_termination" onvif);
    set_map_if_value (name "ONVIF_RENEW_EVERY_SECS") (get "renew_every_secs" onvif);
    set_map_if_value (name "ONVIF_PULL_TIMEOUT") (get "pull_timeout" onvif);
    set_map_if_value (name "ONVIF_PULL_LIMIT") (get "pull_limit" onvif);
    set_map_if_value (name "ONVIF_RESUBSCRIBE_AFTER_ERRORS") (get "resubscribe_after_errors" onvif);
    set_map_if_value (name "ONVIF_MIN_POLL_GAP_MS") (get "min_poll_gap_ms" onvif);
    set_map_if_value (name "ONVIF_AFTER_SUB_DELAY_MS") (get "after_sub_delay_ms" onvif);
    set_map_if_value (name "ONVIF_CONNREFUSED_RETRIES") (get "connrefused_retries" onvif);
    set_map_if_value (name "ONVIF_CONNREFUSED_BACKOFF_MS") (get "connrefused_backoff_ms" onvif);
    set_map_if_value (name "ONVIF_NIGHT_VISION_MODE") (get "night_vision" onvif ?> get "mode");
    set_map_if_value (name "ONVIF_MOTION_DETECTION_ENABLED") (get "motion_detection" onvif ?> get "enabled");
    set_map_if_string (name "ONVIF_MOTION_REGION_POINTS")
      (get "motion_detection" onvif ?> get "region" ?> get "points" ?> compact_json_string);
    set_map_if_bool (name "MOTION_ENABLED") (motion_enabled_value cam);
    set_map_if_value (name "LOCAL_CLIP_ENABLED") (get "local_clip_enabled" features);
    set_map_if_value (name "RTSP_RECEIVER_ENABLED") (get "rtsp_receiver_enabled" features) ].

(** The first camera also gives the variables of a single-camera agent. *)
Definition first_camera_settings (first : Value) : list setting :=
  let user := get "user" first in
  let pass := get "pass" first in
  let rtsp := section first "rtsp" in
  let onvif := section first "onvif" in
  let features := section first "features" in
  [ set_map_if_unset (lit "CAMERA_ID") (cam_id first);
    set_map_if_unset (lit "AGENT_ID") (cam_agent_id first);
    set_map_if_unset_bool (lit "MOTION_ENABLED") (motion_enabled_value first);
    set_map_if_unset (lit "LOCAL_CLIP_ENABLED") (get "local_clip_enabled" features);
    set_map_if_unset (lit "RTSP_RECEIVER_ENABLED") (get "rtsp_receiver_enabled" features);
    set_map_if_unset_string (lit "RTSP_URL") (build_rtsp_url rtsp);
    set_map_if_unset_string (lit "RTSP_HOST") (rtsp_host rtsp);
    set_map_if_unset_string (lit "RTSP_PORT") (rtsp_port rtsp);
    set_map_if_unset_string (lit "RTSP_PATH") (rtsp_path rtsp);
    set_map_if_unset (lit "CAM1_STREAM_ID") (get "stream_id" rtsp);
    set_map_if_unset (lit "RTSP_USER") user;
    set_map_if_unset (lit "RTSP_PASS") pass;
    set_map_if_unset_string (lit "ONVIF_HOST") (onvif_host onvif);
    set_map_if_unset_string (lit "ONVIF_PORT") (onvif_port onvif);
    set_map_if_unset (lit "ONVIF_USER") user;
    set_map_if_unset (lit "ONVIF_PASS") pass;
    set_map_if_unset (lit "ONVIF_DEBUG") (get "debug" onvif);
    set_map_if_unset (lit "ONVIF_DUMP_XML") (get "dump_xml" onvif);
    set_map_if_unset (lit "ONVIF_SUB_TERMINATION") (get "sub_termination" onvif);
    set_map_if_unset (lit "ONVIF_RENEW_EVERY_SECS") (get "renew_every_secs" onvif);
    set_map_if_unset (lit "ONVIF_PULL_TIMEOUT") (get "pull_timeout" onvif);
    set_map_if_unset (lit "ONVIF_PULL_LIMIT") (get "pull_limit" onvif);
    set_map_if_unset (lit "ONVIF_RESUBSCRIBE_AFTER_ERRORS") (get "resubscribe_after_errors" onvif);
    set_map_if_unset (lit "ONVIF_MIN_POLL_GAP_MS") (get "min_poll_gap_ms" onvif);
    set_map_if_unset (lit "ONVIF_AFTER_SUB_DELAY_MS") (get "after_sub_delay_ms" onvif);
    set_map_if_unset (lit "ONVIF_CONNREFUSED_RETRIES") (get "connrefused_retries" onvif);
    set_map_if_unset (lit "ONVIF_CONNREFUSED_BACKOFF_MS") (get "connrefused_backoff_ms" onvif);
    set_map_if_unset (lit "ONVIF_NIGHT_VISION_MODE") (get "night_vision" onvif ?> get "mode");
    set_map_if_unset (lit "ONVIF_MOTION_DETECTION_ENABLED") (get "motion_detection" onvif ?> get "enabled");
    set_map_if_unset_string (lit "ONVIF_MOTION_REGION_POINTS")
      (get "motion_detection" onvif ?> get "region" ?> get "points" ?> compact_json_string) ].

Fixpoint cameras_settings (slot : Z) (cams : list Value) : list setting :=
  match cams with
  | [] => []
  | cam :: cams => camera_settings slot cam ++ cameras_settings (slot + 1) cams
  end.

Definition all_settings (v : Value) : list setting :=
  server_settings v ++ ingest_settings v ++ forward_settings v ++
  match get "cameras" v ?> as_array with
  | Some cams => cameras_settings 1 cams ++ match cams with first :: _ => first_camera_settings first | [] => [] end
  | None => []
  end.
Definition install_runtime_overrides (v : Value) : vars := foldl apply_setting ∅ (all_settings v).

(** Reading a variable. *)
Definition runtime_var (k : str) (m : vars) : option str := m !! k.
Definition runtime_bool (k : str) (d : bool) (m : vars) : bool := default d (runtime_var k m ?> parse_bool).
Definition runtime_u64 (k : str) (d : Z) (m : vars) : Z := default d (runtime_var k m ?> parse_u64).
Definition runtime_u64_nonzero (k : str) (d : Z) (m : vars) : Z :=
  match runtime_var k m ?> parse_u64 with Some n => if 0 <? n then n else d | None => d end.

Inductive env_error := BadServerUrl (e : url_error) | NoBearerToken.
(** [env]: the process's [ALLOW_INSECURE_SERVER_HTTP]. *)
Definition from_env (env : option str) (m : vars) : outcome env_error AgentConfig :=
  let camera_id := default (lit "unknown-camera")
    (or_else (runtime_var (lit "CAMERA_ID") m) (runtime_var (lit "ONVIF_HOST") m)) in
  let raw := default (lit "http://127.0.0.1:8080") (runtime_var (lit "SERVER_BASE_URL") m) in
  let allow := allow_insecure_server_http (runtime_var (lit "ALLOW_INSECURE_SERVER_HTTP") m) env in
  base_url ← (match validate_server_base_url raw allow with
              | Ok u => Ok u
              | Err e => Err (BadServerUrl e)
              | Panic => Panic
              end);
  token ← ok_or (runtime_var (lit "SERVER_BEARER_TOKEN") m) NoBearerToken;
  mret (mkAgentConfig camera_id (mkMotionConfig (runtime_bool (lit "MOTION_ENABLED") true m))
    (mkServerConfig (runtime_bool (lit "SERVER_ENABLED") false m) base_url token
       (runtime_u64 (lit "SERVER_RETRY_INTERVAL_SECS") 2 m)
       (wrap_u32 (runtime_u64 (lit "SERVER_MAX_RETRIES") 5 m)))
    (mkCleanup (runtime_u64 (lit "CLIP_CLEANUP_INTERVAL_SECS") 30 m)
       (runtime_u64 (lit "CLIP_MIN_FREE_BYTES") 2000000000 m))).
End overrides.

(** ** The files *)
Definition object (l : list (String.string * Value)) : Value :=
  Object (foldl (fun m kv => obj_insert (lit kv.1) kv.2 m) [] l).
Definition nulls (l : list String.string) : Value := object (map (fun k => (k, Null)) l).

Definition null_server : Value := nulls ["enabled"; "base_url"; "bearer_token"; "retry_interval_secs"; "max_retries"]%string.
Definition null_camera : Value :=
  object [("id", Null); ("user", Null); ("pass", Null); ("transport", Null); ("motion", nulls ["enabled"]);
          ("features", nulls ["local_clip_enabled"; "rtsp_receiver_enabled"]);
          ("rtsp", nulls ["url"; "stream_id"]);
          ("onvif", object
             (map (fun k => (k, Null))
                ["url"; "debug"; "dump_xml"; "sub_termination"; "renew_every_secs"; "pull_timeout"; "pull_limit";
                 "resubscribe_after_errors"; "min_poll_gap_ms"; "after_sub_delay_ms"; "connrefused_retries";
                 "connrefused_backoff_ms"] ++ [("night_vision", nulls ["mode"])]))]%string.
Definition null_sections : list (String.string * Value) :=
  [("cleanup", nulls ["interval_secs"; "min_free_bytes"]);
   ("ingest", nulls ["clip_dir"; "clip_pre_secs"; "clip_post_secs"; "clip_ring_secs"; "clip_stale_part_secs";
      "clip_max_secs"; "clip_write_timeout_ms"; "clip_write_retry_count"; "clip_write_retry_backoff_ms"]);
   ("forward_agent", nulls ["mode"; "server_addr"; "motion_merge_secs"; "heartbeat_interval_secs";
      "config_pull_interval_secs"]);
   ("cameras", Array [null_camera]); ("logging", nulls ["rust_log"]); ("version", nulls ["sentinel_version"])]%string.
Definition default_server_json : Value := object [("server"%string, null_server)].
Definition default_camera_json : Value := object null_sections.
Definition default_empty_json : Value := object (("server"%string, null_server) :: null_sections).

(** What the code uses of [std::fs]; [file_parent]: [create_dir_all] of the
    directory of a path. *)
Class ConfigFs (F E : Type) := {
  file_exists : str -> F -> F * bool;
  file_parent : str -> F -> F * (E + unit);
  file_write : str -> str -> F -> F * (E + unit);
  file_read : str -> F -> F * (E + str);
}.

Section files.
Context {F E : Type} `{ConfigFs F E} `{UrlParser} `{JsonText}.
Inductive file_error := Fs_ (e : E) | Invalid (e : url_error).
Abbreviation M := (Prelude.st F file_error).
Definition fs_io {A} (m : F -> F * (E + A)) : M A := fun f =>
  match m f with (f, inr a) => (f, Ok a) | (f, inl e) => (f, Err (Fs_ e)) end.

Definition write_json_file (path : str) (v : Value) : M unit :=
  fs_io (file_parent path) ;; fs_io (file_write path (to_string_pretty v)).
Definition load_json_value_with_default (path : str) (d : Value) : M Value :=
  (fun f => let '(f, there) := file_exists path f in
     if there : bool then (f, Ok tt) else write_json_file path d f) ;;
  raw ← fs_io (file_read path);
  mret (default (Object []) (from_str raw)).
Definition load_server_json (allow : bool) (path : str) : M Value :=
  v ← load_json_value_with_default path default_server_json;
  lift_outcome (match validate_server_base_url_in_config_value allow v with
                | Ok _ => Ok v
                | Err e => Err (Invalid e)
                | Panic => Panic
                end).
Definition load_camera_json (path : str) : M Value := load_json_value_with_default path default_camera_json.
Definition merge_json_file_with_default (path : str) (update d : Value) : M unit :=
  current ← load_json_value_with_default path d; write_json_file path (merge_value current update).
Definition merge_json_file (path : str) (update : Value) : M unit :=
  merge_json_file_with_default path update default_empty_json.
Definition merge_remote_camera_json (path : str) (update : Value) : M unit :=
  current ← load_json_value_with_default path default_camera_json;
  write_json_file path (merge_remote current update).
End files.

(** A value serde_json can build: the keys of an object are sorted, so distinct. *)
Fixpoint sorted_keys (m : Map) : bool :=
  match m with
  | (k, _) :: (((k', _) :: _) as m') => str_ltb k k' && sorted_keys m'
  | _ => true
  end.
Fixpoint wf (v : Value) : bool :=
  match v with
  | Array l => forallb wf l
  | Object m => sorted_keys m && forallb (fun kv => wf kv.2) m
  | _ => true
  end.
