(* ===== verification/ConfigFacts.v ===== *)
(** * Facts about the agent's configuration

    Merging of JSON values, the files, the check of the server's address, and
    the runtime variables the cameras of a configuration get. *)
From S2P Require Import Prelude Str Config.
From Stdlib Require Import Sorting.Sorted.

(** ** Induction on values *)
Lemma Value_nested_ind (P : Value -> Prop) :
  P Null -> (forall b, P (Bool b)) -> (forall n, P (Number n)) -> (forall s, P (Float s)) ->
  (forall s, P (String s)) -> (forall l, Forall P l -> P (Array l)) ->
  (forall m, Forall (fun kv => P kv.2) m -> P (Object m)) -> forall v, P v.
Proof.
  intros Hn Hb Hnum Hf Hs Ha Ho. fix IH 1. intros [| b | n | s | s | l | m];
    [exact Hn|apply Hb|apply Hnum|apply Hf|apply Hs|apply Ha|apply Ho].
  - induction l as [|v l IHl]; constructor; [apply IH|exact IHl].
  - induction m as [|[k v] m IHm]; constructor; [apply IH|exact IHm].
Qed.

(** ** Values as trees: equality is decidable *)
Fixpoint to_tree (v : Value) : gen_tree (Z + str + str) :=
  match v with
  | Null => GenNode 0 []
  | Bool b => GenNode (if b then 1 else 2) []
  | Number n => GenLeaf (inl (inl n))
  | Float s => GenLeaf (inl (inr s))
  | String s => GenLeaf (inr s)
  | Array l => GenNode 3 (map to_tree l)
  | Object m => GenNode 4 (map (fun kv => GenNode 5 [GenLeaf (inr kv.1); to_tree kv.2]) m)
  end.
Fixpoint of_tree (t : gen_tree (Z + str + str)) : Value :=
  match t with
  | GenLeaf (inl (inl n)) => Number n
  | GenLeaf (inl (inr s)) => Float s
  | GenLeaf (inr s) => String s
  | GenNode 1 _ => Bool true
  | GenNode 2 _ => Bool false
  | GenNode 3 l => Array (map of_tree l)
  | GenNode 4 l => Object (map (fun t => match t with GenNode _ [GenLeaf (inr k); t] => (k, of_tree t) | _ => ([], Null) end) l)
  | GenNode _ _ => Null
  end.
Lemma of_to_tree v : of_tree (to_tree v) = v.
Proof.
  induction v as [|[]|n|s|s|l IH|m IH] using Value_nested_ind; try done; cbn; f_equal; rewrite map_map.
  - induction IH as [|v l Hv _ IHl]; cbn; congruence.
  - induction IH as [|[k v] l Hv _ IHl]; cbn in *; congruence.
Qed.

#[export] Instance Value_eq_dec : EqDecision Value.
Proof.
  intros a b. destruct (decide (to_tree a = to_tree b)) as [He|Hne]; [left|right].
  - by rewrite <- (of_to_tree a), He, of_to_tree.
  - congruence.
Defined.

(** ** Objects *)
Abbreviation keys_of := (map (@fst str Value)).
Definition str_lt (a b : str) : Prop := str_ltb a b = true.

Lemma str_ltb_irrefl a : str_ltb a a = false.
Proof. induction a as [|c a IH]; [done|]. cbn. by rewrite Z.ltb_irrefl, Z.eqb_refl, IH. Qed.

Lemma str_lt_trans a b c : str_lt a b -> str_lt b c -> str_lt a c.
Proof.
  unfold str_lt. revert b c. induction a as [|x a IH]; intros [|y b] [|z c]; cbn; try done.
  rewrite !orb_true_iff, !andb_true_iff, !Z.ltb_lt, !Z.eqb_eq.
  intros [?|[-> ?]] [?|[-> ?]]; [left; lia..|right; eauto].
Qed.

Lemma str_lt_total a b : a <> b -> str_lt a b \/ str_lt b a.
Proof.
  unfold str_lt. revert b. induction a as [|x a IH]; intros [|y b] Hne; cbn; auto.
  rewrite !orb_true_iff, !andb_true_iff, !Z.ltb_lt, !Z.eqb_eq.
  destruct (Z.lt_trichotomy x y) as [?|[->|?]]; [by left; left| |by right; left].
  destruct (IH b) as [?|?]; [congruence| |]; [left|right]; right; done.
Qed.

Lemma sorted_keys_spec m : sorted_keys m = true <-> StronglySorted str_lt (keys_of m).
Proof.
  split.
  - intros H. apply Sorted_StronglySorted; [exact str_lt_trans|].
    induction m as [|[k v] [|[k' v'] m] IH]; cbn in *; [constructor|repeat constructor|].
    apply andb_true_iff in H as [H1 H2]. constructor; [by apply IH|]. by constructor.
  - induction m as [|[k v] [|[k' v'] m] IH]; cbn [sorted_keys keys_of map]; [done|done|].
    intros H. apply StronglySorted_inv in H as [H1 H2]. apply andb_true_iff. split.
    + by apply Forall_cons in H2 as [H2 _].
    + by apply IH.
Qed.

Lemma obj_get_lt k m : Forall (str_lt k) (keys_of m) -> obj_get k m = None.
Proof.
  induction m as [|[k' v] m IH]; cbn; [done|]. intros H. apply Forall_cons in H as [H1 H2].
  rewrite bool_decide_false; [by apply IH|]. intros ->. unfold str_lt in H1. by rewrite str_ltb_irrefl in H1.
Qed.

Lemma obj_get_insert k k' v m : obj_get k (obj_insert k' v m) = if decide (k = k') then Some v else obj_get k m.
Proof.
  rewrite decide_bool_decide. induction m as [|[k1 v1] m IH]; [done|]. cbn [obj_insert obj_get].
  destruct (decide (k' = k1)) as [->|Hne]; [rewrite bool_decide_true by done; cbn [obj_get]; by case_bool_decide|].
  rewrite (bool_decide_false (k' = k1)) by done. destruct (str_ltb k' k1); cbn [obj_get]; [done|].
  rewrite IH. do 2 case_bool_decide; congruence.
Qed.

Lemma obj_get_elem k v m : obj_get k m = Some v -> (k, v) ∈ m.
Proof.
  induction m as [|[k' v'] m IH]; cbn; [done|]. case_bool_decide as H; [|intros; right; auto].
  intros [= ->]. subst. left.
Qed.

Lemma obj_get_of_elem k v m : sorted_keys m = true -> (k, v) ∈ m -> obj_get k m = Some v.
Proof.
  rewrite sorted_keys_spec. induction m as [|[k' v'] m IH]; [by intros _ ?%elem_of_nil|].
  cbn [keys_of map obj_get]. intros [Hs Hl]%StronglySorted_inv [[= -> ->]|H]%elem_of_cons; [by rewrite bool_decide_true|].
  rewrite bool_decide_false; [auto|]. intros ->. rewrite Forall_forall in Hl.
  assert (str_lt k' k') as Hlt by (apply Hl; apply (list_elem_of_fmap_2 fst) in H; done).
  unfold str_lt in Hlt. by rewrite str_ltb_irrefl in Hlt.
Qed.

(** Inserting what is there changes nothing. *)
Lemma obj_insert_id k v m : sorted_keys m = true -> obj_get k m = Some v -> obj_insert k v m = m.
Proof.
  rewrite sorted_keys_spec. induction m as [|[k' v'] m IH]; [done|]. cbn [keys_of map obj_get obj_insert].
  intros [Hs Hl]%StronglySorted_inv. case_bool_decide as Hk; [by intros [= ->]; subst|].
  intros Hg. case_match eqn:Hlt; [|by f_equal; auto].
  rewrite obj_get_lt in Hg; [done|]. eapply Forall_impl; [exact Hl|]. intros x. by apply str_lt_trans.
Qed.

Lemma keys_insert k v m x : x ∈ keys_of (obj_insert k v m) -> x = k \/ x ∈ keys_of m.
Proof.
  induction m as [|[k' v'] m IH]; cbn [obj_insert keys_of map]; [by rewrite list_elem_of_singleton; auto|].
  repeat case_match; cbn [keys_of map]; rewrite !elem_of_cons; subst; intuition.
Qed.

Lemma sorted_insert k v m : sorted_keys m = true -> sorted_keys (obj_insert k v m) = true.
Proof.
  rewrite !sorted_keys_spec. induction m as [|[k' v'] m IH]; [by repeat constructor|].
  cbn [keys_of map obj_insert]. intros Hm. pose proof Hm as [Hs Hl]%StronglySorted_inv.
  case_bool_decide as Hk; [by subst|]. case_match eqn:Hlt; cbn [keys_of map].
  - constructor; [done|]. constructor; [done|]. eapply Forall_impl; [exact Hl|]. intros x. by apply str_lt_trans.
  - constructor; [by apply IH|]. rewrite Forall_forall. intros x [->|Hx]%keys_insert.
    + by destruct (str_lt_total k k' Hk); [congruence|].
    + by rewrite Forall_forall in Hl; apply Hl.
Qed.

Lemma values_insert (P : Value -> bool) k v m :
  P v = true -> forallb (fun kv => P kv.2) m = true -> forallb (fun kv => P kv.2) (obj_insert k v m) = true.
Proof.
  intros Hv. induction m as [|[k' v'] m IH]; cbn; [by rewrite Hv|]. rewrite andb_true_iff. intros [H1 H2].
  repeat case_match; cbn; rewrite ?Hv, ?H1, ?H2; cbn; auto.
Qed.

(** ** Merging *)
Definition merge_into : Map -> Map -> Map := fix merge_into base_map update_map :=
  match update_map with
  | [] => base_map
  | (key, value) :: update_map =>
      merge_into (match obj_get key base_map with
                  | Some existing => obj_insert key (merge_value existing value) base_map
                  | None => obj_insert key value base_map
                  end) update_map
  end.

Lemma merge_objects b u : merge_value (Object b) (Object u) = Object (merge_into b u).
Proof. reflexivity. Qed.

(** What one key of an update makes of a value that may be there. *)
Definition merge_at (b u : option Value) : option Value :=
  match b, u with
  | Some b, Some u => Some (merge_value b u)
  | None, Some u => Some u
  | _, None => b
  end.

Lemma merge_into_get k b u :
  sorted_keys u = true -> obj_get k (merge_into b u) = merge_at (obj_get k b) (obj_get k u).
Proof.
  rewrite sorted_keys_spec. revert b. induction u as [|[k1 v1] u IH]; intros b; cbn [keys_of map merge_into obj_get].
  { intros _. by destruct (obj_get k b). }
  intros [Hs Hl]%StronglySorted_inv. rewrite IH by done.
  destruct (decide (k = k1)) as [->|Hne].
  - rewrite bool_decide_true by done. rewrite (obj_get_lt k1 u) by done.
    by destruct (obj_get k1 b); rewrite obj_get_insert, decide_True.
  - rewrite bool_decide_false by done. f_equal.
    by destruct (obj_get k1 b); rewrite obj_get_insert, decide_False.
Qed.

(** An update that changes none of the values it names changes nothing. *)
Lemma merge_into_fixed b u :
  sorted_keys b = true ->
  Forall (fun kv => exists x, obj_get kv.1 b = Some x /\ merge_value x kv.2 = x) u -> merge_into b u = b.
Proof.
  intros Hs. induction 1 as [|[k v] u (x & Hx & Hm) _ IH]; [done|]. cbn [merge_into fst snd] in *.
  by rewrite Hx, Hm, obj_insert_id.
Qed.

Lemma sorted_merge_into b u : sorted_keys b = true -> sorted_keys (merge_into b u) = true.
Proof.
  revert b. induction u as [|[k v] u IH]; intros b Hb; cbn [merge_into]; [done|].
  apply IH. by destruct (obj_get k b); apply sorted_insert.
Qed.

Lemma wf_object m : wf (Object m) = true <-> sorted_keys m = true /\ Forall (fun kv => wf kv.2 = true) m.
Proof. cbn [wf]. rewrite andb_true_iff, forallb_forall, Forall_forall. by setoid_rewrite list_elem_of_In. Qed.

Lemma wf_get k m v : wf (Object m) = true -> obj_get k m = Some v -> wf v = true.
Proof.
  rewrite wf_object, Forall_forall. intros [_ Hm] Hg. by apply (Hm (k, v)), obj_get_elem.
Qed.

(** Merging keeps values well formed. *)
Lemma merge_wf b u : wf b = true -> wf u = true -> wf (merge_value b u) = true.
Proof.
  revert b. induction u as [|x|x|x|x|l _|u IH] using Value_nested_ind; intros b Hb Hu; try by destruct b.
  destruct b as [|x|x|x|x|l|b]; try done. rewrite merge_objects. apply wf_object in Hu as [_ Hu].
  clear - IH Hb Hu. revert b Hb. induction u as [|[k v] u IHu]; intros b Hb; cbn [merge_into]; [done|].
  apply Forall_cons in IH as [IH1 IH2]. apply Forall_cons in Hu as [Hu1 Hu2]. cbn in IH1, Hu1.
  apply IHu; [done|done|]. cbn [wf].
  pose proof Hb as Hb'. cbn [wf] in Hb'. apply andb_true_iff in Hb' as [Hs Hv].
  destruct (obj_get k b) as [x|] eqn:Hg; rewrite sorted_insert, values_insert by
    (done || (apply IH1; [by apply (wf_get k b)|done])); done.
Qed.

Lemma merge_null v : merge_value Null v = v.
Proof. by destruct v. Qed.

Lemma merge_twice b u : wf b = true -> wf u = true -> merge_value (merge_value b u) u = merge_value b u.
Proof.
  revert b. induction u as [|x|x|x|x|l _|u IH] using Value_nested_ind; intros b Hb Hu; try by destruct b.
  rewrite Forall_forall in IH. pose proof Hu as [Hus Huv]%wf_object. rewrite Forall_forall in Huv.
  assert (Hself : forall k v, (k, v) ∈ u -> merge_value v v = v).
  { intros k v Hin. pose proof (IH _ Hin Null eq_refl (Huv _ Hin)) as Hm. cbn [snd] in Hm. by rewrite !merge_null in Hm. }
  destruct b as [|x|x|x|x|l|b]; cycle 6.
  { rewrite !merge_objects. f_equal. pose proof Hb as [Hbs _]%wf_object.
    apply merge_into_fixed; [by apply sorted_merge_into|]. rewrite Forall_forall. intros [k v] Hin.
    cbn [fst snd]. rewrite merge_into_get, (obj_get_of_elem k v u) by done.
    destruct (obj_get k b) as [x|] eqn:Hg; cbn [merge_at]; eexists; (split; [done|]).
    - apply (IH _ Hin); [by apply (wf_get k b)|]. by apply (Huv _ Hin).
    - by apply (Hself k). }
  all: change (merge_value (Object u) (Object u) = Object u); rewrite merge_objects; f_equal;
    apply merge_into_fixed; [done|]; rewrite Forall_forall; intros [k v] Hin; exists v;
    (split; [by apply obj_get_of_elem|]); by apply (Hself k).
Qed.

(** ** Updates of the cameras *)
Lemma get_object k m : get k (Object m) = obj_get (lit k) m.
Proof. done. Qed.

Lemma obj_get_filter (P : str -> bool) k m :
  obj_get k (filter (fun kv => P kv.1 = false) m) = if P k then None else obj_get k m.
Proof.
  induction m as [|[k' v] m IH]; [by case_match|]. rewrite filter_cons. cbn [fst obj_get].
  destruct (decide (k = k')) as [<-|Hne].
  - rewrite (bool_decide_true (k = k)) by done. case_decide as HP.
    + cbn [obj_get]. rewrite HP. by rewrite bool_decide_true.
    + destruct (P k); [|done]. done.
  - rewrite (bool_decide_false (k = k')) by done. case_decide; [cbn [obj_get]; by rewrite bool_decide_false|done].
Qed.

Lemma wf_filter (P : str -> bool) m : wf (Object m) = true -> wf (Object (filter (fun kv => P kv.1 = false) m)) = true.
Proof.
  rewrite !wf_object, !sorted_keys_spec. intros [Hs Hv]. split.
  - clear Hv. induction m as [|[k v] m IH]; [constructor|]. cbn [keys_of map] in Hs.
    apply StronglySorted_inv in Hs as [Hs Hl]. rewrite filter_cons. case_decide; [|by apply IH].
    cbn [keys_of map]. constructor; [by apply IH|]. rewrite Forall_forall in Hl |- *. intros x Hx. apply Hl.
    apply list_elem_of_fmap in Hx as (kv & -> & Hx). apply list_elem_of_filter in Hx as [_ Hx].
    by apply (list_elem_of_fmap_2 fst).
  - rewrite Forall_forall in Hv |- *. intros kv [_ Hkv]%list_elem_of_filter. by apply Hv.
Qed.

(** The value under a key, none when there is no object. *)
Definition field (k : str) (v : Value) : option Value := match v with Object m => obj_get k m | _ => None end.

Lemma field_strip k v :
  field k (strip_top_level_legacy_camera_fields v) = if is_legacy k then None else field k v.
Proof. destruct v as [|x|x|x|x|x|m]; cbn; try by case_match. apply obj_get_filter. Qed.

Lemma wf_strip v : wf v = true -> wf (strip_top_level_legacy_camera_fields v) = true.
Proof. destruct v; try done. apply wf_filter. Qed.

Lemma merge_field k b u :
  wf (Object u) = true -> field k (merge_value b (Object u)) = merge_at (field k b) (obj_get k u).
Proof.
  intros [Hs _]%wf_object. destruct b as [|x|x|x|x|x|b]; try by cbn; destruct (obj_get k u).
  rewrite merge_objects. by apply merge_into_get.
Qed.

(** Nothing is stripped from an object without legacy keys. *)
Lemma strip_id v : wf v = true -> (forall k, is_legacy k = true -> field k v = None) ->
  strip_top_level_legacy_camera_fields v = v.
Proof.
  intros Hv Hk. destruct v as [|x|x|x|x|x|m]; try reflexivity. apply wf_object in Hv as [Hs _]. cbn. f_equal. apply filter_all.
  rewrite Forall_forall. intros [k v] Hin. cbn. destruct (is_legacy k) eqn:Hl; [|done].
  specialize (Hk k Hl). cbn in Hk. by rewrite (obj_get_of_elem k v) in Hk.
Qed.

Lemma merge_remote_spec cur u :
  wf cur = true -> wf (Object u) = true -> has_canonical_cameras (Object u) = true ->
  wf (merge_remote cur (Object u)) = true /\
  get "cameras" (merge_remote cur (Object u)) = get "cameras" (Object u) /\
  (forall k, field k (merge_remote cur (Object u)) =
     if is_legacy k then None else merge_at (field k cur) (obj_get k u)) /\
  merge_remote (merge_remote cur (Object u)) (Object u) = merge_remote cur (Object u).
Proof.
  intros Hc Hu Hcam. unfold merge_remote. rewrite Hcam.
  pose proof (wf_strip cur Hc) as Hc'. pose proof (wf_strip (Object u) Hu) as Hu'.
  set (u' := filter (fun kv => is_legacy kv.1 = false) u).
  change (strip_top_level_legacy_camera_fields (Object u)) with (Object u') in *.
  set (m := merge_value _ (Object u')).
  assert (Hm : wf m = true) by (by apply merge_wf).
  assert (Hf : forall k, field k m = if is_legacy k then None else merge_at (field k cur) (obj_get k u)).
  { intros k. unfold m, u'. rewrite merge_field, field_strip, obj_get_filter by done. by destruct (is_legacy k). }
  split; [done|]. split; [|split; [done|]].
  - change (get "cameras" m) with (field (lit "cameras") m). rewrite Hf.
    change (is_legacy (lit "cameras")) with false. cbn iota. rewrite <- get_object.
    unfold has_canonical_cameras in Hcam. apply bool_decide_eq_true in Hcam.
    destruct (get "cameras" (Object u)) as [[]|]; try by destruct Hcam.
    cbn [merge_at]. by destruct (field _ cur) as [[]|].
  - rewrite (strip_id m) by (done || (intros k Hk; by rewrite Hf, Hk)). by apply merge_twice.
Qed.

(** C21: an update of the server that carries [cameras] replaces the cameras,
    leaves none of the legacy fields, merges every other field, and is
    idempotent: the server may send it again. *)
Theorem remote_update cur u :
  wf cur = true -> wf (Object u) = true -> has_canonical_cameras (Object u) = true ->
  wf (merge_remote cur (Object u)) = true /\
  get "cameras" (merge_remote cur (Object u)) = get "cameras" (Object u) /\
  (forall k, field k (merge_remote cur (Object u)) =
     if is_legacy k then None else merge_at (field k cur) (obj_get k u)) /\
  merge_remote (merge_remote cur (Object u)) (Object u) = merge_remote cur (Object u).
Proof. apply merge_remote_spec. Qed.

(** Removing a key of an update. *)
Definition is_key (k x : str) : bool := bool_decide (x = k).
Lemma obj_remove_filter k m : obj_remove k m = filter (fun kv => is_key k kv.1 = false) m.
Proof. apply list_filter_iff. intros kv. unfold is_key. by rewrite bool_decide_eq_false. Qed.
Lemma wf_remove k m : wf (Object m) = true -> wf (Object (obj_remove k m)) = true.
Proof. rewrite obj_remove_filter. apply wf_filter. Qed.
Lemma obj_get_remove k k' m : obj_get k' (obj_remove k m) = if is_key k k' then None else obj_get k' m.
Proof. rewrite obj_remove_filter. apply obj_get_filter. Qed.

(** A field that an update does not have, and that is no legacy field, stays. *)
Lemma merge_remote_keeps cur u k :
  wf (Object u) = true -> is_legacy k = false -> obj_get k u = None ->
  field k (merge_remote cur (Object u)) = field k cur.
Proof.
  intros Hu Hk Hg. unfold merge_remote. destruct (has_canonical_cameras (Object u)).
  - pose proof (wf_strip (Object u) Hu) as Hu'. cbn [strip_top_level_legacy_camera_fields] in *.
    rewrite merge_field, field_strip, Hk, obj_get_filter, Hk, Hg by done. by destruct (field k cur).
  - rewrite merge_field, Hg by done. by destruct (field k cur).
Qed.

Lemma merge_remote_wf cur u : wf cur = true -> wf (Object u) = true -> wf (merge_remote cur (Object u)) = true.
Proof.
  intros Hc Hu. unfold merge_remote. destruct (has_canonical_cameras _); apply merge_wf; try done; by apply wf_strip.
Qed.

(** ** The server's address *)
Section server_url.
Context `{UrlParser}.

(** https, or http where it is allowed or stays on this host. *)
Definition safe_url (allow : bool) (u : Url) : Prop :=
  exists h, host u = Some h /\
    (scheme u = lit "https" \/ (scheme u = lit "http" /\ (allow = true \/ is_local_server_host h = true))).
(** What the check makes of an address it accepts. *)
Definition accepted_url (allow : bool) (raw out : str) : Prop :=
  exists u, trim raw <> [] /\ parse_url (trim raw) = Some u /\ safe_url allow u /\ out = url_text u.

Lemma validate_iff raw allow out :
  validate_server_base_url raw allow = Ok out <-> accepted_url allow raw out.
Proof.
  unfold validate_server_base_url, accepted_url, safe_url. rewrite bail_bind. case_bool_decide as Hb.
  { split; [done|]. by intros (u & ? & _). }
  destruct (parse_url (trim raw)) as [u|]; [|split; [done|by intros (u & _ & ? & _)]]. cbn [ok_or mbind outcome_bind].
  destruct (host u) as [h|] eqn:Hh; cbn [ok_or mbind outcome_bind].
  2:{ split; [done|]. intros (? & _ & [= <-] & (h & ? & _) & _). congruence. }
  split.
  - intros Hv. exists u. split; [done|]. split; [done|]. case_bool_decide as Hs.
    { injection Hv as <-. eauto 6. }
    case_bool_decide as Hs'; [|done]. destruct (allow || _) eqn:Ha; [|done]. injection Hv as <-.
    apply orb_true_iff in Ha. eauto 8.
  - intros (u' & _ & [= <-] & (h' & Hh' & Hs) & ->). assert (h' = h) as -> by congruence.
    case_bool_decide; [done|]. destruct Hs as [?|[-> Ha]]; [done|].
    apply orb_true_iff in Ha. by rewrite Ha.
Qed.

Lemma validate_no_panic raw allow : validate_server_base_url raw allow <> Panic.
Proof.
  unfold validate_server_base_url. rewrite bail_bind. case_bool_decide; [done|].
  destruct (parse_url (trim raw)) as [u|]; cbn [ok_or mbind outcome_bind]; [|done].
  destruct (host u); cbn [ok_or mbind outcome_bind]; [|done]. by repeat case_match.
Qed.

(** C22: whatever way the configuration is loaded, the server's address is one
    that passed the check: https, or plain http to this host only, unless
    insecure http is allowed; and a configuration with such an address loads. *)
Theorem server_url_checked allow env v m :
  (forall c, merge_with_defaults allow v = Ok c ->
     accepted_url allow (merge_string (section v "server") "base_url" (lit "http://127.0.0.1:8080")) (base_url (server c))) /\
  (forall c, from_env env m = Ok c ->
     accepted_url (allow_insecure_server_http (m !! lit "ALLOW_INSECURE_SERVER_HTTP") env)
       (default (lit "http://127.0.0.1:8080") (m !! lit "SERVER_BASE_URL")) (base_url (server c))) /\
  (forall cam c raw, merge_server_camera_configs allow cam v = Ok c ->
     get "server" v ?> get "base_url" ?> as_str = Some raw -> trim raw <> [] -> exists out, accepted_url allow (trim raw) out) /\
  (forall out, accepted_url allow (merge_string (section v "server") "base_url" (lit "http://127.0.0.1:8080")) out ->
     is_ok (merge_with_defaults allow v) = true).
Proof.
  split; [|split; [|split]].
  - intros c. unfold merge_with_defaults.
    destruct (validate_server_base_url _ _) as [out| |] eqn:Hv; cbn [mbind outcome_bind]; [|done|done].
    intros [= <-]. by apply validate_iff.
  - intros c. unfold from_env, runtime_var.
    destruct (validate_server_base_url _ _) as [out| |] eqn:Hv; cbn [mbind outcome_bind]; [|done|done].
    destruct (m !! lit "SERVER_BEARER_TOKEN"); cbn [ok_or mbind outcome_bind]; [|done].
    intros [= <-]. by apply validate_iff.
  - intros cam c raw. unfold merge_server_camera_configs, validate_server_base_url_in_config_value. intros Hm Hraw Hne.
    rewrite Hraw, bool_decide_false in Hm by done.
    destruct (validate_server_base_url _ _) as [out| |] eqn:Hv; cbn [mbind outcome_bind] in Hm; [|done|done].
    exists out. by apply validate_iff.
  - intros out Ho%validate_iff. unfold merge_with_defaults. cbn [default_config server base_url].
    by rewrite Ho.
Qed.

(** The number of retries is cut to 32 bits: a configured 2^32 means 0, which
    is "retry for ever". *)
Theorem max_retries_wraps allow v c n :
  merge_with_defaults allow v = Ok c -> get "max_retries" (section v "server") = Some (Number n) -> 0 <= n <= u64_max ->
  max_retries (server c) = n mod 2 ^ 32 /\ (n = 2 ^ 32 -> max_retries (server c) = 0).
Proof.
  unfold merge_with_defaults. destruct (validate_server_base_url _ _) as [out| |]; cbn [mbind outcome_bind]; [|done|done].
  intros [= <-] Hg Hn. cbn [server max_retries]. unfold merge_u64. rewrite Hg. cbn [mbind option_bind as_u64].
  rewrite (proj2 (Z.leb_le _ _)), (proj2 (Z.leb_le _ _)) by lia. cbn [andb default].
  split; [done|]. by intros ->.
Qed.
End server_url.

(** ** The variables of a camera *)
Lemma apply_setting_get k m s :
  apply_setting m s !! k =
  if bool_decide (key s = k)
  then match value s with
       | Some v => if only_unset s && bool_decide (is_Some (m !! k)) then m !! k else Some v
       | None => m !! k
       end
  else m !! k.
Proof.
  unfold apply_setting. destruct (decide (key s = k)) as [<-|Hk].
  - rewrite (bool_decide_true (key s = key s)) by done. destruct (value s) as [v|]; [|done].
    case_match; [done|]. by rewrite lookup_insert_eq.
  - rewrite (bool_decide_false (key s = k)) by done. destruct (value s) as [v|]; [|done].
    case_match; [done|]. by rewrite lookup_insert_ne.
Qed.

(** A variable depends on its own settings only. *)
Lemma settings_filter k ss m1 m2 : m1 !! k = m2 !! k ->
  foldl apply_setting m1 ss !! k = foldl apply_setting m2 (filter (fun s => key s = k) ss) !! k.
Proof.
  revert m1 m2. induction ss as [|s ss IH]; intros m1 m2 Hm; [done|]. rewrite filter_cons. cbn [foldl].
  case_decide as Hk; cbn [foldl]; apply IH; rewrite ?apply_setting_get, Hm; [done|by rewrite bool_decide_false].
Qed.

(** Settings of unset variables only do not change one that is set. *)
Lemma settings_keep k ss m :
  Forall (fun s => key s = k -> only_unset s = true /\ (m !! k = None -> value s = None)) ss ->
  foldl apply_setting m ss !! k = m !! k.
Proof.
  revert m. induction ss as [|s ss IH]; intros m Hs; [done|]. apply Forall_cons in Hs as [Hs1 Hs2]. cbn [foldl].
  assert (Hm : apply_setting m s !! k = m !! k).
  { rewrite apply_setting_get. case_bool_decide as Hk; [|done]. destruct (Hs1 Hk) as [-> Hv].
    destruct (m !! k) eqn:Hg; [|by rewrite Hv by done]. destruct (value s); [|done].
    by rewrite bool_decide_true by eauto. }
  rewrite IH, Hm; [done|]. by rewrite Hm.
Qed.

Lemma filter_key_unique s ss : NoDup (map key ss) -> s ∈ ss -> filter (fun s' => key s' = key s) ss = [s].
Proof.
  induction ss as [|s1 ss IH]; [by intros _ ?%elem_of_nil|]. cbn [map]. rewrite NoDup_cons. intros [Hni Hnd].
  rewrite filter_cons. intros [->|Hin]%elem_of_cons.
  - rewrite decide_True by done. f_equal. apply filter_none. rewrite Forall_forall. intros x Hx He.
    apply Hni. rewrite <- He. by apply list_elem_of_fmap_2.
  - rewrite decide_False; [by apply IH|]. intros He. apply Hni. rewrite He. by apply list_elem_of_fmap_2.
Qed.

Definition camera_names : list String.string :=
  ["CAMERA_ID"; "AGENT_ID"; "STREAM_ID"; "TRANSPORT"; "RTSP_URL"; "RTSP_HOST"; "RTSP_PORT"; "RTSP_PATH";
   "RTSP_USER"; "RTSP_PASS"; "ONVIF_HOST"; "ONVIF_PORT"; "ONVIF_USER"; "ONVIF_PASS"; "ONVIF_DEBUG";
   "ONVIF_DUMP_XML"; "ONVIF_SUB_TERMINATION"; "ONVIF_RENEW_EVERY_SECS"; "ONVIF_PULL_TIMEOUT";
   "ONVIF_PULL_LIMIT"; "ONVIF_RESUBSCRIBE_AFTER_ERRORS"; "ONVIF_MIN_POLL_GAP_MS"; "ONVIF_AFTER_SUB_DELAY_MS";
   "ONVIF_CONNREFUSED_RETRIES"; "ONVIF_CONNREFUSED_BACKOFF_MS"; "ONVIF_NIGHT_VISION_MODE";
   "ONVIF_MOTION_DETECTION_ENABLED"; "ONVIF_MOTION_REGION_POINTS"; "MOTION_ENABLED"; "LOCAL_CLIP_ENABLED";
   "RTSP_RECEIVER_ENABLED"]%string.

(** The slot a variable belongs to: [CAM<n>_...]. *)
Definition slot_of (k : str) : option str :=
  match split_once 95 k with
  | Some (p, _) =>
      d ← strip_prefix (lit "CAM") p;
      if forallb (fun c => (48 <=? c) && (c <=? 57)) d then Some d else None
  | None => None
  end.

Lemma dec_inj a b : 0 <= a -> 0 <= b -> dec a = dec b -> a = b.
Proof.
  intros Ha Hb He. pose proof (parse_digits_dec (Z.max a b) a ltac:(lia)) as H1.
  rewrite He, parse_digits_dec in H1 by lia. by injection H1.
Qed.

Lemma slot_of_camera slot k : 0 <= slot -> slot_of (camera_prefix slot ++ k) = Some (dec slot).
Proof.
  intros Hs. unfold slot_of, camera_prefix. rewrite <- !app_assoc. pose proof (dec_digits slot Hs) as Hd.
  rewrite (app_assoc (lit "CAM")). change (lit "_" ++ k) with (95 :: k).
  rewrite split_once_app.
  - cbn iota. rewrite strip_prefix_app. cbn [mbind option_bind].
    assert (forallb (fun c => (48 <=? c) && (c <=? 57)) (dec slot) = true) as ->; [|done].
    apply forallb_forall. intros c Hc. rewrite Forall_forall in Hd. apply list_elem_of_In, Hd in Hc.
    rewrite andb_true_iff, !Z.leb_le. lia.
  - rewrite not_elem_of_app. split; [by_eval|]. intros Hc. rewrite Forall_forall in Hd. apply Hd in Hc. lia.
Qed.

Section camera_variables.
Context `{UrlParser} `{JsonText}.

Lemma camera_settings_keys slot cam :
  map key (camera_settings slot cam) = map (fun n => camera_prefix slot ++ lit n) camera_names.
Proof. reflexivity. Qed.

Lemma camera_settings_set slot cam : Forall (fun s => only_unset s = false) (camera_settings slot cam).
Proof. repeat constructor. Qed.

Lemma camera_settings_nodup slot cam : NoDup (map key (camera_settings slot cam)).
Proof.
  rewrite camera_settings_keys, <- (map_map lit (fun n => camera_prefix slot ++ n)).
  apply (NoDup_fmap_2 (fun n => camera_prefix slot ++ n)). by_eval.
Qed.

Lemma camera_key_slot slot cam s : 0 <= slot -> s ∈ camera_settings slot cam -> slot_of (key s) = Some (dec slot).
Proof.
  intros Hs Hin. apply (list_elem_of_fmap_2 key) in Hin.
  change (key <$> camera_settings slot cam) with (map key (camera_settings slot cam)) in Hin.
  rewrite camera_settings_keys in Hin. apply list_elem_of_fmap in Hin as (n & -> & _). by apply slot_of_camera.
Qed.

(** No variable of the other sections belongs to a slot. *)
Lemma other_settings_slot v :
  Forall (fun s => slot_of (key s) = None) (server_settings v ++ ingest_settings v ++ forward_settings v).
Proof. repeat constructor. Qed.

(** Of the single-camera variables, one belongs to a slot. *)
Lemma first_settings_slot first :
  Forall (fun s => only_unset s = true /\
     (slot_of (key s) = None \/
      s = set_map_if_unset (camera_prefix 1 ++ lit "STREAM_ID") (get "stream_id" (section first "rtsp"))))
    (first_camera_settings first).
Proof. repeat (constructor; [split; [reflexivity|first [left; reflexivity|right; reflexivity]]|]). constructor. Qed.

(** Cameras of other slots have no setting of a variable. *)
Lemma camera_filter_other k slot cam :
  0 <= slot -> slot_of k <> Some (dec slot) -> filter (fun s => key s = k) (camera_settings slot cam) = [].
Proof.
  intros Hs Hne. apply filter_none. rewrite Forall_forall. intros s Hin He.
  apply camera_key_slot in Hin; [|done]. congruence.
Qed.

Lemma cameras_filter_other k slot cams :
  0 <= slot -> (forall n, slot <= n < slot + Z.of_nat (length cams) -> slot_of k <> Some (dec n)) ->
  filter (fun s => key s = k) (cameras_settings slot cams) = [].
Proof.
  revert slot. induction cams as [|c cams IH]; intros slot Hs Hne; cbn [cameras_settings]; [done|].
  cbn [length] in Hne. rewrite filter_app, camera_filter_other, IH; [done|lia|intros n Hn; apply Hne; lia|done|apply Hne; lia].
Qed.

Lemma cameras_filter k slot cams i cam :
  0 <= slot -> cams !! i = Some cam -> slot_of k = Some (dec (slot + Z.of_nat i)) ->
  filter (fun s => key s = k) (cameras_settings slot cams) =
  filter (fun s => key s = k) (camera_settings (slot + Z.of_nat i) cam).
Proof.
  revert slot i. induction cams as [|c cams IH]; intros slot [|i] Hs Hi Hk; cbn in Hi; try done;
    cbn [cameras_settings]; rewrite filter_app.
  - injection Hi as ->. rewrite Z.add_0_r in *. rewrite (cameras_filter_other _ _ cams); [apply app_nil_r|lia|].
    intros n Hn He. rewrite Hk in He. injection He as He%dec_inj; lia.
  - rewrite (camera_filter_other _ slot c); [|done|].
    + cbn [app]. replace (slot + Z.of_nat (S i)) with (slot + 1 + Z.of_nat i) in * by lia. by apply IH; [lia|..].
    + rewrite Hk. intros [= He%dec_inj]; lia.
Qed.

(** Before the single-camera variables: what the settings of one slot say. *)
Definition before_first (v : Value) (cams : list Value) : vars :=
  foldl apply_setting ∅ ((server_settings v ++ ingest_settings v ++ forward_settings v) ++ cameras_settings 1 cams).

Lemma before_first_slot v cams k d : slot_of k = Some d ->
  before_first v cams !! k = foldl apply_setting ∅ (filter (fun s => key s = k) (cameras_settings 1 cams)) !! k.
Proof.
  intros Hk. unfold before_first. rewrite (settings_filter _ _ ∅ ∅), filter_app, (filter_none _ (_ ++ _)); [done| |done].
  eapply Forall_impl; [apply other_settings_slot|]. cbn. intros x Hx He. congruence.
Qed.

Lemma install_cameras v cams : get "cameras" v ?> as_array = Some cams ->
  install_runtime_overrides v =
  foldl apply_setting (before_first v cams) (match cams with first :: _ => first_camera_settings first | [] => [] end).
Proof.
  intros Hcams. unfold install_runtime_overrides, all_settings, before_first.
  rewrite Hcams, !app_assoc, foldl_app. by rewrite <- (app_assoc (server_settings v)).
Qed.

(** A slot without a camera has no variables. *)
Lemma camera_slot_empty v cams k slot :
  get "cameras" v ?> as_array = Some cams -> Z.of_nat (length cams) < slot -> slot_of k = Some (dec slot) ->
  install_runtime_overrides v !! k = None.
Proof.
  intros Hcams Hl Hk. rewrite (install_cameras v cams Hcams). rewrite settings_keep.
  - rewrite (before_first_slot _ _ _ _ Hk), cameras_filter_other; [done|lia|].
    intros n Hn. rewrite Hk. intros [= He%dec_inj]; lia.
  - destruct cams as [|first cams]; [constructor|]. eapply Forall_impl; [apply first_settings_slot|].
    cbn beta. intros s [Hu [Hs| ->]] He; [congruence|]. exfalso. cbn [key set_map_if_unset] in He.
    rewrite <- He, slot_of_camera in Hk by lia. injection Hk as Hk%dec_inj; cbn [length] in *; lia.
Qed.

Lemma no_cameras_no_slot v k d :
  get "cameras" v ?> as_array = None -> slot_of k = Some d -> install_runtime_overrides v !! k = None.
Proof.
  intros Hc Hk. unfold install_runtime_overrides, all_settings. rewrite Hc, app_nil_r, (settings_filter _ _ ∅ ∅) by done.
  rewrite filter_none; [done|]. eapply Forall_impl; [apply other_settings_slot|]. cbn. intros x Hx He. congruence.
Qed.

(** Nor has a camera others than those of its settings. *)
Lemma camera_name_unknown v cams i cam n :
  get "cameras" v ?> as_array = Some cams -> cams !! i = Some cam -> lit n ∉ map lit camera_names ->
  install_runtime_overrides v !! (camera_prefix (1 + Z.of_nat i) ++ lit n) = None.
Proof.
  intros Hcams Hi Hn. rewrite (install_cameras v cams Hcams). rewrite settings_keep.
  - rewrite (before_first_slot _ _ _ (dec (1 + Z.of_nat i))) by (apply slot_of_camera; lia).
    rewrite (cameras_filter _ 1 cams i cam) by (done || (apply slot_of_camera; lia)). rewrite filter_none; [done|].
    rewrite Forall_forall. intros s Hs He. apply (list_elem_of_fmap_2 key) in Hs.
    change (key <$> camera_settings (1 + Z.of_nat i) cam) with (map key (camera_settings (1 + Z.of_nat i) cam)) in Hs.
    rewrite camera_settings_keys, He in Hs. apply list_elem_of_fmap in Hs as (n' & He' & Hs).
    apply app_inv_head in He'. apply Hn. rewrite He'. by apply (list_elem_of_fmap_2 lit).
  - destruct cams as [|first cams]; [constructor|]. eapply Forall_impl; [apply first_settings_slot|].
    cbn beta. intros s [Hu [Hs| ->]] He; [rewrite He, slot_of_camera in Hs by lia; done|]. exfalso.
    cbn [key set_map_if_unset] in He. pose proof (f_equal slot_of He) as Hslot.
    rewrite !slot_of_camera in Hslot by lia. injection Hslot as Hslot%dec_inj; [|lia..].
    rewrite <- Hslot in He. apply app_inv_head in He. apply Hn. rewrite <- He. by_eval.
Qed.

(** A variable of no slot: what the other sections and the first camera say. *)
Lemma global_variable v cams k : get "cameras" v ?> as_array = Some cams -> slot_of k = None ->
  install_runtime_overrides v !! k =
  foldl apply_setting ∅
    (filter (fun s => key s = k) (server_settings v ++ ingest_settings v ++ forward_settings v) ++
     filter (fun s => key s = k) (match cams with first :: _ => first_camera_settings first | [] => [] end)) !! k.
Proof.
  intros Hcams Hk. rewrite (install_cameras v cams Hcams). unfold before_first.
  rewrite <- foldl_app, (settings_filter _ _ ∅ ∅), !filter_app by done.
  rewrite (cameras_filter_other k 1 cams); [by rewrite app_nil_r|lia|]. intros n _. by rewrite Hk.
Qed.

(** The variables of no slot that any section sets. *)
Definition global_names : list String.string :=
  ["CAMERA_ID"; "AGENT_ID"; "SERVER_ENABLED"; "SERVER_BASE_URL"; "SERVER_BEARER_TOKEN"; "AGENT_TOKEN"; "SERVER_TOKEN";
   "SERVER_RETRY_INTERVAL_SECS"; "SERVER_MAX_RETRIES"; "CLIP_CLEANUP_INTERVAL_SECS"; "CLIP_MIN_FREE_BYTES"; "CLIP_DIR";
   "CLIP_PRE_SECS"; "CLIP_POST_SECS"; "CLIP_RING_SECS"; "CLIP_STALE_PART_SECS"; "CLIP_MAX_SECS"; "CLIP_WRITE_TIMEOUT_MS";
   "CLIP_WRITE_RETRY_COUNT"; "CLIP_WRITE_RETRY_BACKOFF_MS"; "LIVE_PIPELINE_VERSION"; "LIVE_HLS_SEGMENT_SECS";
   "LIVE_HLS_WINDOW_SECS"; "AGENT_MODE"; "SERVER_ADDR"; "MOTION_MERGE_SECS"; "HEARTBEAT_INTERVAL_SECS";
   "CONFIG_PULL_INTERVAL_SECS"; "RUST_LOG"; "SENTINEL_VERSION"]%string.

Lemma variable_unknown v n :
  slot_of (lit n) = None -> lit n ∉ map lit (global_names ++ camera_names) -> install_runtime_overrides v !! lit n = None.
Proof.
  intros Hk Hn. rewrite map_app, not_elem_of_app in Hn. destruct Hn as [Hg Hc].
  assert (Hg' : filter (fun s => key s = lit n) (server_settings v ++ ingest_settings v ++ forward_settings v) = []).
  { apply filter_none. rewrite Forall_forall. intros s Hs He. apply Hg. rewrite <- He.
    apply (list_elem_of_fmap_2 key) in Hs. exact Hs. }
  assert (Hf' : forall first, filter (fun s => key s = lit n) (first_camera_settings first) = []).
  { intros first. apply filter_none. rewrite Forall_forall. intros s Hs He.
    apply (list_elem_of_fmap_2 key) in Hs. rewrite He in Hs.
    assert (Hall : Forall (fun k => k ∈ map lit (global_names ++ camera_names) \/ slot_of k <> None)
              (key <$> first_camera_settings first)).
    { assert (forallb (fun k => bool_decide (k ∈ map lit (global_names ++ camera_names)) || bool_decide (slot_of k <> None))
                (key <$> first_camera_settings first) = true) as Hb by (vm_compute; reflexivity).
      rewrite Forall_forall. intros k Hk'. rewrite forallb_forall in Hb. apply list_elem_of_In, Hb in Hk'.
      apply orb_true_iff in Hk' as [Hk'|Hk']; apply bool_decide_eq_true in Hk'; auto. }
    rewrite Forall_forall in Hall. destruct (Hall _ Hs) as [Hin|Hin]; [|done].
    rewrite map_app, elem_of_app in Hin. tauto. }
  unfold install_runtime_overrides, all_settings. rewrite (settings_filter _ _ ∅ ∅) by done.
  rewrite !app_assoc, filter_app, <- !app_assoc, Hg'. cbn [app].
  destruct (get "cameras" v ?> as_array) as [cams|]; [|done].
  rewrite filter_app, (cameras_filter_other _ 1 cams) by (lia || (intros x _; by rewrite Hk)). cbn [app].
  destruct cams as [|first cams]; [done|]. by rewrite Hf'.
Qed.

(** Every camera of a configuration gets exactly its own variables: each
    [CAM<i>_] variable the agent reads back is what the i-th camera's section
    gives, whatever the other cameras and sections say. *)
Theorem camera_variables v cams i cam s :
  get "cameras" v ?> as_array = Some cams -> cams !! i = Some cam ->
  s ∈ camera_settings (1 + Z.of_nat i) cam ->
  runtime_var (key s) (install_runtime_overrides v) = value s.
Proof.
  intros Hcams Hi Hs. pose proof (camera_key_slot (1 + Z.of_nat i) cam s ltac:(lia) Hs) as Hk.
  unfold runtime_var. rewrite (install_cameras v cams Hcams).
  assert (Hm : before_first v cams !! key s = value s).
  { rewrite (before_first_slot _ _ _ _ Hk), (cameras_filter _ 1 cams i cam), filter_key_unique by
      (done || apply camera_settings_nodup).
    cbn [foldl]. rewrite apply_setting_get, bool_decide_true by done.
    pose proof (camera_settings_set (1 + Z.of_nat i) cam) as Hu. rewrite Forall_forall in Hu.
    rewrite (Hu s Hs). cbn [andb]. destruct (value s); [done|]. apply lookup_empty. }
  destruct cams as [|first cams]; [done|]. rewrite settings_keep; [done|].
  eapply Forall_impl; [apply first_settings_slot|]. cbn beta. intros s' [Hu Hs'] He. split; [done|].
  rewrite Hm. intros Hv. destruct Hs' as [?| ->]; [congruence|].
  cbn [set_map_if_unset key] in He. assert (i = O) as ->.
  { rewrite <- He, slot_of_camera in Hk by lia. injection Hk as Hk%dec_inj; lia. }
  injection Hi as ->. change (1 + Z.of_nat 0) with 1 in *. assert (Hs3 : s = set_map_if_value (camera_prefix 1 ++ lit "STREAM_ID")
      (or_else (get "stream_id" (section cam "rtsp")) (get "stream_id" cam))).
  { apply (filter_key_unique _ _ (camera_settings_nodup _ _)) in Hs.
    assert (Hin : set_map_if_value (camera_prefix 1 ++ lit "STREAM_ID")
      (or_else (get "stream_id" (section cam "rtsp")) (get "stream_id" cam)) ∈
      filter (fun s' => key s' = key s) (camera_settings 1 cam)).
    { apply list_elem_of_filter. split; [by rewrite <- He|]. do 2 right. left. }
    rewrite Hs in Hin. by apply list_elem_of_singleton in Hin as <-. }
  rewrite Hs3 in Hv. cbn [set_map_if_value set_map_if_unset value] in *.
  by destruct (get "stream_id" (section cam "rtsp")).
Qed.
End camera_variables.

(** ** The files *)
Section config_files.
Context {F E : Type} `{ConfigFs F E} `{UrlParser} `{JsonText}.
(** What is written is there, and is read. *)
Context (write_read : forall p s f f', file_write p s f = (f', inr tt) ->
  file_exists p f' = (f', true) /\ file_read p f' = (f', inr s)).
(** Printed JSON parses; parsed JSON is well formed. *)
Context (print_parse : forall v, wf v = true -> from_str (to_string_pretty v) = Some v).
Context (parse_wf : forall s v, from_str s = Some v -> wf v = true).

Lemma write_json_ok p v f f' : write_json_file p v f = (f', Ok tt) ->
  exists f1, file_write p (to_string_pretty v) f1 = (f', inr tt).
Proof.
  unfold write_json_file, fs_io, mbind, st_bind. destruct (file_parent p f) as [f1 [e|[]]]; [done|].
  destruct (file_write p _ f1) as [f2 [e|[]]] eqn:Hw; [done|]. intros [= ->]. by exists f1.
Qed.

Lemma load_written p v d f f' :
  wf v = true -> write_json_file p v f = (f', Ok tt) -> load_json_value_with_default p d f' = (f', Ok v).
Proof.
  intros Hv (f1 & Hw)%write_json_ok. destruct (write_read _ _ _ _ Hw) as [He Hr].
  unfold load_json_value_with_default, fs_io, mbind, st_bind. rewrite He, Hr, print_parse by done. done.
Qed.

Lemma load_wf p d f f' v : load_json_value_with_default p d f = (f', Ok v) -> wf v = true.
Proof.
  unfold load_json_value_with_default, fs_io, mbind, st_bind. destruct (file_exists p f) as [f1 there].
  destruct (if there then _ else _) as [f2 [[]|e|]]; [|done|done].
  destruct (file_read p f2) as [f3 [e|raw]]; [done|]. intros [= _ <-].
  destruct (from_str raw) eqn:Hp; [by eapply parse_wf|done].
Qed.

(** An update of the server that was stored is what the agent loads after a
    restart: the file's value before, merged with the update.  Storing the same
    update again loads the same configuration. *)
Theorem remote_update_persists p u f f' :
  wf (Object u) = true -> has_canonical_cameras (Object u) = true ->
  merge_remote_camera_json p (Object u) f = (f', Ok tt) ->
  exists cur f1,
    load_camera_json p f = (f1, Ok cur) /\
    load_camera_json p f' = (f', Ok (merge_remote cur (Object u))) /\
    (forall f2, merge_remote_camera_json p (Object u) f' = (f2, Ok tt) ->
       load_camera_json p f2 = (f2, Ok (merge_remote cur (Object u)))).
Proof.
  intros Hu Hc. unfold merge_remote_camera_json at 1, load_camera_json, mbind, st_bind.
  destruct (load_json_value_with_default p default_camera_json f) as [f1 [cur|e|]] eqn:Hl; [|done|done].
  intros Hw. pose proof (load_wf _ _ _ _ _ Hl) as Hcur.
  destruct (merge_remote_spec cur u Hcur Hu Hc) as (Hwf & _ & _ & Htwice).
  exists cur, f1. split; [done|]. pose proof (load_written _ _ default_camera_json _ _ Hwf Hw) as Hl'.
  split; [done|]. intros f2 Hw2. unfold merge_remote_camera_json, mbind, st_bind in Hw2.
  rewrite Hl', Htwice in Hw2. by eapply load_written.
Qed.
End config_files.

(** ** Witnesses: one file, JSON values encoded as numbers, every URL local *)
Module ConfigWitness.
#[local] Instance tree_json : JsonText := {
  to_string v := [Zpos (encode (to_tree v))];
  to_string_pretty v := [Zpos (encode (to_tree v))];
  from_str s := match s with
                | [Zpos p] => t ← decode p; if wf (of_tree t) then Some (of_tree t) else None
                | _ => None
                end }.
#[local] Instance one_file : ConfigFs (option str) unit := {
  file_exists _ f := (f, bool_decide (is_Some f));
  file_parent _ f := (f, inr tt);
  file_write _ s _ := (Some s, inr tt);
  file_read _ f := (f, match f with Some s => inr s | None => inl tt end) }.
#[local] Instance localhost_urls : UrlParser := fun s =>
  Some (mkUrl (if starts_with (lit "https") s then lit "https" else lit "http")
          (Some (if starts_with (lit "http://h") s then Domain (lit "host") else Ipv4 true))
          (Some (lit "127.0.0.1")) None None (lit "/") s).

Lemma tree_print_parse v : wf v = true -> from_str (to_string_pretty v) = Some v.
Proof. intros Hv. cbn [from_str to_string_pretty tree_json]. rewrite decode_encode. cbn. by rewrite of_to_tree, Hv. Qed.
Lemma tree_parse_wf s v : from_str s = Some v -> wf v = true.
Proof.
  cbn [from_str tree_json]. destruct s as [|[|p|] [|]]; try done.
  destruct (decode p) as [t|]; [|done]. cbn [mbind option_bind]. destruct (wf (of_tree t)) eqn:Hw; [|done]. by intros [= <-].
Qed.

Definition cam1 : Value := object [("id", String (lit "a")); ("rtsp", object [("stream_id", Number 7)])]%string.
Definition cam2 : Value := object [("camera_id", String (lit "b")); ("stream_id", Number 8)]%string.
Definition update_map : Map := [(lit "cameras", Array [cam1; cam2]); (lit "version", Number 2)].
Definition current : Value := object [("camera_id", String (lit "old")); ("cameras", Array [cam2]); ("mode", Bool true)]%string.

Lemma remote_update_witness :
  get "cameras" (merge_remote current (Object update_map)) = Some (Array [cam1; cam2]) /\
  field (lit "mode") (merge_remote current (Object update_map)) = Some (Bool true).
Proof.
  destruct (remote_update current update_map) as (_ & -> & Hf & _); [reflexivity..|].
  split; [reflexivity|]. rewrite Hf. vm_compute. reflexivity.
Defined.

Lemma one_file_write_read p s (f f' : option str) : file_write p s f = (f', inr tt) ->
  file_exists p f' = (f', true) /\ file_read p f' = (f', inr s).
Proof. intros [= <-]. split; reflexivity. Qed.

Lemma one_file_load p v d (f : option str) :
  wf v = true -> f = Some (to_string_pretty v) -> load_json_value_with_default p d f = (f, Ok v).
Proof.
  intros Hv ->. apply (load_written one_file_write_read tree_print_parse p v d None); [exact Hv|reflexivity].
Qed.

Lemma remote_update_persists_witness :
  exists f, load_camera_json (lit "camera.json") f = (f, Ok (merge_remote current (Object update_map))).
Proof.
  set (f := Some (to_string_pretty current)).
  set (f' := Some (to_string_pretty (merge_remote current (Object update_map)))). exists f'.
  assert (Hl0 : forall d, load_json_value_with_default (lit "camera.json") d f = (f, Ok current)).
  { intros d. apply one_file_load; reflexivity. }
  assert (Hm : merge_remote_camera_json (lit "camera.json") (Object update_map) f = (f', Ok tt)).
  { unfold merge_remote_camera_json, mbind, st_bind. rewrite Hl0. reflexivity. }
  destruct (remote_update_persists one_file_write_read tree_print_parse tree_parse_wf (lit "camera.json") update_map f f'
              eq_refl eq_refl Hm) as (cur & f1 & Hl & Hl' & _).
  unfold load_camera_json in Hl. rewrite Hl0 in Hl. injection Hl as _ <-. exact Hl'.
Defined.

Lemma server_url_checked_witness :
  is_ok (merge_with_defaults false (Object update_map)) = true /\
  is_ok (merge_with_defaults false (object [("server"%string, object [("base_url"%string, String (lit "http://h"))])])) = false.
Proof.
  split; [|vm_compute; reflexivity].
  destruct (server_url_checked false None (Object update_map) ∅) as (_ & _ & _ & Hok).
  apply (Hok (lit "http://127.0.0.1:8080")). apply validate_iff. vm_compute. reflexivity.
Defined.

Lemma max_retries_wraps_witness :
  exists c, merge_with_defaults false (object [("server"%string, object [("max_retries"%string, Number (2 ^ 32))])]) = Ok c /\
    max_retries (server c) = 0.
Proof.
  eexists. split; [vm_compute; reflexivity|].
  eapply (max_retries_wraps false (object [("server"%string, object [("max_retries"%string, Number (2 ^ 32))])]) _ (2 ^ 32));
    [vm_compute; reflexivity|vm_compute; reflexivity|vm_compute; split; discriminate|reflexivity].
Defined.

Lemma camera_variables_witness :
  runtime_var (lit "CAM2_STREAM_ID") (install_runtime_overrides (Object update_map)) = Some (lit "8").
Proof.
  apply (camera_variables (Object update_map) [cam1; cam2] 1 cam2
           (set_map_if_value (lit "CAM2_STREAM_ID") (Some (Number 8)))); [reflexivity|reflexivity|].
  do 2 right. left.
Defined.
End ConfigWitness.
