(* ===== verification/Forward.v ===== *)
(** * The forwarding agent's cameras ([forward_agent.rs])

    The cameras to forward are read back from the runtime variables; motion
    events are handed to the uplink under the stream of their camera. *)
From S2P Require Import Prelude Str Io Proto Sdp Uplink Config ConfigFacts.

Record CamConfig := mkCam {
  name : str; rtsp_url : str; rtsp_user : option str; rtsp_pass : option str; stream_id : Z;
  transport : str; rtp_port : Z; rtcp_port : Z; camera_id : str; agent_id : str; agent_token : str }.
#[export] Instance CamConfig_eq : EqDecision CamConfig.
Proof. solve_decision. Defined.

(** ** Reading the variables *)
Section env.
Variable m : vars.
Definition env_string (k : str) : option str := runtime_var k m.
Definition env_u64 (k : str) : option Z := env_string k ?> parse_u64.

Definition load_uplink_ingest_config_from_env : option HelloIngestConfig :=
  let ingest := mkIngest (env_u64 (lit "CLIP_PRE_SECS")) (env_u64 (lit "CLIP_POST_SECS"))
    (env_u64 (lit "CLIP_RING_SECS")) (env_u64 (lit "CLIP_STALE_PART_SECS")) (env_u64 (lit "CLIP_MAX_SECS"))
    (env_u64 (lit "CLIP_WRITE_TIMEOUT_MS")) (env_u64 (lit "CLIP_WRITE_RETRY_COUNT"))
    (env_u64 (lit "CLIP_WRITE_RETRY_BACKOFF_MS")) in
  if is_empty ingest then None else Some ingest.

Definition cam_var (i : Z) (k : String.string) : option str := env_string (camera_prefix i ++ lit k).

Inductive load_error := MissingStreamId (slot : Z) | BadStreamId (slot : Z) | MissingToken (slot : Z).

(** The camera of a slot, [None] when it has no URL.  A UDP port is 16 bits
    wide, and its successor wraps as in a release build. *)
Definition load_camera (i : Z) : outcome load_error (option CamConfig) :=
  match cam_var i "RTSP_URL" with
  | None => mret None
  | Some rtsp =>
      let user := or_else (cam_var i "RTSP_USER") (env_string (lit "RTSP_USER")) in
      let pass := or_else (cam_var i "RTSP_PASS") (env_string (lit "RTSP_PASS")) in
      s ← ok_or (cam_var i "STREAM_ID") (MissingStreamId i);
      stream_id ← ok_or (parse_u32 s) (BadStreamId i);
      let transport := default (lit "tcp") (cam_var i "TRANSPORT") in
      let rtp_port := default (5004 + (i - 1) * 2) (cam_var i "RTP_PORT" ?> parse_u16) in
      let rtcp_port := default (wrap16 (rtp_port + 1)) (cam_var i "RTCP_PORT" ?> parse_u16) in
      let camera_id := default (lit "cam-" ++ dec i)
        (or_else (cam_var i "CAMERA_ID") (if i =? 1 then env_string (lit "CAMERA_ID") else None)) in
      let agent_id := default camera_id (cam_var i "AGENT_ID") in
      agent_token ← ok_or
        (or_else (or_else (or_else (cam_var i "AGENT_TOKEN") (env_string (lit "SERVER_BEARER_TOKEN")))
           (env_string (lit "AGENT_TOKEN"))) (env_string (lit "SERVER_TOKEN"))) (MissingToken i);
      mret (Some (mkCam (lit "cam" ++ dec i) rtsp user pass stream_id (map lower_char transport)
                    rtp_port rtcp_port camera_id agent_id agent_token))
  end.

Fixpoint load_slots (slots : list Z) : outcome load_error (list CamConfig) :=
  match slots with
  | [] => mret []
  | i :: slots =>
      c ← load_camera i;
      cs ← load_slots slots;
      mret (match c with Some c => c :: cs | None => cs end)
  end.
Definition load_cameras_from_env : outcome load_error (list CamConfig) := load_slots [1; 2; 3; 4].
End env.

Definition basic_auth_value `{Base64} (user pass : str) : str :=
  lit "Basic " ++ b64_encode (as_bytes (user ++ 58 :: pass)).

Inductive target_error := BadUrl | NoHost.
Definition parse_rtsp_url `{UrlParser} (rtsp_url : str) : outcome target_error (str * Z * str) :=
  url ← ok_or (parse_url rtsp_url) BadUrl;
  host ← ok_or (host_str url) NoHost;
  mret (host, default 554 (port url), url_path url).

(** ** Streams *)
Fixpoint build_stream_maps (cams : list CamConfig) (maps : gmap Z str * gmap str Z) : gmap Z str * gmap str Z :=
  match cams with
  | [] => maps
  | cam :: cams =>
      build_stream_maps cams (<[stream_id cam := name cam]> maps.1, <[camera_id cam := stream_id cam]> maps.2)
  end.

(** [HashMap::values] visits the values in an order of its own. *)
Section motion.
Variable values : gmap str Z -> list Z.
Definition resolve_stream_id (camera_id : str) (cam_map : gmap str Z) : Z :=
  default 1 (or_else (cam_map !! camera_id) (head (values cam_map))).

Context {W E QM QE : Type} `{AsyncWrite W E} `{Queue QM Msg} `{Queue QE MotionEnvelope}.
(** [forward_motion_event], the sender being the uplink; the time is printed. *)
Definition forward_motion_event (cam_map : gmap str Z) (rule : str) (active : bool) (ts camera_id event_id : str)
    (u : uplink (QM:=QM) (QE:=QE)) : uplink (QM:=QM) (QE:=QE) * Z :=
  let stream_id := resolve_stream_id camera_id cam_map in
  (send_motion (mkEnvelope stream_id rule active ts camera_id event_id) u, stream_id).
End motion.

(** ** The cameras a configuration describes

    The reference the reading of the variables is compared with: directly from
    the configuration's value. *)
Definition text (v : option Value) : option str := v ?> value_to_string.

Section configured.
Context `{UrlParser} `{JsonText}.

Definition configured_camera (v first cam : Value) (i : Z) : outcome load_error (option CamConfig) :=
  let rtsp := section cam "rtsp" in
  match non_blank (build_rtsp_url rtsp) with
  | None => mret None
  | Some url =>
      s ← ok_or (text (or_else (get "stream_id" rtsp) (get "stream_id" cam))) (MissingStreamId i);
      stream ← ok_or (parse_u32 s) (BadStreamId i);
      let id := default (lit "cam-" ++ dec i)
        (or_else (text (cam_id cam)) (if i =? 1 then text (get "camera_id" v) else None)) in
      token ← ok_or (text (get "bearer_token" (section v "server"))) (MissingToken i);
      mret (Some (mkCam (lit "cam" ++ dec i) url (or_else (text (get "user" cam)) (text (get "user" first)))
        (or_else (text (get "pass" cam)) (text (get "pass" first))) stream
        (map lower_char (default (lit "tcp") (text (or_else (get "transport" cam) (get "transport" rtsp)))))
        (5002 + 2 * i) (5003 + 2 * i) id (default id (text (cam_agent_id cam))) token))
  end.

Fixpoint configured_slots (v first : Value) (i : Z) (cams : list Value) : outcome load_error (list CamConfig) :=
  match cams with
  | [] => mret []
  | cam :: cams =>
      c ← configured_camera v first cam i;
      cs ← configured_slots v first (i + 1) cams;
      mret (match c with Some c => c :: cs | None => cs end)
  end.
Definition configured_cameras (v : Value) (cams : list Value) : outcome load_error (list CamConfig) :=
  match cams with [] => mret [] | first :: _ => configured_slots v first 1 (take 4 cams) end.

Section lookups.
Context (v : Value) (cams : list Value) (Hcams : get "cameras" v ?> as_array = Some cams).
Abbreviation m := (install_runtime_overrides v).

Lemma cam_var_at (n : nat) (k : String.string) i cam s :
  cams !! i = Some cam -> camera_settings (1 + Z.of_nat i) cam !! n = Some s ->
  key s = camera_prefix (1 + Z.of_nat i) ++ lit k -> cam_var m (1 + Z.of_nat i) k = value s.
Proof.
  intros Hi Hn Hk. unfold cam_var, env_string. rewrite <- Hk. eapply camera_variables; [done|done|].
  by eapply list_elem_of_lookup_2.
Qed.

Lemma cam_var_unknown (k : String.string) i cam :
  cams !! i = Some cam -> lit k ∉ map lit camera_names -> cam_var m (1 + Z.of_nat i) k = None.
Proof. intros Hi Hk. unfold cam_var, env_string, runtime_var. by eapply camera_name_unknown. Qed.

Lemma cam_var_empty (k : String.string) i : (length cams <= i)%nat -> cam_var m (1 + Z.of_nat i) k = None.
Proof.
  intros Hi. unfold cam_var, env_string, runtime_var.
  apply (camera_slot_empty v cams _ (1 + Z.of_nat i)); [done|lia|]. apply slot_of_camera. lia.
Qed.

(** A variable of no slot with one setting. *)
Lemma global_at k s : slot_of k = None ->
  filter (fun s => key s = k) (server_settings v ++ ingest_settings v ++ forward_settings v) ++
  filter (fun s => key s = k) (match cams with first :: _ => first_camera_settings first | [] => [] end) = [s] ->
  key s = k -> env_string m k = value s.
Proof.
  intros Hk Hf Hs. unfold env_string, runtime_var. rewrite (global_variable v cams k Hcams Hk), Hf. cbn [foldl].
  rewrite apply_setting_get, bool_decide_true by done. destruct (value s); [|apply lookup_empty].
  rewrite (bool_decide_false (is_Some _)); [by rewrite andb_false_r|]. rewrite lookup_empty. by intros [? ?].
Qed.

Context (first : Value) (rest : list Value) (Hfirst : cams = first :: rest).

Lemma global_user : env_string m (lit "RTSP_USER") = text (get "user" first).
Proof. apply (global_at _ (set_map_if_unset (lit "RTSP_USER") (get "user" first))); [done|by rewrite Hfirst|done]. Qed.
Lemma global_pass : env_string m (lit "RTSP_PASS") = text (get "pass" first).
Proof. apply (global_at _ (set_map_if_unset (lit "RTSP_PASS") (get "pass" first))); [done|by rewrite Hfirst|done]. Qed.

Abbreviation token := (text (get "bearer_token" (section v "server"))).
Lemma global_token :
  env_string m (lit "SERVER_BEARER_TOKEN") = token /\ env_string m (lit "AGENT_TOKEN") = token /\
  env_string m (lit "SERVER_TOKEN") = token.
Proof.
  split; [|split].
  - apply (global_at _ (set_map_if_value (lit "SERVER_BEARER_TOKEN") (get "bearer_token" (section v "server")))); [done|by rewrite Hfirst|done].
  - apply (global_at _ (set_map_if_unset (lit "AGENT_TOKEN") (get "bearer_token" (section v "server")))); [done|by rewrite Hfirst|done].
  - apply (global_at _ (set_map_if_unset (lit "SERVER_TOKEN") (get "bearer_token" (section v "server")))); [done|by rewrite Hfirst|done].
Qed.

Lemma global_camera_id : env_string m (lit "CAMERA_ID") = or_else (text (get "camera_id" v)) (text (cam_id first)).
Proof.
  unfold env_string, runtime_var. rewrite (global_variable v cams (lit "CAMERA_ID") Hcams eq_refl), Hfirst.
  match goal with |- foldl _ _ ?l !! _ = _ =>
    change l with [set_map_if_value (lit "CAMERA_ID") (get "camera_id" v); set_map_if_unset (lit "CAMERA_ID") (cam_id first)] end.
  cbn [foldl]. unfold text, apply_setting.
  cbn [set_map_if_value set_map_if_unset key value only_unset andb].
  destruct (get "camera_id" v ?> value_to_string) as [t|]; cbn [or_else].
  - destruct (cam_id first ?> value_to_string); [|by rewrite lookup_insert_eq].
    by rewrite bool_decide_true; rewrite lookup_insert_eq; eauto.
  - destruct (cam_id first ?> value_to_string) as [t|]; [|done].
    rewrite bool_decide_false by (rewrite lookup_empty; by intros [? ?]). by rewrite lookup_insert_eq.
Qed.

(** One slot, read through the variables and from the configuration. *)
Lemma load_camera_configured i cam :
  cams !! i = Some cam -> (i < 4)%nat -> load_camera m (1 + Z.of_nat i) = configured_camera v first cam (1 + Z.of_nat i).
Proof.
  intros Hi Hlt. destruct global_token as (Ht1 & Ht2 & Ht3).
  unfold load_camera, configured_camera.
  rewrite (cam_var_at 4 "RTSP_URL" i cam _ Hi eq_refl eq_refl), (cam_var_at 8 "RTSP_USER" i cam _ Hi eq_refl eq_refl),
    (cam_var_at 9 "RTSP_PASS" i cam _ Hi eq_refl eq_refl), (cam_var_at 2 "STREAM_ID" i cam _ Hi eq_refl eq_refl),
    (cam_var_at 3 "TRANSPORT" i cam _ Hi eq_refl eq_refl), (cam_var_at 0 "CAMERA_ID" i cam _ Hi eq_refl eq_refl),
    (cam_var_at 1 "AGENT_ID" i cam _ Hi eq_refl eq_refl).
  rewrite !(cam_var_unknown _ i cam Hi) by by_eval.
  cbn [set_map_if_value set_map_if_string value]. rewrite Ht1, Ht2, Ht3, global_user, global_pass, global_camera_id.
  cbn [mbind option_bind default or_else]. unfold text.
  destruct (non_blank _) as [url|]; [|done].
  destruct (or_else (get "stream_id" _) _ ?> value_to_string) as [s|]; cbn [ok_or mbind outcome_bind]; [|done].
  destruct (parse_u32 s) as [stream|]; cbn [ok_or mbind outcome_bind]; [|done].
  destruct (get "bearer_token" _ ?> value_to_string) as [tok|]; cbn [or_else ok_or mbind outcome_bind]; [|done].
  assert (Hid : or_else (cam_id cam ?> value_to_string)
      (if 1 + Z.of_nat i =? 1 then or_else (get "camera_id" v ?> value_to_string) (cam_id first ?> value_to_string) else None)
    = or_else (cam_id cam ?> value_to_string) (if 1 + Z.of_nat i =? 1 then get "camera_id" v ?> value_to_string else None)).
  { destruct (Z.eqb_spec (1 + Z.of_nat i) 1); [|done]. assert (i = O) as -> by lia.
    rewrite Hfirst in Hi. injection Hi as ->. destruct (cam_id cam ?> value_to_string); [done|]. cbn [or_else].
    by destruct (get "camera_id" v ?> value_to_string). }
  rewrite Hid. unfold wrap16. rewrite Z.mod_small by lia.
  do 3 f_equal; lia.
Qed.

Lemma load_camera_empty i : (length cams <= i)%nat -> load_camera m (1 + Z.of_nat i) = mret None.
Proof. intros Hi. unfold load_camera. by rewrite cam_var_empty. Qed.

Lemma load_slots_configured n k : (k + n <= 4)%nat ->
  load_slots m (map (fun i => 1 + Z.of_nat i) (seq k n)) =
  configured_slots v first (1 + Z.of_nat k) (take n (drop k cams)).
Proof.
  revert k. induction n as [|n IH]; intros k Hk; [done|]. cbn [seq map load_slots].
  rewrite (IH (S k)) by lia. replace (1 + Z.of_nat (S k)) with (1 + Z.of_nat k + 1) by lia.
  destruct (cams !! k) as [cam|] eqn:Hc.
  - rewrite (load_camera_configured k cam Hc) by lia. by rewrite (drop_S cams cam k Hc).
  - apply lookup_ge_None in Hc. rewrite load_camera_empty by done. rewrite !drop_ge by lia. by destruct n.
Qed.
End lookups.

Lemma load_cameras_configured v cams :
  get "cameras" v ?> as_array = Some cams ->
  load_cameras_from_env (install_runtime_overrides v) = configured_cameras v cams.
Proof.
  intros Hcams. unfold load_cameras_from_env, configured_cameras.
  destruct cams as [|first rest].
  { change [1; 2; 3; 4] with (map (fun i => 1 + Z.of_nat i) (seq 0 4)).
    cbn [seq map load_slots]. by rewrite !(load_camera_empty v [] Hcams) by (cbn; lia). }
  exact (load_slots_configured v (first :: rest) Hcams first rest eq_refl 4 0 ltac:(lia)).
Qed.

(** C16: the cameras the agent forwards, read back from the runtime variables, are
    those of the configuration: the first four, each with the URL, stream,
    transport and identity of its own section, the ports of its slot, the
    server's token for all, and the credentials of the first camera where it
    has none. *)
Theorem cameras_as_configured v cams :
  get "cameras" v ?> as_array = Some cams ->
  load_cameras_from_env (install_runtime_overrides v) = configured_cameras v cams.
Proof. apply load_cameras_configured. Qed.

Lemma load_no_cameras v : get "cameras" v ?> as_array = None -> load_cameras_from_env (install_runtime_overrides v) = Ok [].
Proof.
  intros Hc. assert (Hn : forall i, 0 <= i -> load_camera (install_runtime_overrides v) i = mret None).
  { intros i Hi. unfold load_camera, cam_var, env_string, runtime_var.
    by rewrite (no_cameras_no_slot v (camera_prefix i ++ lit "RTSP_URL") (dec i) Hc) by (by apply slot_of_camera). }
  unfold load_cameras_from_env. cbn [load_slots]. by rewrite !Hn by lia.
Qed.

(** Every camera has the server's token. *)
Lemma configured_tokens v first i cs l :
  configured_slots v first i cs = Ok l -> Forall (fun c => Some (agent_token c) = text (get "bearer_token" (section v "server"))) l.
Proof.
  revert i l. induction cs as [|c cs IH]; intros i l; cbn [configured_slots]; [by intros [= <-]|].
  destruct (configured_camera v first c i) as [o| |] eqn:Hc; cbn [mbind outcome_bind]; [|done|done].
  destruct (configured_slots v first (i + 1) cs) as [l'| |] eqn:Hs; cbn [mbind outcome_bind]; [|done|done].
  intros [= <-]. apply IH in Hs. destruct o as [cam|]; [|done]. constructor; [|done].
  unfold configured_camera in Hc. destruct (non_blank _); [|done].
  destruct (text (or_else (get "stream_id" _) _)); cbn [ok_or mbind outcome_bind] in Hc; [|done].
  destruct (parse_u32 _); cbn [ok_or mbind outcome_bind] in Hc; [|done].
  destruct (text (get "bearer_token" _)); cbn [ok_or mbind outcome_bind] in Hc; [|done].
  by injection Hc as <-.
Qed.

Lemma loaded_tokens v l : load_cameras_from_env (install_runtime_overrides v) = Ok l ->
  Forall (fun c => Some (agent_token c) = text (get "bearer_token" (section v "server"))) l.
Proof.
  destruct (get "cameras" v ?> as_array) as [cams|] eqn:Hc.
  - rewrite (load_cameras_configured v cams Hc). unfold configured_cameras.
    destruct cams as [|first cams]; [by intros [= <-]|]. apply configured_tokens.
  - rewrite (load_no_cameras v Hc). by intros [= <-].
Qed.
End configured.

(** ** The stream of a motion event *)
Lemma stream_maps_other cams maps id :
  Forall (fun c => camera_id c <> id) cams -> (build_stream_maps cams maps).2 !! id = maps.2 !! id.
Proof.
  revert maps. induction cams as [|c cams IH]; intros maps Hc; [done|]. apply Forall_cons in Hc as [Hc1 Hc2].
  cbn [build_stream_maps]. rewrite IH by done. cbn. by rewrite lookup_insert_ne.
Qed.

Lemma stream_maps_camera cams maps cam :
  NoDup (map camera_id cams) -> cam ∈ cams ->
  (build_stream_maps cams maps).2 !! camera_id cam = Some (stream_id cam).
Proof.
  revert maps. induction cams as [|c cams IH]; intros maps; [by intros _ ?%elem_of_nil|].
  cbn [map build_stream_maps]. rewrite NoDup_cons. intros [Hni Hnd] [->|Hin]%elem_of_cons; [|by apply IH].
  rewrite stream_maps_other; [cbn; by rewrite lookup_insert_eq|]. rewrite Forall_forall. intros x Hx He.
  apply Hni. rewrite <- He. by apply (list_elem_of_fmap_2 camera_id).
Qed.

(** The motion of a camera is announced under the camera's own stream when the
    cameras have distinct ids; a motion of a camera nobody forwards goes out
    under some camera's stream, and under stream 1 when there is none. *)
Theorem motion_stream values cams id :
  NoDup (map camera_id cams) ->
  (forall m, head (values m) = None <-> m = ∅) -> (forall m s, s ∈ values m -> exists k, m !! k = Some s) ->
  let cam_map := (build_stream_maps cams (∅, ∅)).2 in
  (forall cam, cam ∈ cams -> camera_id cam = id -> resolve_stream_id values id cam_map = stream_id cam) /\
  (id ∉ map camera_id cams ->
     (cams = [] /\ resolve_stream_id values id cam_map = 1) \/
     exists k s, cam_map !! k = Some s /\ k <> id /\ resolve_stream_id values id cam_map = s).
Proof.
  intros Hnd Hhead Hval. cbn zeta. split.
  - intros cam Hin <-. unfold resolve_stream_id. by rewrite (stream_maps_camera cams (∅, ∅) cam).
  - intros Hni. unfold resolve_stream_id.
    assert (Hid : (build_stream_maps cams (∅, ∅)).2 !! id = None).
    { rewrite stream_maps_other; [apply lookup_empty|]. rewrite Forall_forall. intros c Hc He. apply Hni.
      rewrite <- He. by apply (list_elem_of_fmap_2 camera_id). }
    rewrite Hid. cbn [or_else]. destruct (head (values _)) as [s|] eqn:Hh.
    + right. destruct (Hval (build_stream_maps cams (∅, ∅)).2 s) as [k Hk].
      { destruct (values _) as [|x l]; [done|]. injection Hh as ->. left. }
      exists k, s. split; [done|]. split; [|done]. intros ->. congruence.
    + left. split; [|done]. apply Hhead in Hh. destruct cams as [|c cams]; [done|].
      pose proof (stream_maps_camera (c :: cams) (∅, ∅) c Hnd ltac:(left)) as Hs.
      rewrite Hh, lookup_empty in Hs. done.
Qed.

Module ForwardWitness.
Import ConfigFacts.ConfigWitness.
#[local] Existing Instances tree_json localhost_urls.
Definition door : Value := object [("id", String (lit "door")); ("user", String (lit "u"));
  ("rtsp", object [("url", String (lit "rtsp://h/1")); ("stream_id", Number 7)])]%string.
Definition yard : Value := object [("id", String (lit "yard")); ("transport", String (lit "UDP"));
  ("rtsp", object [("host", String (lit "h")); ("stream_id", String (lit "8"))])]%string.
Definition home : Value :=
  object [("cameras", Array [door; cam2; yard]); ("server", object [("bearer_token", String (lit "t"))])]%string.

Lemma cameras_as_configured_witness :
  load_cameras_from_env (install_runtime_overrides home) =
  Ok [mkCam (lit "cam1") (lit "rtsp://h/1") (Some (lit "u")) None 7 (lit "tcp") 5004 5005 (lit "door") (lit "door") (lit "t");
      mkCam (lit "cam3") (lit "rtsp://h:554") (Some (lit "u")) None 8 (lit "udp") 5008 5009 (lit "yard") (lit "yard") (lit "t")].
Proof. rewrite (cameras_as_configured home [door; cam2; yard]) by reflexivity. vm_compute. reflexivity. Defined.

Lemma motion_stream_witness :
  resolve_stream_id (fun m => map snd (map_to_list m)) (lit "b")
    (build_stream_maps [mkCam [] [] None None 7 [] 0 0 (lit "a") [] []; mkCam [] [] None None 8 [] 0 0 (lit "b") [] []] (∅, ∅)).2 = 8.
Proof.
  destruct (motion_stream (fun m => map snd (map_to_list m))
    [mkCam [] [] None None 7 [] 0 0 (lit "a") [] []; mkCam [] [] None None 8 [] 0 0 (lit "b") [] []] (lit "b")) as [H _].
  - by_eval.
  - intros m. rewrite <- map_to_list_empty_iff. by destruct (map_to_list m).
  - intros m s Hs. apply list_elem_of_fmap in Hs as ([k s'] & -> & Hk). exists k. by apply elem_of_map_to_list in Hk.
  - rewrite (H (mkCam [] [] None None 8 [] 0 0 (lit "b") [] [])); [reflexivity|right; left|reflexivity].
Defined.
End ForwardWitness.
