(* ===== verification/Camera.v ===== *)
(** * A camera of the forwarding agent ([bin/agent_forward.rs])

    One RTSP session of a camera: the handshake over UDP or TCP, and the loop
    that hands its packets to the uplink.  The supervisor starts sessions again
    with growing waits, and reports by an [OfflineTracker] when the camera is
    gone.  The RTSP connection is a stream of [Rtsp]; what a [select!] of a
    loop yields is a turn.  Logging is left out, and an activity is posted to
    the server by a task of its own, here its event and level. *)
From S2P Require Import Prelude Io Str Rtp Sdp Rtsp Receiver Config ConfigFacts Forward.

Inductive session_error (E : Type) :=
| TargetError (e : target_error)
| ConnectFailed (e : E)
| StatusFailed (method : str) (status : Z)
| BadSdp (e : sdp_error)
| UnsupportedCodec (codec : str)
| NoTransport
| NoInterleaved
| StartupTimeout
| ReceiveTimeout
| SessionRtsp (e : rtsp_error E)
| SessionFrame (e : frame_error E)
| SocketFailed (e : E).
Arguments TargetError {E}.
Arguments ConnectFailed {E}.
Arguments StatusFailed {E}.
Arguments BadSdp {E}.
Arguments UnsupportedCodec {E}.
Arguments NoTransport {E}.
Arguments NoInterleaved {E}.
Arguments StartupTimeout {E}.
Arguments ReceiveTimeout {E}.
Arguments SessionRtsp {E}.
Arguments SessionFrame {E}.
Arguments SocketFailed {E}.

(** What a session does to the uplink, under its camera's stream, and the
    activities it posts. *)
Inductive action :=
| SetParameterSets (sps pps : bytes)
| SendRtp (b : bytes)
| SendGap (last new : Z)
| Activity (event level : str).

Definition parse_interleaved_channels (transport : str) : option (Z * Z) :=
  find_map (fun part =>
    match strip_prefix (lit "interleaved=") (trim part) with
    | Some value => Some (
        '(rtp, rtcp) ← split_once 45 value;
        rtp ← parse_u8 rtp;
        rtcp ← parse_u8 rtcp;
        Some (rtp, rtcp))
    | None => None
    end) (split_char 59 transport).

(** ** Forwarding the packets *)
Record fwd := mkFwd { expected_seq : option Z; first_logged : bool; offline_state : bool }.

(** The first packet of a session ends an offline state. *)
Definition came_online (s : fwd) : fwd * list action :=
  if first_logged s then (s, [])
  else (mkFwd (expected_seq s) true false,
        if offline_state s then [Activity (lit "reconnect") (lit "info")] else []).

(** A datagram, cut to the buffer. *)
Definition on_datagram (datagram : bytes) (s : fwd) : fwd * list action :=
  let buf := take (Z.to_nat 8192) datagram in
  match parse buf with
  | Ok pkt =>
      let '(s, acts) := came_online s in
      let next := Some (wrap16 (sequence_number pkt + 1)) in
      let forward := (mkFwd next (first_logged s) (offline_state s), acts ++ [SendRtp buf]) in
      match expected_seq s with
      | Some exp =>
          if negb (sequence_number pkt =? exp) then
            (mkFwd next (first_logged s) (offline_state s),
             acts ++ [SendGap (wrap16 (exp - 1)) (sequence_number pkt)])
          else forward
      | None => forward
      end
  | _ => (mkFwd None (first_logged s) (offline_state s), [])
  end.

Definition on_frame (f : InterleavedFrame) (s : fwd) : fwd * list action :=
  match f with
  | Rtp b => let '(s, acts) := came_online s in (s, acts ++ [SendRtp b])
  | Rtcp _ | Unknown _ _ => (s, [])
  end.

(** How a loop ends, if the turns given do not run out: the session was
    cancelled, or failed. *)
Abbreviation ending E := (option (outcome (session_error E) unit)).

Definition no_packet {E} (s : fwd) : session_error E := if first_logged s then ReceiveTimeout else StartupTimeout.

Inductive udp_turn (E : Type) := UCancelled | UTimeout | UFailed (e : E) | UDatagram (b : bytes).
Arguments UCancelled {E}.
Arguments UTimeout {E}.
Arguments UFailed {E}.
Arguments UDatagram {E}.
Fixpoint udp_loop {E} (turns : list (udp_turn E)) (s : fwd) : fwd * list action * ending E :=
  match turns with
  | [] => (s, [], None)
  | UCancelled :: _ => (s, [], Some (Ok tt))
  | UTimeout :: _ => (s, [], Some (Err (no_packet s)))
  | UFailed e :: _ => (s, [], Some (Err (SocketFailed e)))
  | UDatagram b :: turns =>
      let '(s, acts) := on_datagram b s in
      let '(s, acts', e) := udp_loop turns s in
      (s, acts ++ acts', e)
  end.

Section session.
Context {S E : Type} `{AsyncRead S E} `{AsyncReadSome S E} `{AsyncWrite S E} `{Base64} `{UrlParser}.
Variable fuel : nat.

Inductive tcp_turn := TCancelled | TTimeout | TFrame.
Fixpoint tcp_loop (turns : list tcp_turn) (rtp rtcp : Z) (c : RtspClient S) (s : fwd) : fwd * list action * ending E :=
  match turns with
  | [] => (s, [], None)
  | TCancelled :: _ => (s, [], Some (Ok tt))
  | TTimeout :: _ => (s, [], Some (Err (no_packet s)))
  | TFrame :: turns =>
      match read_interleaved_frame rtp rtcp c with
      | (c, Ok f) =>
          let '(s, acts) := on_frame f s in
          let '(s, acts', e) := tcp_loop turns rtp rtcp c s in
          (s, acts ++ acts', e)
      | (_, Err e) => (s, [], Some (Err (SessionFrame e)))
      | (_, Panic) => (s, [], Some Panic)
      end
  end.

(** ** The handshake

    Over the client and the actions so far. *)
Abbreviation world := (RtspClient S * list action)%type.
Abbreviation M := (Prelude.st world (session_error E)).

Definition emit (a : action) : M unit := fun w => ((w.1, w.2 ++ [a]), Ok tt).
Definition request_ok (method url : str) (hs : list (str * str)) : M RtspResponse := fun w =>
  match request fuel method url hs None w.1 with
  | (c, Ok r) => ((c, w.2), if negb (status r =? 200) then Err (StatusFailed method (status r)) else Ok r)
  | (c, Err e) => ((c, w.2), Err (SessionRtsp e))
  | (c, Panic) => ((c, w.2), Panic)
  end.
Definition keep_session (r : RtspResponse) : M unit := fun w => ((set_session_from r w.1, w.2), Ok tt).

Definition authz (cam : CamConfig) : list (str * str) :=
  match rtsp_user cam, rtsp_pass cam with
  | Some u, Some p => [(lit "Authorization", Forward.basic_auth_value u p)]
  | _, _ => []
  end.

(** OPTIONS and DESCRIBE: the video track, which has to be H.264. *)
Definition describe (cam : CamConfig) : M SdpVideoTrack :=
  request_ok (lit "OPTIONS") (rtsp_url cam) (authz cam) ;;
  r ← request_ok (lit "DESCRIBE") (rtsp_url cam) ((lit "Accept", lit "application/sdp") :: authz cam);
  track ← lift_outcome (match parse_sdp_video_track (from_utf8_lossy (body r)) with
                        | Ok t => Ok t | Err e => Err (BadSdp e) | Panic => Panic end);
  match sprop_sps track, sprop_pps track with
  | Some sps, Some pps => emit (SetParameterSets sps pps)
  | _, _ => mret tt
  end ;;
  match codec_name track with
  | Some codec => st_bail_if (negb (eq_ignore_ascii_case codec (lit "H264"))) (UnsupportedCodec codec)
  | None => mret tt
  end ;;
  mret track.

Definition setup_url (cam : CamConfig) (track : SdpVideoTrack) : str :=
  if starts_with (lit "rtsp://") (control track) then control track
  else trim_end_matches 47 (rtsp_url cam) ++ 47 :: trim_start_matches 47 (control track).

Definition play (cam : CamConfig) : M unit :=
  request_ok (lit "PLAY") (rtsp_url cam) ((lit "Range", lit "npt=0.000-") :: authz cam) ;; mret tt.

Definition setup_udp (cam : CamConfig) (track : SdpVideoTrack) : M unit :=
  let requested := lit "RTP/AVP;unicast;client_port=" ++ dec (rtp_port cam) ++ lit "-" ++ dec (rtcp_port cam)
                   ++ lit ";mode=play" in
  r ← request_ok (lit "SETUP") (setup_url cam track) ((lit "Transport", requested) :: authz cam);
  keep_session r ;;
  play cam.

Definition setup_tcp (cam : CamConfig) (track : SdpVideoTrack) : M (Z * Z) :=
  let requested := lit "RTP/AVP/TCP;unicast;interleaved=0-1;mode=play" in
  r ← request_ok (lit "SETUP") (setup_url cam track) ((lit "Transport", requested) :: authz cam);
  negotiated ← lift_outcome (ok_or (header_get (headers r) (lit "Transport")) NoTransport);
  channels ← lift_outcome (ok_or (parse_interleaved_channels negotiated) NoInterleaved);
  keep_session r ;;
  play cam ;;
  mret channels.

(** The network, for one session. *)
Record network := mkNet {
  dial : str -> Z -> E + S;               (* TcpStream::connect *)
  bind : Z -> option E;                   (* UdpSocket::bind *)
  udp_turns : list (udp_turn E);
  tcp_turns : list tcp_turn;
}.

(** The session's actions, the offline state it leaves, and how it ends. *)
Definition run_camera_session (cam : CamConfig) (net : network) (offline : bool) : bool * list action * ending E :=
  match parse_rtsp_url (rtsp_url cam) with
  | Err e => (offline, [], Some (Err (TargetError e)))
  | Panic => (offline, [], Some Panic)
  | Ok (host, port, _) =>
      match dial net host port with
      | inl e => (offline, [], Some (Err (ConnectFailed e)))
      | inr stream =>
          let start := mkFwd None false offline in
          let udp := bool_decide (transport cam = lit "udp") in
          let handshake : M (Z * Z) :=
            track ← describe cam;
            if udp then setup_udp cam track ;; mret (0, 0) else setup_tcp cam track in
          match handshake (connect stream, []) with
          | ((c, acts), Ok (rtp, rtcp)) =>
              if udp then
                match bind net (rtp_port cam) with
                | Some e => (offline, acts, Some (Err (SocketFailed e)))
                | None =>
                    let '(s, acts', e) := udp_loop (udp_turns net) start in (offline_state s, acts ++ acts', e)
                end
              else
                let '(s, acts', e) := tcp_loop (tcp_turns net) rtp rtcp c start in (offline_state s, acts ++ acts', e)
          | ((_, acts), Err e) => (offline, acts, Some (Err e))
          | ((_, acts), Panic) => (offline, acts, Some Panic)
          end
      end
  end.
End session.

(** ** Outages

    Times are instants in milliseconds; a difference of instants is at least
    zero. *)
Inductive OfflineTransition := Offline | Online.
Record OfflineTracker := mkTracker {
  offline_timeout : Z; retry_outage : Z; retry_count : Z; retry_window : Z;
  outage_starts : list Z; outage_started_at : option Z; offline : bool }.
Definition new_tracker (offline_timeout retry_outage retry_count retry_window : Z) : OfflineTracker :=
  mkTracker offline_timeout retry_outage retry_count retry_window [] None false.
Definition with_outages (starts : list Z) (since : option Z) (off : bool) (t : OfflineTracker) : OfflineTracker :=
  mkTracker (offline_timeout t) (retry_outage t) (retry_count t) (retry_window t) starts since off.
Definition duration_since (now started : Z) : Z := Z.max 0 (now - started).

Definition on_outage_started (now : Z) (t : OfflineTracker) : OfflineTracker :=
  match outage_started_at t with
  | None => with_outages (outage_starts t) (Some now) (offline t) t
  | Some _ => t
  end.
Definition prune (now : Z) (t : OfflineTracker) : OfflineTracker :=
  with_outages (filter (fun started => duration_since now started <= retry_window t) (outage_starts t))
    (outage_started_at t) (offline t) t.
Definition on_outage_recovered (now : Z) (t : OfflineTracker) : OfflineTracker * option OfflineTransition :=
  let starts := match outage_started_at t with
                | Some started =>
                    if retry_outage t <=? duration_since now started then outage_starts t ++ [started] else outage_starts t
                | None => outage_starts t
                end in
  let t := prune now (with_outages starts None (offline t) t) in
  if offline t then (with_outages (outage_starts t) (outage_started_at t) false t, Some Online) else (t, None).
Definition evaluate (now : Z) (t : OfflineTracker) : OfflineTracker * option OfflineTransition :=
  let t := prune now t in
  let continuous := match outage_started_at t with
                    | Some started => offline_timeout t <=? duration_since now started
                    | None => false
                    end in
  let burst := retry_count t <=? Z.of_nat (length (outage_starts t)) in
  if (continuous || burst) && negb (offline t)
  then (with_outages (outage_starts t) (outage_started_at t) true t, Some Offline)
  else (t, None).

(** The kind and level reported, from the text of the error. *)
Definition classify_camera_session_failure (error : str) : str * str :=
  let lower := map ascii_lower error in
  if contains (lit "timeout") lower || contains (lit "timed out") lower
  then (lit "timeout", lit "warn") else (lit "connect_fail", lit "error").

(** The policy, from the runtime variables. *)
Definition offline_policy (m : vars) : OfflineTracker :=
  new_tracker (1000 * runtime_u64_nonzero (lit "CAMERA_OFFLINE_TIMEOUT_SECS") 20 m)
    (1000 * runtime_u64_nonzero (lit "CAMERA_OFFLINE_RETRY_OUTAGE_SECS") 5 m)
    (runtime_u64_nonzero (lit "CAMERA_OFFLINE_RETRY_COUNT") 4 m)
    (1000 * runtime_u64_nonzero (lit "CAMERA_OFFLINE_RETRY_WINDOW_SECS") 120 m).

(** ** The supervisor

    The sessions it runs, one after the other: what the runner does, when it
    has ended, and whether the supervisor is cancelled before it or during the
    wait behind it. *)
Section supervisor.
Context {E : Type}.
Variable error_text : session_error E -> str.

Record attempt := mkAttempt {
  cancelled_before : bool;
  runner : bool -> bool * list action * ending E;
  ended_at : Z;
  cancelled_after : bool }.
Record sup := mkSup { tracker : OfflineTracker; backoff : Z; is_offline : bool }.

(** After a failed session: the tracker, the offline state, the activities. *)
Definition on_failure (now : Z) (error : session_error E) (s : sup) : sup * list action :=
  let '(t, transition) := evaluate now (on_outage_started now (tracker s)) in
  let '(flag, acts) := match transition with
                       | Some Offline =>
                           let '(event, level) := classify_camera_session_failure (error_text error) in
                           (true, [Activity event level])
                       | _ => (is_offline s, [])
                       end in
  (mkSup t (Z.min (backoff s * 2) 30000) flag, acts).

(** The actions, the waits, and whether the supervisor returns; nothing when a
    session does not end. *)
Fixpoint supervise (attempts : list attempt) (s : sup) : list action * list Z * option (outcome (session_error E) unit) :=
  match attempts with
  | [] => ([], [], None)
  | a :: attempts =>
      if cancelled_before a then ([], [], Some (Ok tt)) else
      match runner a (is_offline s) with
      | (_, acts, None) => (acts, [], None)
      | (_, acts, Some (Ok _)) => (acts, [], Some (Ok tt))
      | (_, acts, Some Panic) => (acts, [], Some Panic)
      | (flag, acts, Some (Err error)) =>
          let wait := backoff s in
          let '(s, acts') := on_failure (ended_at a) error (mkSup (tracker s) (backoff s) flag) in
          if cancelled_after a then (acts ++ acts', [wait], Some (Ok tt))
          else
            let '(acts'', waits, v) := supervise attempts s in
            (acts ++ acts' ++ acts'', wait :: waits, v)
      end
  end.
Definition run_camera_supervisor (m : vars) (attempts : list attempt) :=
  supervise attempts (mkSup (offline_policy m) 1000 false).
End supervisor.

(** ** Reference definitions

    What a camera posted. *)
Definition activities (acts : list action) : list (str * str) :=
  omap (fun a => match a with Activity event level => Some (event, level) | _ => None end) acts.
Definition is_media (a : action) : bool := match a with SendRtp _ | SendGap _ _ => true | _ => false end.
Definition media_of (acts : list action) : list action := filter (fun a => is_media a = true) acts.

(** Sequence numbers told to the server follow each other: a packet is the
    successor of what came last, a gap says so itself. *)
Definition seq_of (b : bytes) : option Z := match parse b with Ok pkt => Some (sequence_number pkt) | _ => None end.
Fixpoint continuous (last : option Z) (media : list action) : Prop :=
  match media with
  | [] => True
  | SendRtp b :: media =>
      exists q, seq_of b = Some q /\ match last with Some l => q = wrap16 (l + 1) | None => True end /\
        continuous (Some q) media
  | SendGap l n :: media =>
      match last with Some l' => l = l' | None => True end /\ n <> wrap16 (l + 1) /\ continuous (Some n) media
  | _ :: media => continuous last media
  end.

(** ** Forwarding *)
Lemma activities_app a b : activities (a ++ b) = activities a ++ activities b.
Proof. apply omap_app. Qed.
Lemma media_app a b : media_of (a ++ b) = media_of a ++ media_of b.
Proof. apply filter_app. Qed.

Lemma came_online_spec s s' acts : came_online s = (s', acts) ->
  expected_seq s' = expected_seq s /\ media_of acts = [] /\ (offline_state s' = true -> offline_state s = true) /\
  activities acts = (if offline_state s && negb (offline_state s') then [(lit "reconnect", lit "info")] else []).
Proof.
  unfold came_online. destruct (first_logged s); intros [= <- <-]; [by destruct (offline_state s)|].
  by destruct (offline_state s).
Qed.

(** A readable datagram is told to the server, by itself or as a gap. *)
Lemma on_datagram_media d s s' acts pkt :
  bytes_ok d -> parse (take (Z.to_nat 8192) d) = Ok pkt -> on_datagram d s = (s', acts) ->
  expected_seq s' = Some (wrap16 (sequence_number pkt + 1)) /\
  match expected_seq s with
  | Some exp =>
      if sequence_number pkt =? exp then media_of acts = [SendRtp (take (Z.to_nat 8192) d)]
      else media_of acts = [SendGap (wrap16 (exp - 1)) (sequence_number pkt)]
  | None => media_of acts = [SendRtp (take (Z.to_nat 8192) d)]
  end.
Proof.
  intros Hb Hp. unfold on_datagram. rewrite Hp. destruct (came_online s) as [s1 acts1] eqn:Hc.
  destruct (came_online_spec _ _ _ Hc) as (He & Hm & _). rewrite He.
  destruct (expected_seq s) as [exp|]; [destruct (sequence_number pkt =? exp)|]; cbn [negb];
    intros [= <- <-]; rewrite media_app, Hm; done.
Qed.

Lemma wrap16_pred q : is_u16 q -> wrap16 (wrap16 (q + 1) - 1) = q.
Proof. unfold is_u16, wrap16. intros Hq. rewrite Zminus_mod_idemp_l. replace (q + 1 - 1) with q by lia. by apply Z.mod_small. Qed.


(** ** A session and the offline state

    A session can end the offline state, once, and then says so. *)
Definition recovery (before after : bool) : list (str * str) :=
  if before && negb after then [(lit "reconnect", lit "info")] else [].
Definition clears (before after : bool) (acts : list action) : Prop :=
  (after = true -> before = true) /\ activities acts = recovery before after.

Lemma clears_app a b c acts acts' : clears a b acts -> clears b c acts' -> clears a c (acts ++ acts').
Proof.
  intros [H1 H2] [H3 H4]. split; [auto|]. rewrite activities_app, H2, H4. unfold recovery.
  destruct a, b, c; try done; first [discriminate (H1 eq_refl)|discriminate (H3 eq_refl)].
Qed.
Lemma clears_quiet a acts : activities acts = [] -> clears a a acts.
Proof. intros H. split; [done|]. rewrite H. by destruct a. Qed.

Lemma came_online_clears s s' acts acts' : came_online s = (s', acts) -> activities acts' = [] ->
  clears (offline_state s) (offline_state s') (acts ++ acts').
Proof.
  intros (_ & _ & Ho & Ha)%came_online_spec Hq. split; [done|]. by rewrite activities_app, Ha, Hq, app_nil_r.
Qed.

Lemma on_datagram_clears b s s' acts : on_datagram b s = (s', acts) -> clears (offline_state s) (offline_state s') acts.
Proof.
  unfold on_datagram. destruct (parse _) as [pkt| |].
  2,3: intros [= <- <-]; by apply clears_quiet.
  destruct (came_online s) as [s1 acts1] eqn:Hc.
  destruct (expected_seq s1) as [exp|]; [destruct (negb _)|]; intros [= <- <-]; cbn [offline_state];
    by eapply came_online_clears.
Qed.

Lemma udp_loop_clears {E} (turns : list (udp_turn E)) s s' acts e :
  udp_loop turns s = (s', acts, e) -> clears (offline_state s) (offline_state s') acts.
Proof.
  revert s acts. induction turns as [|t turns IH]; intros s acts; cbn [udp_loop]; [intros [= <- <- _]; by apply clears_quiet|].
  destruct t as [| |x|b]; try (intros [= <- <- _]; by apply clears_quiet).
  destruct (on_datagram b s) as [s1 acts1] eqn:Hd. destruct (udp_loop turns s1) as [[s2 acts2] e2] eqn:Hl.
  intros [= <- <- <-]. apply on_datagram_clears in Hd. apply IH in Hl. by eapply clears_app.
Qed.

Create HintDb quiet discriminated.
Section sessions.
Context {S E : Type} `{AsyncRead S E} `{AsyncReadSome S E} `{AsyncWrite S E} `{Base64} `{UrlParser}.
Variable fuel : nat.

Lemma on_frame_clears f s s' acts : on_frame f s = (s', acts) -> clears (offline_state s) (offline_state s') acts.
Proof.
  destruct f as [b|b|ch b]; cbn [on_frame]; try (intros [= <- <-]; by apply clears_quiet).
  destruct (came_online s) as [s1 acts1] eqn:Hc. intros [= <- <-]. by eapply came_online_clears.
Qed.

Lemma tcp_loop_clears turns rtp rtcp (c : RtspClient S) s s' acts e :
  tcp_loop turns rtp rtcp c s = (s', acts, e) -> clears (offline_state s) (offline_state s') acts.
Proof.
  revert c s acts. induction turns as [|t turns IH]; intros c s acts; cbn [tcp_loop]; [intros [= <- <- _]; by apply clears_quiet|].
  destruct t; try (intros [= <- <- _]; by apply clears_quiet).
  destruct (read_interleaved_frame rtp rtcp c) as [c1 [f|x|]]; try (intros [= <- <- _]; by apply clears_quiet).
  destruct (on_frame f s) as [s1 acts1] eqn:Hd. destruct (tcp_loop turns rtp rtcp c1 s1) as [[s2 acts2] e2] eqn:Hl.
  intros [= <- <- <-]. apply on_frame_clears in Hd. apply IH in Hl. by eapply clears_app.
Qed.

(** A step of the handshake posts nothing. *)
Definition quiet {A} (m : Prelude.st (RtspClient S * list action) (session_error E) A) : Prop :=
  forall w w' r, m w = (w', r) -> activities w'.2 = activities w.2.

Lemma quiet_bind {A B} (m : Prelude.st (RtspClient S * list action) (session_error E) A) (f : A -> Prelude.st _ _ B) :
  quiet m -> (forall a, quiet (f a)) -> quiet (m ≫= f).
Proof.
  intros Hm Hf w w' r. unfold mbind, st_bind. destruct (m w) as [w1 [a|e|]] eqn:Hw.
  2,3: intros [= <- _]; by eapply Hm.
  intros Hr. rewrite (Hf a _ _ _ Hr). by eapply Hm.
Qed.
Lemma quiet_lift {A} (o : outcome (session_error E) A) : quiet (lift_outcome o).
Proof. by intros w w' r [= <- _]. Qed.
Lemma quiet_bail c (e : session_error E) : quiet (st_bail_if c e).
Proof. apply quiet_lift. Qed.
Lemma quiet_ret {A} (a : A) : quiet (mret a).
Proof. by intros w w' r [= <- _]. Qed.
Lemma quiet_request method url hs : quiet (request_ok fuel method url hs).
Proof.
  intros w w' r. unfold request_ok. destruct (request _ _ _ _ _ _) as [c [x|x|]]; by intros [= <- _].
Qed.
Lemma quiet_emit sps pps : quiet (emit (SetParameterSets sps pps)).
Proof. intros w w' r [= <- _]. cbn. rewrite activities_app. apply app_nil_r. Qed.
Lemma quiet_keep r : quiet (keep_session r).
Proof. by intros w w' x [= <- _]. Qed.
#[local] Hint Resolve quiet_bind quiet_lift quiet_bail quiet_ret quiet_request quiet_emit quiet_keep : quiet.
Ltac solve_quiet := repeat (apply quiet_bind; [|intros ?]); repeat case_match; auto with quiet.

Lemma quiet_describe cam : quiet (describe fuel cam).
Proof. unfold describe. solve_quiet. Qed.
Lemma quiet_play cam : quiet (play fuel cam).
Proof. unfold play. solve_quiet. Qed.
#[local] Hint Resolve quiet_describe quiet_play : quiet.
Lemma quiet_setup_udp cam track : quiet (setup_udp fuel cam track).
Proof. unfold setup_udp. solve_quiet. Qed.
Lemma quiet_setup_tcp cam track : quiet (setup_tcp fuel cam track).
Proof. unfold setup_tcp. solve_quiet. Qed.
#[local] Hint Resolve quiet_setup_udp quiet_setup_tcp : quiet.

Lemma session_clears cam net before after acts e :
  run_camera_session fuel cam net before = (after, acts, e) -> clears before after acts.
Proof.
  unfold run_camera_session. destruct (parse_rtsp_url _) as [[[host port] ?]|x|]; try (intros [= <- <- _]; by apply clears_quiet).
  destruct (dial net host port) as [x|stream]; [intros [= <- <- _]; by apply clears_quiet|].
  match goal with |- context [match ?h (connect stream, []) with _ => _ end] =>
    assert (Hq : quiet h) by (apply quiet_bind; [|intros track; case_match]; solve_quiet);
    destruct (h (connect stream, [])) as [[c acts0] r] eqn:Hh end.
  apply Hq in Hh. cbn in Hh.
  destruct r as [[rtp rtcp]|x|]; try (intros [= <- <- _]; by apply clears_quiet).
  case_match; [destruct (bind net (rtp_port cam)); [intros [= <- <- _]; by apply clears_quiet|]|].
  - destruct (udp_loop _ _) as [[s acts1] e1] eqn:Hl. intros [= <- <- _].
    eapply clears_app; [by apply clears_quiet|]. by apply udp_loop_clears in Hl.
  - destruct (tcp_loop _ _ _ _ _) as [[s acts1] e1] eqn:Hl. intros [= <- <- _].
    eapply clears_app; [by apply clears_quiet|]. by apply tcp_loop_clears in Hl.
Qed.
End sessions.

(** ** The outage policy

    Reference: every outage of the past with its end, the one that goes on, and
    whether the camera has been reported. *)
Inductive outage_event := Started (now : Z) | Recovered (now : Z) | Evaluated (now : Z).
Definition time_of (e : outage_event) : Z := match e with Started t | Recovered t | Evaluated t => t end.
Definition track (e : outage_event) (t : OfflineTracker) : OfflineTracker * option OfflineTransition :=
  match e with
  | Started now => (on_outage_started now t, None)
  | Recovered now => on_outage_recovered now t
  | Evaluated now => evaluate now t
  end.

Record outages := mkOutages { past : list (Z * Z); since : option Z; reported : bool }.
Definition lasting (t : OfflineTracker) (past : list (Z * Z)) : list Z :=
  map fst (filter (fun o => retry_outage t <= duration_since o.2 o.1) past).
Definition recent (t : OfflineTracker) (now : Z) (starts : list Z) : list Z :=
  filter (fun started => duration_since now started <= retry_window t) starts.
Definition gone (t : OfflineTracker) (now : Z) (o : outages) : bool :=
  match since o with Some s => offline_timeout t <=? duration_since now s | None => false end
  || (retry_count t <=? Z.of_nat (length (recent t now (lasting t (past o))))).
Definition policy (t : OfflineTracker) (e : outage_event) (o : outages) : outages * option OfflineTransition :=
  match e with
  | Started now => (mkOutages (past o) (Some (default now (since o))) (reported o), None)
  | Recovered now =>
      (mkOutages (match since o with Some s => past o ++ [(s, now)] | None => past o end) None false,
       if reported o then Some Online else None)
  | Evaluated now =>
      if gone t now o && negb (reported o) then (mkOutages (past o) (since o) true, Some Offline) else (o, None)
  end.
Fixpoint outputs {S} (step : outage_event -> S -> S * option OfflineTransition) (es : list outage_event) (s : S)
    : list (option OfflineTransition) :=
  match es with
  | [] => []
  | e :: es => let '(s, out) := step e s in out :: outputs step es s
  end.

Definition same_settings (a b : OfflineTracker) : Prop :=
  offline_timeout a = offline_timeout b /\ retry_outage a = retry_outage b /\ retry_count a = retry_count b /\
  retry_window a = retry_window b.
(** The tracker forgets the outages that have left the window. *)
Record tracks (t0 : OfflineTracker) (last : Z) (t : OfflineTracker) (o : outages) : Prop := {
  tr_settings : same_settings t0 t;
  tr_since : outage_started_at t = since o;
  tr_reported : offline t = reported o;
  tr_recent now : last <= now -> recent t0 now (outage_starts t) = recent t0 now (lasting t0 (past o)) }.

Lemma recent_prune t now now' starts : now <= now' ->
  recent t now' (filter (fun s => duration_since now s <= retry_window t) starts) = recent t now' starts.
Proof.
  intros Hle. unfold recent. rewrite list_filter_filter. apply list_filter_iff. intros s.
  unfold duration_since. lia.
Qed.

Lemma recent_app t now a b : recent t now (a ++ b) = recent t now a ++ recent t now b.
Proof. apply filter_app. Qed.
Lemma lasting_app t p s e :
  lasting t (p ++ [(s, e)]) = lasting t p ++ (if retry_outage t <=? duration_since e s then [s] else []).
Proof.
  unfold lasting. rewrite filter_app, map_app, filter_cons. cbn [fst snd]. f_equal.
  destruct (Z.leb_spec (retry_outage t) (duration_since e s)); [by rewrite decide_True|by rewrite decide_False by lia].
Qed.

Lemma prune_tracks t0 last now t o : last <= now -> tracks t0 last t o -> tracks t0 now (prune now t) o.
Proof.
  intros Hle [(E1 & E2 & E3 & E4) Hs Hr Ht]. split; [done|done|done|]. intros now' Hle'.
  cbn [prune with_outages outage_starts]. rewrite <- E4, recent_prune by done. apply Ht. lia.
Qed.

Lemma track_step t0 last e t o : last <= time_of e -> tracks t0 last t o ->
  (track e t).2 = (policy t0 e o).2 /\ tracks t0 (time_of e) (track e t).1 (policy t0 e o).1.
Proof.
  intros Hle H. destruct e as [now|now|now]; cbn [track policy time_of fst snd] in *.
  - destruct H as [Hset Hs Hr Ht]. split; [done|]. unfold on_outage_started. rewrite Hs.
    destruct (since o) eqn:Ho; (split; [done|cbn; by rewrite ?Hs, ?Ho|done|intros now' ?; apply Ht; lia]).
  - assert (H' : tracks t0 last (with_outages
        (match outage_started_at t with
         | Some started => if retry_outage t <=? duration_since now started then outage_starts t ++ [started] else outage_starts t
         | None => outage_starts t end) None (offline t) t)
        (mkOutages (match since o with Some s => past o ++ [(s, now)] | None => past o end) None (reported o))).
    { destruct H as [(E1 & E2 & E3 & E4) Hs Hr Ht]. split; [done|done|done|]. intros now' Hle'. cbn [with_outages outage_starts past]. rewrite <- Hs.
      destruct (outage_started_at t) as [s|]; [|by apply Ht]. rewrite lasting_app, recent_app, <- Ht, <- E2 by done.
      destruct (retry_outage t0 <=? duration_since now s); [by rewrite recent_app|by rewrite app_nil_r]. }
    apply (prune_tracks _ _ now) in H'; [|done]. unfold on_outage_recovered. cbv zeta.
    destruct H as [_ _ Hr _]. cbn [offline prune with_outages]. rewrite Hr. destruct (reported o); (split; [done|]).
    + destruct H' as [H1 H2 _ H4]. split; [exact H1|exact H2|done|exact H4].
    + destruct H' as [H1 H2 _ H4]. split; [exact H1|exact H2|done|exact H4].
  - apply (prune_tracks _ _ now) in H; [|done]. unfold evaluate. destruct H as [(E1 & E2 & E3 & E4) Hs Hr Ht].
    assert (Hg : (match outage_started_at (prune now t) with
                  | Some started => offline_timeout (prune now t) <=? duration_since now started | None => false end
                  || (retry_count (prune now t) <=? Z.of_nat (length (outage_starts (prune now t))))) = gone t0 now o).
    { unfold gone. rewrite Hs, <- E1, <- E3. f_equal. rewrite <- (Ht now) by lia. do 3 f_equal. cbn [prune with_outages outage_starts].
      unfold recent. rewrite list_filter_filter, E4. apply list_filter_iff. cbn. tauto. }
    cbv zeta. rewrite Hg, Hr. destruct (gone t0 now o && negb (reported o)); (split; [done|]);
      (split; [done|exact Hs|done|exact Ht]).
Qed.

Fixpoint in_order (last : Z) (es : list outage_event) : Prop :=
  match es with [] => True | e :: es => last <= time_of e /\ in_order (time_of e) es end.

Lemma outputs_track t0 start es t o : tracks t0 start t o -> in_order start es ->
  outputs track es t = outputs (policy t0) es o.
Proof.
  revert start t o. induction es as [|e es IH]; intros start t o H; [done|]. intros [Hle Hes]. cbn [outputs].
  destruct (track_step t0 start e t o Hle H) as [Ho H']. destruct (track e t) as [t1 out], (policy t0 e o) as [o1 out'].
  cbn in *. subst out'. f_equal. by apply (IH (time_of e)).
Qed.

(** C20: the tracker implements the policy: it reports a camera that is not
    reported yet exactly when an outage lasts for the timeout, or enough
    outages that were long enough began within the window; and reports its
    return when the outage ends. *)
Theorem tracker_implements_policy t0 start es :
  outage_starts t0 = [] -> outage_started_at t0 = None -> offline t0 = false -> in_order start es ->
  outputs track es t0 = outputs (policy t0) es (mkOutages [] None false).
Proof.
  intros H1 H2 H3 Hes. apply (outputs_track t0 start); [|done]. split; [done..|by rewrite H1].
Qed.

(** ** What the supervisor reports *)
Section reports.
Context {E : Type}.
Variable error_text : session_error E -> str.

Definition offline_report (e : session_error E) : str * str := classify_camera_session_failure (error_text e).
(** A runner that treats the offline state as a session does. *)
Definition session_like (a : attempt (E:=E)) : Prop :=
  forall before after acts e, runner a before = (after, acts, e) -> clears before after acts.

(** Once the tracker is offline, a failure changes nothing. *)
Lemma on_failure_offline now e s : offline (tracker s) = true ->
  exists s', on_failure error_text now e s = (s', []) /\ offline (tracker s') = true /\ is_offline s' = is_offline s.
Proof.
  intros Ho. unfold on_failure, evaluate. set (t := prune now (on_outage_started now (tracker s))).
  assert (Ht : offline t = true) by (unfold t, on_outage_started; by destruct (outage_started_at (tracker s))).
  rewrite Ht, andb_false_r. by eexists.
Qed.

Lemma supervise_offline ats s acts waits v :
  Forall session_like ats -> offline (tracker s) = true -> supervise error_text ats s = (acts, waits, v) ->
  activities acts = [] \/ (is_offline s = true /\ activities acts = [(lit "reconnect", lit "info")]).
Proof.
  intros Hl. revert s acts waits v. induction Hl as [|a ats Ha _ IH]; intros s acts waits v Ho; cbn [supervise].
  { intros [= <- _ _]. by left. }
  destruct (cancelled_before a); [intros [= <- _ _]; by left|].
  destruct (runner a (is_offline s)) as [[flag acts1] r] eqn:Hr. destruct (Ha _ _ _ _ Hr) as [Hf Hacts].
  unfold recovery in Hacts.
  assert (Hone : activities acts1 = [] \/ (is_offline s = true /\ activities acts1 = [(lit "reconnect", lit "info")])).
  { rewrite Hacts. destruct (is_offline s), flag; auto. }
  destruct r as [[|e|]|]; try (by intros [= <- _ _]).
  destruct (on_failure_offline (ended_at a) e (mkSup (tracker s) (backoff s) flag) Ho) as (s' & -> & Ho' & Hs').
  destruct (cancelled_after a); [intros [= <- _ _]; by rewrite app_nil_r|].
  destruct (supervise error_text ats s') as [[acts2 w2] v2] eqn:Hsup. intros [= <- _ _].
  cbn [app]. rewrite activities_app. destruct (IH s' acts2 w2 v2 Ho' Hsup) as [->|[Hs2 ->]]; [by rewrite app_nil_r|].
  cbn in Hs'. rewrite Hs2 in Hs'. subst flag. rewrite Hacts, (Hf eq_refl). by right.
Qed.

(** A failure of a camera that is not reported: nothing, or the report. *)
Lemma on_failure_online now e s : offline (tracker s) = false -> is_offline s = false ->
  let '(s', acts) := on_failure error_text now e s in
  (acts = [] /\ offline (tracker s') = false /\ is_offline s' = false) \/
  (activities acts = [offline_report e] /\ offline (tracker s') = true /\ is_offline s' = true).
Proof.
  intros Ho Hs. unfold on_failure, evaluate, offline_report. set (t := prune now (on_outage_started now (tracker s))).
  assert (Ht : offline t = false) by (unfold t, on_outage_started; by destruct (outage_started_at (tracker s))).
  rewrite Ht, andb_true_r.
  match goal with |- context [if ?c then (with_outages _ _ true t, _) else _] => destruct c end; [|by left].
  destruct (classify_camera_session_failure _) as [event level]. by right.
Qed.

Lemma supervise_reports_once ats s acts waits v :
  Forall session_like ats -> offline (tracker s) = false -> is_offline s = false ->
  supervise error_text ats s = (acts, waits, v) ->
  activities acts = [] \/ exists e, activities acts = [offline_report e] \/
    activities acts = [offline_report e; (lit "reconnect", lit "info")].
Proof.
  intros Hl. revert s acts waits v. induction Hl as [|a ats Ha Hats IH]; intros s acts waits v Ho Hs; cbn [supervise].
  { intros [= <- _ _]. by left. }
  destruct (cancelled_before a); [intros [= <- _ _]; by left|]. rewrite Hs.
  destruct (runner a false) as [[flag acts1] r] eqn:Hr. destruct (Ha _ _ _ _ Hr) as [Hf Hacts].
  unfold recovery in Hacts. cbn [andb] in Hacts. destruct flag; [by specialize (Hf eq_refl)|].
  destruct r as [[|e|]|]; try (intros [= <- _ _]; by left).
  pose proof (on_failure_online (ended_at a) e (mkSup (tracker s) (backoff s) false) Ho eq_refl) as Hfail.
  destruct (on_failure error_text _ _ _) as [s' acts2].
  destruct (cancelled_after a).
  - intros [= <- _ _]. rewrite activities_app, Hacts. cbn [app].
    destruct Hfail as [(-> & _)|(-> & _)]; [by left|right; eauto].
  - destruct (supervise error_text ats s') as [[acts3 w3] v3] eqn:Hsup. intros [= <- _ _].
    rewrite !activities_app, Hacts. cbn [app].
    destruct Hfail as [(-> & Ho' & Hs')|(-> & Ho' & Hs')]; cbn [activities omap app].
    + by apply (IH s' acts3 w3 v3).
    + right. exists e. destruct (supervise_offline ats s' acts3 w3 v3 Hats Ho' Hsup) as [->|[_ ->]]; [by left|by right].
Qed.

(** The waits between sessions: one second, doubling up to thirty, whatever
    the sessions did. *)
Definition wait_at (n : nat) : Z := Z.min (1000 * 2 ^ Z.of_nat n) 30000.
Lemma supervise_waits ats s acts waits v n :
  backoff s = wait_at n -> supervise error_text ats s = (acts, waits, v) ->
  forall i w, waits !! i = Some w -> w = wait_at (n + i).
Proof.
  revert s acts waits v n. induction ats as [|a ats IH]; intros s acts waits v n Hb; cbn [supervise]; [by intros [= _ <- _]|].
  destruct (cancelled_before a); [by intros [= _ <- _]|].
  destruct (runner a (is_offline s)) as [[flag acts1] [[|e|]|]]; try (by intros [= _ <- _]).
  destruct (on_failure error_text _ _ _) as [s' acts2] eqn:Hf.
  assert (Hb' : backoff s' = wait_at (S n)).
  { unfold on_failure in Hf. destruct (evaluate _ _) as [t tr]. destruct (match tr with Some Offline => _ | _ => _ end).
    injection Hf as <- _. cbn [backoff]. rewrite Hb. unfold wait_at. rewrite Nat2Z.inj_succ, Z.pow_succ_r by lia. lia. }
  destruct (cancelled_after a).
  - intros [= _ <- _] [|i] w; [intros [= <-]; by rewrite Nat.add_0_r|done].
  - destruct (supervise error_text ats s') as [[acts3 w3] v3] eqn:Hsup. intros [= _ <- _] [|i] w; cbn [lookup list_lookup].
    + intros [= <-]. by rewrite Nat.add_0_r.
    + intros Hi. rewrite (IH s' acts3 w3 v3 (S n) Hb' Hsup i w Hi). f_equal. lia.
Qed.

(** The first failure of a camera is not reported; the outage starts. *)
Lemma first_failure now e s :
  outage_starts (tracker s) = [] -> outage_started_at (tracker s) = None ->
  1 <= offline_timeout (tracker s) -> 1 <= retry_count (tracker s) ->
  exists s', on_failure error_text now e s = (s', []) /\ outage_starts (tracker s') = [] /\
    outage_started_at (tracker s') = Some now /\ offline_timeout (tracker s') = offline_timeout (tracker s) /\
    is_offline s' = is_offline s /\ offline (tracker s') = offline (tracker s).
Proof.
  intros H1 H2 H3 H4. unfold on_failure, evaluate, on_outage_started. rewrite H2.
  cbn [prune with_outages outage_starts outage_started_at offline_timeout retry_count offline]. rewrite H1. cbn [filter list_filter length].
  assert (duration_since now now = 0) as -> by (unfold duration_since; lia).
  rewrite (proj2 (Z.leb_gt _ _)), (proj2 (Z.leb_gt _ _)) by lia. cbn [orb andb]. by eexists.
Qed.

(** While the outage is never ended, a failure is measured from its start. *)
Lemma later_failure now started e s :
  outage_started_at (tracker s) = Some started -> offline (tracker s) = false ->
  is_offline s = false -> offline_timeout (tracker s) <= now - started ->
  exists s' acts, on_failure error_text now e s = (s', acts) /\ activities acts = [offline_report e].
Proof.
  intros H1 H2 H3 H4. unfold on_failure, evaluate, on_outage_started, offline_report. rewrite H1.
  cbn [prune with_outages outage_starts outage_started_at offline_timeout retry_count offline]. rewrite H1, H2.
  rewrite (proj2 (Z.leb_le _ _)) by (unfold duration_since; lia). cbn [orb andb negb].
  destruct (classify_camera_session_failure (error_text e)). by eexists _, _.
Qed.

Lemma policy_positive m : 1 <= offline_timeout (offline_policy m) /\ 1 <= retry_count (offline_policy m).
Proof.
  assert (Hpos : forall k d, 1 <= d -> 1 <= runtime_u64_nonzero k d m).
  { intros k d Hd. unfold runtime_u64_nonzero. destruct (runtime_var k m ?> parse_u64) as [n|]; [|done].
    destruct (Z.ltb_spec 0 n); lia. }
  cbn [offline_policy new_tracker offline_timeout retry_count].
  pose proof (Hpos (lit "CAMERA_OFFLINE_TIMEOUT_SECS") 20 ltac:(lia)). pose proof (Hpos (lit "CAMERA_OFFLINE_RETRY_COUNT") 4 ltac:(lia)). lia.
Qed.
End reports.

(** ** The camera's supervisor, with real sessions *)
Section camera.
Context {S E : Type} `{AsyncRead S E} `{AsyncReadSome S E} `{AsyncWrite S E} `{Base64} `{UrlParser}.
Variable fuel : nat.
Variable error_text : session_error E -> str.

(** However often a camera fails and returns, the server hears at most once
    that it is gone and at most once that it is back; and the waits between the
    sessions double up to thirty seconds, also behind a session that worked. *)
Theorem supervisor_reports cam m ats acts waits v :
  Forall (fun a => exists net, runner a = run_camera_session fuel cam net) ats ->
  run_camera_supervisor error_text m ats = (acts, waits, v) ->
  (activities acts = [] \/ exists e, activities acts = [offline_report error_text e] \/
     activities acts = [offline_report error_text e; (lit "reconnect", lit "info")]) /\
  (forall i w, waits !! i = Some w -> w = Z.min (1000 * 2 ^ Z.of_nat i) 30000).
Proof.
  intros Hats Hrun. unfold run_camera_supervisor in Hrun. split.
  - apply (supervise_reports_once error_text ats (mkSup (offline_policy m) 1000 false) acts waits v);
      [|reflexivity|reflexivity|exact Hrun]. eapply Forall_impl; [exact Hats|].
    intros a [net Ha] before after acts' e. rewrite Ha. apply session_clears.
  - intros i w Hi. by apply (supervise_waits error_text ats (mkSup (offline_policy m) 1000 false) acts waits v 0 eq_refl Hrun).
Qed.

(** An outage never ends for the tracker: a second failure is reported as an
    outage since the first one, although the camera has forwarded in between,
    for however long. *)
Theorem outage_never_ends m a1 a2 acts1 acts2 e1 e2 :
  runner a1 false = (false, acts1, Some (Err e1)) -> activities acts1 = [] ->
  runner a2 false = (false, acts2, Some (Err e2)) -> activities acts2 = [] ->
  cancelled_before a1 = false -> cancelled_after a1 = false -> cancelled_before a2 = false -> cancelled_after a2 = false ->
  offline_timeout (offline_policy m) <= ended_at a2 - ended_at a1 ->
  (run_camera_supervisor error_text m [a1]).1.1 = acts1 /\
  activities (run_camera_supervisor error_text m [a1; a2]).1.1 = [offline_report error_text e2].
Proof.
  intros Hr1 Ha1 Hr2 Ha2 Hc1 Hc2 Hc3 Hc4 Hlong.
  unfold run_camera_supervisor. destruct (policy_positive m) as (Hp1 & Hp2).
  destruct (first_failure error_text (ended_at a1) e1 (mkSup (offline_policy m) 1000 false))
    as (s1 & Hf1 & Hs1 & Hsince & Ht1 & Ho1 & Hoff); [done..|].
  destruct (later_failure error_text (ended_at a2) (ended_at a1) e2 (mkSup (tracker s1) (backoff s1) false)) as (s2 & acts & Hf2 & Hacts);
    [exact Hsince|exact Hoff|done|cbn [tracker]; rewrite Ht1; exact Hlong|].
  cbn [supervise is_offline tracker backoff]. rewrite Hc1, Hr1, Hc2.
  change (mkSup (offline_policy m) 1000 false) with (mkSup (tracker (mkSup (offline_policy m) 1000 false)) 1000 false) in *.
  change (is_offline s1 = false) in Ho1. rewrite Hf1, Ho1, Hc3, Hr2, Hf2, Hc4. cbn [fst snd app].
  rewrite app_nil_r. split; [done|]. by rewrite !activities_app, Ha1, Ha2, Hacts.
Qed.
End camera.

(** The thresholds of the policy cannot be configured: no setting of any
    configuration reaches their variables. *)
Theorem offline_policy_fixed `{UrlParser} `{JsonText} v :
  offline_policy (install_runtime_overrides v) = new_tracker 20000 5000 4 120000.
Proof.
  unfold offline_policy, runtime_u64_nonzero, runtime_var.
  by rewrite !variable_unknown by (reflexivity || by_eval).
Qed.

(** ** Witnesses: a stream of chunks, a session with a real handshake *)
Module CameraWitness.
(** Replies as they arrive; what is written is dropped. *)
#[local] Instance chunks_some : AsyncReadSome (list bytes) unit := {
  read_some l _ := match l with [] => ([], inr []) | c :: l => (l, inr c) end }.
#[local] Instance chunks_exact : AsyncRead (list bytes) unit := { read_exact l _ := (l, inl tt) }.
#[local] Instance chunks_write : AsyncWrite (list bytes) unit := {
  write_all l _ := (l, inr tt); flush_writer l := (l, inr tt) }.
#[local] Instance no_base64 : Base64 := { b64_encode l := l; b64_decode _ := None }.
#[local] Instance any_url : UrlParser := fun s =>
  Some (mkUrl (lit "rtsp") None (Some (lit "h")) None None (lit "/") s).
#[local] Instance no_json : JsonText := {
  to_string _ := []; to_string_pretty _ := []; from_str _ := None }.

Definition crlf_lines (ls : list String.string) : bytes := concat (map (fun l => lit l ++ [13; 10]) ls).
Definition ok_reply (hs : list String.string) (body : bytes) : bytes :=
  crlf_lines ("RTSP/1.0 200 OK"%string :: hs) ++ [13; 10] ++ body.
Definition sdp : bytes := crlf_lines ["m=video 0 RTP/AVP 96"; "a=rtpmap:96 H264/90000"; "a=control:track1"]%string.
Definition replies : list bytes :=
  [ok_reply [] []; ok_reply ["Content-Length: 64"]%string sdp; ok_reply ["Session: 7"]%string []; ok_reply [] []].
Definition cam : CamConfig := mkCam (lit "cam1") (lit "rtsp://h/1") None None 7 (lit "udp") 5004 5005 [] [] [].
Definition packet (seq : Z) : bytes := encode (mkWire false 96 seq 1000 7 [] None [0x65; 1] None).

Definition down : network (S:=list bytes) (E:=unit) := mkNet (fun _ _ => inl tt) (fun _ => None) [] [].
Definition up (turns : list (udp_turn unit)) : network (S:=list bytes) (E:=unit) :=
  mkNet (fun _ _ => inr replies) (fun _ => None) turns [].
Definition text_of (e : session_error unit) : str :=
  match e with ReceiveTimeout => lit "RTP receive timeout" | _ => lit "connection refused" end.
Definition during (net : network) (t : Z) : attempt := mkAttempt false (run_camera_session 100 cam net) t false.

(** A session that forwards one packet, announces the loss of the next, and
    passes on the one behind it. *)
Definition played : network := up [UDatagram (packet 65535); UDatagram (packet 1); UDatagram (packet 2); UTimeout].
Example session_forwards :
  run_camera_session 100 cam played true =
  (false, [Activity (lit "reconnect") (lit "info"); SendRtp (packet 65535); SendGap 65535 1; SendRtp (packet 2)],
   Some (Err ReceiveTimeout)).
Proof. vm_compute. reflexivity. Qed.


(** Gone for 25 seconds, back for a minute, gone for a day. *)
Definition day : list attempt :=
  [during down 0; during down 25000; during played 90000; during down 91000; during down 86491000].
Lemma supervisor_reports_witness :
  exists acts waits v, run_camera_supervisor text_of ∅ day = (acts, waits, v) /\
    activities acts = [(lit "connect_fail", lit "error"); (lit "reconnect", lit "info")] /\
    waits = [1000; 2000; 4000; 8000; 16000] /\ (forall w, waits !! 3%nat = Some w -> w = 8000).
Proof.
  assert (Hrun : run_camera_supervisor text_of ∅ day =
    ([Activity (lit "connect_fail") (lit "error"); Activity (lit "reconnect") (lit "info");
      SendRtp (packet 65535); SendGap 65535 1; SendRtp (packet 2)], [1000; 2000; 4000; 8000; 16000], None))
    by (vm_compute; reflexivity).
  eexists _, _, _. split; [exact Hrun|]. split; [vm_compute; reflexivity|]. split; [reflexivity|].
  destruct (supervisor_reports 100 text_of cam ∅ day _ _ _ ltac:(repeat (constructor; [by eexists|]); constructor) Hrun) as [_ H].
  intros w Hw. exact (H 3%nat w Hw).
Defined.

(** A first failure, then a session that worked for a day: reported at its end. *)
Lemma outage_never_ends_witness :
  activities (run_camera_supervisor text_of ∅ [during down 0; during played 86400000]).1.1 = [(lit "timeout", lit "warn")].
Proof.
  destruct (outage_never_ends text_of ∅ (during down 0) (during played 86400000) []
    [SendRtp (packet 65535); SendGap 65535 1; SendRtp (packet 2)] (ConnectFailed tt) ReceiveTimeout) as [_ H];
    [vm_compute; reflexivity..|vm_compute; discriminate|exact H].
Defined.

Lemma tracker_implements_policy_witness :
  outputs track [Started 0; Recovered 6000; Started 10000; Recovered 16000; Evaluated 16000; Started 20000; Evaluated 41000; Recovered 50000]
    (new_tracker 20000 5000 2 120000) = [None; None; None; None; Some Offline; None; None; Some Online].
Proof.
  rewrite (tracker_implements_policy (new_tracker 20000 5000 2 120000) 0) by
    (reflexivity || (vm_compute; repeat split; discriminate)).
  vm_compute. reflexivity.
Defined.
End CameraWitness.
