(* ===== verification/Agent.v ===== *)
(** * The forwarding agent ([bin/agent_forward.rs])

    The agent keeps one runtime (an uplink, and a supervisor for every camera)
    for the configuration in its files.  A turn of its main loop reads the
    files, pulls a newer configuration from the server from time to time, and
    starts, replaces or stops the runtime.  The HTTP client, the file system,
    JSON text and URLs are parameters; logging is left out, a runtime is the
    data its tasks are started with; what they do is in [Camera], [UplinkTask],
    [Relay] and the ONVIF files. *)
From S2P Require Import Prelude Io Str Uplink Config ConfigFacts Forward.

(** ** Reading the configuration *)
Section reading.
Variable m : vars.
Definition agent_var (k : String.string) : option str := non_blank (runtime_var (lit k) m).
Definition parse_i64 (s : str) : option Z :=
  match s with
  | [] => None
  | c :: digits =>
      if c =? 45 then match digits with [] => None | _ => Z.opp <$> parse_digits (2 ^ 63) 0 digits end
      else parse_uint (2 ^ 63 - 1) s
  end.
Definition runtime_i64 (k : String.string) : option Z := agent_var k ?> parse_i64.
Definition heartbeat_interval_secs : Z := runtime_u64_nonzero (lit "HEARTBEAT_INTERVAL_SECS") 30 m.
Definition config_pull_interval_secs : Z := runtime_u64_nonzero (lit "CONFIG_PULL_INTERVAL_SECS") 30 m.
Definition motion_merge_secs : Z :=
  Z.max 0 (default 0 (or_else (runtime_i64 "MOTION_MERGE_SECS") (runtime_i64 "CLIP_POST_SECS"))).
End reading.

Definition config_version_value (v : Value) : option Value :=
  match get "config_version" v with Some Null => None | o => o end.
Definition config_camera_id (v : Value) : option str :=
  non_blank (or_else (get "camera_id" v) (get "id" v) ?> as_str).
Definition is_auth_failure_status (status : Z) : bool := (status =? 401) || (status =? 403).
Definition should_retry_config_pull_with_hint (status : Z) : bool := (status =? 400) || (status =? 404).
Definition is_success (status : Z) : bool := (200 <=? status) && (status <? 300).

Record CameraHeartbeatTarget := mkTarget { t_camera_id : str; t_rtsp_url : str; t_config_version : option Value }.
(** The versions by camera; a later camera with the same id wins. *)
Definition camera_versions (cameras : list Value) : gmap str (option Value) :=
  foldl (fun versions camera =>
    match config_camera_id camera with
    | Some id => <[id := config_version_value camera]> versions
    | None => versions
    end) ∅ cameras.
Definition build_camera_heartbeat_targets (cams : list CamConfig) (config_value : Value) : list CameraHeartbeatTarget :=
  let versions := camera_versions (default [] (get "cameras" config_value ?> as_array)) in
  map (fun cam => mkTarget (camera_id cam) (rtsp_url cam) (versions !! camera_id cam ≫= id)) cams.

Record DesiredRuntime := mkDesired { server_addr : str; cams : list CamConfig; desired_config : Value }.
Definition desired_runtime_from_config (m : vars) (config_value : Value) : outcome load_error (option DesiredRuntime) :=
  match agent_var m "SERVER_ADDR" with
  | None => mret None
  | Some server_addr =>
      cams ← load_cameras_from_env m;
      mret (match cams with [] => None | _ => Some (mkDesired server_addr cams config_value) end)
  end.

(** ** Starting a runtime

    What its tasks are started with. *)
Record AgentRuntime := mkRuntime {
  config_value : Value;
  up_server : str; up_token : str; up_agent_id : str;
  up_stream_map : gmap Z str; up_stream_to_camera : gmap Z str; up_ingest : option HelloIngestConfig;
  heartbeat : option (ServerConfig * list CameraHeartbeatTarget * option Value);
  supervised : list CamConfig;
  camera_to_stream : gmap str Z;
  merge_window : Z }.
Inductive start_error := BadConfig (e : env_error) | NoCameras | TokenMismatch.

Section start.
Context `{UrlParser}.
Variable env : option str.                          (* ALLOW_INSECURE_SERVER_HTTP of the process *)
Variable iter : gmap str Z -> list (str * Z).       (* the order a HashMap is visited in *)

Definition start_runtime (m : vars) (desired : DesiredRuntime) : outcome start_error AgentRuntime :=
  let targets := build_camera_heartbeat_targets (cams desired) (desired_config desired) in
  let agent_id := match cams desired with cam :: _ => agent_id cam | [] => lit "agent-1" end in
  hb ← (match agent_var m "SERVER_BASE_URL", agent_var m "SERVER_BEARER_TOKEN" with
        | Some _, Some _ =>
            match from_env env m with
            | Ok c => Ok (Some (server c, targets, config_version_value (desired_config desired)))
            | Err e => Err (BadConfig e)
            | Panic => Panic
            end
        | _, _ => mret None
        end);
  let '(stream_map, camera_to_stream) := build_stream_maps (cams desired) (∅, ∅) in
  let stream_to_camera :=
    foldl (fun acc cs => <[cs.2 := cs.1]> acc) (∅ : gmap Z str) (iter camera_to_stream) in
  agent_token ← ok_or (agent_token <$> head (cams desired)) NoCameras;
  bail_if (existsb (fun cam => negb (bool_decide (Forward.agent_token cam = agent_token))) (cams desired)) TokenMismatch ;;
  mret (mkRuntime (desired_config desired) (server_addr desired) agent_token agent_id stream_map stream_to_camera
          (load_uplink_ingest_config_from_env m) hb (cams desired) camera_to_stream (motion_merge_secs m)).
End start.

(** ** Pulling the configuration *)
Record response := mkResponse { http_status : Z; json : option Value }.
Inductive pull_error (F E : Type) :=
| HttpFailed (e : E)
| AuthFailed (status : Z)
| BadBody
| StoreFailed (e : file_error (E:=F)).
Arguments HttpFailed {F E}.
Arguments AuthFailed {F E}.
Arguments BadBody {F E}.
Arguments StoreFailed {F E}.

(** What of a server's configuration is stored. *)
Definition camera_update (config : Value) : Value :=
  match config with Object m => Object (obj_remove (lit "server") m) | _ => config end.

Section pull.
Context {F FE HE : Type} `{ConfigFs F FE} `{UrlParser} `{JsonText}.
(** The server's answer to a request, with or without the hint. *)
Variable get_config : option str -> HE + response.

Definition request_config (camera_hint : option str) : HE + response :=
  match get_config None with
  | inl e => inl e
  | inr resp =>
      match camera_hint with
      | Some hint => if should_retry_config_pull_with_hint (http_status resp) then get_config (Some hint) else inr resp
      | None => inr resp
      end
  end.

Definition store (camera_path : str) (update : Value) : Prelude.st F (pull_error FE HE) bool := fun f =>
  match merge_remote_camera_json camera_path update f with
  | (f, Ok _) => (f, Ok true)
  | (f, Err e) => (f, Err (StoreFailed e))
  | (f, Panic) => (f, Panic)
  end.

Definition try_pull_remote_config (camera_hint : option str) (camera_path : str) : Prelude.st F (pull_error FE HE) bool :=
  match request_config camera_hint with
  | inl e => lift_outcome (Err (HttpFailed e))
  | inr resp =>
      if negb (is_success (http_status resp)) then
        if is_auth_failure_status (http_status resp) then lift_outcome (Err (AuthFailed (http_status resp)))
        else mret false
      else
        payload ← lift_outcome (ok_or (json resp) BadBody);
        match get "config" payload with
        | None => mret false
        | Some config => store camera_path (camera_update config)
        end
  end.

(** ** The main loop *)
Inductive effect := Started (r : AgentRuntime) | Stopped (r : AgentRuntime).
Record agent := mkAgent { installed : vars; last_pull : Z; runtime : option AgentRuntime }.

Variable env : option str.
Variable iter : gmap str Z -> list (str * Z).
Variables server_path camera_path : str.

Definition load_or_empty (m : Prelude.st F (file_error (E:=FE)) Value) (f : F) : F * Value :=
  match m f with (f, Ok v) => (f, v) | (f, _) => (f, Object []) end.
Definition combined (allow : bool) (camera_value server_value : Value) : Value :=
  match merge_server_camera_configs allow camera_value server_value with Ok v => v | _ => camera_value end.
Definition allow_insecure (m : vars) : bool :=
  allow_insecure_server_http (runtime_var (lit "ALLOW_INSECURE_SERVER_HTTP") m) env.
Definition matches_config (r : AgentRuntime) (v : Value) : bool := bool_decide (config_value r = v).

(** The runtime variables, the desired runtime and the configuration. *)
Definition ready (v : Value) : vars * option DesiredRuntime :=
  let m := install_runtime_overrides v in
  (m, match desired_runtime_from_config m v with Ok d => d | _ => None end).

(** Start, replace or stop the runtime. *)
Definition reconcile (m : vars) (desired : option DesiredRuntime) (runtime : option AgentRuntime)
    : option AgentRuntime * list effect :=
  match desired with
  | Some desired =>
      let needs_restart := match runtime with Some r => negb (matches_config r (desired_config desired)) | None => true end in
      if needs_restart then
        match start_runtime env iter m desired with
        | Ok new => (Some new, Started new :: match runtime with Some old => [Stopped old] | None => [] end)
        | _ => (runtime, [])
        end
      else (runtime, [])
  | None => (None, match runtime with Some old => [Stopped old] | None => [] end)
  end.

(** A pull, when it is due and the server is known, and the configuration
    read again when there is a new one; [now] in milliseconds. *)
Definition maybe_pull (now last : Z) (server_value : Value) (m : vars) (desired : option DesiredRuntime) (f : F)
    : F * Z * vars * option DesiredRuntime :=
  if 1000 * config_pull_interval_secs m <? now - last then
    match agent_var m "SERVER_BASE_URL", agent_var m "SERVER_BEARER_TOKEN" with
    | Some _, Some _ =>
        let hint := or_else (agent_var m "CAMERA_ID") (agent_var m "CAM1_CAMERA_ID") in
        match try_pull_remote_config hint camera_path f with
        | (f, Ok true) =>
            match load_camera_json camera_path f with
            | (f, Ok camera_value) =>
                let '(m, desired) := ready (combined (allow_insecure m) camera_value server_value) in
                (f, now, m, desired)
            | (f, _) => (f, now, m, desired)
            end
        | (f, _) => (f, now, m, desired)
        end
    | _, _ => (f, now, m, desired)
    end
  else (f, last, m, desired).

Definition turn (now : Z) (a : agent) (f : F) : F * agent * list effect :=
  let '(f, server_value) := load_or_empty (load_server_json (allow_insecure (installed a)) server_path) f in
  let '(f, camera_value) := load_or_empty (load_camera_json camera_path) f in
  let '(m, desired) := ready (combined (allow_insecure (installed a)) camera_value server_value) in
  let '(f, last, m, desired) := maybe_pull now (last_pull a) server_value m desired f in
  let '(runtime, effects) := reconcile m desired (runtime a) in
  (f, mkAgent m last runtime, effects).
(** What [main] does before its loop: a configuration that cannot be merged
    installs nothing; the first pull is due at once. *)
Definition initial_agent (now : Z) (f : F) : F * agent :=
  let '(f, server_value) := load_or_empty (load_server_json (allow_insecure ∅) server_path) f in
  let '(f, camera_value) := load_or_empty (load_camera_json camera_path) f in
  let config_value := match merge_server_camera_configs (allow_insecure ∅) camera_value server_value with
                      | Ok v => v
                      | _ => Object []
                      end in
  (f, mkAgent (install_runtime_overrides config_value) (now - 120 * 1000) None).
End pull.

(** ** Starting *)
Section starting.
Context `{UrlParser} `{JsonText}.
Variable env : option str.
Variable iter : gmap str Z -> list (str * Z).

Lemma ready_desired v m d : ready v = (m, Some d) ->
  m = install_runtime_overrides v /\ desired_config d = v /\ cams d <> [] /\ load_cameras_from_env m = Ok (cams d).
Proof.
  unfold ready, desired_runtime_from_config. intros [= <- Hd]. destruct (agent_var _ "SERVER_ADDR"); [|done].
  destruct (load_cameras_from_env _) as [cs| |] eqn:Hl; cbn [mbind outcome_bind] in Hd; [|done|done].
  destruct cs as [|c cs]; [done|]. injection Hd as <-. by repeat split.
Qed.

(** The rest of [start_runtime], once the heartbeat is settled. *)
Ltac started Hsame :=
  left; destruct (build_stream_maps _ _) as [sm cm];
  cbn [head fmap option_fmap option_map ok_or mbind outcome_bind];
  rewrite Hsame; cbn [bail_if mbind outcome_bind]; eexists; (split; [reflexivity|]); by repeat split.

(** A configuration that is ready is refused only for the server's address:
    its cameras share their token, and there is one. *)
Theorem start_refused v m d : ready v = (m, Some d) ->
  (exists r, start_runtime env iter m d = Ok r /\ config_value r = v /\ supervised r = cams d /\
     Some (up_token r) = text (get "bearer_token" (section v "server"))) \/
  (exists e, start_runtime env iter m d = Err (BadConfig (BadServerUrl e))).
Proof.
  intros Hr. destruct (ready_desired v m d Hr) as (Hm & Hv & Hne & Hl). rewrite Hm in Hl.
  pose proof (loaded_tokens v (cams d) Hl) as Ht. unfold start_runtime.
  destruct (cams d) as [|c cs] eqn:Hcs; [done|].
  assert (Hsame : existsb (fun cam => negb (bool_decide (agent_token cam = agent_token c))) (c :: cs) = false).
  { apply Forall_cons in Ht as [Hc Ht]. apply not_true_iff_false. rewrite existsb_exists. intros (x & Hx & Hn).
    rewrite negb_true_iff, bool_decide_eq_false in Hn. apply Hn. apply list_elem_of_In, elem_of_cons in Hx as [->|Hx]; [done|].
    rewrite Forall_forall in Ht. specialize (Ht x Hx). congruence. }
  apply Forall_cons in Ht as [Htoken _].
  destruct (agent_var m "SERVER_BASE_URL") as [url|] eqn:Hu; [destruct (agent_var m "SERVER_BEARER_TOKEN") as [tok|] eqn:Hb|];
    cbn [mbind outcome_bind mret outcome_ret].
  - destruct (from_env env m) as [cfg|e|] eqn:Hf; cbn [mbind outcome_bind].
    + started Hsame.
    + right. unfold from_env in Hf. destruct (validate_server_base_url _ _) as [u|e'|]; cbn [mbind outcome_bind] in Hf; [|injection Hf as <-; by eexists|done].
      exfalso. unfold agent_var in Hb. by destruct (runtime_var (lit "SERVER_BEARER_TOKEN") m).
    + exfalso. unfold from_env in Hf. destruct (validate_server_base_url _ _) eqn:Hval; cbn [mbind outcome_bind] in Hf; [|done|].
      * by destruct (runtime_var (lit "SERVER_BEARER_TOKEN") m).
      * by apply validate_no_panic in Hval.
  - started Hsame.
  - started Hsame.
Qed.

(** ** The runtime follows the configuration *)

(** A runtime is what its configuration makes of it. *)
Definition faithful (r : AgentRuntime) : Prop :=
  exists d, (ready (config_value r)).2 = Some d /\ start_runtime env iter (ready (config_value r)).1 d = Ok r.
Definition all_faithful (runtime : option AgentRuntime) : Prop := forall r, runtime = Some r -> faithful r.

(** Hand-over: a runtime is stopped once, when its successor has started or
    when the configuration is no longer ready. *)
Inductive handed : option AgentRuntime -> list effect -> option AgentRuntime -> Prop :=
| handed_nil r : handed r [] r
| handed_start new es r : handed (Some new) es r -> handed None (Started new :: es) r
| handed_replace old new es r : handed (Some new) es r -> handed (Some old) (Started new :: Stopped old :: es) r
| handed_stop old es r : handed None es r -> handed (Some old) (Stopped old :: es) r.

Lemma handed_app r1 es1 r2 es2 r3 : handed r1 es1 r2 -> handed r2 es2 r3 -> handed r1 (es1 ++ es2) r3.
Proof. induction 1; intros H2; [done|constructor; auto..]. Qed.

(** What a turn leaves running for a configuration: what the configuration
    says, none when it is not ready, and the old one when it is refused. *)
Definition follows (v : Value) (before after : option AgentRuntime) : Prop :=
  match (ready v).2 with
  | None => after = None
  | Some d =>
      match start_runtime env iter (ready v).1 d with
      | Ok r => after = Some r
      | _ => after = before
      end
  end.

Lemma reconcile_follows v runtime after es :
  all_faithful runtime -> reconcile env iter (ready v).1 (ready v).2 runtime = (after, es) ->
  all_faithful after /\ follows v runtime after /\ handed runtime es after /\
  reconcile env iter (ready v).1 (ready v).2 after = (after, []).
Proof.
  intros Hall. unfold reconcile, follows. destruct (ready v) as [m desired] eqn:Hr. cbn [fst snd].
  destruct desired as [d|].
  2:{ intros [= <- <-]. split; [done|]. split; [done|]. split; [|done]. destruct runtime; repeat constructor. }
  destruct (ready_desired v m d Hr) as (Hm & Hv & _ & _).
  destruct (start_refused v m d Hr) as [(new & Hstart & Hcv & _)|(e & Hstart)]; rewrite Hstart.
  - assert (Hnew : faithful new).
    { exists d. rewrite Hcv, Hr. by split. }
    assert (Hmatch : matches_config new (desired_config d) = true) by
      (unfold matches_config; apply bool_decide_eq_true; by rewrite Hcv, Hv).
    destruct runtime as [old|].
    + destruct (matches_config old (desired_config d)) eqn:Hmo; cbn [negb]; intros [= <- <-].
      * destruct (Hall old eq_refl) as (d' & Hd' & Hs'). unfold matches_config in Hmo.
        apply bool_decide_eq_true in Hmo. rewrite Hv in Hmo. rewrite Hmo, Hr in Hd', Hs'. cbn [fst snd] in Hd', Hs'.
        injection Hd' as <-. rewrite Hstart in Hs'. injection Hs' as ->.
        split; [done|]. split; [done|]. split; [constructor|]. by rewrite Hmatch.
      * split; [by intros r [= <-]|]. split; [done|]. split; [repeat constructor|]. by rewrite Hmatch.
    + intros [= <- <-]. split; [by intros r [= <-]|]. split; [done|]. split; [repeat constructor|]. by rewrite Hmatch.
  - intros Heq. assert (after = runtime /\ es = []) as [-> ->].
    { destruct runtime as [old|]; [destruct (negb _)|]; by injection Heq as <- <-. }
    split; [done|]. split; [done|]. split; [constructor|]. exact Heq.
Qed.
End starting.

(** ** A turn of the main loop *)
Section turns.
Context {F FE HE : Type} `{ConfigFs F FE} `{UrlParser} `{JsonText}.
Variable env : option str.
Variable iter : gmap str Z -> list (str * Z).
Variables server_path camera_path : str.
Abbreviation turn' get_config := (turn (HE:=HE) get_config env iter server_path camera_path).

Lemma maybe_pull_ready get_config now last srv v f f' last' m d :
  maybe_pull (HE:=HE) get_config env camera_path now last srv (ready v).1 (ready v).2 f = (f', last', m, d) ->
  exists v', ready v' = (m, d) /\ (v' = v \/ exists allow cam, v' = combined allow cam srv).
Proof.
  unfold maybe_pull. destruct (_ <? _); [|intros [= _ _ <- <-]; exists v; split; [reflexivity|by left]].
  destruct (agent_var (ready v).1 "SERVER_BASE_URL"), (agent_var (ready v).1 "SERVER_BEARER_TOKEN");
    try (intros [= _ _ <- <-]; exists v; split; [reflexivity|by left]).
  destruct (try_pull_remote_config _ _ _ _) as [f1 [[]|e|]];
    try (intros [= _ _ <- <-]; exists v; split; [reflexivity|by left]).
  destruct (load_camera_json camera_path f1) as [f2 [cam|e|]];
    try (intros [= _ _ <- <-]; exists v; split; [reflexivity|by left]).
  destruct (ready (combined _ cam srv)) as [m' d'] eqn:Hr. intros [= _ _ <- <-]. eexists. split; [exact Hr|eauto].
Qed.

Lemma turn_spec get_config now a f f' a' es :
  all_faithful env iter (runtime a) -> turn' get_config now a f = (f', a', es) ->
  exists v allow cam, let srv := (load_or_empty (load_server_json (allow_insecure env (installed a)) server_path) f).2 in
    v = combined allow cam srv /\ installed a' = install_runtime_overrides v /\
    follows env iter v (runtime a) (runtime a') /\ all_faithful env iter (runtime a') /\
    handed (runtime a) es (runtime a').
Proof.
  intros Hall. unfold turn. destruct (load_or_empty (load_server_json _ server_path) f) as [f1 srv].
  destruct (load_or_empty _ f1) as [f2 cam]. cbn [snd].
  destruct (ready (combined _ cam srv)) as [m d] eqn:Hr.
  destruct (maybe_pull _ _ _ _ _ _ _ _ _) as [[[f3 last] m'] d'] eqn:Hp.
  destruct (maybe_pull_ready get_config now (last_pull a) srv (combined (allow_insecure env (installed a)) cam srv) f2 f3 last m' d')
    as (v' & Hr' & Hv'); [by rewrite Hr|].
  destruct (reconcile env iter m' d' (runtime a)) as [after es'] eqn:Hrec. intros [= _ <- <-].
  assert (Hrec' : reconcile env iter (ready v').1 (ready v').2 (runtime a) = (after, es')) by (by rewrite Hr').
  destruct (reconcile_follows env iter v' _ _ _ Hall Hrec') as (Hf1 & Hf2 & Hf3 & _).
  destruct Hv' as [Hv'|(allow & cam' & Hv')]; [exists v', (allow_insecure env (installed a)), cam|exists v', allow, cam'];
    (split; [done|]; split; [exact (f_equal fst (eq_sym Hr'))|done]).
Qed.


(** C37: the turns of a run: the time, the server's answers, and the files, which
    others may change between the turns. *)
Fixpoint run (turns : list (Z * (option str -> HE + response) * F)) (a : agent) : agent * list effect :=
  match turns with
  | [] => (a, [])
  | (now, get_config, f) :: turns =>
      let '(_, a, es) := turn' get_config now a f in
      let '(a, es') := run turns a in
      (a, es ++ es')
  end.

Theorem run_one_runtime turns a a' es :
  all_faithful env iter (runtime a) -> run turns a = (a', es) ->
  handed (runtime a) es (runtime a') /\ all_faithful env iter (runtime a').
Proof.
  revert a es. induction turns as [|[[now get_config] f] turns IH]; intros a es Hall; cbn [run].
  { intros [= <- <-]. split; [constructor|done]. }
  destruct (turn' get_config now a f) as [[f1 a1] es1] eqn:Ht. destruct (run turns a1) as [a2 es2] eqn:Hr. intros [= <- <-].
  destruct (turn_spec get_config now a f f1 a1 es1 Hall Ht) as (v & allow & cam & _ & _ & _ & Hall1 & Hh1).
  destruct (IH a1 es2 Hall1 Hr) as [Hh2 Hall2]. split; [by eapply handed_app|done].
Qed.
End turns.

(** ** What a pull can change *)
Section pulling.
Context {F FE HE : Type} `{ConfigFs F FE} `{UrlParser} `{JsonText}.
Context (write_read : forall p s f f', file_write p s f = (f', inr tt) ->
  file_exists p f' = (f', true) /\ file_read p f' = (f', inr s)).
Context (print_parse : forall v, wf v = true -> from_str (to_string_pretty v) = Some v).
Context (parse_wf : forall s v, from_str s = Some v -> wf v = true).
Variable get_config : option str -> HE + response.

Lemma store_loads p u f f' :
  (forall cur, wf cur = true -> wf (merge_remote cur u) = true) -> store (FE:=FE) (HE:=HE) p u f = (f', Ok true) ->
  exists f1 cur, load_camera_json p f = (f1, Ok cur) /\ wf cur = true /\
    load_camera_json p f' = (f', Ok (merge_remote cur u)).
Proof.
  intros Hu. unfold store, merge_remote_camera_json, load_camera_json, mbind, st_bind.
  destruct (load_json_value_with_default p default_camera_json f) as [f1 [cur|e|]] eqn:Hl; [|done|done].
  destruct (write_json_file p (merge_remote cur u) f1) as [f2 [[]|e|]] eqn:Hw; [|done|done]. intros [= <-].
  pose proof (load_wf parse_wf _ _ _ _ _ Hl) as Hc. exists f1, cur. split; [done|]. split; [done|].
  apply (load_written write_read print_parse p _ _ f1); [by apply Hu|done].
Qed.


(** An answer whose configuration is null replaces the stored configuration:
    the next turn finds none, whatever the server file says, and stops the
    runtime. *)
Theorem null_config_wipes env iter hint p f f' resp payload :
  request_config get_config hint = inr resp -> is_success (http_status resp) = true ->
  json resp = Some payload -> get "config" payload = Some Null ->
  try_pull_remote_config (FE:=FE) get_config hint p f = (f', Ok true) ->
  load_camera_json p f' = (f', Ok Null) /\
  forall allow srv runtime, exists v, combined allow Null srv = v /\ (ready v).2 = None /\
    (reconcile env iter (ready v).1 (ready v).2 runtime).1 = None.
Proof.
  intros Hr Hok Hj Hg. unfold try_pull_remote_config. rewrite Hr, Hok, Hj. cbn [negb].
  unfold mbind, st_bind, lift_outcome, ok_or. rewrite Hg. intros Hs. split.
  - destruct (store_loads p Null f f') as (f1 & cur & _ & _ & Hl'); [|done|].
    + intros cur _. by destruct cur.
    + rewrite Hl'. do 2 f_equal. by destruct cur.
  - intros allow srv runtime. exists Null.
    assert (Hn : (ready Null).2 = None) by reflexivity. split; [|split; [done|by rewrite Hn]].
    unfold combined, merge_server_camera_configs.
    destruct (validate_server_base_url_in_config_value allow srv); try done. cbn.
    destruct (get "server" srv) as [s|]; [|done]. by destruct (has_non_null s).
Qed.
End pulling.

(** ** Witnesses *)
Module AgentWitness.
Import ConfigFacts.ConfigWitness.
#[local] Existing Instances tree_json localhost_urls one_file.

Definition site : Value := object
  [("cameras", Array [Forward.ForwardWitness.door; Forward.ForwardWitness.yard]);
   ("forward_agent", object [("server_addr", String (lit "h:7000"))])]%string.
Definition site_server : Value := object
  [("server", object [("base_url", String (lit "http://127.0.0.1")); ("bearer_token", String (lit "t"))])]%string.
Definition whole : Value := combined false site site_server.
Definition visit (m : gmap str Z) : list (str * Z) := map_to_list m.

Definition wanted : DesiredRuntime := default (mkDesired [] [] Null) (ready whole).2.
Lemma whole_ready : ready whole = ((ready whole).1, Some wanted).
Proof.
  assert (Hd : (ready whole).2 = Some wanted) by (vm_compute; reflexivity).
  rewrite <- Hd. by destruct (ready whole).
Qed.

Lemma start_refused_witness :
  exists r, start_runtime None visit (ready whole).1 wanted = Ok r /\
    map name (supervised r) = [lit "cam1"; lit "cam2"] /\ up_token r = lit "t".
Proof.
  destruct (start_refused None visit whole (ready whole).1 wanted whole_ready) as [(r & Hs & _ & Hsup & Ht)|(e & He)].
  - exists r. split; [exact Hs|]. split; [rewrite Hsup; vm_compute; reflexivity|].
    assert (Hw : text (get "bearer_token" (section whole "server")) = Some (lit "t")) by (vm_compute; reflexivity).
    rewrite Hw in Ht. by injection Ht.
  - exfalso. assert (Hok : is_ok (start_runtime None visit (ready whole).1 wanted) = true) by (vm_compute; reflexivity).
    by rewrite He in Hok.
Defined.

(** Two files that never change, and a server that does not answer. *)
Definition fixed : ConfigFs unit unit := {|
  file_exists _ f := (f, true); file_parent _ f := (f, inr tt); file_write _ _ f := (f, inr tt);
  file_read p f := (f, inr p) |}.
Definition fixed_json : JsonText := {|
  to_string _ := []; to_string_pretty _ := [];
  from_str s := if bool_decide (s = lit "server.json") then Some site_server else Some site |}.
Definition silent : option str -> unit + response := fun _ => inl tt.
Definition two_turns : agent * list effect :=
  run (HE:=unit) (H:=fixed) (H1:=fixed_json) None visit (lit "server.json") (lit "camera.json")
    [(0, silent, tt); (5000, silent, tt)] (mkAgent ∅ (-120000) None).


Lemma run_one_runtime_witness : exists r, two_turns.2 = [Started r] /\ handed None two_turns.2 (Some r).
Proof.
  assert (Hr : exists r, two_turns.2 = [Started r] /\ runtime two_turns.1 = Some r) by (eexists; vm_compute; split; reflexivity).
  destruct Hr as (r & He & Hr). exists r. split; [exact He|]. rewrite <- Hr.
  apply (run_one_runtime (H:=fixed) (H1:=fixed_json) None visit (lit "server.json") (lit "camera.json")
    [(0, silent, tt); (5000, silent, tt)] (mkAgent ∅ (-120000) None) two_turns.1 two_turns.2); [done|].
  change (two_turns = (two_turns.1, two_turns.2)). by destruct two_turns.
Defined.

(** A server that answers with a configuration. *)
Definition answers (config : Value) : option str -> unit + response :=
  fun _ => inr (mkResponse 200 (Some (Object [(lit "config", config)]))).
Definition sent : Value := object [("cameras", Array [cam1]); ("server", object [("base_url", String (lit "http://other"))])]%string.
Definition before : option str := Some (to_string_pretty current).
Lemma before_loads d : load_json_value_with_default (lit "camera.json") d before = (before, Ok current).
Proof. apply one_file_load; reflexivity. Qed.

Lemma pulled config :
  try_pull_remote_config (HE:=unit) (FE:=unit) (answers config) None (lit "camera.json") before =
  (Some (to_string_pretty (merge_remote current (camera_update config))), Ok true).
Proof.
  unfold try_pull_remote_config, answers, request_config, mbind, st_bind, lift_outcome, ok_or, store, merge_remote_camera_json.
  cbn [json http_status]. change (is_success 200) with true. cbn [negb].
  change (get "config" (Object [(lit "config", config)])) with (Some config). unfold mbind, st_bind. by rewrite before_loads.
Qed.


Lemma null_config_wipes_witness :
  exists f, load_camera_json (lit "camera.json") f = (f, Ok Null).
Proof.
  destruct (null_config_wipes one_file_write_read tree_print_parse tree_parse_wf (answers Null) None visit None (lit "camera.json")
    before _ _ _ eq_refl eq_refl eq_refl eq_refl (pulled Null)) as [H _].
  eexists. exact H.
Defined.
End AgentWitness.
