(* ===== verification/Utils.v ===== *)
(** * Retries and disk space ([utils/retry_helper.rs], [utils/disk_cleanup.rs])

    An HTTP request sent again with growing waits, and the deletion of the
    oldest clips until the disk has room.  Requests, the file system and
    [statvfs] are parameters; logging is left out. *)
From S2P Require Import Prelude Str Clip Pipeline Recorder.

(** ** [retry_helper.rs] *)
Module Retry.
(** Durations in nanoseconds; [Duration::MAX] bounds [saturating_mul]. *)
Record RetryCfg := mkRetry { max_attempts : nat; base_delay : Z; max_delay : Z }.
Definition default_cfg : RetryCfg := mkRetry 5 200000000 3000000000.
Definition DURATION_MAX : Z := u64_max * 1000000000 + 999999999.

Definition is_retryable_status (s : Z) : bool := (s =? 429) || ((500 <=? s) && (s <? 600)).

(** What the code asks of an error of the client. *)
Class ReqwestError (E : Type) := {
  is_timeout : E -> bool; is_connect : E -> bool; is_request : E -> bool; error_text : E -> str }.

Section retry.
Context {E : Type} `{ReqwestError E}.
Definition is_retryable_reqwest_err (e : E) : bool :=
  is_timeout e || is_connect e || is_request e || contains (lit "Connection refused") (error_text e)
  || contains (lit "os error 61") (error_text e) || contains (lit "connection reset") (error_text e).

Definition exp_backoff (attempt : nat) (base max : Z) : Z :=
  let mul := Z.min (2 ^ Z.of_nat (Nat.min attempt 20)) u64_max in
  let d := Z.min (base * mul) DURATION_MAX in
  if max <? d then max else d.

Inductive retry_error := RetryableStatus (s : Z) | Request (e : E) | NoAttempt.
(** What the [n]th request yields: an error, or the status of a response. *)
Variable send : nat -> E + Z.

(** The waits, and the outcome. *)
Fixpoint attempts (cfg : RetryCfg) (todo attempt : nat) (last_err : option retry_error) : list Z * outcome retry_error Z :=
  match todo with
  | O => ([], Err (default NoAttempt last_err))
  | S todo =>
      let again e :=
        let '(waits, r) := attempts cfg todo (S attempt) (Some e) in
        (exp_backoff attempt (base_delay cfg) (max_delay cfg) :: waits, r) in
      match send attempt with
      | inr status => if is_retryable_status status then again (RetryableStatus status) else ([], Ok status)
      | inl e => if is_retryable_reqwest_err e then again (Request e) else ([], Err (Request e))
      end
  end.
Definition retry_request (cfg : RetryCfg) : list Z * outcome retry_error Z := attempts cfg (max_attempts cfg) 0 None.

(** *** Reference: the first answer that is not worth another attempt *)
Definition retryable (r : E + Z) : bool :=
  match r with inr s => is_retryable_status s | inl e => is_retryable_reqwest_err e end.
Definition answer (r : E + Z) : outcome retry_error Z := match r with inr s => Ok s | inl e => Err (Request e) end.
Definition as_error (r : E + Z) : retry_error := match r with inr s => RetryableStatus s | inl e => Request e end.

Lemma attempts_final cfg n i left last :
  (i < left)%nat -> (forall j, (j < i)%nat -> retryable (send (n + j)) = true) -> retryable (send (n + i)) = false ->
  attempts cfg left n last =
  (map (fun j => exp_backoff j (base_delay cfg) (max_delay cfg)) (seq n i), answer (send (n + i))).
Proof.
  revert n left last. induction i as [|i IH]; intros n [|left] last Hi Hr Hf; try lia; cbn [attempts].
  - rewrite Nat.add_0_r in Hf |- *. cbn [seq map]. unfold retryable in Hf. unfold answer.
    destruct (send n); by rewrite Hf.
  - pose proof (Hr 0%nat ltac:(lia)) as H0. rewrite Nat.add_0_r in H0. unfold retryable in H0.
    assert (Hrec : forall e, attempts cfg left (S n) (Some e) =
      (map (fun j => exp_backoff j (base_delay cfg) (max_delay cfg)) (seq (S n) i), answer (send (n + S i)))).
    { intros e. rewrite IH by (lia || (intros j Hj; rewrite <- (Hr (S j)) by lia; do 2 f_equal; lia) ||
        (rewrite <- Hf; do 2 f_equal; lia)). do 3 f_equal. lia. }
    destruct (send n); rewrite H0, Hrec; done.
Qed.

Lemma attempts_exhausted cfg n left last :
  (forall j, (j < left)%nat -> retryable (send (n + j)) = true) ->
  attempts cfg left n last =
  (map (fun j => exp_backoff j (base_delay cfg) (max_delay cfg)) (seq n left),
   Err (match left with O => default NoAttempt last | S k => as_error (send (n + k)) end)).
Proof.
  revert n last. induction left as [|left IH]; intros n last Hr; cbn [attempts seq map]; [done|].
  pose proof (Hr 0%nat ltac:(lia)) as H0. rewrite Nat.add_0_r in H0. unfold retryable in H0.
  assert (Hrec : attempts cfg left (S n) (Some (as_error (send n))) =
    (map (fun j => exp_backoff j (base_delay cfg) (max_delay cfg)) (seq (S n) left), Err (as_error (send (n + left))))).
  { rewrite IH by (intros j Hj; rewrite <- (Hr (S j)) by lia; do 2 f_equal; lia). do 2 f_equal.
    destruct left; [by rewrite Nat.add_0_r|]. do 2 f_equal. lia. }
  unfold as_error in Hrec at 1. destruct (send n); rewrite H0, Hrec; done.
Qed.

Lemma exp_backoff_eq i base max : 0 <= base -> 0 <= max <= DURATION_MAX -> 
  exp_backoff i base max = Z.min (base * 2 ^ Z.of_nat (Nat.min i 20)) max.
Proof.
  intros Hb Hm. unfold exp_backoff. assert (2 ^ Z.of_nat (Nat.min i 20) <= 2 ^ 20) by (apply Z.pow_le_mono_r; lia).
  rewrite (Z.min_l (2 ^ _)) by (unfold u64_max; lia).
  destruct (Z.ltb_spec max (Z.min (base * 2 ^ Z.of_nat (Nat.min i 20)) DURATION_MAX)); lia.
Qed.

(** The request is sent until an answer is not worth another attempt, at most
    [max_attempts] times; the waits double from the base to the maximum; when
    the attempts are used up the last error is returned. *)
Theorem retry_request_spec cfg i :
  (forall j, (j < i)%nat -> retryable (send j) = true) -> 0 <= base_delay cfg -> 0 <= max_delay cfg <= DURATION_MAX ->
  let wait j := Z.min (base_delay cfg * 2 ^ Z.of_nat (Nat.min j 20)) (max_delay cfg) in
  ((i < max_attempts cfg)%nat -> retryable (send i) = false ->
     retry_request cfg = (map wait (seq 0 i), answer (send i))) /\
  ((i = max_attempts cfg)%nat ->
     retry_request cfg = (map wait (seq 0 i), Err (match i with O => NoAttempt | S k => as_error (send k) end))).
Proof.
  intros Hr Hb Hm. cbn zeta.
  assert (Hw : forall n, map (fun j => exp_backoff j (base_delay cfg) (max_delay cfg)) (seq 0 n) =
    map (fun j => Z.min (base_delay cfg * 2 ^ Z.of_nat (Nat.min j 20)) (max_delay cfg)) (seq 0 n)).
  { intros n. apply map_ext. intros j. by apply exp_backoff_eq. }
  rewrite <- Hw. split.
  - intros Hi Hf. unfold retry_request. by rewrite (attempts_final cfg 0 i).
  - intros ->. unfold retry_request. by rewrite (attempts_exhausted cfg 0).
Qed.
End retry.
End Retry.

(** ** [disk_cleanup.rs] *)
Module Disk.
(** [statvfs]: the available blocks, the fragment and the block size. *)
Class StatVfs (F E : Type) := statvfs : str -> F -> E + (Z * Z * Z).

Record DiskCleanupConfig := mkDisk { clips_dir : str; min_free_bytes : Z; check_interval : Z }.
Definition default_cfg : DiskCleanupConfig := mkDisk (lit "clips") 1000000000 60000.

Section cleanup.
Context {F H E : Type} `{Fs F H E} `{DirFs F E} `{StatVfs F E}.

(** The product wraps, as in a release build. *)
Definition get_available_space (path : str) (f : F) : outcome E Z :=
  match statvfs path f with
  | inl e => Err e
  | inr (bavail, frsize, bsize) => Ok ((bavail * (if 0 <? frsize then frsize else bsize)) mod 2 ^ 64)
  end.

(** The oldest clip among the entries of the directory. *)
Fixpoint find_oldest (dir : str) (es : list (E + str)) (oldest : option (str * Z)) (f : F)
    : F * outcome E (option (str * Z)) :=
  match es with
  | [] => (f, Ok oldest)
  | inl e :: _ => (f, Err e)
  | inr name :: es =>
      if negb (has_h264_extension name) then find_oldest dir es oldest f
      else match dir_metadata (join dir name) f with
           | (f, inr (Some modified, _)) =>
               find_oldest dir es
                 (match oldest with
                  | None => Some (join dir name, modified)
                  | Some (_, old_time) => if modified <? old_time then Some (join dir name, modified) else oldest
                  end) f
           | (f, _) => find_oldest dir es oldest f
           end
  end.

(** [None]: the fuel has run out. *)
Fixpoint cleanup (fuel : nat) (dir : str) (min_free : Z) (deleted : nat) (f : F) : F * option (outcome E nat) :=
  match fuel with
  | O => (f, None)
  | S fuel =>
      match get_available_space dir f with
      | Err e => (f, Some (Err e))
      | Panic => (f, Some Panic)
      | Ok available =>
          if min_free <=? available then (f, Some (Ok deleted))
          else
            match dir_read dir f with
            | (f, inl e) => (f, Some (Err e))
            | (f, inr es) =>
                match find_oldest dir es None f with
                | (f, Ok (Some (oldest_path, _))) =>
                    match fs_remove oldest_path f with
                    | (f, inl _) => (f, Some (Ok deleted))
                    | (f, inr _) =>
                        let f := (fs_remove (with_json oldest_path) f).1 in
                        cleanup fuel dir min_free (S deleted) f
                    end
                | (f, Ok None) => (f, Some (Ok deleted))
                | (f, Err e) => (f, Some (Err e))
                | (f, Panic) => (f, Some Panic)
                end
            end
      end
  end.
Definition cleanup_until_space_available (fuel : nat) (dir : str) (min_free : Z) (f : F) :=
  cleanup fuel dir min_free 0 f.

(** One round of [run_disk_cleanup], behind its sleep. *)
Definition disk_check (fuel : nat) (cfg : DiskCleanupConfig) (f : F) : F * option unit :=
  match get_available_space (clips_dir cfg) f with
  | Ok available =>
      if available <? min_free_bytes cfg then
        let '(f, r) := cleanup_until_space_available fuel (clips_dir cfg) (min_free_bytes cfg) f in
        (f, (fun _ => tt) <$> r)
      else (f, Some tt)
  | _ => (f, Some tt)
  end.

(** *** The directory

    Reading and [metadata] change nothing, and list files that are there; a
    removal that succeeds takes its file away, and none adds files. *)
Section laws.
Variable dir : str.
Variable names : F -> list str.
Context (read_pure : forall f, (dir_read dir f).1 = f).
Context (metadata_pure : forall p f, (dir_metadata p f).1 = f).
Context (read_names : forall f es name, (dir_read dir f).2 = inr es -> inr name ∈ es -> name ∈ names f).
Context (removed : forall name f f', name ∈ names f -> fs_remove (join dir name) f = (f', inr tt) ->
  (length (names f') < length (names f))%nat).
Context (remove_shrinks : forall p f, (length (names (fs_remove p f).1) <= length (names f))%nat).

(** The time of a clip, when the file system tells it. *)
Definition time_of (f : F) (p : str) : option Z :=
  match (dir_metadata p f).2 with inr (t, _) => t | inl _ => None end.
(** [p] is a listed clip, and none with a time is older. *)
Definition is_oldest (es : list (E + str)) (f : F) (p : str) (t : Z) : Prop :=
  (exists name, inr name ∈ es /\ has_h264_extension name = true /\ p = join dir name /\ time_of f p = Some t) /\
  forall name t', inr name ∈ es -> has_h264_extension name = true -> time_of f (join dir name) = Some t' -> t <= t'.

Lemma find_oldest_step es name oldest f : has_h264_extension name = true ->
  find_oldest dir (inr name :: es) oldest f =
  find_oldest dir es (match time_of f (join dir name) with
                      | Some t => match oldest with
                                  | Some (p, old) => if t <? old then Some (join dir name, t) else oldest
                                  | None => Some (join dir name, t)
                                  end
                      | None => oldest
                      end) f.
Proof.
  intros Hn. cbn [find_oldest]. rewrite Hn. cbn [negb]. unfold time_of. pose proof (metadata_pure (join dir name) f) as Hp.
  destruct (dir_metadata (join dir name) f) as [f1 [e|[[t|] n]]]; cbn [fst snd] in *; subst f1; done.
Qed.

Lemma find_oldest_spec (all es : list (E + str)) oldest f f' r :
  (forall name, inr name ∈ es -> inr name ∈ all) -> 
  (forall p t, oldest = Some (p, t) ->
     exists name, inr name ∈ all /\ has_h264_extension name = true /\ p = join dir name /\ time_of f p = Some t) ->
  find_oldest dir es oldest f = (f', r) ->
  f' = f /\ r <> Panic /\ forall p t, r = Ok (Some (p, t)) ->
    (exists name, inr name ∈ all /\ has_h264_extension name = true /\ p = join dir name /\ time_of f p = Some t) /\
    (forall p' t', oldest = Some (p', t') -> t <= t') /\
    (forall name t', inr name ∈ es -> has_h264_extension name = true -> time_of f (join dir name) = Some t' -> t <= t').
Proof.
  revert oldest. induction es as [|[e|name] es IH]; intros oldest Hes Ho.
  - intros [= <- <-]. split; [done|]. split; [done|]. intros p t [= ->]. split; [by apply Ho|].
    split; [by intros p' t' [= <- <-]|]. by intros name t' ?%elem_of_nil.
  - by intros [= <- <-].
  - assert (Hes' : forall name, inr name ∈ es -> inr name ∈ all) by (intros n Hn; apply Hes; by right).
    destruct (has_h264_extension name) eqn:Hh.
    2:{ cbn [find_oldest]. rewrite Hh. cbn [negb]. intros Hf. destruct (IH oldest Hes' Ho Hf) as (-> & Hp & Hr).
        split; [done|]. split; [done|]. intros p t Hpt. destruct (Hr p t Hpt) as (H1' & H2' & H3'). split; [done|]. split; [done|].
        intros n t' [[= ->]|Hn]%elem_of_cons; [congruence|by apply H3']. }
    rewrite find_oldest_step by done. intros Hf.
    set (better := match time_of f (join dir name) with Some _ => _ | None => _ end) in Hf.
    assert (Hb : forall p t, better = Some (p, t) ->
       exists n, inr n ∈ all /\ has_h264_extension n = true /\ p = join dir n /\ time_of f p = Some t).
    { intros p t. unfold better. destruct (time_of f (join dir name)) as [t0|] eqn:Ht; [|apply Ho].
      assert (Hin : inr name ∈ all) by (apply Hes; left).
      destruct oldest as [[p0 old]|]; [destruct (t0 <? old); [|apply Ho]|]; intros [= <- <-]; by exists name. }
    destruct (IH better Hes' Hb Hf) as (-> & Hp & Hr). split; [done|]. split; [done|].
    intros p t Hpt. destruct (Hr p t Hpt) as (H1' & H2' & H3'). split; [done|].
    unfold better in H2'. split.
    + intros p' t' ->. destruct (time_of f (join dir name)) as [t0|]; [|by eapply H2'].
      destruct (Z.ltb_spec t0 t'); [specialize (H2' _ _ eq_refl); lia|by eapply H2'].
    + intros n t' [[= ->]|Hn]%elem_of_cons Hhn Ht'; [|by apply (H3' n)]. rewrite Ht' in H2'.
      destruct oldest as [[p0 old]|]; [destruct (Z.ltb_spec t' old)|]; specialize (H2' _ _ eq_refl); lia.
Qed.

(** The deletions of a run: each one the oldest clip, while room is missing. *)
Inductive evicts (min_free : Z) : F -> nat -> F -> Prop :=
| evicts_none f : evicts min_free f 0 f
| evicts_one f available es p t f1 n f2 :
    get_available_space dir f = Ok available -> available < min_free ->
    (dir_read dir f).2 = inr es -> is_oldest es f p t -> fs_remove p f = (f1, inr tt) ->
    evicts min_free (fs_remove (with_json p) f1).1 n f2 -> evicts min_free f (S n) f2.

Lemma space_no_panic f : get_available_space dir f <> Panic.
Proof. unfold get_available_space. by destruct (statvfs dir f) as [e|[[? ?] ?]]. Qed.

(** C23: the clean-up ends, whatever the disk does: with fuel for every file of the
    directory it has a result.  It has then deleted that many clips, each the
    oldest at its time while room was missing, and stopped because there was
    room, because no clip with a time was left, or because a deletion failed. *)
Theorem cleanup_terminates fuel min_free d f :
  (length (names f) < fuel)%nat ->
  exists f' r, cleanup fuel dir min_free d f = (f', Some r) /\ r <> Panic /\
    forall n, r = Ok n -> (d <= n <= d + length (names f))%nat /\
      exists f2, evicts min_free f (n - d) f2 /\
        ((f' = f2 /\ exists a, get_available_space dir f' = Ok a /\ min_free <= a) \/
         (f' = f2 /\ exists es, (dir_read dir f2).2 = inr es /\ (find_oldest dir es None f2).2 = Ok None) \/
         (exists es p t e, (dir_read dir f2).2 = inr es /\ is_oldest es f2 p t /\ fs_remove p f2 = (f', inl e))).
Proof.
  revert d f. induction fuel as [|fuel IH]; intros d f Hf; [lia|]. cbn [cleanup].
  pose proof (space_no_panic f) as Hnp. destruct (get_available_space dir f) as [available|e|] eqn:Ha; [|by eexists _, _|done].
  destruct (Z.leb_spec min_free available) as [Hroom|Hroom].
  { eexists _, _. split; [done|]. split; [done|]. intros n [= <-]. split; [lia|]. exists f. rewrite Nat.sub_diag.
    split; [constructor|]. left. eauto. }
  pose proof (read_pure f) as Hread. destruct (dir_read dir f) as [f0 [e|es]] eqn:Hd; cbn [fst] in Hread; subst f0; [by eexists _, _|].
  assert (Hes : (dir_read dir f).2 = inr es) by (by rewrite Hd).
  destruct (find_oldest dir es None f) as [f0 r] eqn:Ho.
  destruct (find_oldest_spec es es None f f0 r) as (-> & Hp & Hr); [done|done|done|].
  destruct r as [[[p t]|]|e|]; [|..|done].
  2:{ eexists _, _. split; [done|]. split; [done|]. intros n [= <-]. split; [lia|]. exists f. rewrite Nat.sub_diag.
      split; [constructor|]. right; left. split; [done|]. exists es. by rewrite Ho. }
  2:{ by eexists _, _. }
  destruct (Hr p t eq_refl) as ((name & Hin & Hh & -> & Ht) & _ & Hmin).
  assert (Hold : is_oldest es f (join dir name) t) by (split; [by exists name|done]).
  destruct (fs_remove (join dir name) f) as [f1 [e|[]]] eqn:Hrm.
  { eexists _, _. split; [done|]. split; [done|]. intros n [= <-]. split; [lia|]. exists f. rewrite Nat.sub_diag.
    split; [constructor|]. right; right. by exists es, (join dir name), t, e. }
  pose proof (removed name f f1 (read_names f es name Hes Hin) Hrm) as Hless.
  pose proof (remove_shrinks (with_json (join dir name)) f1) as Hshrink.
  destruct (IH (S d) (fs_remove (with_json (join dir name)) f1).1) as (f' & r & Hc & Hnp' & Hn); [lia|].
  exists f', r. split; [done|]. split; [done|]. intros n Hn'. destruct (Hn n Hn') as (Hb & f2 & Hev & Hstop).
  split; [lia|]. exists f2. split; [|done]. replace (n - d)%nat with (S (n - S d)) by lia. by econstructor.
Qed.
End laws.
End cleanup.
End Disk.

Module UtilsWitness.
(** A request that is refused twice and then answered. *)
#[local] Instance text_error : Retry.ReqwestError str := {
  Retry.is_timeout _ := false; Retry.is_connect _ := false; Retry.is_request _ := false; Retry.error_text e := e }.
Definition busy (n : nat) : str + Z :=
  match n with O => inl (lit "Connection refused") | S O => inr 503 | _ => inr 200 end.
Lemma retry_request_spec_witness :
  Retry.retry_request busy Retry.default_cfg = ([200000000; 400000000], Ok 200).
Proof.
  destruct (Retry.retry_request_spec busy Retry.default_cfg 2) as [H _].
  - intros [|[|j]] Hj; [reflexivity..|lia].
  - vm_compute. discriminate.
  - vm_compute. split; discriminate.
  - apply H; [vm_compute; lia|reflexivity].
Defined.

(** A disk that is its list of clips and times; a clip takes ten bytes of a
    hundred. *)
Abbreviation clips := (list (str * Z)).
#[local] Instance clips_fs : Fs clips unit unit := {
  fs_create _ f := (f, inr tt); fs_write _ _ f := (f, inr tt); fs_flush _ f := (f, inr tt); fs_drop _ f := f;
  fs_rename _ _ f := (f, inr tt); fs_store _ _ f := (f, inr tt);
  fs_remove p f := (filter (fun c => join (lit "clips") c.1 <> p) f, inr tt) }.
#[local] Instance clips_dir_fs : DirFs clips unit := {
  dir_create _ f := (f, inr tt); dir_read _ f := (f, inr (map (fun c => inr c.1) f));
  dir_metadata p f := (f, match List.find (fun c => bool_decide (join (lit "clips") c.1 = p)) f with
                          | Some c => inr (Some c.2, 10) | None => inl tt end) }.
#[local] Instance clips_space : Disk.StatVfs clips unit := fun _ f => inr (100 - 10 * Z.of_nat (length f), 1, 1).
Definition full : clips := map (fun x => (lit x.1, x.2)) [("b.h264", 20); ("c.h264", 30); ("a.h264", 10); ("notes.txt", 1)]%string.

Lemma clips_removed (name : str) (f f' : clips) :
  name ∈ map fst f -> fs_remove (join (lit "clips") name) f = (f', inr tt) -> (length (map fst f') < length (map fst f))%nat.
Proof.
  intros Hn [= <-]. rewrite !length_map. apply list_elem_of_fmap in Hn as (c & -> & Hc).
  apply length_filter_lt with c; [done|]. by intros Hne.
Qed.

Lemma cleanup_terminates_witness :
  exists f', Disk.cleanup 5 (lit "clips") 75 0 full = (f', Some (Ok 2%nat)) /\
    map fst f' = [lit "c.h264"; lit "notes.txt"] /\ exists f2, Disk.evicts (lit "clips") 75 full 2 f2.
Proof.
  destruct (Disk.cleanup_terminates (E:=unit) (lit "clips") (map fst)) with (fuel := 5%nat) (min_free := 75) (d := 0%nat) (f := full)
    as (f' & r & Hc & _ & Hn).
  - done.
  - done.
  - intros f es name [= <-] Hin. apply list_elem_of_fmap in Hin as (c & [= ->] & Hin). by apply (list_elem_of_fmap_2 fst).
  - exact clips_removed.
  - intros p f. cbn. rewrite !length_map. apply length_filter.
  - vm_compute. lia.
  - assert (Hr : Disk.cleanup 5 (lit "clips") 75 0 full =
      ([(lit "c.h264", 30); (lit "notes.txt", 1)], Some (Ok 2%nat))) by (vm_compute; reflexivity).
    rewrite Hr in Hc. injection Hc as <- <-. eexists. split; [exact Hr|]. split; [reflexivity|].
    destruct (Hn 2%nat eq_refl) as (_ & f2 & Hev & _). exists f2. exact Hev.
Defined.
End UtilsWitness.
