(* ===== verification/Telemetry.v ===== *)
(** * What a heartbeat says ([server/server_client.rs])

    The load and the memory of the machine, read from [/proc], the installed
    firmware and the JSON of a heartbeat.  The contents of a file are an
    argument, [None] when it cannot be read. *)
From S2P Require Import Prelude Str Config.

Definition wrap64 (v : Z) : Z := v mod 2 ^ 64.

(** ** Data *)
Inductive TelemetryStatus := Operational | Degraded | Suspended.
Definition status_as_str (s : TelemetryStatus) : str :=
  match s with
  | Operational => lit "operational"
  | Degraded => lit "degraded"
  | Suspended => lit "suspended"
  end.
Record TelemetryCapabilities := mkCapabilities {
  face_recognition : bool; license_plate : bool; object_tracking : bool; anomalous_motion : bool }.
Definition default_capabilities : TelemetryCapabilities := mkCapabilities false false false false.
Record HeartbeatTelemetry := mkTelemetry {
  tm_status : str; cpu_load_pct : option Z; memory_used_mb : option Z; memory_total_mb : option Z;
  active_models : list str; capabilities : TelemetryCapabilities }.
Record MemoryUsageMb := mkMemory { used_mb : Z; total_mb : Z }.
Record CpuSample := mkCpu { cpu_idle : Z; cpu_total : Z }.

(** ** JSON of optional fields *)
Definition opt_string (o : option str) : Value := match o with Some s => String s | None => Null end.
Definition opt_number (o : option Z) : Value := match o with Some n => Number n | None => Null end.
Definition opt_bool (o : option bool) : Value := match o with Some b => Bool b | None => Null end.
(** [payload[k] = v] *)
Definition set_field (k : String.string) (v payload : Value) : Value :=
  match payload with Object m => Object (obj_insert (lit k) v m) | _ => payload end.

Definition telemetry_as_json (t : HeartbeatTelemetry) : Value :=
  object [
    ("status", String (tm_status t));
    ("cpu_load_pct", opt_number (cpu_load_pct t));
    ("memory_used_mb", opt_number (memory_used_mb t));
    ("memory_total_mb", opt_number (memory_total_mb t));
    ("active_models", Array (map String (active_models t)));
    ("capabilities", object [
      ("face_recognition", Bool (face_recognition (capabilities t)));
      ("license_plate", Bool (license_plate (capabilities t)));
      ("object_tracking", Bool (object_tracking (capabilities t)));
      ("anomalous_motion", Bool (anomalous_motion (capabilities t))) ]) ]%string.

(** ** The names of the models: trimmed, without blanks and repetitions *)
Fixpoint sanitize_from (seen : list str) (models : list str) : list str :=
  match models with
  | [] => []
  | model :: models =>
      let trimmed := trim model in
      if bool_decide (trimmed = []) then sanitize_from seen models
      else if bool_decide (trimmed ∈ seen) then sanitize_from seen models
      else trimmed :: sanitize_from (trimmed :: seen) models
  end.
Definition sanitize_active_models (models : list str) : list str := sanitize_from [] models.
Definition collect_active_models : list str := sanitize_active_models [].
Definition detect_telemetry_capabilities : TelemetryCapabilities := default_capabilities.

Definition build_heartbeat_telemetry (status : TelemetryStatus) (cpu_load_pct : option Z)
    (memory : option MemoryUsageMb) (models : list str) (capabilities : TelemetryCapabilities) : HeartbeatTelemetry :=
  mkTelemetry (status_as_str status) ((fun v => Z.min v 100) <$> cpu_load_pct)
    (used_mb <$> memory) (total_mb <$> memory) (sanitize_active_models models) capabilities.

(** ** [/proc/meminfo]

    [u64] additions wrap, as in a release build. *)
Definition parse_meminfo_value_kb (raw : str) (key : String.string) : option Z :=
  head (omap (fun line =>
    rest ← strip_prefix (lit key) line;
    word ← head (split_whitespace rest);
    parse_u64 word) (lines raw)).

Definition read_memory_usage_mb (file : option str) : option MemoryUsageMb :=
  raw ← file;
  total_kb ← parse_meminfo_value_kb raw "MemTotal:";
  available_kb ← or_else (parse_meminfo_value_kb raw "MemAvailable:")
    (free ← parse_meminfo_value_kb raw "MemFree:";
     buffers ← parse_meminfo_value_kb raw "Buffers:";
     cached ← parse_meminfo_value_kb raw "Cached:";
     Some (wrap64 (wrap64 (free + buffers) + cached)));
  let available_kb := Z.min available_kb total_kb in
  Some (mkMemory (sat_sub64 total_kb available_kb / 1024) (total_kb / 1024)).

(** ** [/proc/stat] *)
Definition read_cpu_sample (file : option str) : option CpuSample :=
  raw ← file;
  line ← List.find (starts_with (lit "cpu ")) (lines raw);
  values ← mapM parse_u64 (drop 1 (split_whitespace line));
  if (length values <? 4)%nat then None
  else
    idle ← values !! 3%nat;
    Some (mkCpu (wrap64 (idle + default 0 (values !! 4%nat))) (wrap64 (foldl Z.add 0 values))).

(** The sample kept, and the load since the last one. *)
Definition sample_cpu_load_pct (last : option CpuSample) (file : option str) : option CpuSample * option Z :=
  match read_cpu_sample file with
  | None => (last, None)
  | Some current =>
      (Some current,
       previous ← last;
       let total_delta := sat_sub64 (cpu_total current) (cpu_total previous) in
       if total_delta =? 0 then None
       else
         let idle_delta := sat_sub64 (cpu_idle current) (cpu_idle previous) in
         let busy_delta := sat_sub64 total_delta idle_delta in
         Some (Z.min (sat_mul64 busy_delta 100 / total_delta) 100))
  end.

Record TelemetrySampler := mkSampler { last_cpu_sample : option CpuSample }.
Definition new_sampler (stat : option str) : TelemetrySampler := mkSampler (read_cpu_sample stat).
Definition sample (stat meminfo : option str) (s : TelemetrySampler) (status : TelemetryStatus)
    : TelemetrySampler * HeartbeatTelemetry :=
  let '(last, pct) := sample_cpu_load_pct (last_cpu_sample s) stat in
  (mkSampler last,
   build_heartbeat_telemetry status pct (read_memory_usage_mb meminfo) collect_active_models
     detect_telemetry_capabilities).

(** ** The installed firmware *)
Definition read_installed_firmware_version_from (file : option str) : option str :=
  raw ← file; let value := trim raw in if bool_decide (value = []) then None else Some value.
Definition pick_installed_firmware_version (file_version runtime_override env_override : option str) : option str :=
  or_else (non_blank file_version) (or_else (non_blank runtime_override) (non_blank env_override)).

Record FirmwareHeartbeatState := mkFirmware {
  fw_job_id : option Z; current_version : option str; target_version : option str; fw_status : option str;
  fw_error : option str; can_rollback : option bool; fw_started_at : option str; fw_finished_at : option str }.
Definition build_idle_firmware_state (current_version : option str) (can_rollback : bool) : FirmwareHeartbeatState :=
  mkFirmware None current_version None (Some (lit "idle")) None (Some can_rollback) None None.

Definition is_terminal_firmware_status (status : option str) : bool :=
  match status with
  | Some s => bool_decide (s ∈ map lit ["succeeded"; "failed"; "rollback_succeeded"; "rollback_failed"]%string)
  | None => false
  end.
Definition is_terminal (s : FirmwareHeartbeatState) : bool := is_terminal_firmware_status (fw_status s).
Definition firmware_as_json (s : FirmwareHeartbeatState) : option Value :=
  if bool_decide (fw_job_id s = None) && bool_decide (current_version s = None)
    && bool_decide (target_version s = None) && bool_decide (fw_status s = None)
    && bool_decide (fw_error s = None) && bool_decide (can_rollback s = None)
    && bool_decide (fw_started_at s = None) && bool_decide (fw_finished_at s = None)
  then None
  else Some (object [
    ("job_id", opt_number (fw_job_id s));
    ("current_version", opt_string (current_version s));
    ("target_version", opt_string (target_version s));
    ("status", opt_string (fw_status s));
    ("error", opt_string (fw_error s));
    ("can_rollback", opt_bool (can_rollback s));
    ("started_at", opt_string (fw_started_at s));
    ("finished_at", opt_string (fw_finished_at s)) ]%string).

Record RestartHeartbeatState := mkRestart {
  rs_job_id : option Z; rs_status : option str; rs_error : option str;
  rs_started_at : option str; rs_finished_at : option str }.
Definition restart_as_json (s : RestartHeartbeatState) : option Value :=
  if bool_decide (rs_job_id s = None) && bool_decide (rs_status s = None) && bool_decide (rs_error s = None)
    && bool_decide (rs_started_at s = None) && bool_decide (rs_finished_at s = None)
  then None
  else Some (object [
    ("job_id", opt_number (rs_job_id s));
    ("status", opt_string (rs_status s));
    ("error", opt_string (rs_error s));
    ("started_at", opt_string (rs_started_at s));
    ("finished_at", opt_string (rs_finished_at s)) ]%string).

Definition normalize_firmware_version (value : str) : option str :=
  let normalized := trim (trim_start_matches 118 (trim value)) in
  if bool_decide (normalized = []) then None else Some normalized.
Definition firmware_versions_match (installed target : option str) : bool :=
  match installed, target with
  | Some installed, Some target =>
      bool_decide (normalize_firmware_version installed = normalize_firmware_version target)
  | _, _ => false
  end.

(** ** The payload *)
Definition build_agent_heartbeat_payload (agent_id timestamp : str) (config_version : option Value)
    (cameras : list Value) (telemetry : HeartbeatTelemetry) (firmware : FirmwareHeartbeatState)
    (restart : option RestartHeartbeatState) : Value :=
  let payload := object [
    ("agent_id", String agent_id);
    ("timestamp", String timestamp);
    ("config_version", default Null config_version);
    ("telemetry", telemetry_as_json telemetry);
    ("cameras", Array cameras) ]%string in
  let payload := match firmware_as_json firmware with Some v => set_field "firmware" v payload | None => payload end in
  match restart ≫= restart_as_json with Some v => set_field "restart" v payload | None => payload end.

(** ** The models of a heartbeat *)
Lemma sanitize_from_spec models seen :
  NoDup (sanitize_from seen models) /\
  forall m, (m ∈ sanitize_from seen models) <-> m <> [] /\ (m ∉ seen) /\ (exists raw, (raw ∈ models) /\ trim raw = m).
Proof.
  revert seen. induction models as [|raw models IH]; intros seen; cbn [sanitize_from].
  { split; [constructor|]. intros m. split; [by intros ?%elem_of_nil|]. by intros (_ & _ & raw & ?%elem_of_nil & _). }
  assert (Hskip : trim raw = [] \/ (trim raw ∈ seen) -> forall m,
    (m <> [] /\ (m ∉ seen) /\ (exists r, (r ∈ models) /\ trim r = m)) <->
    (m <> [] /\ (m ∉ seen) /\ (exists r, (r ∈ raw :: models) /\ trim r = m))).
  { intros Hs m. split; intros (Hn & Hm & r & Hr & Ht); (split; [done|]; split; [done|]).
    - exists r. split; [by right|done].
    - apply elem_of_cons in Hr as [->|Hr]; [|by exists r]. subst m. by destruct Hs. }
  case_bool_decide as He; [|case_bool_decide as Hin].
  - destruct (IH seen) as [Hnd Hall]. split; [done|]. intros m. rewrite Hall. apply Hskip. by left.
  - destruct (IH seen) as [Hnd Hall]. split; [done|]. intros m. rewrite Hall. apply Hskip. by right.
  - destruct (IH (trim raw :: seen)) as [Hnd Hall]. split.
    + constructor; [|done]. rewrite Hall. intros (_ & H & _). apply H. by left.
    + intros m. rewrite elem_of_cons, Hall, not_elem_of_cons. split.
      * intros [->|(Hn & [_ Hm] & r & Hr & Ht)].
        -- split; [done|]. split; [done|]. exists raw. split; [by left|done].
        -- split; [done|]. split; [done|]. exists r. split; [by right|done].
      * intros (Hn & Hm & r & Hr & Ht). destruct (decide (m = trim raw)) as [->|Hne]; [by left|]. right.
        split; [done|]. split; [done|]. apply elem_of_cons in Hr as [->|Hr]; [done|]. by exists r.
Qed.

(** ** Bounds *)
Lemma memory_bounds file m : read_memory_usage_mb file = Some m -> 0 <= used_mb m <= total_mb m.
Proof.
  unfold read_memory_usage_mb. destruct file as [raw|]; cbn [mbind option_bind]; [|done].
  destruct (parse_meminfo_value_kb raw "MemTotal:") as [total|] eqn:Ht; cbn [mbind option_bind]; [|done].
  destruct (or_else _ _) as [avail|] eqn:Ha; cbn [mbind option_bind]; [|done]. intros [= <-]. cbn [used_mb total_mb].
  assert (Hparse : forall k v, parse_meminfo_value_kb raw k = Some v -> 0 <= v).
  { intros k v Hk. unfold parse_meminfo_value_kb in Hk. apply head_Some_elem_of, list_elem_of_omap in Hk.
    destruct Hk as (line & _ & Hk). destruct (strip_prefix _ _); cbn [mbind option_bind] in Hk; [|done].
    destruct (head _); cbn [mbind option_bind] in Hk; [|done]. by eapply parse_uint_bound in Hk; unfold u64_max in *; lia. }
  pose proof (Hparse _ _ Ht) as Htot. assert (0 <= avail).
  { destruct (parse_meminfo_value_kb raw "MemAvailable:") as [a|] eqn:E1; cbn [or_else] in Ha.
    - injection Ha as <-. by apply Hparse in E1.
    - destruct (parse_meminfo_value_kb raw "MemFree:"); cbn [mbind option_bind] in Ha; [|done].
      destruct (parse_meminfo_value_kb raw "Buffers:"); cbn [mbind option_bind] in Ha; [|done].
      destruct (parse_meminfo_value_kb raw "Cached:"); cbn [mbind option_bind] in Ha; [|done].
      injection Ha as <-. unfold wrap64. apply Z.mod_pos_bound. lia. }
  unfold sat_sub64. split; [apply Z.div_pos; lia|]. apply Z.div_le_mono; lia.
Qed.

(** ** The load, for files as Linux writes them *)

(** The first line of [/proc/stat], and the other lines. *)
Definition cpu_line (counters : list Z) : str := lit "cpu " ++ concat (map (fun v => 32 :: dec v) counters).
Definition stat_file (counters : list Z) (others : str) : str := cpu_line counters ++ LF :: others.
Definition idle_time (counters : list Z) : Z := default 0 (counters !! 3%nat) + default 0 (counters !! 4%nat).
Definition total_time (counters : list Z) : Z := foldr Z.add 0 counters.
Definition is_counters (counters : list Z) : Prop :=
  (4 <= length counters)%nat /\ Forall (fun v => 0 <= v) counters /\ total_time counters < 2 ^ 57.

Lemma split_counters counters : Forall (fun v => 0 <= v) counters ->
  split_whitespace (concat (map (fun v => 32 :: dec v) counters)) = map dec counters.
Proof.
  assert (Hskip : forall s, split_whitespace (32 :: s) = split_whitespace s) by done.
  induction 1 as [|v counters Hv Hvs IH]; [done|]. cbn [map concat app]. rewrite Hskip.
  destruct Hvs as [|v' counters' Hv' Hvs].
  - cbn [map concat]. rewrite app_nil_r. unfold split_whitespace.
    rewrite split_whitespace_word_acc by by apply digits_no_blank. cbn [rev app].
    pose proof (dec_not_nil v). by destruct (dec v).
  - cbn [map concat app] in IH |- *. rewrite split_whitespace_word by (done || by apply digits_no_blank || apply dec_not_nil).
    by rewrite <- IH, Hskip.
Qed.

Lemma total_bound counters : Forall (fun v => 0 <= v) counters ->
  0 <= total_time counters /\ Forall (fun v => v <= total_time counters) counters.
Proof.
  induction 1 as [|v counters Hv _ [H0 Hall]]; cbn [total_time foldr]; [done|]. fold (total_time counters).
  split; [lia|]. constructor; [lia|]. eapply Forall_impl; [exact Hall|]. cbn. lia.
Qed.

Lemma mapM_parse_counters counters : Forall (fun v => 0 <= v) counters -> total_time counters < 2 ^ 64 ->
  mapM parse_u64 (map dec counters) = Some counters.
Proof.
  intros Hc Ht. apply mapM_Some. pose proof (total_bound counters Hc) as [_ Hb]. revert Ht Hb.
  generalize (total_time counters). induction Hc as [|v counters Hv Hc IH]; intros t Hlt Hb; cbn [map]; constructor.
  - apply Forall_cons in Hb as [Hb _]. apply parse_uint_dec. unfold u64_max. lia.
  - apply Forall_cons in Hb as [_ Hb]. by apply (IH t).
Qed.

Lemma foldl_add l : forall a, foldl Z.add a l = a + total_time l.
Proof. induction l as [|x l IH]; intros a; cbn [foldl total_time foldr]; [lia|]. rewrite IH. unfold total_time. lia. Qed.

Lemma idle_le_total counters : is_counters counters -> 0 <= idle_time counters <= total_time counters.
Proof.
  intros (Hlen & Hc & _). destruct counters as [|a [|b [|c [|d l]]]]; cbn in Hlen; try lia.
  unfold idle_time. cbn [lookup list_lookup total_time foldr].
  repeat (apply Forall_cons in Hc as [? Hc]). destruct l as [|e l]; cbn; [lia|].
  apply Forall_cons in Hc as [? Hc]. pose proof (total_bound l Hc) as [? _]. unfold total_time in *. lia.
Qed.

Lemma read_counters counters others : is_counters counters ->
  read_cpu_sample (Some (stat_file counters others)) = Some (mkCpu (idle_time counters) (total_time counters)).
Proof.
  intros Hco. pose proof (idle_le_total _ Hco) as Hid. destruct Hco as (Hlen & Hc & Ht).
  assert (Hchars : Forall (fun c => c <> LF /\ c <> CR) (cpu_line counters)).
  { unfold cpu_line. apply Forall_app. split; [by_eval|]. clear Hlen Ht Hid.
    induction Hc as [|v counters Hv _ IH]; cbn [map concat]; [constructor|]. cbn [app]. constructor; [done|].
    apply Forall_app. split; [|done]. eapply Forall_impl; [by apply dec_digits|]. unfold LF, CR. cbn. lia. }
  unfold read_cpu_sample, stat_file. cbn [mbind option_bind]. rewrite lines_cons.
  2:{ intros Hin. rewrite Forall_forall in Hchars. by apply Hchars in Hin as [? _]. }
  assert (strip_cr (cpu_line counters) = cpu_line counters) as ->.
  { unfold strip_cr. destruct (rev (cpu_line counters)) as [|c r] eqn:Hr; [by apply (f_equal (@length Z)) in Hr; rewrite length_rev in Hr|].
    destruct (Z.eqb_spec c CR) as [->|]; [|done]. exfalso. rewrite Forall_forall in Hchars.
    destruct (Hchars CR) as [_ H]; [|done]. apply list_elem_of_In, in_rev. rewrite Hr. by left. }
  cbn [List.find]. replace (starts_with (lit "cpu ") (cpu_line counters)) with true by (symmetry; apply starts_with_app).
  cbn [mbind option_bind].
  replace (cpu_line counters) with (lit "cpu" ++ 32 :: concat (map (fun v => 32 :: dec v) counters)) by done.
  rewrite split_whitespace_word by (by_eval || done). cbn [drop].
  rewrite split_counters by done. cbn [drop]. rewrite drop_0, mapM_parse_counters by (done || lia). cbn [mbind option_bind].
  destruct (Nat.ltb_spec (length counters) 4); [lia|].
  destruct (lookup_lt_is_Some_2 counters 3) as [idle Hi]; [lia|]. rewrite Hi. cbn [mbind option_bind].
  rewrite foldl_add. unfold idle_time in *. rewrite Hi in *. cbn [default] in *. unfold wrap64.
  f_equal. f_equal; rewrite Z.mod_small; lia || (cbn in *; lia).
Qed.

(** The idle time grows no faster than the total. *)
Lemma deltas old new : is_counters old -> Forall2 Z.le old new ->
  0 <= idle_time new - idle_time old <= total_time new - total_time old.
Proof.
  intros (Hlen & _) Hle. assert (Hsum : forall a b, Forall2 Z.le a b -> total_time a <= total_time b).
  { unfold total_time. induction 1; cbn [foldr]; lia. }
  destruct Hle as [|a a' l l' Ha [|b b' l1 l1' Hb [|c c' l2 l2' Hc [|d d' l3 l3' Hd Hl]]]]; cbn in Hlen; try lia.
  unfold idle_time. cbn [lookup list_lookup total_time foldr]. destruct Hl as [|e e' l4 l4' He Hl]; cbn; [lia|].
  apply Hsum in Hl. unfold total_time in Hl. lia.
Qed.

(** C27: between two readings of [/proc/stat] whose counters have grown, the
    sampler reports the share of the time the processors were busy, rounded
    down, and it is at most 100. *)
Theorem cpu_load_exact old new others others' last pct kept :
  is_counters old -> is_counters new -> Forall2 Z.le old new -> total_time old < total_time new ->
  read_cpu_sample (Some (stat_file old others)) = last ->
  sample_cpu_load_pct last (Some (stat_file new others')) = (kept, pct) ->
  let busy := (total_time new - total_time old) - (idle_time new - idle_time old) in
  kept = Some (mkCpu (idle_time new) (total_time new)) /\
  exists p, pct = Some p /\ 0 <= p <= 100 /\
    p * (total_time new - total_time old) <= 100 * busy < (p + 1) * (total_time new - total_time old).
Proof.
  intros Ho Hn Hle Hlt <-. rewrite read_counters by done. unfold sample_cpu_load_pct. rewrite read_counters by done.
  cbn [mbind option_bind cpu_idle cpu_total]. pose proof (deltas old new Ho Hle) as Hd.
  destruct Ho as (_ & Hco & Hto). destruct Hn as (_ & Hcn & Htn).
  pose proof (total_bound old Hco) as [H0 _]. unfold sat_sub64, sat_mul64, u64_max. rewrite !Z.max_l by lia.
  destruct (Z.eqb_spec (total_time new - total_time old) 0) as [|Hnz]; [lia|]. intros [= <- <-]. cbn zeta.
  split; [done|]. eexists. split; [done|]. rewrite (Z.min_l (_ * 100)) by lia.
  set (t := total_time new - total_time old) in *. set (b := t - (idle_time new - idle_time old)).
  pose proof (Z.div_mod (b * 100) t ltac:(lia)). pose proof (Z.mod_pos_bound (b * 100) t ltac:(lia)).
  assert (0 <= b * 100 / t) by (apply Z.div_pos; lia). assert (b * 100 / t <= 100) by (apply Z.div_le_upper_bound; lia).
  rewrite Z.min_l by lia. nia.
Qed.

(** ** Witness *)
Module TelemetryWitness.
Definition before : list Z := [100; 0; 50; 800; 50].
Definition after : list Z := [160; 0; 70; 880; 90].
Lemma cpu_load_exact_witness : exists p, 0 <= p <= 100 /\ p * 200 <= 100 * 80 < (p + 1) * 200.
Proof.
  destruct (cpu_load_exact before after (lit "intr 7") [] (Some (mkCpu 850 1000)) (Some 40) (Some (mkCpu 970 1200)))
    as (_ & p & _ & Hp & Hb); [| | | | | |by exists p].
  - split; [vm_compute; lia|]. split; [by_eval|vm_compute; done].
  - split; [vm_compute; lia|]. split; [by_eval|vm_compute; done].
  - by_eval.
  - vm_compute. done.
  - vm_compute. reflexivity.
  - vm_compute. reflexivity.
Defined.
End TelemetryWitness.
