(* ===== verification/Jobs.v ===== *)
(** * Jobs of the server ([server/server_client.rs])

    With every heartbeat the agent asks the server for a job: restart the
    process, stop it, or install a firmware.  The HTTP client, the file system,
    the clock, the firmware updater and JSON text are classes over the world
    [W]; logging is left out. *)
From S2P Require Import Prelude Str Config Clip Pipeline LiveV2 Telemetry.

(** ** What the code uses of its libraries *)
Record http_response := mkHttp { status : Z; body : option bytes }.
Class HttpClient (W E : Type) := {
  http_get : str -> str -> W -> W * (E + http_response);           (* url, bearer token *)
  http_post : str -> str -> Value -> W -> W * (E + http_response);
}.
Class MarkerFs (W H E : Type) := {
  fs_create_dir_all : str -> W -> W * (E + unit);
  fs_sync_all : H -> W -> W * (E + unit);
  fs_read_to_string : str -> W -> W * (E + str);
  fs_exists : str -> W -> W * bool;
  is_not_found : E -> bool;
}.
(** The clock, the runtime variables and the environment. *)
Class Process (W : Type) := {
  now_rfc3339 : W -> W * str;
  timestamp_nanos : W -> W * Z;
  process_id : Z;
  runtime_vars : W -> vars;
  env_var : str -> option str;
}.
(** The updater: it does not end in 120 seconds, does not start, or exits. *)
Inductive update_result :=
| UpdaterTimeout
| UpdaterNotStarted (e : str)
| UpdaterExited (success : bool) (status_debug : str) (stderr stdout : bytes).
Class Updater (W : Type) := run_updater : str -> list str -> W -> W * update_result.

Inductive client_error (E : Type) :=
| IoFailed (e : E)
| HttpError (e : E)
| BadStatus (s : Z)
| AgentAuthFailed (s : Z)
| BadJson
| NoHeartbeatEndpoint
| NoReportEndpoint.
Arguments IoFailed {E}.
Arguments HttpError {E}.
Arguments BadStatus {E}.
Arguments AgentAuthFailed {E}.
Arguments BadJson {E}.
Arguments NoHeartbeatEndpoint {E}.
Arguments NoReportEndpoint {E}.

(** ** Commands and memories *)
Record FirmwareJobCommand := mkFirmwareJob {
  fj_job_id : Z; fj_action : str; fj_target_version : option str; fj_status : str; start_after_update : bool }.
Record FirmwareJobResponse := mkFirmwareResponse { fr_job : option FirmwareJobCommand }.
Record RestartJobCommand := mkRestartJob { rj_job_id : Z; rj_action : str; rj_status : str }.
Record RestartJobResponse := mkRestartResponse { rr_job : option RestartJobCommand }.
Record ShutdownJobCommand := mkShutdownJob { sj_job_id : Z; sj_action : str; sj_status : str }.
Record ShutdownJobResponse := mkShutdownResponse { sr_job : option ShutdownJobCommand }.
Record OnvifProbeJobCommand := mkProbeJob { pj_job_id : Z; pj_action : str; pj_camera_id : str }.
Record OnvifProbeJobResponse := mkProbeResponse { pr_job : option OnvifProbeJobCommand }.
Record RestartJobMarker := mkMarker { mk_job_id : Z; mk_started_at : str }.

(** [FirmwareJobMemory]: the last terminal state; the two others: the jobs
    handled by this process. *)
Abbreviation FirmwareJobMemory := (option FirmwareHeartbeatState).
Abbreviation RestartJobMemory := (gset Z).
Abbreviation ShutdownJobMemory := (gset Z).
Definition is_handled (job_id : Z) (memory : gset Z) : bool := bool_decide (job_id ∈ memory).
Definition mark_handled (job_id : Z) (memory : gset Z) : gset Z := {[job_id]} ∪ memory.

Inductive RestartProcessOutcome := RestartContinue | ExitNonZero.
Inductive ShutdownProcessOutcome := ShutdownContinue | ExitZero.
Inductive RestartMarkerReportOutcome := MarkerMissing | MarkerPending | MarkerReported (s : RestartHeartbeatState).
Definition RESTART_EXIT_CODE : Z := 75.

Definition FIRMWARE_VERSION_PATH : str := lit "/etc/sentinel_rtp_cam/firmware-version".
Definition FIRMWARE_BACKUP_BINARY_PATH : str := lit "/usr/local/bin/sentinel-agent.prev".
Definition LEGACY_FIRMWARE_BACKUP_BINARY_PATH_ALT : str := lit "/usr/local/bin/agent_forward.prev".
Definition LEGACY_FIRMWARE_BACKUP_BINARY_PATH : str := lit "/usr/local/bin/sentinel_rtp_cam.prev".
Definition DEFAULT_FIRMWARE_UPDATER_CMD : str := lit "/usr/local/bin/sentinel-firmware-update".
(** [RESTART_JOB_MARKER_PATH], and its parent and file name. *)
Definition marker_dir : str := lit "/var/lib/sentinel_rtp_cam".
Definition marker_name : str := lit "restart-job.json".
Definition marker_path : str := marker_dir ++ lit "/" ++ marker_name.
Definition tmp_marker_path (pid nanos : Z) : str :=
  let print n := if n <? 0 then 45 :: dec (- n) else dec n in
  marker_dir ++ lit "/." ++ marker_name ++ lit ".tmp." ++ dec pid ++ lit "-" ++ print nanos.

(** [Value::as_i64] *)
Definition as_i64 (v : Value) : option Z :=
  match v with Number n => if (- 2 ^ 63 <=? n) && (n <? 2 ^ 63) then Some n else None | _ => None end.
Definition is_auth_failure_status (s : Z) : bool := (s =? 401) || (s =? 403).
(** [error_for_status] *)
Definition error_status (s : Z) : bool := (400 <=? s) && (s <? 600).

(** ** Endpoints *)
Inductive FallbackOutcome (T : Type) := NotFound | Success (value : T).
Arguments NotFound {T}.
Arguments Success {T}.

Section endpoints.
Context {W E : Type} `{HttpClient W E}.
Abbreviation M := (Prelude.st W (client_error E)).
Definition http (m : W -> W * (E + http_response)) : M http_response := fun w =>
  match m w with (w, inr r) => (w, Ok r) | (w, inl e) => (w, Err (HttpError e)) end.

Fixpoint try_fallback_paths {T} (paths : list str) (attempt : str -> M (FallbackOutcome T)) : M (option T) :=
  match paths with
  | [] => mret None
  | path :: paths =>
      r ← attempt path;
      match r with
      | NotFound => try_fallback_paths paths attempt
      | Success value => mret (Some value)
      end
  end.

Definition get_payload {A} `{FromJson A} (config : ServerConfig) (path : str) : M (FallbackOutcome A) :=
  r ← http (http_get (base_url_prefix config ++ path) (bearer_token config));
  if status r =? 404 then mret NotFound
  else
    st_bail_if (error_status (status r)) (BadStatus (status r)) ;;
    payload ← lift_outcome (ok_or (body r ≫= from_json) BadJson);
    mret (Success payload).

Definition fetch_restart_job_command `{FromJson RestartJobResponse} (config : ServerConfig) : M (option RestartJobCommand) :=
  payload ← try_fallback_paths [lit "/api/v1/agent/restart/job"; lit "/api/agent/restart/job"] (get_payload config);
  mret (payload ≫= rr_job).
Definition fetch_shutdown_job_command `{FromJson ShutdownJobResponse} (config : ServerConfig) : M (option ShutdownJobCommand) :=
  payload ← try_fallback_paths [lit "/api/v1/agent/shutdown/job"; lit "/api/agent/shutdown/job"] (get_payload config);
  mret (payload ≫= sr_job).
Definition fetch_onvif_probe_job_command `{FromJson OnvifProbeJobResponse} (config : ServerConfig) : M (option OnvifProbeJobCommand) :=
  payload ← try_fallback_paths [lit "/api/agent/onvif/job"; lit "/api/v1/agent/onvif/job"] (get_payload config);
  mret (payload ≫= pr_job).
(** Its own loop over the paths. *)
Fixpoint fetch_firmware_from `{FromJson FirmwareJobResponse} (config : ServerConfig) (paths : list str)
    : M (option FirmwareJobCommand) :=
  match paths with
  | [] => mret None
  | path :: paths =>
      r ← http (http_get (base_url_prefix config ++ path) (bearer_token config));
      if status r =? 404 then fetch_firmware_from config paths
      else
        st_bail_if (error_status (status r)) (BadStatus (status r)) ;;
        payload ← lift_outcome (ok_or (body r ≫= from_json) BadJson);
        mret (fr_job payload)
  end.
Definition fetch_firmware_job_command `{FromJson FirmwareJobResponse} (config : ServerConfig) : M (option FirmwareJobCommand) :=
  fetch_firmware_from config [lit "/api/agent/firmware/job"; lit "/api/v1/agent/firmware/job"].

Definition heartbeat_attempt (config : ServerConfig) (payload : Value) (path : str) : M (FallbackOutcome unit) :=
  r ← http (http_post (base_url_prefix config ++ path) (bearer_token config) payload);
  st_bail_if (is_auth_failure_status (status r)) (AgentAuthFailed (status r)) ;;
  if status r =? 404 then mret NotFound
  else st_bail_if (error_status (status r)) (BadStatus (status r)) ;; mret (Success tt).
Definition post_heartbeat (config : ServerConfig) (payload : Value) : M unit :=
  posted ← try_fallback_paths [lit "/api/v1/heartbeat"; lit "/api/heartbeat"] (heartbeat_attempt config payload);
  lift_outcome (ok_or posted NoHeartbeatEndpoint).

Definition report_attempt (config : ServerConfig) (payload : Value) (path : str) : M (FallbackOutcome unit) :=
  r ← http (http_post (base_url_prefix config ++ path) (bearer_token config) payload);
  if status r =? 404 then mret NotFound
  else st_bail_if (error_status (status r)) (BadStatus (status r)) ;; mret (Success tt).
Definition post_onvif_probe_report (config : ServerConfig) (payload : Value) : M unit :=
  posted ← try_fallback_paths [lit "/api/agent/onvif/report"; lit "/api/v1/agent/onvif/report"] (report_attempt config payload);
  lift_outcome (ok_or posted NoReportEndpoint).

(** ** Retries without end

    Durations in nanoseconds; the product panics above [Duration::MAX].  The
    waits, and the result; [None] when the fuel is used up. *)
Definition MAX_DURATION : Z := u64_max * 1000000000 + 999999999.
Fixpoint retry_forever_from {T Er} (fuel : nat) (operation : Prelude.st W Er T) (retry_interval attempt : Z) (w : W)
    : W * list Z * option (outcome Er T) :=
  match fuel with
  | O => (w, [], None)
  | S fuel =>
      let attempt := wrap32 (attempt + 1) in
      match operation w with
      | (w, Ok result) => (w, [], Some (Ok result))
      | (w, Panic) => (w, [], Some Panic)
      | (w, Err _) =>
          let backoff := retry_interval * Z.min attempt 10 in
          if MAX_DURATION <? backoff then (w, [], Some Panic)
          else
            let '(w, waits, r) := retry_forever_from fuel operation retry_interval attempt w in
            (w, backoff :: waits, r)
      end
  end.
Definition retry_forever {T Er} (fuel : nat) (operation : Prelude.st W Er T) (retry_interval : Z) (w : W)
    : W * list Z * option (outcome Er T) := retry_forever_from fuel operation retry_interval 0 w.
End endpoints.

(** ** The restart marker *)
Definition restarting_state (job_id : Z) (started_at : str) : RestartHeartbeatState :=
  mkRestart (Some job_id) (Some (lit "restarting")) None (Some started_at) None.
Definition terminal_restart_state (job_id : Z) (status : String.string) (error started_at : option str)
    (finished_at : str) : RestartHeartbeatState :=
  mkRestart (Some job_id) (Some (lit status)) error started_at (Some finished_at).

Section marker.
Context {W Hd E : Type} `{Fs W Hd E} `{!MarkerFs W Hd E} `{Process W}.
Context `{ToJson RestartJobMarker} `{FromJson RestartJobMarker} `{JsonText}.
(** The text of serde_json's error for a marker that does not parse. *)
Variable marker_error : str -> str.
Abbreviation M := (Prelude.st W (client_error E)).
Definition io {A} (m : W -> W * (E + A)) : M A := fun w =>
  match m w with (w, inr a) => (w, Ok a) | (w, inl e) => (w, Err (IoFailed e)) end.
Definition nanos_now : M Z := fun w => let '(w, n) := timestamp_nanos w in (w, Ok n).

(** The text goes to a temporary file, which then takes the marker's place;
    the file is closed when the function returns. *)
Definition store_marker (file : Hd) (tmp_path : str) (marker : RestartJobMarker) : M unit := fun w =>
  let '(w, r) :=
    (io (fs_write file (to_json marker)) ;;
     io (fs_write file [LF]) ;;
     io (fs_sync_all file) ;;
     io (fs_rename tmp_path marker_path)) w in
  (fs_drop file w, r).
Definition write_restart_job_marker (marker : RestartJobMarker) : M unit :=
  io (fs_create_dir_all marker_dir) ;;
  nanos ← nanos_now;
  file ← io (fs_create (tmp_marker_path process_id nanos));
  store_marker file (tmp_marker_path process_id nanos) marker.

Definition remove_restart_job_marker : M unit := fun w =>
  match fs_remove marker_path w with
  | (w, inr _) => (w, Ok tt)
  | (w, inl e) => if is_not_found e then (w, Ok tt) else (w, Err (IoFailed e))
  end.

Definition restart_marker_state_from_raw (raw finished_at : str) : option RestartHeartbeatState :=
  match (from_json (as_bytes raw) : option RestartJobMarker) with
  | Some marker =>
      Some (terminal_restart_state (mk_job_id marker) "succeeded" None (Some (mk_started_at marker)) finished_at)
  | None =>
      value ← from_str raw;
      job_id ← get "job_id" value ?> as_i64;
      let started_at := get "started_at" value ?> as_str in
      Some (terminal_restart_state job_id "failed"
        (Some (lit "Failed to parse restart marker: " ++ marker_error raw)) started_at finished_at)
  end.

Definition maybe_report_restart_completion_marker (report : RestartHeartbeatState -> M unit) (w : W)
    : W * RestartMarkerReportOutcome :=
  match fs_read_to_string marker_path w with
  | (w, inl e) => (w, if is_not_found e then MarkerMissing else MarkerPending)
  | (w, inr raw) =>
      let '(w, finished_at) := now_rfc3339 w in
      match restart_marker_state_from_raw raw finished_at with
      | None => let '(w, _) := remove_restart_job_marker w in (w, MarkerMissing)
      | Some state =>
          match report state w with
          | (w, Ok _) => let '(w, _) := remove_restart_job_marker w in (w, MarkerReported state)
          | (w, _) => (w, MarkerPending)
          end
      end
  end.

(** ** Restart jobs *)
Section restart.
Variable error_text : client_error E -> str.

(** A failure is reported; the job is handled when the server took it. *)
Definition report_failed (report : RestartHeartbeatState -> M unit) (job_id : Z) (failed : RestartHeartbeatState)
    (memory : RestartJobMemory) (w : W) : W * RestartJobMemory * RestartProcessOutcome :=
  match report failed w with
  | (w, Ok _) => (w, mark_handled job_id memory, RestartContinue)
  | (w, _) => (w, memory, RestartContinue)
  end.

Definition process_restart_job_command (job : RestartJobCommand) (report : RestartHeartbeatState -> M unit)
    (memory : RestartJobMemory) (w : W) : W * RestartJobMemory * RestartProcessOutcome :=
  let id := rj_job_id job in
  if is_handled id memory then (w, memory, RestartContinue)
  else if negb (bool_decide (rj_status job = lit "pending")) then (w, memory, RestartContinue)
  else
    let '(w, started_at) := now_rfc3339 w in
    if negb (bool_decide (rj_action job = lit "restart")) then
      report_failed report id
        (terminal_restart_state id "failed" (Some (lit "Unsupported restart job action: " ++ rj_action job))
           (Some started_at) started_at) memory w
    else
      match report (restarting_state id started_at) w with
      | (w, Ok _) =>
          match write_restart_job_marker (mkMarker id started_at) w with
          | (w, Ok _) => (w, mark_handled id memory, ExitNonZero)
          | (w, Err error) =>
              let '(w, failed_at) := now_rfc3339 w in
              report_failed report id
                (terminal_restart_state id "failed"
                   (Some (lit "Failed to persist restart marker: " ++ error_text error)) (Some started_at) failed_at)
                memory w
          | (w, Panic) => (w, memory, RestartContinue)
          end
      | (w, _) => (w, memory, RestartContinue)
      end.

Context `{!HttpClient W E} `{FromJson RestartJobResponse} `{FromJson ShutdownJobResponse}.
Definition maybe_process_restart_job (config : ServerConfig) (report : RestartHeartbeatState -> M unit)
    (memory : RestartJobMemory) (w : W) : W * RestartJobMemory * RestartProcessOutcome :=
  match fetch_restart_job_command config w with
  | (w, Ok (Some job)) => process_restart_job_command job report memory w
  | (w, _) => (w, memory, RestartContinue)
  end.

(** ** Shutdown jobs *)
Definition maybe_process_shutdown_job (config : ServerConfig) (memory : ShutdownJobMemory) (w : W)
    : W * ShutdownJobMemory * ShutdownProcessOutcome :=
  match fetch_shutdown_job_command config w with
  | (w, Ok (Some job)) =>
      let id := sj_job_id job in
      if is_handled id memory || negb (bool_decide (sj_status job = lit "pending")) then (w, memory, ShutdownContinue)
      else if negb (bool_decide (sj_action job = lit "shutdown")) then (w, mark_handled id memory, ShutdownContinue)
      else (w, mark_handled id memory, ExitZero)
  | (w, _) => (w, memory, ShutdownContinue)
  end.
End restart.
End marker.

(** ** Firmware jobs *)
Definition pending_firmware_status (job : FirmwareJobCommand) : str :=
  if bool_decide (fj_action job = lit "rollback") then lit "rollback_pending" else lit "pending".
Definition running_firmware_status (job : FirmwareJobCommand) : str :=
  if bool_decide (fj_action job = lit "rollback") then lit "rollback_running" else lit "installing".
Definition succeeded_firmware_status (job : FirmwareJobCommand) : str :=
  if bool_decide (fj_action job = lit "rollback") then lit "rollback_succeeded" else lit "succeeded".
Definition failed_firmware_status (job : FirmwareJobCommand) : str :=
  if bool_decide (fj_action job = lit "rollback") then lit "rollback_failed" else lit "failed".

Definition duplicate_terminal_state (memory : FirmwareJobMemory) (job_id : Z) (current : option str) (rollback : bool)
    : option FirmwareHeartbeatState :=
  s ← memory;
  if bool_decide (fw_job_id s <> Some job_id) || negb (is_terminal s) then None
  else Some (mkFirmware (fw_job_id s) (or_else current (current_version s)) (target_version s) (fw_status s)
               (fw_error s) (Some rollback) (fw_started_at s) (fw_finished_at s)).
Definition remember_terminal_state (s : FirmwareHeartbeatState) (memory : FirmwareJobMemory) : FirmwareJobMemory :=
  if is_terminal s then Some s else memory.

Definition pick_firmware_updater_cmd (runtime_override env_override : option str) : str :=
  default DEFAULT_FIRMWARE_UPDATER_CMD (or_else (non_blank runtime_override) (non_blank env_override)).
Definition set_status (status : str) (s : FirmwareHeartbeatState) : FirmwareHeartbeatState :=
  mkFirmware (fw_job_id s) (current_version s) (target_version s) (Some status) (fw_error s) (can_rollback s)
    (fw_started_at s) (fw_finished_at s).

(** The arguments of the updater. *)
Definition updater_args (job : FirmwareJobCommand) : str + list str :=
  let start := if start_after_update job then [lit "--start"] else [] in
  if bool_decide (fj_action job = lit "update") then
    match fj_target_version job with
    | None => inl (lit "Missing target version for update job")
    | Some target => inr (target :: start)
    end
  else if bool_decide (fj_action job = lit "rollback") then inr (lit "--rollback" :: start)
  else inl (lit "Unsupported firmware job action: " ++ fj_action job).
(** What the end of the updater says. *)
Definition updater_outcome (cmd : str) (r : update_result) : str + unit :=
  match r with
  | UpdaterTimeout => inl (lit "Firmware updater timed out after 120 seconds")
  | UpdaterNotStarted e => inl (lit "Failed to execute firmware updater " ++ cmd ++ lit ": " ++ e)
  | UpdaterExited true _ _ _ => inr tt
  | UpdaterExited false status stderr stdout =>
      let stderr := trim (from_utf8_lossy stderr) in
      let stdout := trim (from_utf8_lossy stdout) in
      let detail :=
        if negb (bool_decide (stderr = [])) then stderr
        else if negb (bool_decide (stdout = [])) then stdout
        else lit "no output" in
      inl (lit "Firmware updater failed (" ++ status ++ lit "): " ++ detail)
  end.

Section firmware.
Context {W Hd E : Type} `{!MarkerFs W Hd E} `{Process W} `{Updater W}.
Abbreviation M := (Prelude.st W (client_error E)).

Definition read_installed_firmware_version (w : W) : W * option str :=
  let '(w, file) := fs_read_to_string FIRMWARE_VERSION_PATH w in
  let file := match file with inr raw => Some raw | inl _ => None end in
  (w, pick_installed_firmware_version (read_installed_firmware_version_from file)
        (runtime_var (lit "SENTINEL_VERSION") (runtime_vars w)) (env_var (lit "SENTINEL_VERSION"))).
Fixpoint any_exists (paths : list str) (w : W) : W * bool :=
  match paths with
  | [] => (w, false)
  | path :: paths => let '(w, there) := fs_exists path w in if there : bool then (w, true) else any_exists paths w
  end.
Definition backup_binary_exists (primary_path : str) (legacy_paths : list str) (w : W) : W * bool :=
  any_exists (primary_path :: legacy_paths) w.
Definition baseline_firmware_state (w : W) : W * FirmwareHeartbeatState :=
  let '(w, version) := read_installed_firmware_version w in
  let '(w, rollback) := backup_binary_exists FIRMWARE_BACKUP_BINARY_PATH
    [LEGACY_FIRMWARE_BACKUP_BINARY_PATH_ALT; LEGACY_FIRMWARE_BACKUP_BINARY_PATH] w in
  (w, build_idle_firmware_state version rollback).
Definition firmware_updater_cmd (w : W) : str :=
  pick_firmware_updater_cmd (runtime_var (lit "FIRMWARE_UPDATER_CMD") (runtime_vars w))
    (env_var (lit "FIRMWARE_UPDATER_CMD")).

Definition execute_firmware_job (job : FirmwareJobCommand) (w : W) : W * (str + unit) :=
  let updater_cmd := firmware_updater_cmd w in
  let '(w, there) := if bool_decide (47 ∈ updater_cmd) then fs_exists updater_cmd w else (w, true) in
  if negb there then
    (w, inl (lit "Firmware updater not found at " ++ updater_cmd ++
             lit "; set FIRMWARE_UPDATER_CMD to the installed updater path"))
  else
    match updater_args job with
    | inl e => (w, inl e)
    | inr args => let '(w, r) := run_updater updater_cmd args w in (w, updater_outcome updater_cmd r)
    end.

(** A job that is neither a duplicate nor installed already. *)
Definition run_firmware_job (job : FirmwareJobCommand) (report : FirmwareHeartbeatState -> W -> W)
    (s : FirmwareHeartbeatState) (memory : FirmwareJobMemory) (w : W)
    : W * FirmwareHeartbeatState * FirmwareJobMemory :=
  let update := bool_decide (fj_action job = lit "update") in
  let '(w, started_at) := now_rfc3339 w in
  let s := mkFirmware (Some (fj_job_id job)) (current_version s) (fj_target_version job)
             (Some (pending_firmware_status job)) None (can_rollback s) (Some started_at) None in
  let w := report s w in
  let s := if update then set_status (lit "downloading") s else s in
  let w := if update then report s w else w in
  let s := set_status (running_firmware_status job) s in
  let w := report s w in
  match execute_firmware_job job w with
  | (w, inr _) =>
      let s := if update && start_after_update job then set_status (lit "restarting") s else s in
      let w := if update && start_after_update job then report s w else w in
      let '(w, finished_at) := now_rfc3339 w in
      let '(w, installed) := read_installed_firmware_version w in
      let current := match installed with None => if update then fj_target_version job else None | o => o end in
      let s := mkFirmware (fw_job_id s) current (target_version s)
                 (Some (succeeded_firmware_status job)) None (Some update)
                 (fw_started_at s) (Some finished_at) in
      let memory := remember_terminal_state s memory in
      (report s w, s, memory)
  | (w, inl e) =>
      let '(w, finished_at) := now_rfc3339 w in
      let '(w, installed) := read_installed_firmware_version w in
      let s := mkFirmware (fw_job_id s) installed (target_version s)
                 (Some (failed_firmware_status job)) (Some e) (can_rollback s)
                 (fw_started_at s) (Some finished_at) in
      let memory := remember_terminal_state s memory in
      (report s w, s, memory)
  end.

Context `{HttpClient W E} `{FromJson FirmwareJobResponse}.
Definition process_firmware_job (job : FirmwareJobCommand) (report : FirmwareHeartbeatState -> W -> W)
    (s : FirmwareHeartbeatState) (memory : FirmwareJobMemory) (w : W)
    : W * FirmwareHeartbeatState * FirmwareJobMemory :=
  let '(w, installed) := read_installed_firmware_version w in
  let '(w, rollback) := fs_exists FIRMWARE_BACKUP_BINARY_PATH w in
  match duplicate_terminal_state memory (fj_job_id job) installed rollback with
  | Some terminal => (report terminal w, terminal, memory)
  | None =>
      if bool_decide (fj_action job = lit "update") && firmware_versions_match installed (fj_target_version job) then
        let '(w, now) := now_rfc3339 w in
        let s := mkFirmware (Some (fj_job_id job)) (or_else installed (fj_target_version job)) (fj_target_version job)
                   (Some (lit "succeeded")) None (Some rollback) (Some now) (Some now) in
        let memory := remember_terminal_state s memory in
        (report s w, s, memory)
      else run_firmware_job job report s memory w
  end.
Definition maybe_process_firmware_job (config : ServerConfig) (report : FirmwareHeartbeatState -> W -> W)
    (s : FirmwareHeartbeatState) (memory : FirmwareJobMemory) (w : W)
    : W * FirmwareHeartbeatState * FirmwareJobMemory :=
  match fetch_firmware_job_command config w with
  | (w, Ok (Some job)) => process_firmware_job job report s memory w
  | (w, _) => (w, s, memory)
  end.
End firmware.
