(* ===== verification/JobsFacts.v ===== *)
(** * Facts about the server's jobs

    The marker of a restart is replaced in one piece; the process exits only
    for a job the server has been told about and the marker names; a firmware
    job runs the updater at most once; a retried operation returns. *)
From S2P Require Import Prelude Str Config Clip Pipeline LiveV2 Telemetry Jobs.

(** ** Laws of the file system and of the clock, as documented *)
Class MarkerLaws (W Hd E : Type) `{FsLaws W Hd E} `{!MarkerFs W Hd E} `{!Process W} := {
  mkdir_keeps p w w' r : fs_create_dir_all p w = (w', r) -> forall q, contents w' q = contents w q;
  create_keeps p w w' r : fs_create p w = (w', r) -> forall q, q <> p -> contents w' q = contents w q;
  write_keeps h b w w' r : fs_write h b w = (w', r) -> forall q, q <> target h -> contents w' q = contents w q;
  sync_ok h w w' : fs_sync_all h w = (w', inr tt) ->
    accepted w' h = accepted w h /\ contents w' (target h) = Some (accepted w h);
  sync_keeps h w w' r : fs_sync_all h w = (w', r) -> forall q, q <> target h -> contents w' q = contents w q;
  rename_err p q w w' e : fs_rename p q w = (w', inl e) -> forall p', contents w' p' = contents w p';
  remove_gone p w w' : fs_remove p w = (w', inr tt) -> contents w' p = None;
  read_ok p w w' s : fs_read_to_string p w = (w', inr s) -> contents w p = Some (as_bytes s);
  read_missing p w w' e : fs_read_to_string p w = (w', inl e) -> is_not_found e = true -> contents w p = None;
  read_keeps p w w' r : fs_read_to_string p w = (w', r) -> forall q, contents w' q = contents w q;
  exists_keeps p w w' r : fs_exists p w = (w', r) -> forall q, contents w' q = contents w q;
  now_keeps w w' t : now_rfc3339 w = (w', t) -> forall q, contents w' q = contents w q;
  nanos_keeps w w' n : timestamp_nanos w = (w', n) -> forall q, contents w' q = contents w q;
}.

Lemma tmp_is_not_marker pid nanos : tmp_marker_path pid nanos <> marker_path.
Proof.
  unfold tmp_marker_path, marker_path. intros Heq. apply (f_equal (drop (length marker_dir))) in Heq.
  rewrite !drop_app_length in Heq. discriminate Heq.
Qed.

(** ** The marker *)
Section marker.
Context {W Hd E : Type} `{MarkerLaws W Hd E}.
Context `{ToJson RestartJobMarker} `{FromJson RestartJobMarker} `{JsonText}.
Definition marker_text (m : RestartJobMarker) : bytes := to_json m ++ [LF].

Lemma store_spec file tmp m w w' r : target file = tmp -> tmp <> marker_path -> accepted w file = [] ->
  store_marker (E:=E) file tmp m w = (w', r) ->
  match r with
  | Ok _ => contents w' marker_path = Some (marker_text m)
  | Err _ => contents w' marker_path = contents w marker_path
  | Panic => False
  end.
Proof.
  intros Ht Hne Hacc. unfold store_marker. unfold mbind, st_bind, io.
  assert (Hother : marker_path <> target file) by congruence.
  destruct (fs_write file (to_json m) w) as [w1 [e1|[]]] eqn:Hop1.
  { intros [= <- <-]. rewrite drop_keeps. by apply (write_keeps _ _ _ _ _ Hop1). }
  destruct (fs_write file [LF] w1) as [w2 [e2|[]]] eqn:Hop2.
  { intros [= <- <-]. by rewrite drop_keeps, (write_keeps _ _ _ _ _ Hop2), (write_keeps _ _ _ _ _ Hop1). }
  destruct (fs_sync_all file w2) as [w3 [e3|[]]] eqn:Hop3.
  { intros [= <- <-]. by rewrite drop_keeps, (sync_keeps _ _ _ _ Hop3), (write_keeps _ _ _ _ _ Hop2), (write_keeps _ _ _ _ _ Hop1). }
  destruct (fs_rename tmp marker_path w3) as [w4 [e4|[]]] eqn:Hop4.
  { intros [= <- <-]. by rewrite drop_keeps, (rename_err _ _ _ _ _ Hop4), (sync_keeps _ _ _ _ Hop3),
      (write_keeps _ _ _ _ _ Hop2), (write_keeps _ _ _ _ _ Hop1). }
  intros [= <- <-]. rewrite drop_keeps, (rename_ok _ _ _ _ Hop4), <- Ht. destruct (sync_ok _ _ _ Hop3) as [_ ->].
  by rewrite (write_ok _ _ _ _ Hop2), (write_ok _ _ _ _ Hop1), Hacc.
Qed.

(** The marker's file holds the new marker when it was written, and what it
    held before when anything failed: never a part of it. *)
Lemma write_marker_atomic m w w' r : write_restart_job_marker (E:=E) m w = (w', r) ->
  match r with
  | Ok _ => contents w' marker_path = Some (marker_text m)
  | Err _ => contents w' marker_path = contents w marker_path
  | Panic => False
  end.
Proof.
  unfold write_restart_job_marker, nanos_now. unfold mbind, st_bind, io.
  destruct (fs_create_dir_all marker_dir w) as [w1 [e1|[]]] eqn:Hop1.
  { intros [= <- <-]. by apply (mkdir_keeps _ _ _ _ Hop1). }
  destruct (timestamp_nanos w1) as [w2 n] eqn:Hn. destruct (fs_create _ w2) as [w3 [e3|file]] eqn:Hop3.
  { intros [= <- <-]. rewrite (create_keeps _ _ _ _ Hop3) by (intros Heq; by apply (tmp_is_not_marker process_id n)).
    by rewrite (nanos_keeps _ _ _ Hn), (mkdir_keeps _ _ _ _ Hop1). }
  destruct (create_ok _ _ _ _ Hop3) as [Hacc Ht]. intros Hs. apply store_spec in Hs; [|done|apply tmp_is_not_marker|done].
  destruct r; [done| |done]. rewrite Hs, (create_keeps _ _ _ _ Hop3) by (intros Heq; by apply (tmp_is_not_marker process_id n)).
  by rewrite (nanos_keeps _ _ _ Hn), (mkdir_keeps _ _ _ _ Hop1).
Qed.

(** A report leaves the marker's file alone. *)
Definition keeps_marker {A} (m : A -> Prelude.st W (client_error E) unit) : Prop :=
  forall a w w' r, m a w = (w', r) -> contents w' marker_path = contents w marker_path.

Variable error_text : client_error E -> str.
Variable report : RestartHeartbeatState -> Prelude.st W (client_error E) unit.
Hypothesis report_keeps : keeps_marker report.

(** Every outcome of a restart command. *)
Lemma restart_outcomes job memory w w' memory' outcome :
  process_restart_job_command error_text job report memory w = (w', memory', outcome) ->
  let id := rj_job_id job in
  match outcome with
  | ExitNonZero =>
      (id ∉ memory) /\ rj_status job = lit "pending" /\ rj_action job = lit "restart" /\
      memory' = mark_handled id memory /\
      exists w1 w2 started_at, now_rfc3339 w = (w1, started_at) /\
        report (restarting_state id started_at) w1 = (w2, Ok tt) /\
        contents w' marker_path = Some (marker_text (mkMarker id started_at))
  | RestartContinue =>
      contents w' marker_path = contents w marker_path /\ memory ⊆ memory'
  end.
Proof.
  unfold process_restart_job_command, is_handled. cbn zeta. case_bool_decide as Hm; [by intros [= <- <- <-]|].
  case_bool_decide as Hst; cbn [negb]; [|by intros [= <- <- <-]].
  destruct (now_rfc3339 w) as [w1 t] eqn:Hnow. pose proof (now_keeps _ _ _ Hnow marker_path) as Hk1.
  assert (Hfail : forall failed w2 memory' w' o, report_failed report (rj_job_id job) failed memory w2 = (w', memory', o) ->
    o = RestartContinue /\ contents w' marker_path = contents w2 marker_path /\ memory ⊆ memory').
  { intros failed w2 m2 w3 o. unfold report_failed, mark_handled.
    destruct (report failed w2) as [w4 [?|?|]] eqn:Hr; intros [= <- <- <-]; (split; [done|]);
      (split; [by apply report_keeps in Hr|set_solver]). }
  case_bool_decide as Hact; cbn [negb].
  2:{ intros Hf. apply Hfail in Hf as (-> & -> & Hsub). by rewrite Hk1. }
  destruct (report _ w1) as [w2 [[]|e|]] eqn:Hr; pose proof (report_keeps _ _ _ _ Hr) as Hk2.
  - destruct (write_restart_job_marker _ w2) as [w3 [[]|e|]] eqn:Hw; apply write_marker_atomic in Hw; [| |done].
    + intros [= <- <- <-]. repeat split; try done. by exists w1, w2, t.
    + destruct (now_rfc3339 w3) as [w4 t4] eqn:Hnow4. pose proof (now_keeps _ _ _ Hnow4 marker_path) as Hk4.
      intros Hf. apply Hfail in Hf as (-> & Hc & Hsub). split; [congruence|done].
  - intros [= <- <- <-]. split; [congruence|done].
  - intros [= <- <- <-]. split; [congruence|done].
Qed.

(** The process exits for a restart only for a pending restart job it has not
    handled, that the server was told is restarting, and that the marker on
    the disk names; in every other case the marker is as it was and no handled
    job is forgotten. *)
Theorem restart_accepted job memory w w' memory' outcome :
  process_restart_job_command error_text job report memory w = (w', memory', outcome) ->
  let id := rj_job_id job in
  match outcome with
  | ExitNonZero =>
      (id ∉ memory) /\ rj_status job = lit "pending" /\ rj_action job = lit "restart" /\
      memory' = mark_handled id memory /\
      exists w1 w2 started_at, now_rfc3339 w = (w1, started_at) /\
        report (restarting_state id started_at) w1 = (w2, Ok tt) /\
        contents w' marker_path = Some (marker_text (mkMarker id started_at))
  | RestartContinue => contents w' marker_path = contents w marker_path /\ memory ⊆ memory'
  end.
Proof. apply restart_outcomes. Qed.

(** What the marker says after the restart. *)
Definition markers_readable : Prop := forall m : RestartJobMarker, from_json (marker_text m) = Some m.
Variable marker_error : str -> str.
Lemma completion_of_marker m w w' r :
  markers_readable -> contents w marker_path = Some (marker_text m) ->
  maybe_report_restart_completion_marker marker_error report w = (w', r) ->
  (r = MarkerPending /\ contents w' marker_path = contents w marker_path) \/
  (exists finished_at, r = MarkerReported
     (terminal_restart_state (mk_job_id m) "succeeded" None (Some (mk_started_at m)) finished_at)).
Proof.
  intros Hread Hc. unfold maybe_report_restart_completion_marker.
  destruct (fs_read_to_string marker_path w) as [w1 [e|raw]] eqn:Hr.
  - pose proof (read_keeps _ _ _ _ Hr marker_path) as Hk. destruct (is_not_found e) eqn:He; intros [= <- <-]; [|by left].
    pose proof (read_missing _ _ _ _ Hr He). congruence.
  - pose proof (read_keeps _ _ _ _ Hr marker_path) as Hk1. apply read_ok in Hr. rewrite Hc in Hr. injection Hr as Hraw.
    destruct (now_rfc3339 w1) as [w2 t] eqn:Hn. pose proof (now_keeps _ _ _ Hn marker_path) as Hk2.
    unfold restart_marker_state_from_raw. rewrite <- Hraw, Hread.
    destruct (report _ w2) as [w3 o] eqn:Hp. pose proof (report_keeps _ _ _ _ Hp) as Hk3. destruct o as [[]|e|].
    + destruct (remove_restart_job_marker w3) as [w4 ?]. intros [= <- <-]. right. by exists t.
    + intros [= <- <-]. left. split; [done|congruence].
    + intros [= <- <-]. left. split; [done|congruence].
Qed.
End marker.

(** ** Endpoints: only a missing endpoint makes the client try the next one *)
Section endpoints.
Context {W E : Type} `{HttpClient W E}.

Lemma fallback_first {T} path paths (attempt : str -> Prelude.st W (client_error E) (FallbackOutcome T)) w w' r :
  attempt path w = (w', r) -> r <> Ok NotFound ->
  try_fallback_paths (path :: paths) attempt w =
  (w', match r with Ok (Success v) => Ok (Some v) | Ok NotFound => Ok None | Err e => Err e | Panic => Panic end).
Proof.
  intros Ha Hn. cbn [try_fallback_paths]. unfold mbind, st_bind. rewrite Ha. by destruct r as [[|v]|e|].
Qed.

(** ** Retries without end

    [failing n w w']: the next [n] attempts fail, and leave the world [w']. *)
Section retry.
Context {T Er : Type}.
Variable operation : Prelude.st W Er T.
Inductive failing : nat -> W -> W -> Prop :=
| failing_zero w : failing 0 w w
| failing_succ n w w1 w' e : operation w = (w1, Err e) -> failing n w1 w' -> failing (S n) w w'.

Lemma retry_from n w wn w' a fuel interval attempt :
  failing n w wn -> operation wn = (w', Ok a) -> (n < fuel)%nat ->
  0 <= interval -> 10 * interval <= MAX_DURATION -> 0 <= attempt -> attempt + Z.of_nat n < 2 ^ 32 - 1 ->
  retry_forever_from fuel operation interval attempt w =
  (w', map (fun k => interval * Z.min (attempt + Z.of_nat k + 1) 10) (List.seq 0 n), Some (Ok a)).
Proof.
  intros Hf Ha. revert fuel attempt. induction Hf as [w|n w w1 wn e Hop Hf IH]; intros fuel attempt Hfuel Hi Hmax Hat Hlt;
    (destruct fuel as [|fuel]; [lia|]); cbn [retry_forever_from].
  - by rewrite Ha.
  - rewrite Hop. unfold wrap32. rewrite Z.mod_small by lia. destruct (Z.ltb_spec MAX_DURATION (interval * Z.min (attempt + 1) 10)); [nia|].
    rewrite IH by (done || lia). cbn [List.seq map]. rewrite <- seq_shift, map_map. f_equal. f_equal. f_equal.
    + f_equal. f_equal. lia.
    + apply map_ext. intros k. do 2 f_equal. lia.
Qed.

End retry.
End endpoints.

(** ** Firmware jobs *)

(** What counts the runs of the updater. *)
Class RunsLaws (W Hd E : Type) `{!MarkerFs W Hd E} `{!Process W} `{!Updater W} `{!HttpClient W E} := {
  runs : W -> list (list str);
  run_logged cmd args w w' r : run_updater cmd args w = (w', r) -> runs w' = runs w ++ [args];
  read_quiet p w w' r : fs_read_to_string p w = (w', r) -> runs w' = runs w;
  exists_quiet p w w' r : fs_exists p w = (w', r) -> runs w' = runs w;
  now_quiet w w' t : now_rfc3339 w = (w', t) -> runs w' = runs w;
  get_quiet url token w w' r : http_get url token w = (w', r) -> runs w' = runs w;
}.

(** The job's end, as it is reported again. *)
Definition ended (job : FirmwareJobCommand) (s : FirmwareHeartbeatState) : Prop :=
  fw_job_id s = Some (fj_job_id job) /\ is_terminal s = true.
Definition same_end (s t : FirmwareHeartbeatState) : Prop :=
  fw_job_id s = fw_job_id t /\ target_version s = target_version t /\ fw_status s = fw_status t /\
  fw_error s = fw_error t /\ fw_started_at s = fw_started_at t /\ fw_finished_at s = fw_finished_at t.

Section firmware.
Context {W Hd E : Type} `{RunsLaws W Hd E} `{FromJson FirmwareJobResponse}.
Variable report : FirmwareHeartbeatState -> W -> W.
Hypothesis report_quiet : forall s w, runs (report s w) = runs w.

Lemma version_quiet w w' v : read_installed_firmware_version w = (w', v) -> runs w' = runs w.
Proof.
  unfold read_installed_firmware_version. destruct (fs_read_to_string _ w) as [w1 r] eqn:Hr. intros [= <- _].
  by apply read_quiet in Hr.
Qed.

Lemma execute_runs job w w' r : execute_firmware_job job w = (w', r) ->
  runs w' = runs w \/ exists args, updater_args job = inr args /\ runs w' = runs w ++ [args].
Proof.
  unfold execute_firmware_job.
  destruct (if bool_decide _ then _ else _) as [w1 there] eqn:Hex.
  assert (runs w1 = runs w) as Hq by (case_bool_decide; [by apply exists_quiet in Hex|by injection Hex as -> _]).
  destruct there; cbn [negb]; [|intros [= <- _]; by left].
  destruct (updater_args job) as [e|args]; [intros [= <- _]; by left|].
  destruct (run_updater _ args w1) as [w2 res] eqn:Hrun. intros [= <- _]. right. exists args.
  by rewrite (run_logged _ _ _ _ _ Hrun), Hq.
Qed.

Lemma succeeded_terminal job : is_terminal_firmware_status (Some (succeeded_firmware_status job)) = true.
Proof. unfold succeeded_firmware_status. by case_bool_decide. Qed.
Lemma failed_terminal job : is_terminal_firmware_status (Some (failed_firmware_status job)) = true.
Proof. unfold failed_firmware_status. by case_bool_decide. Qed.

(** A run of the job ends it, is remembered, and ran the updater at most once. *)
Lemma run_ends job s memory w w' s' memory' :
  run_firmware_job job report s memory w = (w', s', memory') ->
  ended job s' /\ memory' = Some s' /\
  (runs w' = runs w \/ exists args, updater_args job = inr args /\ runs w' = runs w ++ [args]).
Proof.
  unfold run_firmware_job. destruct (now_rfc3339 w) as [w1 t1] eqn:Hn1. cbn zeta.
  set (s2 := set_status _ _). set (w2 := report s2 _).
  assert (Hid : fw_job_id s2 = Some (fj_job_id job)) by (unfold s2; by case_bool_decide).
  assert (Hq2 : runs w2 = runs w).
  { unfold w2. rewrite report_quiet. destruct (bool_decide _); rewrite ?report_quiet; by apply now_quiet in Hn1. }
  clearbody s2 w2.
  destruct (execute_firmware_job job w2) as [w3 [e|[]]] eqn:He; apply execute_runs in He; rewrite Hq2 in He.
  - destruct (now_rfc3339 w3) as [w4 t4] eqn:Hn4. destruct (read_installed_firmware_version w4) as [w5 v5] eqn:Hv5.
    intros [= <- <- <-]. unfold remember_terminal_state, ended. rewrite report_quiet, (version_quiet _ _ _ Hv5), (now_quiet _ _ _ Hn4).
    unfold is_terminal. cbn [fw_status fw_job_id]. by rewrite failed_terminal.
  - set (s3 := if _ && start_after_update job then _ else s2). set (w4 := if _ && _ then report _ w3 else w3).
    assert (Hid3 : fw_job_id s3 = Some (fj_job_id job)) by (unfold s3; by destruct (_ && _)).
    assert (Hq4 : runs w4 = runs w3) by (unfold w4; destruct (_ && _); by rewrite ?report_quiet). clearbody s3 w4.
    destruct (now_rfc3339 w4) as [w5 t5] eqn:Hn5. destruct (read_installed_firmware_version w5) as [w6 v6] eqn:Hv6.
    intros [= <- <- <-]. unfold remember_terminal_state, ended.
    rewrite report_quiet, (version_quiet _ _ _ Hv6), (now_quiet _ _ _ Hn5), Hq4.
    unfold is_terminal. cbn [fw_status fw_job_id]. by rewrite succeeded_terminal.
Qed.

Lemma process_ends job s memory w w' s' memory' :
  process_firmware_job job report s memory w = (w', s', memory') ->
  exists t, memory' = Some t /\ ended job t /\ same_end s' t /\
    ((runs w' = runs w) \/
     ~ (exists t0, memory = Some t0 /\ ended job t0) /\
     exists args, updater_args job = inr args /\ runs w' = runs w ++ [args]).
Proof.
  unfold process_firmware_job. destruct (read_installed_firmware_version w) as [w1 v] eqn:Hv.
  destruct (fs_exists _ w1) as [w2 rollback] eqn:Hex.
  assert (Hq : runs w2 = runs w) by (by rewrite (exists_quiet _ _ _ _ Hex), (version_quiet _ _ _ Hv)).
  assert (Hdup : forall t0, memory = Some t0 -> ended job t0 ->
    duplicate_terminal_state memory (fj_job_id job) v rollback =
    Some (mkFirmware (fw_job_id t0) (or_else v (current_version t0)) (target_version t0) (fw_status t0)
       (fw_error t0) (Some rollback) (fw_started_at t0) (fw_finished_at t0))).
  { intros t0 -> [Hid Hterm]. unfold duplicate_terminal_state. cbn [mbind option_bind]. rewrite Hterm.
    by rewrite bool_decide_eq_false_2 by (by rewrite Hid; intros ?). }
  destruct (duplicate_terminal_state _ _ _ _) as [terminal|] eqn:Hdu.
  - intros [= <- <- <-]. unfold duplicate_terminal_state in Hdu. destruct memory as [t|]; cbn [mbind option_bind] in Hdu; [|done].
    case_bool_decide as Hid; cbn [orb] in Hdu; [done|]. destruct (is_terminal t) eqn:Ht; cbn [negb] in Hdu; [|done].
    injection Hdu as <-. exists t. repeat split; try done. left. by rewrite report_quiet.
  - assert (Hnot : ~ exists t0, memory = Some t0 /\ ended job t0).
    { intros (t0 & Hm & He). by discriminate (Hdup t0 Hm He). }
    destruct (_ && firmware_versions_match _ _).
    + destruct (now_rfc3339 w2) as [w3 t] eqn:Hn. intros [= <- <- <-]. eexists. split; [reflexivity|].
      repeat split. left. by rewrite report_quiet, (now_quiet _ _ _ Hn), Hq.
    + intros Hr. apply run_ends in Hr as (He & -> & Hruns). exists s'. repeat split; try apply He.
      rewrite Hq in Hruns. destruct Hruns as [->|Hruns]; [by left|]. by right.
Qed.

(** ** A job that the server keeps offering *)
Variable config : ServerConfig.
(** One poll, with a fresh state, after the others have acted. *)
Definition poll (others : W -> W) (s0 : FirmwareHeartbeatState) (wm : W * FirmwareJobMemory) : W * FirmwareJobMemory :=
  let '(w, _, memory) := maybe_process_firmware_job (E:=E) config report s0 wm.2 (others wm.1) in (w, memory).
Definition polls (turns : list ((W -> W) * FirmwareHeartbeatState)) (wm : W * FirmwareJobMemory) : W * FirmwareJobMemory :=
  foldl (fun wm turn => poll turn.1 turn.2 wm) wm turns.

Lemma fetch_quiet w w' r : fetch_firmware_job_command (E:=E) config w = (w', r) -> runs w' = runs w.
Proof.
  unfold fetch_firmware_job_command. generalize ([lit "/api/agent/firmware/job"; lit "/api/v1/agent/firmware/job"]).
  intros paths. revert w. induction paths as [|path paths IH]; intros w; cbn [fetch_firmware_from]; [by intros [= <- _]|].
  unfold mbind, st_bind, http. destruct (http_get _ _ w) as [w1 [e|resp]] eqn:Hg; apply get_quiet in Hg; [by intros [= <- _]|].
  destruct (status resp =? 404); [intros Hf; by rewrite (IH _ Hf)|]. unfold st_bail_if, lift_outcome, bail_if, ok_or.
  destruct (error_status (status resp)); [by intros [= <- _]|]. by destruct (option_bind _ _ _ (body resp)); intros [= <- _].
Qed.

End firmware.

(** ** A machine in memory, for the witnesses

    Files, a clock, the answers of the server, and the runs of the updater. *)
Module Machine.
Record machine := mkMachine {
  files : gmap str bytes; ticks : Z; gets : list (Z * option bytes); posts : list Z; ran : list (list str) }.
Definition on_files (f : gmap str bytes -> gmap str bytes) (w : machine) : machine :=
  mkMachine (f (files w)) (ticks w) (gets w) (posts w) (ran w).

(** An error is [true] for a missing file. *)
#[export] Instance machine_fs : Fs machine str bool := {
  fs_create p w := (on_files (fun f => <[p := []]> f) w, inr p);
  fs_write h b w := (on_files (fun f => <[h := default [] (f !! h) ++ b]> f) w, inr tt);
  fs_flush h w := (on_files (fun f => <[h := default [] (f !! h)]> f) w, inr tt);
  fs_drop h w := w;
  fs_rename p q w := (on_files (fun f => partial_alter (fun _ => f !! p) q (delete p f)) w, inr tt);
  fs_remove p w := match files w !! p with Some _ => (on_files (fun f => delete p f) w, inr tt) | None => (w, inl true) end;
  fs_store p b w := (on_files (fun f => <[p := b]> f) w, inr tt) }.
#[export] Instance machine_marker_fs : MarkerFs machine str bool := {
  fs_create_dir_all p w := (w, inr tt);
  fs_sync_all h w := (on_files (fun f => <[h := default [] (f !! h)]> f) w, inr tt);
  fs_read_to_string p w :=
    (w, match files w !! p with
        | Some b => let s := from_utf8_lossy b in if bool_decide (as_bytes s = b) then inr s else inl false
        | None => inl true
        end);
  fs_exists p w := (w, bool_decide (is_Some (files w !! p)));
  is_not_found e := e }.
Definition tick (w : machine) : machine := mkMachine (files w) (ticks w + 1) (gets w) (posts w) (ran w).
#[export] Instance machine_process : Process machine := {
  now_rfc3339 w := (tick w, lit "t" ++ dec (ticks w));
  timestamp_nanos w := (tick w, ticks w);
  process_id := 42; runtime_vars _ := ∅; env_var _ := None }.
(** A server without answers fails. *)
#[export] Instance machine_http : HttpClient machine bool := {
  http_get url token w :=
    match gets w with
    | [] => (w, inl false)
    | (s, b) :: gets => (mkMachine (files w) (ticks w) gets (posts w) (ran w), inr (mkHttp s b))
    end;
  http_post url token payload w :=
    match posts w with
    | [] => (w, inl false)
    | s :: posts => (mkMachine (files w) (ticks w) (gets w) posts (ran w), inr (mkHttp s None))
    end }.
#[export] Instance machine_updater : Updater machine := fun cmd args w =>
  (mkMachine (files w) (ticks w) (gets w) (posts w) (ran w ++ [args]), UpdaterExited true [] [] []).

#[export] Program Instance machine_fs_laws : FsLaws machine str bool := {|
  contents w p := files w !! p; accepted w h := default [] (files w !! h); target h := h |}.
Next Obligation. intros p f f' h [= <- <-]. cbn. by rewrite lookup_insert_eq. Qed.
Next Obligation. intros h b f f' [= <-]. cbn. by rewrite lookup_insert_eq. Qed.
Next Obligation. done. Qed.
Next Obligation. intros h f f' [= <-]. cbn. by rewrite !lookup_insert_eq. Qed.
Next Obligation. done. Qed.
Next Obligation. done. Qed.
Next Obligation. intros p q f f' [= <-]. cbn. by rewrite lookup_partial_alter_eq. Qed.

#[export] Program Instance machine_marker_laws : MarkerLaws machine str bool.
Next Obligation. by intros p w w' r [= <- _]. Qed.
Next Obligation. intros p w w' r [= <- _] q Hq. cbn. by rewrite lookup_insert_ne. Qed.
Next Obligation. intros h b w w' r [= <- _] q Hq. cbn. by rewrite lookup_insert_ne. Qed.
Next Obligation. intros h w w' [= <-]. cbn. by rewrite !lookup_insert_eq. Qed.
Next Obligation. intros h w w' r [= <- _] q Hq. cbn. by rewrite lookup_insert_ne. Qed.
Next Obligation. done. Qed.
Next Obligation. intros p w w'. cbn. destruct (files w !! p); intros [= <-]. cbn. by rewrite lookup_delete_eq. Qed.
Next Obligation.
  intros p w w' s. cbn. destruct (files w !! p); [|done]. case_bool_decide as Hb; intros [= <- <-]. by rewrite Hb.
Qed.
Next Obligation.
  intros p w w' e. cbn. destruct (files w !! p); [|done]. case_bool_decide; intros [= <- <-]; done.
Qed.
Next Obligation. by intros p w w' r [= <- _]. Qed.
Next Obligation. by intros p w w' r [= <- _]. Qed.
Next Obligation. by intros w w' t [= <- _]. Qed.
Next Obligation. by intros w w' n [= <- _]. Qed.

#[export] Program Instance machine_runs : RunsLaws machine str bool := {| runs := ran |}.
Next Obligation. by intros cmd args w w' r [= <- _]. Qed.
Next Obligation. by intros p w w' r [= <- _]. Qed.
Next Obligation. by intros p w w' r [= <- _]. Qed.
Next Obligation. by intros w w' t [= <- _]. Qed.
Next Obligation. intros url token w w' r. cbn. by destruct (gets w) as [|[s b] l]; intros [= <- _]. Qed.

(** A marker's text is its job's number and time; the server's answer is a
    job's number, for a restart or for a rollback. *)
#[export] Instance marker_to_json : ToJson RestartJobMarker := fun m => mk_job_id m :: mk_started_at m.
#[export] Instance marker_from_json : FromJson RestartJobMarker := fun b =>
  match rev b with
  | _ :: t => match rev t with id :: started => Some (mkMarker id started) | [] => None end
  | [] => None
  end.
#[export] Instance restart_from_json : FromJson RestartJobResponse := fun b =>
  match b with [id] => Some (mkRestartResponse (Some (mkRestartJob id (lit "restart") (lit "pending")))) | _ => None end.
#[export] Instance firmware_from_json : FromJson FirmwareJobResponse := fun b =>
  match b with
  | [] => Some (mkFirmwareResponse None)
  | _ => Some (mkFirmwareResponse (Some (mkFirmwareJob 9 (lit "rollback") None (lit "pending") false)))
  end.
#[export] Instance no_json_text : JsonText := { to_string _ := []; to_string_pretty _ := []; from_str _ := None }.
Definition site : ServerConfig := mkServerConfig true (lit "https://h/") (lit "token") 2 5.

Lemma machine_markers_readable : markers_readable.
Proof. intros [id t]. unfold marker_text, from_json, marker_from_json, to_json, marker_to_json. by rewrite rev_unit, rev_involutive. Qed.

(** The rollback is offered three times, with an error between. *)
Definition offered : machine := mkMachine {[DEFAULT_FIRMWARE_UPDATER_CMD := []]} 1 [(200, Some [9]); (500, None); (404, None); (200, Some [9]); (200, Some [9])] [] [].

(** A restart job, accepted by the server. *)
Definition accepting : machine := mkMachine ∅ 1 [] [200] [].
Definition telling : RestartHeartbeatState -> Prelude.st machine (client_error bool) unit := fun _ => post_heartbeat site Null.
Lemma telling_keeps : keeps_marker telling.
Proof.
  intros s w w' r. unfold telling, post_heartbeat, heartbeat_attempt. cbn [try_fallback_paths].
  unfold mbind, st_bind, http, http_post, machine_http, st_bail_if, lift_outcome, bail_if, mret, st_ret.
  destruct (posts w) as [|s1 [|s2 l]]; [by intros [= <- _]| |]; cbn [status ok_or];
    repeat (match goal with |- context [if ?b then _ else _] => destruct b end; cbn [posts status files]);
    by intros [= <- _].
Qed.
Definition command : RestartJobCommand := mkRestartJob 5 (lit "restart") (lit "pending").
Lemma restart_accepted_witness :
  let '(w', memory', outcome) := process_restart_job_command (fun _ => []) command telling ∅ accepting in
  outcome = ExitNonZero /\ contents w' marker_path = Some (marker_text (mkMarker 5 (lit "t1"))).
Proof.
  pose proof (restart_accepted (fun _ => []) telling telling_keeps command ∅ accepting) as Hr.
  destruct (process_restart_job_command (fun _ => []) command telling ∅ accepting) as [[w' memory'] outcome] eqn:He.
  assert (outcome = ExitNonZero) as ->.
  { change outcome with (w', memory', outcome).2. rewrite <- He. vm_compute. reflexivity. }
  split; [done|]. specialize (Hr _ _ _ eq_refl). cbn zeta in Hr.
  destruct Hr as (_ & _ & _ & _ & w1 & w2 & t & Hnow & _ & Hc). injection Hnow as _ <-. exact Hc.
Defined.

Definition flaky : Prelude.st (list bool) bool Z := fun w => match w with true :: w => (w, Ok 7) | _ :: w => (w, Err true) | [] => ([], Err true) end.
End Machine.
