(* ===== verification/Probe.v ===== *)
(** * The manager of ONVIF probes ([OnvifProbeManager] of [server/server_client.rs])

    A probe job of the server is refused or handed to a task of its own; the
    summaries and the cameras in flight are shared by the main loop and the
    tasks.  Every await of the code that touches them is a step, so the
    theorems hold for every interleaving.  What a probe finds is left open. *)
From S2P Require Import Prelude Str Config LiveV2 Telemetry Jobs.
From stdpp Require Import relations.

Record OnvifProbeCameraConfig := mkProbeCamera {
  pc_camera_id : str; service_url : str; pc_username : str; pc_password : str }.
Record OnvifProbeSummary := mkSummary {
  ps_job_id : option Z; ps_status : str; ps_error : option str; ps_started_at : option str;
  ps_finished_at : option str; last_reported_at : option str }.
Definition default_summary : OnvifProbeSummary := mkSummary None (lit "never_run") None None None None.
Definition summary_as_json (s : OnvifProbeSummary) : Value :=
  object [
    ("job_id", opt_number (ps_job_id s));
    ("status", String (ps_status s));
    ("error", opt_string (ps_error s));
    ("started_at", opt_string (ps_started_at s));
    ("finished_at", opt_string (ps_finished_at s));
    ("last_reported_at", opt_string (last_reported_at s)) ]%string.

Record OnvifProbeManager := mkManager {
  known_cameras : gset str; camera_configs : gmap str OnvifProbeCameraConfig;
  summaries : gmap str OnvifProbeSummary; in_flight : gset str; pm_agent_id : option str }.
Definition new_manager (known_camera_ids : list str) (configs : list OnvifProbeCameraConfig) (agent_id : option str)
    : OnvifProbeManager :=
  mkManager (list_to_set known_camera_ids)
    (foldl (fun m c => <[pc_camera_id c := c]> m) ∅ configs)
    (foldl (fun m id => <[id := default_summary]> m) ∅ known_camera_ids) ∅ agent_id.

(** ** The shared state *)
Definition with_summaries (f : gmap str OnvifProbeSummary -> gmap str OnvifProbeSummary) (m : OnvifProbeManager)
    : OnvifProbeManager :=
  mkManager (known_cameras m) (camera_configs m) (f (summaries m)) (in_flight m) (pm_agent_id m).
Definition with_in_flight (s : gset str) (m : OnvifProbeManager) : OnvifProbeManager :=
  mkManager (known_cameras m) (camera_configs m) (summaries m) s (pm_agent_id m).
Definition summary_for (camera_id : str) (m : OnvifProbeManager) : OnvifProbeSummary :=
  default default_summary (summaries m !! camera_id).
Definition try_mark_in_flight (camera_id : str) (m : OnvifProbeManager) : OnvifProbeManager * bool :=
  (with_in_flight ({[camera_id]} ∪ in_flight m) m, negb (bool_decide (camera_id ∈ in_flight m))).
Definition release_in_flight (camera_id : str) (m : OnvifProbeManager) : OnvifProbeManager :=
  with_in_flight (in_flight m ∖ {[camera_id]}) m.
Definition last_report (camera_id : str) (s : gmap str OnvifProbeSummary) : option str :=
  s !! camera_id ≫= last_reported_at.
Definition set_running (camera_id : str) (job_id : Z) (started_at : str) : OnvifProbeManager -> OnvifProbeManager :=
  with_summaries (fun s =>
    <[camera_id := mkSummary (Some job_id) (lit "running") None (Some started_at) None (last_report camera_id s)]> s).
Definition set_finished (camera_id : str) (job_id : Z) (status : str) (error : option str)
    (started_at finished_at : str) : OnvifProbeManager -> OnvifProbeManager :=
  with_summaries (fun s =>
    <[camera_id := mkSummary (Some job_id) status error (Some started_at) (Some finished_at) (last_report camera_id s)]> s).
Definition mark_reported (camera_id now : str) : OnvifProbeManager -> OnvifProbeManager :=
  with_summaries (alter (fun s =>
    mkSummary (ps_job_id s) (ps_status s) (ps_error s) (ps_started_at s) (ps_finished_at s) (Some now)) camera_id).

Definition report_payload (job_id : Z) (camera_id : str) (agent_id : option str) (started_at finished_at status : str)
    (error : option str) (report : Value) : Value :=
  object [
    ("job_id", Number job_id);
    ("camera_id", String camera_id);
    ("agent_id", opt_string agent_id);
    ("started_at", String started_at);
    ("finished_at", String finished_at);
    ("status", String status);
    ("error", opt_string error);
    ("report", report) ]%string.

(** ** A job, until the first await that changes the summaries *)
Inductive dispatch :=
| FailJob (error : str) (summary_camera_id : option str)
| RunProbe (camera_id : str) (camera_config : OnvifProbeCameraConfig).
Definition dispatch_job (job : OnvifProbeJobCommand) (m : OnvifProbeManager) : OnvifProbeManager * dispatch :=
  let camera_id := trim (pj_camera_id job) in
  if negb (bool_decide (pj_action job = lit "probe")) then
    (m, FailJob (lit "Unsupported ONVIF probe action: " ++ pj_action job) None)
  else if bool_decide (camera_id = []) then (m, FailJob (lit "Missing camera_id") None)
  else
    let known := bool_decide (camera_id ∈ known_cameras m) in
    match camera_configs m !! camera_id with
    | None =>
        (m, FailJob (if known then lit "camera not configured for ONVIF" else lit "unknown camera_id: " ++ camera_id)
              (if known then Some camera_id else None))
    | Some camera_config =>
        let '(m, marked) := try_mark_in_flight camera_id m in
        if marked : bool then (m, RunProbe camera_id camera_config) else (m, FailJob (lit "busy") (Some camera_id))
    end.

(** ** Tasks

    [Starting] and [Failing] are the main loop before it spawns the task. *)
Inductive task :=
| Starting (job : OnvifProbeJobCommand) (camera_id : str) (camera_config : OnvifProbeCameraConfig)
| Failing (job : OnvifProbeJobCommand) (error : str) (summary_camera_id : option str)
| Probing (job : OnvifProbeJobCommand) (camera_config : OnvifProbeCameraConfig) (started_at : str)
| Finished (camera_id : str) (payload : Value)
| Reporting (payload : Value) (reported : option str).
Definition is_poller (t : task) : bool := match t with Starting _ _ _ | Failing _ _ _ => true | _ => false end.
Definition task_of (job : OnvifProbeJobCommand) (d : dispatch) : task :=
  match d with FailJob error id => Failing job error id | RunProbe id c => Starting job id c end.

(** [set_running] and [spawn]. *)
Definition start_probe (job : OnvifProbeJobCommand) (camera_id : str) (camera_config : OnvifProbeCameraConfig) (now : str)
    (m : OnvifProbeManager) : OnvifProbeManager * task :=
  (set_running camera_id (pj_job_id job) now m, Probing job camera_config now).
Definition fail_job_immediately (job : OnvifProbeJobCommand) (error : str) (summary_camera_id : option str) (now : str)
    (m : OnvifProbeManager) : OnvifProbeManager * task :=
  (match summary_camera_id with
   | Some id => set_finished id (pj_job_id job) (lit "failed") (Some error) now now m
   | None => m
   end,
   Reporting (report_payload (pj_job_id job) (pj_camera_id job) (pm_agent_id m) now now (lit "failed") (Some error) Null)
     summary_camera_id).
(** [execute_probe_job] from the end of the probe to [set_finished]. *)
Definition finish_probe (job : OnvifProbeJobCommand) (camera_config : OnvifProbeCameraConfig) (started_at : str)
    (found : str + Value) (now : str) (m : OnvifProbeManager) : OnvifProbeManager * task :=
  let camera_id := pc_camera_id camera_config in
  let '(status, error, report) :=
    match found with
    | inr report => (lit "succeeded", None, report)
    | inl error => (lit "failed", Some error, Null)
    end in
  (set_finished camera_id (pj_job_id job) status error started_at now m,
   Finished camera_id (report_payload (pj_job_id job) camera_id (pm_agent_id m) started_at now status error report)).

Inductive step : OnvifProbeManager * list task -> OnvifProbeManager * list task -> Prop :=
| step_poll job m ts m' d :
    forallb (fun t => negb (is_poller t)) ts = true -> dispatch_job job m = (m', d) ->
    step (m, ts) (m', ts ++ [task_of job d])
| step_start job id c now m m' t pre post :
    start_probe job id c now m = (m', t) ->
    step (m, pre ++ Starting job id c :: post) (m', pre ++ t :: post)
| step_fail job error id now m m' t pre post :
    fail_job_immediately job error id now m = (m', t) ->
    step (m, pre ++ Failing job error id :: post) (m', pre ++ t :: post)
| step_finish job c started_at found now m m' t pre post :
    finish_probe job c started_at found now m = (m', t) ->
    step (m, pre ++ Probing job c started_at :: post) (m', pre ++ t :: post)
| step_release id payload m pre post :
    step (m, pre ++ Finished id payload :: post) (release_in_flight id m, pre ++ Reporting payload (Some id) :: post)
| step_reported payload id now m pre post :
    step (m, pre ++ Reporting payload id :: post)
      (match id with Some id => mark_reported id now m | None => m end, pre ++ post).

(** ** The poll of the main loop, when nothing comes between its awaits *)
Section poll.
Context {W E : Type} `{HttpClient W E} `{Process W} `{FromJson OnvifProbeJobResponse}.
Definition spawn (job : OnvifProbeJobCommand) (d : dispatch) (now : str) (m : OnvifProbeManager)
    : OnvifProbeManager * task :=
  match d with
  | FailJob error id => fail_job_immediately job error id now m
  | RunProbe id c => start_probe job id c now m
  end.
Definition poll_for_jobs (config : ServerConfig) (ms : OnvifProbeManager * list task) (w : W)
    : W * (OnvifProbeManager * list task) :=
  match fetch_onvif_probe_job_command (E:=E) config w with
  | (w, Ok (Some job)) =>
      let '(m, d) := dispatch_job job ms.1 in
      let '(w, now) := now_rfc3339 w in
      let '(m, t) := spawn job d now m in
      (w, (m, ms.2 ++ [t]))
  | (w, _) => (w, ms)
  end.
End poll.

(** ** Who holds a camera *)
Definition held (t : task) : option str :=
  match t with
  | Starting _ id _ => Some id
  | Probing _ c _ => Some (pc_camera_id c)
  | Finished id _ => Some id
  | _ => None
  end.
Definition holding (ts : list task) : list str := omap held ts.
Definition probing_job (id : str) (job_id : Z) (started_at : str) (ts : list task) : Prop :=
  exists job c, (Probing job c started_at ∈ ts) /\ pc_camera_id c = id /\ pj_job_id job = job_id.
(** A summary says running only of a probe that is under way. *)
Definition truthful (m : OnvifProbeManager) (ts : list task) : Prop :=
  forall id s, summaries m !! id = Some s -> ps_status s = lit "running" ->
  exists job_id started_at, ps_job_id s = Some job_id /\ ps_started_at s = Some started_at /\
    probing_job id job_id started_at ts.
Definition configured (m : OnvifProbeManager) (ts : list task) : Prop :=
  (forall id c, camera_configs m !! id = Some c -> pc_camera_id c = id) /\
  (forall job id c, Starting job id c ∈ ts -> pc_camera_id c = id).
Definition exclusive (m : OnvifProbeManager) (ts : list task) : Prop :=
  NoDup (holding ts) /\ forall id, (id ∈ in_flight m) <-> (id ∈ holding ts).

Lemma holding_app a b : holding (a ++ b) = holding a ++ holding b.
Proof. apply omap_app. Qed.
Lemma holding_replace pre t t' post : held t = held t' -> holding (pre ++ t :: post) = holding (pre ++ t' :: post).
Proof. intros Heq. rewrite !holding_app. unfold holding. cbn [omap list_omap]. by rewrite Heq. Qed.
Lemma holding_drop pre t post id : held t = Some id -> holding (pre ++ t :: post) ≡ₚ id :: holding (pre ++ post).
Proof. intros Heq. rewrite !holding_app. unfold holding. cbn [omap list_omap]. rewrite Heq. symmetry. apply Permutation_middle. Qed.
Lemma holding_none pre t post : held t = None -> holding (pre ++ t :: post) = holding (pre ++ post).
Proof. intros Heq. rewrite !holding_app. unfold holding. cbn [omap list_omap]. by rewrite Heq. Qed.

Lemma other_task (t0 t : task) (pre post ts : list task) : t0 ∈ pre ++ t :: post -> t0 <> t -> (forall x, x ∈ pre ++ post -> x ∈ ts) -> t0 ∈ ts.
Proof.
  intros Hin Hne Hsub. apply Hsub. apply elem_of_app in Hin as [?|Hin]; [apply elem_of_app; by left|].
  apply elem_of_cons in Hin as [->|?]; [done|]. apply elem_of_app. by right.
Qed.
Lemma keep_others (t : task) (pre post : list task) : forall x, x ∈ pre ++ post -> x ∈ pre ++ t :: post.
Proof. intros x Hx. rewrite elem_of_app, elem_of_cons. apply elem_of_app in Hx as [?|?]; auto. Qed.

(** A probe under way stays under way while other tasks act. *)
Lemma probing_other id job_id started pre t post (ts : list task) :
  probing_job id job_id started (pre ++ t :: post) ->
  (forall job c, t = Probing job c started -> pc_camera_id c <> id) ->
  (forall x, x ∈ pre ++ post -> x ∈ ts) -> probing_job id job_id started ts.
Proof.
  intros (job & c & Hin & Hid & Hj) Hne Hsub. exists job, c. split; [|done].
  apply (other_task _ _ _ _ ts Hin); [|done]. intros <-. by apply (Hne job c).
Qed.

(** The other summaries stay truthful when one camera's is replaced. *)
Lemma truthful_insert m pre t post (ts : list task) id s' :
  truthful m (pre ++ t :: post) ->
  (forall x, x ∈ pre ++ post -> x ∈ ts) ->
  (forall job c started, t = Probing job c started -> pc_camera_id c = id) ->
  (ps_status s' = lit "running" -> exists job_id started, ps_job_id s' = Some job_id /\
     ps_started_at s' = Some started /\ probing_job id job_id started ts) ->
  truthful (with_summaries <[id := s']> m) ts.
Proof.
  intros Ht Hsub Hother Hnew id0 s Hs Hrun. cbn [summaries with_summaries] in Hs.
  destruct (decide (id = id0)) as [<-|Hne].
  - rewrite lookup_insert_eq in Hs. injection Hs as <-. by apply Hnew.
  - rewrite lookup_insert_ne in Hs by done. destruct (Ht id0 s Hs Hrun) as (j & st & Hj & Hst & Hp). exists j, st.
    split; [done|]. split; [done|]. apply (probing_other _ _ _ _ _ _ _ Hp); [|done].
    intros job c ->. rewrite (Hother job c st eq_refl). done.
Qed.

(** ** The invariant *)
Definition manager_ok (s : OnvifProbeManager * list task) : Prop :=
  configured s.1 s.2 /\ exclusive s.1 s.2 /\ truthful s.1 s.2.

Lemma new_manager_ok known configs agent : manager_ok (new_manager known configs agent, []).
Proof.
  split; [split|split; [split|]].
  - cbn. assert (Hgen : forall l (m : gmap str OnvifProbeCameraConfig),
      (forall id c, m !! id = Some c -> pc_camera_id c = id) ->
      forall id c, foldl (fun m c => <[pc_camera_id c := c]> m) m l !! id = Some c -> pc_camera_id c = id).
    { induction l as [|x l IH]; intros m Hm; cbn [foldl]; [done|]. apply IH. intros id c.
      rewrite lookup_insert. case_decide as Heq; [|apply Hm]. intros [= <-]. done. }
    apply Hgen. intros id c. by rewrite lookup_empty.
  - by intros job id c ?%elem_of_nil.
  - constructor.
  - intros id. cbn. split; [by intros ?%elem_of_empty|by intros ?%elem_of_nil].
  - intros id s Hs Hrun. exfalso. assert (Hgen : forall l (m : gmap str OnvifProbeSummary),
      (forall id s, m !! id = Some s -> ps_status s = lit "never_run") ->
      forall id s, foldl (fun m id => <[id := default_summary]> m) m l !! id = Some s -> ps_status s = lit "never_run").
    { induction l as [|x l IH]; intros m Hm; cbn [foldl]; [done|]. apply IH. intros id0 s0.
      rewrite lookup_insert. case_decide; [by intros [= <-]|apply Hm]. }
    cbn [summaries new_manager fst] in Hs. apply Hgen in Hs; [by rewrite Hs in Hrun|]. intros id0 s0. by rewrite lookup_empty.
Qed.

Lemma dispatch_summaries job m m' d : dispatch_job job m = (m', d) ->
  summaries m' = summaries m /\ camera_configs m' = camera_configs m /\
  match d with
  | FailJob _ _ => forall id, (id ∈ in_flight m') <-> (id ∈ in_flight m)
  | RunProbe id c => camera_configs m !! id = Some c /\ (id ∉ in_flight m) /\ in_flight m' = {[id]} ∪ in_flight m
  end.
Proof.
  unfold dispatch_job. case_bool_decide; cbn [negb]; [|by intros [= <- <-]].
  case_bool_decide; [by intros [= <- <-]|]. destruct (camera_configs m !! _) as [c|] eqn:Hc; [|by intros [= <- <-]].
  unfold try_mark_in_flight. case_bool_decide as Hin; cbn [negb]; intros [= <- <-]; (split; [done|]; split; [done|]).
  - intros id. cbn [in_flight with_in_flight]. set_solver.
  - done.
Qed.

Lemma poll_ok job m ts m' d : manager_ok (m, ts) -> dispatch_job job m = (m', d) -> manager_ok (m', ts ++ [task_of job d]).
Proof.
  intros ([Hcfg Hst] & [Hnd Hin] & Htr) Hd. cbn [fst snd] in *. apply dispatch_summaries in Hd as (Hs & Hc & Hd).
  split; [split|split; [split|]]; cbn [fst snd].
  - by rewrite Hc.
  - intros j id c [Hx|Hx]%elem_of_app; [by apply Hst in Hx|]. apply list_elem_of_singleton in Hx.
    destruct d; cbn in Hx; [done|]. injection Hx as -> -> ->. apply Hcfg, Hd.
  - rewrite holding_app. destruct d; cbn; [by rewrite app_nil_r|]. apply NoDup_app. split; [done|].
    split; [|apply NoDup_singleton]. intros x Hx ->%list_elem_of_singleton. rewrite <- Hin in Hx. by destruct Hd as (_ & ? & _).
  - intros id. rewrite holding_app, elem_of_app, <- Hin. destruct d; cbn.
    + rewrite Hd. split; [by left|]. by intros [?|?%elem_of_nil].
    + destruct Hd as (_ & _ & ->). rewrite list_elem_of_singleton. set_solver.
  - intros id s Hl Hrun. rewrite Hs in Hl. destruct (Htr id s Hl Hrun) as (j & st & Hj & Hst' & jb & c & Hp & Hr).
    exists j, st. split; [done|]. split; [done|]. exists jb, c. split; [|done]. apply elem_of_app. by left.
Qed.

(** A task that goes on, holding its camera. *)
Lemma exclusive_replace m m' pre t t' post :
  held t = held t' -> in_flight m' = in_flight m -> exclusive m (pre ++ t :: post) -> exclusive m' (pre ++ t' :: post).
Proof. intros Hh Hi [Hnd Hin]. unfold exclusive. by rewrite <- (holding_replace _ _ _ _ Hh), Hi. Qed.
Lemma configured_replace m m' pre t t' post :
  camera_configs m' = camera_configs m -> is_poller t' = false ->
  configured m (pre ++ t :: post) -> configured m' (pre ++ t' :: post).
Proof.
  intros Hc Hp [Hcfg Hst]. split; [by rewrite Hc|]. intros job id c [Hx|[Hx|Hx]%elem_of_cons]%elem_of_app.
  - apply (Hst job). apply elem_of_app. by left.
  - by subst t'.
  - apply (Hst job). rewrite elem_of_app, elem_of_cons. auto.
Qed.
Lemma summaries_only id s' (m : OnvifProbeManager) :
  in_flight (with_summaries <[id := s']> m) = in_flight m /\
  camera_configs (with_summaries <[id := s']> m) = camera_configs m.
Proof. done. Qed.

Lemma start_ok job id c now m m' t pre post :
  manager_ok (m, pre ++ Starting job id c :: post) -> start_probe job id c now m = (m', t) ->
  manager_ok (m', pre ++ t :: post).
Proof.
  intros (Hc & He & Ht) [= <- <-]. cbn [fst snd] in *. assert (Hid : pc_camera_id c = id).
  { apply (proj2 Hc job). rewrite elem_of_app, elem_of_cons. auto. }
  split; [|split]; cbn [fst snd].
  - by eapply configured_replace; [..|exact Hc].
  - eapply exclusive_replace; [..|exact He]; [cbn; by rewrite Hid|done].
  - eapply truthful_insert; [exact Ht|apply keep_others|done|]. intros _. exists (pj_job_id job), now.
    split; [done|]. split; [done|]. exists job, c. split; [|done]. rewrite elem_of_app, elem_of_cons. auto.
Qed.

Lemma fail_ok job error id now m m' t pre post :
  manager_ok (m, pre ++ Failing job error id :: post) -> fail_job_immediately job error id now m = (m', t) ->
  manager_ok (m', pre ++ t :: post).
Proof.
  intros (Hc & He & Ht) [= <- <-]. cbn [fst snd] in *. split; [|split]; cbn [fst snd].
  - eapply configured_replace; [..|exact Hc]; by destruct id.
  - eapply exclusive_replace; [..|exact He]; by destruct id.
  - destruct id as [id|].
    + eapply truthful_insert; [exact Ht|apply keep_others|done|]. by intros Hr.
    + intros id s Hs Hrun. destruct (Ht id s Hs Hrun) as (j & st & Hj & Hst & Hp). exists j, st. split; [done|].
      split; [done|]. by apply (probing_other _ _ _ _ _ _ _ Hp); [|apply keep_others].
Qed.

Lemma finish_ok job c started found now m m' t pre post :
  manager_ok (m, pre ++ Probing job c started :: post) -> finish_probe job c started found now m = (m', t) ->
  manager_ok (m', pre ++ t :: post).
Proof.
  intros (Hc & He & Ht) Hf. cbn [fst snd] in *.
  assert (exists s', m' = with_summaries <[pc_camera_id c := s' (summaries m)]> m /\ held t = Some (pc_camera_id c) /\
    is_poller t = false /\ forall x, ps_status (s' x) <> lit "running") as (s' & -> & Hh & Hpo & Hns).
  { unfold finish_probe, set_finished in Hf. destruct found; injection Hf as <- <-; eexists (fun x => mkSummary _ _ _ _ _ _);
      (split; [reflexivity|]); done. }
  split; [|split]; cbn [fst snd].
  - by eapply configured_replace; [..|exact Hc].
  - by eapply exclusive_replace; [..|exact He].
  - eapply truthful_insert; [exact Ht|apply keep_others|by intros ??? [= _ -> _]|]. by intros ?%Hns.
Qed.

Lemma release_ok id payload m pre post :
  manager_ok (m, pre ++ Finished id payload :: post) ->
  manager_ok (release_in_flight id m, pre ++ Reporting payload (Some id) :: post).
Proof.
  intros (Hc & [Hnd Hin] & Ht). cbn [fst snd] in *.
  pose proof (holding_drop pre (Finished id payload) post id eq_refl) as Hperm. rewrite Hperm in Hnd.
  apply NoDup_cons in Hnd as [Hnot Hnd]. split; [|split; [split|]]; cbn [fst snd].
  - by eapply configured_replace; [..|exact Hc].
  - by rewrite holding_none.
  - intros id0. rewrite holding_none by done. cbn [in_flight release_in_flight with_in_flight].
    rewrite elem_of_difference, Hin, Hperm, elem_of_cons, elem_of_singleton. naive_solver.
  - intros id0 s Hs Hrun. destruct (Ht id0 s Hs Hrun) as (j & st & Hj & Hst & Hp). exists j, st. split; [done|].
    split; [done|]. by apply (probing_other _ _ _ _ _ _ _ Hp); [|apply keep_others].
Qed.

Lemma reported_ok payload id now m pre post :
  manager_ok (m, pre ++ Reporting payload id :: post) ->
  manager_ok (match id with Some id => mark_reported id now m | None => m end, pre ++ post).
Proof.
  intros ([Hcfg Hst] & [Hnd Hin] & Ht). cbn [fst snd] in *. rewrite holding_none in Hnd by done.
  assert (Hsame : forall id0 s, summaries (match id with Some id => mark_reported id now m | None => m end) !! id0 = Some s ->
    exists s0, summaries m !! id0 = Some s0 /\ ps_status s0 = ps_status s /\ ps_job_id s0 = ps_job_id s /\ ps_started_at s0 = ps_started_at s).
  { intros id0 s. destruct id as [id|]; cbn [summaries mark_reported with_summaries].
    - intros Hs. destruct (decide (id = id0)) as [<-|Hne].
      + rewrite lookup_alter_eq in Hs. destruct (summaries m !! id) as [s0|]; [|done]. injection Hs as <-. by exists s0.
      + rewrite lookup_alter_ne in Hs by done. by exists s.
    - intros Hs. by exists s. }
  split; [split|split; [split|]]; cbn [fst snd].
  - by destruct id.
  - intros job id0 c Hx. apply (Hst job). by apply keep_others.
  - done.
  - intros id0. rewrite (holding_none _ (Reporting payload id)) in Hin by done. destruct id; apply Hin.
  - intros id0 s Hs Hrun. destruct (Hsame _ _ Hs) as (s0 & Hs0 & Hstat & Hj0 & Hst0).
    destruct (Ht id0 s0 Hs0) as (j & st & Hj & Hstt & Hp); [congruence|]. exists j, st. split; [congruence|].
    split; [congruence|]. by apply (probing_other _ _ _ _ _ _ _ Hp).
Qed.

Lemma probe_step_ok s s' : step s s' -> manager_ok s -> manager_ok s'.
Proof.
  destruct 1; intros Hok.
  - by eapply poll_ok.
  - by eapply start_ok.
  - by eapply fail_ok.
  - by eapply finish_ok.
  - by eapply release_ok.
  - by eapply reported_ok.
Qed.

Lemma probe_steps_ok s s' : rtc step s s' -> manager_ok s -> manager_ok s'.
Proof. induction 1 as [s|s s1 s2 Hs _ IH]; intros Hok; [done|]. by apply IH, (probe_step_ok s). Qed.

(** C26: in every interleaving of the main loop and the tasks, no two tasks probe
    the same camera, a camera is in flight exactly when a task holds it, and a
    summary says running only while the probe of its job is under way. *)
Theorem one_probe_per_camera known configs agent m ts :
  rtc step (new_manager known configs agent, []) (m, ts) ->
  NoDup (holding ts) /\ (forall id, (id ∈ in_flight m) <-> (id ∈ holding ts)) /\ truthful m ts.
Proof.
  intros Hr. by destruct (probe_steps_ok _ _ Hr (new_manager_ok known configs agent)) as (_ & [Hnd Hin] & Ht).
Qed.

(** A second job for a camera that is being probed is refused as busy, and
    the refusal overwrites the summary of the probe under way: the heartbeats
    say failed while the probe goes on. *)
Theorem busy_hides_probe job1 c started job now m ts :
  manager_ok (m, ts) -> forallb (fun t => negb (is_poller t)) ts = true -> (Probing job1 c started ∈ ts) ->
  camera_configs m !! pc_camera_id c = Some c -> pc_camera_id c <> [] ->
  pj_action job = lit "probe" -> trim (pj_camera_id job) = pc_camera_id c ->
  exists m' ts', nsteps step 2 (m, ts) (m', ts') /\ (Probing job1 c started ∈ ts') /\
    summary_for (pc_camera_id c) m' =
      mkSummary (Some (pj_job_id job)) (lit "failed") (Some (lit "busy")) (Some now) (Some now)
        (last_report (pc_camera_id c) (summaries m)).
Proof.
  intros (_ & [_ Hin] & _) Hidle Hp Hc Hne Ha Hid. cbn [fst snd] in *.
  assert (Hheld : pc_camera_id c ∈ in_flight m).
  { rewrite Hin. apply list_elem_of_omap. by exists (Probing job1 c started). }
  assert (Hd : dispatch_job job m = (with_in_flight ({[pc_camera_id c]} ∪ in_flight m) m, FailJob (lit "busy") (Some (pc_camera_id c)))).
  { unfold dispatch_job. rewrite Ha, Hid, Hc, bool_decide_true by done. cbn [negb]. rewrite bool_decide_false by done.
    unfold try_mark_in_flight. by rewrite bool_decide_true by done. }
  eexists _, _. split; [|split].
  - eapply nsteps_l; [by apply step_poll|]. eapply nsteps_l; [|apply nsteps_O].
    by eapply (step_fail _ _ _ now _ _ _ ts []).
  - apply elem_of_app. by left.
  - unfold summary_for. cbn [summaries set_finished with_summaries with_in_flight]. by rewrite lookup_insert_eq.
Qed.

(** The poll of the main loop is made of steps. *)
Lemma spawn_step job d now m m' t ts : spawn job d now m = (m', t) ->
  step (m, ts ++ [task_of job d]) (m', ts ++ [t]) /\ is_poller t = false.
Proof. destruct d; cbn [spawn task_of]; intros Hs; (split; [by econstructor|]); by injection Hs as <- <-. Qed.

Lemma poll_for_jobs_steps {W E} `{HttpClient W E} `{Process W} `{FromJson OnvifProbeJobResponse} config ms w w' ms' :
  forallb (fun t => negb (is_poller t)) ms.2 = true ->
  poll_for_jobs (E:=E) config ms w = (w', ms') ->
  rtc step ms ms' /\ forallb (fun t => negb (is_poller t)) ms'.2 = true.
Proof.
  intros Hidle. unfold poll_for_jobs. destruct ms as [m ts]. cbn [fst snd] in *.
  destruct (fetch_onvif_probe_job_command config w) as [w1 [[job|]|e|]]; [|by intros [= _ <-]..].
  destruct (dispatch_job job m) as [m1 d] eqn:Hd. destruct (now_rfc3339 w1) as [w2 now].
  destruct (spawn job d now m1) as [m2 t] eqn:Hs. intros [= _ <-].
  destruct (spawn_step job d now m1 m2 t ts Hs) as [Hstep Ht]. split.
  - eapply rtc_l; [by apply step_poll|]. by apply rtc_once.
  - cbn [snd]. rewrite forallb_app, Hidle. cbn [forallb]. by rewrite Ht.
Qed.

(** ** Witnesses *)
Module ProbeWitness.
Definition cam : OnvifProbeCameraConfig := mkProbeCamera (lit "cam1") (lit "http://c/onvif") [] [].
Definition manager : OnvifProbeManager := new_manager [lit "cam1"] [cam] None.
Definition job (id : Z) : OnvifProbeJobCommand := mkProbeJob id (lit "probe") (lit " cam1 ").
Definition running : OnvifProbeManager := set_running (lit "cam1") 7 (lit "t0") (fst (try_mark_in_flight (lit "cam1") manager)).
Lemma to_running : rtc step (manager, []) (running, [Probing (job 7) cam (lit "t0")]).
Proof.
  eapply rtc_l; [eapply (step_poll (job 7)); [done|vm_compute; reflexivity]|].
  apply rtc_once. by eapply (step_start _ _ _ (lit "t0") _ _ _ [] []).
Qed.
Lemma one_probe_per_camera_witness : holding [Probing (job 7) cam (lit "t0")] = [lit "cam1"] /\
  (lit "cam1" ∈ in_flight running).
Proof.
  destruct (one_probe_per_camera [lit "cam1"] [cam] None running [Probing (job 7) cam (lit "t0")] to_running) as (_ & Hin & _).
  split; [reflexivity|]. apply Hin. by left.
Defined.
Lemma busy_hides_probe_witness : exists m' ts',
  nsteps step 2 (running, [Probing (job 7) cam (lit "t0")]) (m', ts') /\ (Probing (job 7) cam (lit "t0") ∈ ts') /\
  ps_status (summary_for (lit "cam1") m') = lit "failed".
Proof.
  destruct (busy_hides_probe (job 7) cam (lit "t0") (job 8) (lit "t1") running [Probing (job 7) cam (lit "t0")])
    as (m' & ts' & Hn & Hp & Hs).
  - apply (probe_steps_ok _ _ to_running), new_manager_ok.
  - reflexivity.
  - by left.
  - vm_compute. reflexivity.
  - done.
  - reflexivity.
  - vm_compute. reflexivity.
  - exists m', ts'. split; [done|]. split; [done|]. change (lit "cam1") with (pc_camera_id cam). by rewrite Hs.
Defined.
End ProbeWitness.
