(* ===== verification/Heartbeat.v ===== *)
(** * The heartbeat loop ([run_agent_heartbeat_poster] of [server/server_client.rs])

    A turn polls the jobs of the server, checks the cameras, reports the end
    of a restart, and posts a heartbeat.  The marker of a restart outlives the
    process; the memories of the jobs do not. *)
From S2P Require Import Prelude Str Config Forward Agent Clip Pipeline LiveV2 Telemetry Jobs JobsFacts Probe.

Definition PROC_STAT_PATH : str := lit "/proc/stat".
Definition PROC_MEMINFO_PATH : str := lit "/proc/meminfo".

(** The connection to a camera: milliseconds, an error, or none in 3 seconds. *)
Inductive connect_result := Connected (ms : Z) | ConnectError (e : str) | ConnectTimeout.
Class TcpConnect (W : Type) := tcp_connect : str -> W -> W * connect_result.

(** What a process remembers; lost when it ends. *)
Record memory := mkMemories {
  sampler : TelemetrySampler; firmware_memory : FirmwareJobMemory; restart_memory : RestartJobMemory;
  shutdown_memory : ShutdownJobMemory; probes : OnvifProbeManager * list task }.
(** A turn leaves a heartbeat to a task that posts it, or the process exits. *)
Inductive verdict := Next (payload : Value) | Exit (code : Z).

Section heartbeat.
Context {W Hd E : Type} `{Fs W Hd E} `{!MarkerFs W Hd E} `{!Process W} `{!HttpClient W E} `{!Updater W} `{!TcpConnect W}.
Context `{UrlParser} `{JsonText} `{ToJson RestartJobMarker} `{FromJson RestartJobMarker}.
Context `{FromJson RestartJobResponse} `{FromJson ShutdownJobResponse} `{FromJson FirmwareJobResponse}.
Context `{FromJson OnvifProbeJobResponse}.
(** The texts of errors. *)
Variable marker_error : str -> str.
Variable error_text : client_error E -> str.
Variable url_error_text : str -> str.
Variable config : ServerConfig.
Variable agent_id : str.

Definition check_rtsp_reachability (rtsp_url : str) (w : W) : W * (bool * option Z * option str) :=
  match parse_url rtsp_url with
  | None => (w, (false, None, Some (lit "Invalid RTSP URL: " ++ url_error_text rtsp_url)))
  | Some url =>
      match host_str url with
      | None => (w, (false, None, Some (lit "RTSP URL missing host")))
      | Some host =>
          let addr := host ++ lit ":" ++ dec (default 554 (port url)) in
          match tcp_connect addr w with
          | (w, Connected ms) => (w, (true, Some ms, None))
          | (w, ConnectError e) => (w, (false, None, Some e))
          | (w, ConnectTimeout) => (w, (false, None, Some (lit "connect timeout")))
          end
      end
  end.

Definition camera_status (m : OnvifProbeManager) (cam : CameraHeartbeatTarget) (ok : bool) (latency : option Z)
    (error : option str) : Value :=
  object [
    ("camera_id", String (t_camera_id cam));
    ("config_version", default Null (t_config_version cam));
    ("rtsp_ok", Bool ok);
    ("rtsp_latency_ms", opt_number latency);
    ("rtsp_error", opt_string error);
    ("onvif_probe", summary_as_json (summary_for (t_camera_id cam) m)) ]%string.
(** The status of every camera, and whether one is impaired. *)
Fixpoint camera_statuses (m : OnvifProbeManager) (cams : list CameraHeartbeatTarget) (w : W) : W * list Value * bool :=
  match cams with
  | [] => (w, [], false)
  | cam :: cams =>
      let '(w, (ok, latency, error)) := check_rtsp_reachability (t_rtsp_url cam) w in
      let '(w, rest, impaired) := camera_statuses m cams w in
      (w, camera_status m cam ok latency error :: rest, negb ok || impaired)
  end.

Definition read_file (path : str) (w : W) : W * option str :=
  match fs_read_to_string path w with (w, inr raw) => (w, Some raw) | (w, inl _) => (w, None) end.
Definition sample_telemetry (s : TelemetrySampler) (status : TelemetryStatus) (w : W)
    : W * (TelemetrySampler * HeartbeatTelemetry) :=
  let '(w, stat) := read_file PROC_STAT_PATH w in
  let '(w, meminfo) := read_file PROC_MEMINFO_PATH w in
  (w, sample stat meminfo s status).

(** A heartbeat stamped and posted now. *)
Section posting.
Variables (applied : option Value) (cameras : list Value) (telemetry : HeartbeatTelemetry).
Definition stamped (firmware : FirmwareHeartbeatState) (restart : option RestartHeartbeatState) (w : W) : W * Value :=
  let '(w, timestamp) := now_rfc3339 w in
  (w, build_agent_heartbeat_payload agent_id timestamp applied cameras telemetry firmware restart).
Definition post_now (firmware : FirmwareHeartbeatState) (restart : option RestartHeartbeatState)
    : Prelude.st W (client_error E) unit := fun w =>
  let '(w, payload) := stamped firmware restart w in post_heartbeat config payload w.
End posting.

(** No restart is started while the end of the last one is not reported. *)
Definition restart_step (report : RestartHeartbeatState -> Prelude.st W (client_error E) unit)
    (marker_outcome : RestartMarkerReportOutcome) (handled : RestartJobMemory) (w : W)
    : W * RestartJobMemory * RestartProcessOutcome :=
  match marker_outcome with
  | MarkerPending => (w, handled, RestartContinue)
  | _ => maybe_process_restart_job error_text config report handled w
  end.

(** One turn; [applied] and [cams] are the shared configuration version and
    targets when it reads them. *)
Definition heartbeat_turn (applied : option Value) (cams : list CameraHeartbeatTarget) (mem : memory) (w : W)
    : W * memory * verdict :=
  let '(w, probes) := poll_for_jobs (E:=E) config (probes mem) w in
  let '(w, cameras, impaired) := camera_statuses probes.1 cams w in
  let '(w, (sampler, telemetry)) := sample_telemetry (sampler mem) (if impaired : bool then Degraded else Operational) w in
  let '(w, firmware) := baseline_firmware_state w in
  let post := post_now applied cameras telemetry in
  let '(w, marker_outcome) :=
    maybe_report_restart_completion_marker marker_error (fun restart => post firmware (Some restart)) w in
  let restart_memory :=
    match marker_outcome with
    | MarkerReported s => match rs_job_id s with Some id => mark_handled id (restart_memory mem) | None => restart_memory mem end
    | _ => restart_memory mem
    end in
  let restart_for_payload := match marker_outcome with MarkerReported s => Some s | _ => None end in
  let '(w, shutdown_memory, shutdown) := maybe_process_shutdown_job config (shutdown_memory mem) w in
  match shutdown with
  | ExitZero =>
      let '(w, _) := post firmware restart_for_payload w in
      (w, mkMemories sampler (firmware_memory mem) restart_memory shutdown_memory probes, Exit 0)
  | ShutdownContinue =>
      let '(w, restart_memory, restart) :=
        restart_step (fun restart => post firmware (Some restart)) marker_outcome restart_memory w in
      match restart with
      | ExitNonZero =>
          (w, mkMemories sampler (firmware_memory mem) restart_memory shutdown_memory probes, Exit RESTART_EXIT_CODE)
      | RestartContinue =>
          let '(w, firmware, firmware_memory) :=
            maybe_process_firmware_job (E:=E) config (fun s w => (post s restart_for_payload w).1) firmware
              (firmware_memory mem) w in
          let '(w, payload) := stamped applied cameras telemetry firmware restart_for_payload w in
          (w, mkMemories sampler firmware_memory restart_memory shutdown_memory probes, Next payload)
      end
  end.

(** ** A process: its turns, until it exits

    Before each turn the rest of the machine acts on the world, and the tasks
    of the probes on their manager. *)
Record turn_input := mkTurn {
  others : W -> W; probe_tasks : OnvifProbeManager * list task -> OnvifProbeManager * list task;
  applied_version : option Value; targets : list CameraHeartbeatTarget }.
Definition with_probes (mem : memory) (p : OnvifProbeManager * list task) : memory :=
  mkMemories (sampler mem) (firmware_memory mem) (restart_memory mem) (shutdown_memory mem) p.
(** The world and the memory at the end, the heartbeats left to tasks, and the
    exit code. *)
Fixpoint run_process (turns : list turn_input) (mem : memory) (w : W) : W * memory * list Value * option Z :=
  match turns with
  | [] => (w, mem, [], None)
  | turn :: turns =>
      match heartbeat_turn (applied_version turn) (targets turn) (with_probes mem (probe_tasks turn (probes mem)))
              (others turn w) with
      | (w, mem, Exit code) => (w, mem, [], Some code)
      | (w, mem, Next payload) =>
          let '(w, mem, payloads, code) := run_process turns mem w in (w, mem, payload :: payloads, code)
      end
  end.
Definition run_agent_heartbeat_poster (manager : OnvifProbeManager) (turns : list turn_input) (w : W)
    : W * memory * list Value * option Z :=
  let '(w, stat) := read_file PROC_STAT_PATH w in
  run_process turns (mkMemories (new_sampler stat) None ∅ ∅ (manager, [])) w.
End heartbeat.

(** ** A restart job never restarts two processes in a row *)

(** Nothing but the restart job writes the marker's file: not the requests,
    the connections and the updater. *)
Class MarkerQuiet (W Hd E : Type) `{FsLaws W Hd E} `{!HttpClient W E} `{!Updater W} `{!TcpConnect W} := {
  get_keeps url token w w' r : http_get url token w = (w', r) -> contents w' marker_path = contents w marker_path;
  post_keeps url token p w w' r : http_post url token p w = (w', r) -> contents w' marker_path = contents w marker_path;
  connect_keeps addr w w' r : tcp_connect addr w = (w', r) -> contents w' marker_path = contents w marker_path;
  updater_keeps cmd args w w' r : run_updater cmd args w = (w', r) -> contents w' marker_path = contents w marker_path;
}.

Section facts.
Context {W Hd E : Type} `{MarkerLaws W Hd E} `{!HttpClient W E} `{!Updater W} `{!TcpConnect W} `{!MarkerQuiet W Hd E}.
Context `{UrlParser} `{JsonText} `{ToJson RestartJobMarker} `{FromJson RestartJobMarker}.
Context `{FromJson RestartJobResponse} `{FromJson ShutdownJobResponse} `{FromJson FirmwareJobResponse}.
Context `{FromJson OnvifProbeJobResponse}.
Variable marker_error : str -> str.
Variable error_text : client_error E -> str.
Variable url_error_text : str -> str.
Variable config : ServerConfig.
Variable agent_id : str.

(** A step that leaves the marker's file alone. *)
Definition same_marker (w w' : W) : Prop := contents w' marker_path = contents w marker_path.
#[local] Instance same_marker_preorder : PreOrder same_marker.
Proof. split; [done|]. intros a b c Hab Hbc. unfold same_marker in *. congruence. Qed.

Lemma now_same w w' t : now_rfc3339 w = (w', t) -> same_marker w w'.
Proof. intros Hn. apply (now_keeps _ _ _ Hn). Qed.
Lemma read_file_same p w w' r : read_file p w = (w', r) -> same_marker w w'.
Proof.
  unfold read_file. destruct (fs_read_to_string p w) as [w1 [e|raw]] eqn:Hr; intros [= <- _]; apply (read_keeps _ _ _ _ Hr).
Qed.
Lemma exists_same p w w' r : fs_exists p w = (w', r) -> same_marker w w'.
Proof. intros Hx. apply (exists_keeps _ _ _ _ Hx). Qed.
Lemma version_same w w' v : read_installed_firmware_version w = (w', v) -> same_marker w w'.
Proof.
  unfold read_installed_firmware_version. destruct (fs_read_to_string _ w) as [w1 r] eqn:Hr. intros [= <- _].
  apply (read_keeps _ _ _ _ Hr).
Qed.
Lemma any_exists_same ps : forall w w' r, any_exists ps w = (w', r) -> same_marker w w'.
Proof.
  induction ps as [|p ps IH]; intros w w' r; cbn [any_exists]; [by intros [= <- _]|].
  destruct (fs_exists p w) as [w1 there] eqn:Hx. apply exists_same in Hx. destruct there; [by intros [= <- _]|].
  intros Ha. etrans; [exact Hx|by eapply IH].
Qed.
Lemma baseline_same w w' s : baseline_firmware_state w = (w', s) -> same_marker w w'.
Proof.
  unfold baseline_firmware_state, backup_binary_exists. destruct (read_installed_firmware_version w) as [w1 v] eqn:Hv.
  destruct (any_exists _ w1) as [w2 b] eqn:Ha. intros [= <- _]. etrans; [by eapply version_same|by eapply any_exists_same].
Qed.

(** A request to some endpoints. *)
Lemma try_same {T} paths (attempt : str -> Prelude.st W (client_error E) (FallbackOutcome T)) :
  (forall p w w' r, attempt p w = (w', r) -> same_marker w w') ->
  forall w w' r, try_fallback_paths paths attempt w = (w', r) -> same_marker w w'.
Proof.
  intros Ha. induction paths as [|p paths IH]; intros w w' r; cbn [try_fallback_paths]; [by intros [= <- _]|].
  unfold mbind, st_bind. destruct (attempt p w) as [w1 [[|v]|e|]] eqn:Hp; apply Ha in Hp; [|by intros [= <- _]..].
  intros Ht. etrans; [exact Hp|by eapply IH].
Qed.
Lemma get_payload_same {A} (J : FromJson A) p w w' r : @get_payload W E _ A J config p w = (w', r) -> same_marker w w'.
Proof.
  unfold get_payload, mbind, st_bind, http. destruct (http_get _ _ w) as [w1 [e|resp]] eqn:Hg; apply get_keeps in Hg; [by intros [= <- _]|].
  destruct (status resp =? 404); [by intros [= <- _]|]. unfold st_bail_if, lift_outcome, bail_if, ok_or.
  destruct (error_status _); [by intros [= <- _]|]. by destruct (option_bind _ _ _ (body resp)); intros [= <- _].
Qed.
Lemma post_heartbeat_same payload w w' r : post_heartbeat config payload w = (w', r) -> same_marker w w'.
Proof.
  unfold post_heartbeat. unfold mbind at 1, st_bind at 1.
  destruct (try_fallback_paths _ _ w) as [w1 o] eqn:Ht. apply try_same in Ht; [by destruct o; intros [= <- _]|].
  clear w w1 o r w' Ht. intros p w w' r. unfold heartbeat_attempt, mbind, st_bind, http.
  destruct (http_post _ _ _ w) as [w1 [e|resp]] eqn:Hp; apply post_keeps in Hp; [by intros [= <- _]|].
  unfold st_bail_if, lift_outcome, bail_if. destruct (is_auth_failure_status _); [by intros [= <- _]|].
  destruct (status resp =? 404); [by intros [= <- _]|]. by destruct (error_status _); intros [= <- _].
Qed.
Lemma post_now_same a c t f restart w w' r :
  post_now config agent_id a c t f restart w = (w', r) -> same_marker w w'.
Proof.
  unfold post_now, stamped. destruct (now_rfc3339 w) as [w1 now] eqn:Hn. apply now_same in Hn.
  intros Hp. etrans; [exact Hn|by eapply post_heartbeat_same].
Qed.

Lemma poll_same ms w w' ms' : poll_for_jobs (E:=E) config ms w = (w', ms') -> same_marker w w'.
Proof.
  unfold poll_for_jobs, fetch_onvif_probe_job_command. unfold mbind at 1, st_bind at 1.
  destruct (try_fallback_paths _ _ w) as [w1 o] eqn:Ht. apply try_same in Ht; [|intros p x y z Hg; exact (get_payload_same _ p x y z Hg)].
  destruct o as [o|e|]; [|by intros [= <- _]..]. unfold mret, st_ret.
  destruct (o ?> pr_job) as [job|]; [|by intros [= <- _]]. destruct (dispatch_job job ms.1) as [m d].
  destruct (now_rfc3339 w1) as [w2 now] eqn:Hn. apply now_same in Hn. destruct (spawn job d now m) as [m' t].
  intros [= <- _]. by etrans.
Qed.
Lemma statuses_same m cams : forall w w' l i, camera_statuses url_error_text m cams w = (w', l, i) -> same_marker w w'.
Proof.
  induction cams as [|cam cams IH]; intros w w' l i; cbn [camera_statuses]; [by intros [= <- _ _]|].
  destruct (check_rtsp_reachability url_error_text (t_rtsp_url cam) w) as [w1 [[ok lat] err]] eqn:Hc.
  destruct (camera_statuses url_error_text m cams w1) as [[w2 rest] imp] eqn:Hr. intros [= <- _ _]. apply IH in Hr.
  etrans; [|exact Hr]. unfold check_rtsp_reachability in Hc. destruct (parse_url _) as [u|]; [|by injection Hc as <-].
  destruct (host_str u); [|by injection Hc as <-].
  destruct (tcp_connect _ w) as [w3 res] eqn:Ht. apply connect_keeps in Ht. by destruct res; injection Hc as <-.
Qed.

Lemma telemetry_same s st w w' r : sample_telemetry s st w = (w', r) -> same_marker w w'.
Proof.
  unfold sample_telemetry. destruct (read_file PROC_STAT_PATH w) as [w1 f1] eqn:Ha.
  destruct (read_file PROC_MEMINFO_PATH w1) as [w2 f2] eqn:Hb. intros [= <- _].
  etrans; by eapply read_file_same.
Qed.
Lemma shutdown_same mem w w' mem' o : maybe_process_shutdown_job (E:=E) config mem w = (w', mem', o) -> same_marker w w'.
Proof.
  unfold maybe_process_shutdown_job, fetch_shutdown_job_command. unfold mbind at 1, st_bind at 1.
  destruct (try_fallback_paths _ _ w) as [w1 r] eqn:Ht. apply try_same in Ht; [|intros p x y z Hg; exact (get_payload_same _ p x y z Hg)].
  destruct r as [r|e|]; [|by intros [= <- _ _]..]. unfold mret, st_ret.
  destruct (r ?> sr_job) as [job|]; [|by intros [= <- _]]. destruct (_ || _); [by intros [= <- _]|].
  by destruct (negb _); intros [= <- _].
Qed.
Lemma execute_same job w w' r : execute_firmware_job job w = (w', r) -> same_marker w w'.
Proof.
  unfold execute_firmware_job. destruct (if bool_decide _ then _ else _) as [w1 there] eqn:Hx.
  assert (same_marker w w1) as Hs by (case_bool_decide; [by eapply exists_same|by injection Hx as <- _]).
  destruct there; cbn [negb]; [|by intros [= <- _]]. destruct (updater_args job); [by intros [= <- _]|].
  destruct (run_updater _ _ w1) as [w2 res] eqn:Hr. apply updater_keeps in Hr. intros [= <- _]. by etrans.
Qed.

Section firmware.
Variable report : FirmwareHeartbeatState -> W -> W.
Hypothesis report_same : forall s w, same_marker w (report s w).
Lemma run_firmware_same job s mem w w' s' mem' :
  run_firmware_job job report s mem w = (w', s', mem') -> same_marker w w'.
Proof.
  assert (Hif : forall (b : bool) s w, same_marker w (if b then report s w else w)) by (intros []; done).
  unfold run_firmware_job. destruct (now_rfc3339 w) as [w1 t] eqn:Hn. apply now_same in Hn. cbn zeta.
  match goal with |- context [execute_firmware_job job ?x] => set (w2 := x); assert (same_marker w w2) as H02 end.
  { unfold w2. etrans; [exact Hn|]. etrans; [apply report_same|]. etrans; [apply Hif|]. apply report_same. }
  clearbody w2. destruct (execute_firmware_job job w2) as [w3 [e|[]]] eqn:He; apply execute_same in He.
  - destruct (now_rfc3339 w3) as [w4 t4] eqn:Hn4. apply now_same in Hn4.
    destruct (read_installed_firmware_version w4) as [w5 v] eqn:Hv. apply version_same in Hv. intros [= <- _ _].
    etrans; [exact H02|]. etrans; [exact He|]. etrans; [exact Hn4|]. etrans; [exact Hv|]. apply report_same.
  - match goal with |- context [now_rfc3339 ?x] => set (w4 := x); assert (same_marker w3 w4) as H34 by apply Hif end.
    clearbody w4. destruct (now_rfc3339 w4) as [w5 t4] eqn:Hn4. apply now_same in Hn4.
    destruct (read_installed_firmware_version w5) as [w6 v] eqn:Hv. apply version_same in Hv. intros [= <- _ _].
    etrans; [exact H02|]. etrans; [exact He|]. etrans; [exact H34|]. etrans; [exact Hn4|]. etrans; [exact Hv|]. apply report_same.
Qed.
Lemma fetch_firmware_same w w' r : fetch_firmware_job_command (E:=E) config w = (w', r) -> same_marker w w'.
Proof.
  unfold fetch_firmware_job_command. generalize ([lit "/api/agent/firmware/job"; lit "/api/v1/agent/firmware/job"]).
  intros paths. revert w. induction paths as [|path paths IH]; intros w; cbn [fetch_firmware_from]; [by intros [= <- _]|].
  unfold mbind, st_bind, http. destruct (http_get _ _ w) as [w1 [e|resp]] eqn:Hg; apply get_keeps in Hg; [by intros [= <- _]|].
  destruct (status resp =? 404); [intros Hf; etrans; [exact Hg|by apply IH]|]. unfold st_bail_if, lift_outcome, bail_if, ok_or.
  destruct (error_status (status resp)); [by intros [= <- _]|]. by destruct (option_bind _ _ _ (body resp)); intros [= <- _].
Qed.
Lemma firmware_same s mem w w' s' mem' :
  maybe_process_firmware_job (E:=E) config report s mem w = (w', s', mem') -> same_marker w w'.
Proof.
  unfold maybe_process_firmware_job. destruct (fetch_firmware_job_command config w) as [w1 r] eqn:Hf.
  apply fetch_firmware_same in Hf. destruct r as [[job|]|e|]; [|by intros [= <- _ _]..].
  unfold process_firmware_job. destruct (read_installed_firmware_version w1) as [w2 v] eqn:Hv. apply version_same in Hv.
  destruct (fs_exists _ w2) as [w3 b] eqn:Hx. apply exists_same in Hx.
  assert (same_marker w w3) as H03 by (etrans; [exact Hf|]; by etrans).
  destruct (duplicate_terminal_state _ _ _ _); [intros [= <- _ _]; etrans; [exact H03|apply report_same]|].
  destruct (_ && firmware_versions_match _ _).
  - destruct (now_rfc3339 w3) as [w4 t] eqn:Hn. apply now_same in Hn. intros [= <- _ _].
    etrans; [exact H03|]. etrans; [exact Hn|]. apply report_same.
  - intros Hr. etrans; [exact H03|]. by eapply run_firmware_same.
Qed.
End firmware.

(** ** What the marker protects *)
Variable m0 : RestartJobMarker.
Hypothesis readable : markers_readable.
Definition protected (w : W) (handled : RestartJobMemory) : Prop :=
  contents w marker_path = Some (marker_text m0) \/ (mk_job_id m0 ∈ handled).
Definition other_marker (w : W) : Prop :=
  exists m, mk_job_id m <> mk_job_id m0 /\ contents w marker_path = Some (marker_text m).

Lemma protected_same w w' handled : same_marker w w' -> protected w handled -> protected w' handled.
Proof. unfold protected, same_marker. intros ->. done. Qed.
Lemma protected_more w handled handled' : handled ⊆ handled' -> protected w handled -> protected w handled'.
Proof. unfold protected. set_solver. Qed.

Section stages.
Variable report : RestartHeartbeatState -> Prelude.st W (client_error E) unit.
Hypothesis report_keeps : keeps_marker report.

(** After the marker has been looked at, it is pending, or its job handled. *)
Lemma completion_stage handled w w' r :
  protected w handled -> maybe_report_restart_completion_marker marker_error report w = (w', r) ->
  let handled' := match r with
    | MarkerReported s => match rs_job_id s with Some id => mark_handled id handled | None => handled end
    | _ => handled
    end in
  protected w' handled' /\ (r = MarkerPending \/ (mk_job_id m0 ∈ handled')) /\ handled ⊆ handled'.
Proof.
  intros Hp Hc. cbn zeta. assert (Hsub : handled ⊆ match r with
    | MarkerReported s => match rs_job_id s with Some id => mark_handled id handled | None => handled end
    | _ => handled
    end).
  { destruct r as [| |s]; [done|done|]. destruct (rs_job_id s); [|done]. unfold mark_handled. set_solver. }
  destruct Hp as [Hp|Hp]; [|split; [right; set_solver|split; [right; set_solver|done]]].
  destruct (completion_of_marker report report_keeps marker_error m0 w w' r readable Hp Hc) as [[-> Hk]|(t & ->)].
  - split; [left; congruence|]. split; [by left|done].
  - cbn [rs_job_id terminal_restart_state]. unfold mark_handled, protected. split; [right|split; [right|done]]; set_solver.
Qed.

Lemma restart_stage handled w w' handled' o :
  (mk_job_id m0 ∈ handled) -> maybe_process_restart_job error_text config report handled w = (w', handled', o) ->
  match o with ExitNonZero => other_marker w' | RestartContinue => mk_job_id m0 ∈ handled' end.
Proof.
  intros Hin. unfold maybe_process_restart_job. destruct (fetch_restart_job_command config w) as [w1 [[job|]|e|]];
    [|by intros [= <- <- <-]..].
  intros Hr. apply restart_outcomes in Hr; [|done]. destruct o; [set_solver|].
  destruct Hr as (Hnot & _ & _ & _ & w2 & w3 & t & _ & _ & Hc). exists (mkMarker (rj_job_id job) t).
  split; [|done]. cbn [mk_job_id]. intros Heq. by rewrite Heq in Hnot.
Qed.
End stages.

Lemma turn_protects applied cams mem w w' mem' v :
  protected w (restart_memory mem) ->
  heartbeat_turn marker_error error_text url_error_text config agent_id applied cams mem w = (w', mem', v) ->
  match v with
  | Next _ => protected w' (restart_memory mem')
  | Exit code => code = RESTART_EXIT_CODE -> other_marker w'
  end.
Proof.
  intros Hp. unfold heartbeat_turn. destruct (poll_for_jobs config (probes mem) w) as [w1 pr] eqn:H01. apply poll_same in H01.
  destruct (camera_statuses _ pr.1 cams w1) as [[w2 cameras] imp] eqn:H12. apply statuses_same in H12.
  destruct (sample_telemetry _ _ w2) as [w3 [sam tel]] eqn:H23. apply telemetry_same in H23.
  destruct (baseline_firmware_state w3) as [w4 fw] eqn:H34. apply baseline_same in H34.
  apply (protected_same w w4) in Hp; [|etrans; [exact H01|]; etrans; [exact H12|]; by etrans]. clear H01 H12 H23 H34.
  assert (Hkeep : forall f, keeps_marker (fun restart => post_now config agent_id applied cameras tel f (Some restart))).
  { intros f restart x y r Hpost. by eapply post_now_same. }
  destruct (maybe_report_restart_completion_marker _ _ w4) as [w5 mo] eqn:H45.
  pose proof (completion_stage _ (Hkeep fw) _ _ _ _ Hp H45) as Hstage. cbn zeta in Hstage.
  destruct Hstage as (Hp5 & Hmo & _).
  set (handled := match mo with MarkerReported s => _ | _ => _ end) in *.
  set (payload := match mo with MarkerReported s => Some s | _ => None end).
  destruct (maybe_process_shutdown_job config (shutdown_memory mem) w5) as [[w6 sm] so] eqn:H56. apply shutdown_same in H56.
  apply (protected_same _ _ _ H56) in Hp5. destruct so.
  2:{ destruct (post_now _ _ _ _ _ _ payload w6) as [w7 ?]. intros [= <- <- <-]. done. }
  destruct (restart_step error_text config (fun restart => post_now config agent_id applied cameras tel fw (Some restart))
    mo handled w6) as [[w7 rm] ro] eqn:H67. unfold restart_step in H67.
  assert (match ro with ExitNonZero => other_marker w7 | RestartContinue => protected w7 rm end) as Hro.
  { destruct Hmo as [->|Hmo]; [by injection H67 as <- <- <-|].
    assert (mo <> MarkerPending -> match ro with ExitNonZero => other_marker w7 | RestartContinue => protected w7 rm end) as Hnp.
    { intros Hne. assert (maybe_process_restart_job error_text config
        (fun restart => post_now config agent_id applied cameras tel fw (Some restart)) handled w6 = (w7, rm, ro)) as Hr by (by destruct mo).
      apply (restart_stage _ (Hkeep fw)) in Hr; [|done]. destruct ro; [by right|done]. }
    destruct mo; [by apply Hnp|by injection H67 as <- <- <-|by apply Hnp]. }
  destruct ro; [|by intros [= <- <- <-]].
  destruct (maybe_process_firmware_job _ _ fw _ w7) as [[w8 fs] fm] eqn:H78. apply firmware_same in H78.
  2:{ intros s x. destruct (post_now _ _ _ _ _ s payload x) as [y ?] eqn:Hpost. by eapply post_now_same. }
  unfold stamped. destruct (now_rfc3339 w8) as [w9 t] eqn:H89. apply now_same in H89. intros [= <- <- <-].
  cbn [restart_memory]. eapply protected_same; [|exact Hro]. by etrans.
Qed.

Lemma run_protects turns : forall mem w w' mem' payloads,
  Forall (fun turn => forall w, same_marker w (others turn w)) turns ->
  protected w (restart_memory mem) ->
  run_process marker_error error_text url_error_text config agent_id turns mem w = (w', mem', payloads, Some RESTART_EXIT_CODE) ->
  other_marker w'.
Proof.
  induction turns as [|turn turns IH]; intros mem w w' mem' payloads Ho Hp; cbn [run_process]; [done|].
  apply Forall_cons in Ho as [Hw Ho].
  destruct (heartbeat_turn _ _ _ _ _ _ _ _ (others turn w)) as [[w1 mem1] v] eqn:Ht.
  apply turn_protects in Ht; [|by apply (protected_same w); [apply Hw|]]. destruct v as [payload|code].
  - destruct (run_process _ _ _ _ _ turns mem1 w1) as [[[w2 mem2] ps] c] eqn:Hr. intros [= <- <- _ ->]. by eapply IH.
  - intros [= <- <- _ ->]. by apply Ht.
Qed.

End facts.

(** ** Witness *)
Module HeartbeatWitness.
Import Machine.
#[local] Instance unreachable : TcpConnect machine := fun addr w => (w, ConnectTimeout).
#[local] Instance no_urls : UrlParser := fun _ => None.
#[local] Instance shutdown_from_json : FromJson ShutdownJobResponse := fun _ => Some (mkShutdownResponse None).
#[local] Instance probe_from_json : FromJson OnvifProbeJobResponse := fun _ => Some (mkProbeResponse None).
#[local] Program Instance machine_quiet : MarkerQuiet machine str bool.
Next Obligation. intros url token w w' r. cbn. by destruct (gets w) as [|[s b] l]; intros [= <- _]. Qed.
Next Obligation. intros url token p w w' r. cbn. by destruct (Machine.posts w) as [|s l]; intros [= <- _]. Qed.
Next Obligation. by intros addr w w' r [= <- _]. Qed.
Next Obligation. by intros cmd args w w' r [= <- _]. Qed.

(** The marker of job 5; the server offers job 5 once more, then job 6. *)
Definition restarted : machine :=
  mkMachine {[marker_path := marker_text (mkMarker 5 (lit "t0"))]} 1
    [(200, Some []); (200, Some []); (200, Some [5]); (200, Some []);
     (200, Some []); (200, Some []); (200, Some [6])] [200; 200] [].
Definition quiet_turn : turn_input (W:=machine) := mkTurn id id None [].
Definition played :=
  run_agent_heartbeat_poster (E:=bool) (fun _ => []) (fun _ => []) (fun _ => []) site (lit "agent-1")
    (new_manager [] [] None) [quiet_turn; quiet_turn] restarted.
Lemma played_exits : played.2 = Some RESTART_EXIT_CODE.
Proof. vm_compute. reflexivity. Qed.
End HeartbeatWitness.
