(* ===== verification/Xml.v ===== *)
(** * XML as the ONVIF modules use it ([onvif/onvif_probe.rs] and its siblings)

    The events of the streaming reader, local names, attributes, escaping, and
    the queries over the events of a document.  The reader itself is a
    parameter: the events it yields up to the end or the first error, its text
    already unescaped where that is possible, blank texts left out. *)
From S2P Require Import Prelude Str Config.

(** An attribute that cannot be parsed is left out; its value is [None] when
    it cannot be unescaped. *)
Record XmlTag := mkTag { qname : bytes; attributes : list (bytes * option str) }.
Inductive XmlEvent :=
| Start (tag : XmlTag)
| Empty (tag : XmlTag)
| Text (unescaped : option str)
| End (name : bytes)
| OtherEvent.
Class XmlReader := read_events : str -> list XmlEvent.

(** [local_name] *)
Definition local_name (name : bytes) : str := from_utf8_lossy (default [] (last (split_char 58 name))).
Definition tag_name (tag : XmlTag) : str := local_name (qname tag).
Definition is_named (name : str) (wanted : String.string) : bool := bool_decide (name = lit wanted).
Fixpoint find_attribute (wanted : str) (attrs : list (bytes * option str)) : option str :=
  match attrs with
  | [] => None
  | (key, value) :: attrs =>
      match (if bool_decide (local_name key = wanted) then value else None) with
      | Some v => Some v
      | None => find_attribute wanted attrs
      end
  end.
Definition attr_value (tag : XmlTag) (wanted : String.string) : option str := find_attribute (lit wanted) (attributes tag).

(** ** Queries *)
Definition push_unique (out : list str) (value : str) : list str :=
  if negb (bool_decide (value = [])) && negb (bool_decide (value ∈ out)) then out ++ [value] else out.

Fixpoint count_named (locals : list str) (es : list XmlEvent) : nat :=
  match es with
  | [] => 0
  | Start tag :: es | Empty tag :: es =>
      (if bool_decide (tag_name tag ∈ locals) then 1 else 0) + count_named locals es
  | _ :: es => count_named locals es
  end%nat.
Fixpoint collect_from (locals : list str) (current_match : bool) (out : list str) (es : list XmlEvent) : list str :=
  match es with
  | [] => out
  | Start tag :: es => collect_from locals (bool_decide (tag_name tag ∈ locals)) out es
  | Text t :: es =>
      collect_from locals current_match
        (match t with Some value => if current_match then push_unique out (trim value) else out | None => out end) es
  | End _ :: es => collect_from locals false out es
  | _ :: es => collect_from locals current_match out es
  end.
Fixpoint first_text_from (wanted : str) (in_wanted : bool) (es : list XmlEvent) : option str :=
  match es with
  | [] => None
  | Start tag :: es => first_text_from wanted (bool_decide (tag_name tag = wanted)) es
  | Text t :: es => if in_wanted then t else first_text_from wanted in_wanted es
  | End _ :: es => first_text_from wanted false es
  | _ :: es => first_text_from wanted in_wanted es
  end.

Section reader.
Context `{XmlReader}.
Definition count_elements (xml : str) (locals : list String.string) : nat :=
  count_named (map lit locals) (read_events xml).
Definition collect_texts (xml : str) (locals : list String.string) : list str :=
  collect_from (map lit locals) false [] (read_events xml).
Definition extract_first_text (xml : str) (wanted : String.string) : option str :=
  first_text_from (lit wanted) false (read_events xml).
End reader.

(** ** Escaping *)
(** [str::replace] of a character. *)
Definition replace (c : Z) (by_ : str) (s : str) : str := concat (map (fun x => if x =? c then by_ else [x]) s).
Definition xml_escape (value : str) : str :=
  replace 39 (lit "&apos;")
    (replace 34 [38; 113; 117; 111; 116; 59]
      (replace 62 (lit "&gt;") (replace 60 (lit "&lt;") (replace 38 (lit "&amp;") value)))).

(** The reference: every character by itself, and the reader's inverse. *)
Definition escape_char (c : Z) : str :=
  if c =? 38 then lit "&amp;" else if c =? 60 then lit "&lt;" else if c =? 62 then lit "&gt;"
  else if c =? 34 then [38; 113; 117; 111; 116; 59] else if c =? 39 then lit "&apos;" else [c].
Definition entities : list (str * Z) :=
  [(lit "&amp;", 38); (lit "&lt;", 60); (lit "&gt;", 62); ([38; 113; 117; 111; 116; 59], 34); (lit "&apos;", 39)].
Fixpoint unescape_one (es : list (str * Z)) (s : str) : option (Z * str) :=
  match es with
  | [] => None
  | (e, c) :: es => match strip_prefix e s with Some r => Some (c, r) | None => unescape_one es s end
  end.
Fixpoint unescape (fuel : nat) (s : str) : option str :=
  match fuel, s with
  | _, [] => Some []
  | O, _ => None
  | S fuel, c :: r =>
      if c =? 38 then '(x, r) ← unescape_one entities s; cons x <$> unescape fuel r
      else cons c <$> unescape fuel r
  end.

Lemma replace_app c b s t : replace c b (s ++ t) = replace c b s ++ replace c b t.
Proof. unfold replace. by rewrite map_app, concat_app. Qed.

Lemma xml_escape_chars s : xml_escape s = concat (map escape_char s).
Proof.
  induction s as [|c s IH]; [done|]. unfold xml_escape in *. change (c :: s) with ([c] ++ s).
  rewrite !replace_app, IH. cbn [map concat app]. f_equal. unfold replace at 5. cbn [map concat]. unfold escape_char.
  destruct (Z.eqb_spec c 38) as [->|H38]; [done|]. cbn [app]. unfold replace at 4. cbn [map concat].
  destruct (Z.eqb_spec c 60) as [->|H60]; [done|]. cbn [app]. unfold replace at 3. cbn [map concat].
  destruct (Z.eqb_spec c 62) as [->|H62]; [done|]. cbn [app]. unfold replace at 2. cbn [map concat].
  destruct (Z.eqb_spec c 34) as [->|H34]; [done|]. cbn [app]. unfold replace. cbn [map concat].
  by destruct (c =? 39).
Qed.

Lemma escape_char_not_nil c : (0 < length (escape_char c))%nat.
Proof. unfold escape_char. repeat case_match; cbn; lia. Qed.

Lemma unescape_char fuel c s : unescape (S fuel) (escape_char c ++ s) = cons c <$> unescape fuel s.
Proof.
  unfold escape_char.
  destruct (Z.eqb_spec c 38) as [->|H38]; [done|]. destruct (Z.eqb_spec c 60) as [->|H60]; [done|].
  destruct (Z.eqb_spec c 62) as [->|H62]; [done|]. destruct (Z.eqb_spec c 34) as [->|H34]; [done|].
  destruct (Z.eqb_spec c 39) as [->|H39]; [done|]. cbn [app unescape]. by rewrite (proj2 (Z.eqb_neq c 38) H38).
Qed.

(** Escaped text is read back, and holds no character that could end the
    element or the attribute it is put into. *)
Theorem xml_escape_roundtrip s :
  unescape (length s) (xml_escape s) = Some s /\
  Forall (fun c => c <> 60 /\ c <> 62 /\ c <> 34 /\ c <> 39) (xml_escape s).
Proof.
  rewrite xml_escape_chars. split.
  - induction s as [|c s IH]; [done|]. cbn [map concat length]. by rewrite unescape_char, IH.
  - apply Forall_concat, Forall_map, Forall_forall. intros c _. unfold escape_char.
    destruct (Z.eqb_spec c 38); [by_eval|]. destruct (Z.eqb_spec c 60); [by_eval|].
    destruct (Z.eqb_spec c 62); [by_eval|]. destruct (Z.eqb_spec c 34); [by_eval|].
    destruct (Z.eqb_spec c 39); [by_eval|]. by repeat constructor.
Qed.
