(* ===== verification/Soap.v ===== *)
(** * SOAP requests of the ONVIF modules

    The WS-Security header and the envelope of a request, and its exchange
    with a device.  HTTP, random bytes, the clock, SHA-1 and base64 are
    parameters; the texts of errors are part of what they return. *)
From S2P Require Import Prelude Str Sdp Config Xml.

(** The answer: its status, and its body or the error of reading it. *)
Record soap_response := mkSoapResponse { soap_status : Z; soap_text : str + str }.
(** The error of sending it: whether it is one of connecting, and its text. *)
Record http_error := mkHttpError { is_connect : bool; http_text : str }.
(** A POST: an error, or the answer.  The headers are those of the action. *)
Class SoapHttp (W : Type) := soap_http : str -> str -> str -> W -> W * (http_error + soap_response).  (* url, action, body *)
Class Entropy (W : Type) := { random_bytes : nat -> W -> W * bytes; now_secs : W -> W * str }.
Class Sha1 := sha1 : bytes -> bytes.
(** [Display] of a status code: the number and its phrase. *)
Class StatusText := status_text : Z -> str.

Definition quoted (s : String.string) : str := 34 :: lit s ++ [34].
Definition NL : str := [LF].
Definition is_success_status (s : Z) : bool := (200 <=? s) && (s <? 300).

Definition wsse_password_digest `{Sha1} `{Base64} (nonce_raw : bytes) (created password : str) : str :=
  b64_encode (sha1 (nonce_raw ++ as_bytes created ++ as_bytes password)).

Definition wsse_text (username digest nonce_b64 created : str) : str :=
  lit "<wsse:Security SOAP-ENV:mustUnderstand=" ++ quoted "1" ++ NL ++
  lit "  xmlns:wsse=" ++ quoted "http://docs.oasis-open.org/wss/2004/01/oasis-200401-wss-wssecurity-secext-1.0.xsd" ++ NL ++
  lit "  xmlns:wsu=" ++ quoted "http://docs.oasis-open.org/wss/2004/01/oasis-200401-wss-wssecurity-utility-1.0.xsd" ++ lit ">" ++ NL ++
  lit "  <wsse:UsernameToken>" ++ NL ++
  lit "    <wsse:Username>" ++ xml_escape username ++ lit "</wsse:Username>" ++ NL ++
  lit "    <wsse:Password Type=" ++ quoted "http://docs.oasis-open.org/wss/2004/01/oasis-200401-wss-username-token-profile-1.0#PasswordDigest" ++
  lit ">" ++ xml_escape digest ++ lit "</wsse:Password>" ++ NL ++
  lit "    <wsse:Nonce EncodingType=" ++ quoted "http://docs.oasis-open.org/wss/2004/01/oasis-200401-wss-soap-message-security-1.0#Base64Binary" ++
  lit ">" ++ xml_escape nonce_b64 ++ lit "</wsse:Nonce>" ++ NL ++
  lit "    <wsu:Created>" ++ xml_escape created ++ lit "</wsu:Created>" ++ NL ++
  lit "  </wsse:UsernameToken>" ++ NL ++
  lit "</wsse:Security>".

Definition wsse_header {W} `{Entropy W} `{Sha1} `{Base64} (username password : str) (w : W) : W * str :=
  let '(w, nonce) := random_bytes 20 w in
  let '(w, created) := now_secs w in
  (w, wsse_text username (wsse_password_digest nonce created password) (b64_encode nonce) created).

(** The envelope; [namespaces] are the declarations of a module behind the
    first two, [open] and
    [close] what it puts around the body. *)
Definition namespace_line (p : String.string * String.string) : str :=
  NL ++ lit "  xmlns:" ++ lit p.1 ++ lit "=" ++ quoted p.2.
Definition SCHEMA_NAMESPACE : String.string := "http://www.onvif.org/ver10/schema"%string.
Definition soap_envelope_with (namespaces : list (String.string * String.string)) (open close : str)
    (to action security body : str) : str :=
  lit "<?xml version=" ++ quoted "1.0" ++ lit " encoding=" ++ quoted "UTF-8" ++ lit "?>" ++ NL ++
  lit "<SOAP-ENV:Envelope" ++
  concat (map namespace_line
    ([("SOAP-ENV", "http://www.w3.org/2003/05/soap-envelope"); ("wsa", "http://www.w3.org/2005/08/addressing")]%string
     ++ namespaces)) ++ lit ">" ++ NL ++
  lit "  <SOAP-ENV:Header>" ++ NL ++
  lit "    <wsa:Action SOAP-ENV:mustUnderstand=" ++ quoted "1" ++ lit ">" ++ xml_escape action ++ lit "</wsa:Action>" ++ NL ++
  lit "    <wsa:To SOAP-ENV:mustUnderstand=" ++ quoted "1" ++ lit ">" ++ xml_escape to ++ lit "</wsa:To>" ++ NL ++
  lit "    " ++ security ++ NL ++
  lit "  </SOAP-ENV:Header>" ++ NL ++
  lit "  <SOAP-ENV:Body>" ++ open ++ body ++ close ++ lit "</SOAP-ENV:Body>" ++ NL ++
  lit "</SOAP-ENV:Envelope>".

(** [bail!("SOAP HTTP {}: {}")] *)
Definition http_failure `{StatusText} (status : Z) (text : str) : str :=
  lit "SOAP HTTP " ++ status_text status ++ lit ": " ++ text.

(** ** Steps that never panic *)
Definition never_panics {S E A} (m : Prelude.st S E A) : Prop := forall s, (m s).2 <> Panic.
Definition not_panic {E A} (r : outcome E A) : Prop := r <> Panic.

Lemma calm_ret {S E A} (a : A) : never_panics (S:=S) (E:=E) (mret a).
Proof. by intros s. Qed.
Lemma calm_lift {S E A} (r : outcome E A) : not_panic r -> never_panics (S:=S) (lift_outcome r).
Proof. by intros Hr s. Qed.
Lemma calm_bind {S E A B} (m : Prelude.st S E A) (f : A -> Prelude.st S E B) :
  never_panics m -> (forall a, never_panics (f a)) -> never_panics (m ≫= f).
Proof.
  intros Hm Hf s. unfold mbind, st_bind. specialize (Hm s). destruct (m s) as [s' [a|e|]]; [apply Hf|done|done].
Qed.
Lemma calm_ok_or {E A} (o : option A) (e : E) : not_panic (ok_or o e).
Proof. by destruct o. Qed.

(** What a step that succeeded did. *)
Lemma st_bind_inv {S E A B} (m : Prelude.st S E A) (f : A -> Prelude.st S E B) s s' b :
  (m ≫= f) s = (s', Ok b) -> exists s1 a, m s = (s1, Ok a) /\ f a s1 = (s', Ok b).
Proof. unfold mbind, st_bind. destruct (m s) as [s1 [a|e|]]; [eauto|done|done]. Qed.
Lemma lift_outcome_inv {S E A} (r : outcome E A) s s' (a : A) :
  lift_outcome (S:=S) r s = (s', Ok a) -> s' = s /\ r = Ok a.
Proof. unfold lift_outcome. by intros [= -> ->]. Qed.

Create HintDb calm discriminated.
#[export] Hint Resolve calm_ret calm_lift calm_bind calm_ok_or : calm.
Ltac solve_calm := repeat (apply calm_bind; [|intros ?]); repeat case_match; auto with calm.
