(* ===== verification/OnvifProbe.v ===== *)
(** * The capabilities of an ONVIF camera ([onvif/onvif_probe.rs])

    The answers of a device are read by state machines over XML events, and
    put together by [run_onvif_capability_probe].  A number with a fraction is
    of a parameter type. *)
From S2P Require Import Prelude Str Sdp Config Xml Soap Probe.

(** [str::parse::<f64>] *)
Class ParseF64 (F : Type) := parse_f64 : str -> option F.

Record OnvifDeviceInfo := mkDeviceInfo {
  manufacturer : option str; model : option str; firmware_version : option str; serial_number : option str;
  hardware_id : option str }.
Record OnvifServiceInfo := mkService {
  service : str; sv_namespace : str; xaddr : option str; capabilities_present : bool }.
Record OnvifCapabilitiesSummary := mkCaps {
  cap_media : bool; cap_events : bool; cap_ptz : bool; cap_imaging : bool; cap_device_io : bool; cap_analytics : bool }.
Record OnvifMediaProfile := mkProfile {
  pf_token : option str; pf_name : option str; video_source_token : option str; video_encoder_token : option str }.
Record OnvifVideoEncoderConfiguration (F : Type) := mkEncoder {
  ve_token : option str; ve_name : option str; encoding : option str; width : option Z; height : option Z;
  quality : option F; frame_rate_limit : option Z; bitrate_limit : option Z }.
Arguments mkEncoder {F}.
Arguments ve_token {F}.
Arguments ve_name {F}.
Arguments encoding {F}.
Arguments width {F}.
Arguments height {F}.
Arguments quality {F}.
Arguments frame_rate_limit {F}.
Arguments bitrate_limit {F}.
Record OnvifMediaSummary (F : Type) := mkMedia {
  profiles : list OnvifMediaProfile; encoder_configurations : list (OnvifVideoEncoderConfiguration F) }.
Arguments mkMedia {F}.
Record OnvifEventsSummary := mkEvents {
  fixed_topic_set : option bool; topic_namespace_locations : list str; topic_expression_dialects : list str;
  message_content_filter_dialects : list str }.
Record OnvifPtzSummary := mkPtz { node_count : nat; configuration_count : nat }.
Record OnvifMotionRegionSummary := mkRegionSummary {
  supported : bool; probe_failed : option bool; reason : option str; target_kind : option str;
  mr_target_name : option str; mr_target_type : option str; point_count : option nat }.
Record OnvifServiceError := mkServiceError { se_service : str; se_operation : str; se_error : str }.
Record OnvifProbeReport (F : Type) := mkReport {
  rp_device : OnvifDeviceInfo; rp_services : list OnvifServiceInfo; rp_capabilities : OnvifCapabilitiesSummary;
  rp_media : option (OnvifMediaSummary F); rp_events : option OnvifEventsSummary; rp_ptz : option OnvifPtzSummary;
  rp_motion_region : option OnvifMotionRegionSummary; rp_service_errors : list OnvifServiceError }.
Arguments mkReport {F}.
Arguments rp_device {F}.
Arguments rp_services {F}.
Arguments rp_capabilities {F}.
Arguments rp_media {F}.
Arguments rp_events {F}.
Arguments rp_ptz {F}.
Arguments rp_motion_region {F}.
Arguments rp_service_errors {F}.

(** ** The services of a device *)
Definition service_key_from_namespace (namespace : str) : str :=
  let lower := map ascii_lower namespace in
  if contains (lit "/device/wsdl") lower then lit "device"
  else if contains (lit "/media/wsdl") lower then lit "media"
  else if contains (lit "/events/wsdl") lower then lit "events"
  else if contains (lit "/ptz/wsdl") lower then lit "ptz"
  else if contains (lit "/imaging/wsdl") lower then lit "imaging"
  else if contains (lit "/deviceio/wsdl") lower then lit "device_io"
  else if contains (lit "/analytics/wsdl") lower then lit "analytics"
  else namespace.

Record services_state := mkServicesState {
  sv_found : list OnvifServiceInfo; sv_current : option OnvifServiceInfo; pending_text : option str }.
Definition services_start : services_state := mkServicesState [] None None.
Definition mark_capabilities (s : OnvifServiceInfo) : OnvifServiceInfo := mkService (service s) (sv_namespace s) (xaddr s) true.
Definition set_service_field (field value : str) (s : OnvifServiceInfo) : OnvifServiceInfo :=
  if is_named field "Namespace" then mkService (service_key_from_namespace value) value (xaddr s) (capabilities_present s)
  else if is_named field "XAddr" then
    if bool_decide (trim value = []) then s
    else mkService (service s) (sv_namespace s) (Some (trim value)) (capabilities_present s)
  else s.
Definition services_step (s : services_state) (e : XmlEvent) : services_state :=
  match e with
  | Start tag =>
      let name := tag_name tag in
      if is_named name "Service" then mkServicesState (sv_found s) (Some (mkService [] [] None false)) None
      else
        match sv_current s with
        | None => s
        | Some service =>
            if is_named name "Namespace" || is_named name "XAddr" then
              mkServicesState (sv_found s) (Some service) (Some name)
            else if is_named name "Capabilities" then
              mkServicesState (sv_found s) (Some (mark_capabilities service)) (pending_text s)
            else s
        end
  | Empty tag =>
      match sv_current s with
      | Some service =>
          if is_named (tag_name tag) "Capabilities" then
            mkServicesState (sv_found s) (Some (mark_capabilities service)) (pending_text s)
          else s
      | None => s
      end
  | Text text =>
      match sv_current s, pending_text s, text with
      | Some service, Some field, Some value =>
          mkServicesState (sv_found s) (Some (set_service_field field value service)) (pending_text s)
      | _, _, _ => s
      end
  | End name =>
      let s :=
        if is_named (local_name name) "Service" then
          match sv_current s with
          | Some service => mkServicesState (sv_found s ++ [service]) None (pending_text s)
          | None => s
          end
        else s in
      mkServicesState (sv_found s) (sv_current s) None
  | OtherEvent => s
  end.

(** The addresses by service; a later service of the same kind wins. *)
Definition collect_service_xaddrs (services : list OnvifServiceInfo) (fallback : str) : gmap str str :=
  foldl (fun m s => <[service s := default fallback (xaddr s)]> m) ∅ services.

(** ** The capabilities *)
Definition capabilities_step (c : OnvifCapabilitiesSummary) (e : XmlEvent) : OnvifCapabilitiesSummary :=
  match e with
  | Start tag | Empty tag =>
      let name := tag_name tag in
      mkCaps (cap_media c || is_named name "Media") (cap_events c || is_named name "Events")
        (cap_ptz c || is_named name "PTZ") (cap_imaging c || is_named name "Imaging")
        (cap_device_io c || is_named name "DeviceIO")
        (cap_analytics c || is_named name "Analytics" || is_named name "AnalyticsDevice")
  | _ => c
  end.

(** ** The media profiles *)
Record profiles_state := mkProfilesState {
  pf_found : list OnvifMediaProfile; pf_current : option OnvifMediaProfile; pending_name : bool }.
Definition profiles_start : profiles_state := mkProfilesState [] None false.
Definition set_source_token (tag : XmlTag) (p : OnvifMediaProfile) : OnvifMediaProfile :=
  mkProfile (pf_token p) (pf_name p) (attr_value tag "token") (video_encoder_token p).
Definition set_encoder_token (tag : XmlTag) (p : OnvifMediaProfile) : OnvifMediaProfile :=
  mkProfile (pf_token p) (pf_name p) (video_source_token p) (attr_value tag "token").
Definition set_profile_name (value : str) (p : OnvifMediaProfile) : OnvifMediaProfile :=
  mkProfile (pf_token p) (Some value) (video_source_token p) (video_encoder_token p).
(** The tokens of the configurations of a profile, open or empty elements. *)
Definition profile_tokens (tag : XmlTag) (s : profiles_state) : profiles_state :=
  let name := tag_name tag in
  if is_named name "VideoSourceConfiguration" then
    mkProfilesState (pf_found s) (set_source_token tag <$> pf_current s) (pending_name s)
  else if is_named name "VideoEncoderConfiguration" then
    mkProfilesState (pf_found s) (set_encoder_token tag <$> pf_current s) (pending_name s)
  else s.
Definition profiles_step (s : profiles_state) (e : XmlEvent) : profiles_state :=
  match e with
  | Start tag =>
      let name := tag_name tag in
      if is_named name "Profiles" then
        mkProfilesState (pf_found s) (Some (mkProfile (attr_value tag "token") None None None)) (pending_name s)
      else
        match pf_current s with
        | None => s
        | Some _ =>
            if is_named name "Name" then mkProfilesState (pf_found s) (pf_current s) true else profile_tokens tag s
        end
  | Empty tag => profile_tokens tag s
  | Text text =>
      match text with
      | Some value =>
          if pending_name s then mkProfilesState (pf_found s) (set_profile_name value <$> pf_current s) true else s
      | None => s
      end
  | End name =>
      let s :=
        if is_named (local_name name) "Profiles" then
          match pf_current s with
          | Some profile => mkProfilesState (pf_found s ++ [profile]) None (pending_name s)
          | None => s
          end
        else s in
      mkProfilesState (pf_found s) (pf_current s) false
  | OtherEvent => s
  end.

(** ** The encoder configurations *)
Section encoders.
Context {F : Type} `{ParseF64 F}.
Record encoders_state := mkEncodersState {
  ve_found : list (OnvifVideoEncoderConfiguration F); ve_current : option (OnvifVideoEncoderConfiguration F);
  pending_field : option str }.
Definition encoders_start : encoders_state := mkEncodersState [] None None.
Definition is_encoder_element (name : str) : bool :=
  is_named name "Configurations" || is_named name "VideoEncoderConfiguration".
Definition encoder_fields : list str :=
  map lit ["Name"; "Encoding"; "Quality"; "Width"; "Height"; "FrameRateLimit"; "BitrateLimit"]%string.
Definition set_encoder_field (field value : str) (c : OnvifVideoEncoderConfiguration F) : OnvifVideoEncoderConfiguration F :=
  let set := is_named field in
  mkEncoder (ve_token c) (if set "Name"%string then Some value else ve_name c)
    (if set "Encoding"%string then Some value else encoding c)
    (if set "Width"%string then parse_u32 value else width c)
    (if set "Height"%string then parse_u32 value else height c)
    (if set "Quality"%string then parse_f64 value else quality c)
    (if set "FrameRateLimit"%string then parse_u32 value else frame_rate_limit c)
    (if set "BitrateLimit"%string then parse_u32 value else bitrate_limit c).
Definition encoders_step (s : encoders_state) (e : XmlEvent) : encoders_state :=
  match e with
  | Start tag =>
      let name := tag_name tag in
      if is_encoder_element name then
        mkEncodersState (ve_found s) (Some (mkEncoder (attr_value tag "token") None None None None None None None))
          (pending_field s)
      else
        match ve_current s with
        | None => s
        | Some _ =>
            if bool_decide (name ∈ encoder_fields) then mkEncodersState (ve_found s) (ve_current s) (Some name) else s
        end
  | Text text =>
      match ve_current s, pending_field s, text with
      | Some config, Some field, Some value =>
          mkEncodersState (ve_found s) (Some (set_encoder_field field value config)) (pending_field s)
      | _, _, _ => s
      end
  | End name =>
      let s :=
        if is_encoder_element (local_name name) then
          match ve_current s with
          | Some config => mkEncodersState (ve_found s ++ [config]) None (pending_field s)
          | None => s
          end
        else s in
      mkEncodersState (ve_found s) (ve_current s) None
  | _ => s
  end.
End encoders.

(** ** Motion regions *)
Fixpoint analytics_token_from (es : list XmlEvent) : option str :=
  match es with
  | [] => None
  | Start tag :: es | Empty tag :: es =>
      match (if is_named (tag_name tag) "VideoAnalyticsConfiguration" then attr_value tag "token" else None) with
      | Some token => if bool_decide (trim token = []) then analytics_token_from es else Some token
      | None => analytics_token_from es
      end
  | _ :: es => analytics_token_from es
  end.

Record rule_state := mkRuleState { in_rule : bool; rule_name : option str; rule_type : option str; points_seen : nat }.
Definition rule_start : rule_state := mkRuleState false None None 0.
Definition is_motion_region (type : option str) : bool :=
  match type with Some t => contains (lit "motionregion") (map ascii_lower t) | None => false end.
Definition count_point (name : str) (s : rule_state) : rule_state :=
  if is_named name "Point" && in_rule s then
    mkRuleState (in_rule s) (rule_name s) (rule_type s) (S (points_seen s))
  else s.
Fixpoint rule_target_from (s : rule_state) (es : list XmlEvent) : option OnvifMotionRegionSummary :=
  match es with
  | [] => None
  | Start tag :: es =>
      let name := tag_name tag in
      rule_target_from
        (if is_named name "Rule" then
           if is_motion_region (attr_value tag "Type")
           then mkRuleState true (attr_value tag "Name") (attr_value tag "Type") 0
           else mkRuleState false (rule_name s) (rule_type s) (points_seen s)
         else count_point name s) es
  | Empty tag :: es => rule_target_from (count_point (tag_name tag) s) es
  | End name :: es =>
      if is_named (local_name name) "Rule" && in_rule s then
        if (0 <? points_seen s)%nat then
          Some (mkRegionSummary true None None (Some (lit "rule")) (rule_name s) (rule_type s) (Some (points_seen s)))
        else rule_target_from rule_start es
      else rule_target_from s es
  | _ :: es => rule_target_from s es
  end.

Section parsers.
Context `{XmlReader} {F : Type} `{ParseF64 F}.
Definition parse_device_information (xml : str) : OnvifDeviceInfo :=
  mkDeviceInfo (extract_first_text xml "Manufacturer") (extract_first_text xml "Model")
    (extract_first_text xml "FirmwareVersion") (extract_first_text xml "SerialNumber") (extract_first_text xml "HardwareId").
Definition parse_services (xml : str) : list OnvifServiceInfo := sv_found (foldl services_step services_start (read_events xml)).
Definition parse_capabilities (xml : str) : OnvifCapabilitiesSummary :=
  foldl capabilities_step (mkCaps false false false false false false) (read_events xml).
Definition parse_profiles (xml : str) : list OnvifMediaProfile := pf_found (foldl profiles_step profiles_start (read_events xml)).
Definition parse_video_encoder_configurations (xml : str) : list (OnvifVideoEncoderConfiguration F) :=
  ve_found (foldl encoders_step encoders_start (read_events xml)).
Definition parse_event_properties (xml : str) : OnvifEventsSummary :=
  mkEvents
    ((fun value => eq_ignore_ascii_case value (lit "true") || bool_decide (value = lit "1"))
       <$> extract_first_text xml "FixedTopicSet")
    (collect_texts xml ["TopicNamespaceLocation"]%string) (collect_texts xml ["TopicExpressionDialect"]%string)
    (collect_texts xml ["MessageContentFilterDialect"]%string).
Definition parse_video_analytics_config_token (xml : str) : option str := analytics_token_from (read_events xml).
Definition parse_motion_region_rule_target (xml : str) : option OnvifMotionRegionSummary :=
  rule_target_from rule_start (read_events xml).
End parsers.

(** ** The cameras that can be probed *)
Section cameras.
Variable m : vars.
Definition onvif_prefix (i : Z) : str := lit "CAM" ++ dec i ++ lit "_ONVIF_".
Inductive onvif_env_error := MissingUser (slot : option Z) | MissingPass (slot : option Z).
Definition service_url_of (host : str) (port : Z) : str := lit "http://" ++ host ++ lit ":" ++ dec port ++ lit "/onvif/service".
Definition onvif_port (k : str) : Z := default 2020 (runtime_var k m ?> parse_u16).
(** The camera of a slot; [Ok None]: no host. *)
Definition load_probe_slot (i : Z) : outcome onvif_env_error (option OnvifProbeCameraConfig) :=
  match non_blank (runtime_var (onvif_prefix i ++ lit "HOST") m) with
  | None => mret None
  | Some host =>
      let port := onvif_port (onvif_prefix i ++ lit "PORT") in
      username ← ok_or (runtime_var (onvif_prefix i ++ lit "USER") m) (MissingUser (Some i));
      password ← ok_or (runtime_var (onvif_prefix i ++ lit "PASS") m) (MissingPass (Some i));
      let camera_id := default (lit "cam-" ++ dec i) (runtime_var (lit "CAM" ++ dec i ++ lit "_CAMERA_ID") m) in
      mret (Some (mkProbeCamera camera_id (service_url_of host port) username password))
  end.
Fixpoint load_slots {A} (load : Z -> outcome onvif_env_error (option A)) (slots : list Z) : outcome onvif_env_error (list A) :=
  match slots with
  | [] => mret []
  | i :: slots => cam ← load i; cams ← load_slots load slots; mret (option_list cam ++ cams)
  end.
Definition global_camera_id : str :=
  default (lit "unknown-camera") (or_else (runtime_var (lit "CAMERA_ID") m) (runtime_var (lit "CAM1_CAMERA_ID") m)).
Definition load_onvif_probe_cameras_from_env : outcome onvif_env_error (list OnvifProbeCameraConfig) :=
  cams ← load_slots load_probe_slot [1; 2; 3; 4];
  match cams with
  | _ :: _ => mret cams
  | [] =>
      match non_blank (runtime_var (lit "ONVIF_HOST") m) with
      | None => mret []
      | Some host =>
          let port := onvif_port (lit "ONVIF_PORT") in
          username ← ok_or (runtime_var (lit "ONVIF_USER") m) (MissingUser None);
          password ← ok_or (runtime_var (lit "ONVIF_PASS") m) (MissingPass None);
          mret [mkProbeCamera global_camera_id (service_url_of host port) username password]
      end
  end.
End cameras.

(** ** The probe *)
Definition DEVICE_NAMESPACE := "http://www.onvif.org/ver10/device/wsdl"%string.
Definition MEDIA_NAMESPACE := "http://www.onvif.org/ver10/media/wsdl"%string.
Definition EVENTS_NAMESPACE := "http://www.onvif.org/ver10/events/wsdl"%string.
Definition PTZ_NAMESPACE := "http://www.onvif.org/ver20/ptz/wsdl"%string.
Definition ANALYTICS_NAMESPACE := "http://www.onvif.org/ver20/analytics/wsdl"%string.

Section probe.
Context {W F : Type} `{SoapHttp W} `{Entropy W} `{Sha1} `{Base64} `{StatusText} `{XmlReader} `{ParseF64 F}.
Abbreviation M := (Prelude.st W str).

Definition soap_envelope (to action security body : str) : str :=
  soap_envelope_with [("tds", DEVICE_NAMESPACE); ("trt", MEDIA_NAMESPACE); ("tev", EVENTS_NAMESPACE); ("tptz", PTZ_NAMESPACE);
    ("tt", SCHEMA_NAMESPACE)]%string
    (NL ++ lit "    ") (NL ++ lit "  ") to action security body.
Definition soap_post (url action xml : str) : M str := fun w =>
  match soap_http url action xml w with
  | (w, inl e) => (w, Err (http_text e))
  | (w, inr r) =>
      let text := match soap_text r with inr t => t | inl e => lit "<<failed to read body: " ++ e ++ lit ">>" end in
      (w, if is_success_status (soap_status r) then Ok text else Err (http_failure (soap_status r) text))
  end.
Definition call_operation (service_url username password : str) (namespace operation : String.string) (body : str) : M str := fun w =>
  let action := lit namespace ++ lit "/" ++ lit operation in
  let '(w, security) := wsse_header username password w in
  soap_post service_url action (soap_envelope service_url action security body) w.

(** An operation that may fail: the failure is noted. *)
Abbreviation P := (Prelude.st (W * list OnvifServiceError) str).
Definition capture_optional (service operation : String.string) (call : M str) : P (option str) := fun '(w, errors) =>
  match call w with
  | (w, Ok xml) => ((w, errors), Ok (Some xml))
  | (w, Err error) => ((w, errors ++ [mkServiceError (lit service) (lit operation) error]), Ok None)
  | (w, Panic) => ((w, errors), Panic)
  end.
Definition noted : P (list OnvifServiceError) := fun s => (s, Ok s.2).
Definition required (call : M str) : P str := fun '(w, errors) => let '(w, r) := call w in ((w, errors), r).

Section camera.
Variable cam : OnvifProbeCameraConfig.
Definition ask (url : str) (namespace operation : String.string) (body : str) : M str :=
  call_operation url (pc_username cam) (pc_password cam) namespace operation body.

Definition no_region (failed : option bool) (why : String.string) : OnvifMotionRegionSummary :=
  mkRegionSummary false failed (Some (lit why)) None None None None.
Definition probe_motion_region_support (media_url analytics_url : str) : P OnvifMotionRegionSummary :=
  profiles_xml ← capture_optional "media" "GetProfiles" (ask media_url MEDIA_NAMESPACE "GetProfiles" (lit "<trt:GetProfiles/>"));
  match profiles_xml with
  | None => mret (no_region (Some true) "Failed to load ONVIF media profiles for motion region probing")
  | Some profiles_xml =>
      match parse_video_analytics_config_token profiles_xml with
      | None => mret (no_region None "Camera exposes ONVIF media profiles but no VideoAnalyticsConfiguration token was found")
      | Some config_token =>
          rules_xml ← capture_optional "analytics" "GetRules"
            (ask analytics_url ANALYTICS_NAMESPACE "GetRules"
               (lit "<tan:GetRules><tan:ConfigurationToken>" ++ xml_escape config_token ++
                lit "</tan:ConfigurationToken></tan:GetRules>"));
          match rules_xml with
          | None => mret (no_region (Some true) "Failed to load ONVIF analytics rules for motion region probing")
          | Some rules_xml =>
              mret (default (no_region None
                "Camera exposes ONVIF analytics config but no writable motion region polygon rule was found")
                (parse_motion_region_rule_target rules_xml))
          end
      end
  end.

Definition probe_media (url : str) : P (option (OnvifMediaSummary F)) :=
  profiles_xml ← capture_optional "media" "GetProfiles" (ask url MEDIA_NAMESPACE "GetProfiles" (lit "<trt:GetProfiles/>"));
  encoders_xml ← capture_optional "media" "GetVideoEncoderConfigurations"
    (ask url MEDIA_NAMESPACE "GetVideoEncoderConfigurations" (lit "<trt:GetVideoEncoderConfigurations/>"));
  mret (match profiles_xml, encoders_xml with
        | None, None => None
        | _, _ => Some (mkMedia (default [] (parse_profiles <$> profiles_xml))
                          (default [] (parse_video_encoder_configurations <$> encoders_xml)))
        end).
Definition probe_events (url : str) : P (option OnvifEventsSummary) :=
  events_xml ← capture_optional "events" "GetEventProperties"
    (ask url EVENTS_NAMESPACE "GetEventProperties" (lit "<tev:GetEventProperties/>"));
  mret (parse_event_properties <$> events_xml).
Definition probe_ptz (url : str) : P (option OnvifPtzSummary) :=
  nodes_xml ← capture_optional "ptz" "GetNodes" (ask url PTZ_NAMESPACE "GetNodes" (lit "<tptz:GetNodes/>"));
  configs_xml ← capture_optional "ptz" "GetConfigurations"
    (ask url PTZ_NAMESPACE "GetConfigurations" (lit "<tptz:GetConfigurations/>"));
  mret (match nodes_xml, configs_xml with
        | None, None => None
        | _, _ => Some (mkPtz
            (default 0%nat ((fun xml => count_elements xml ["PTZNode"]%string) <$> nodes_xml))
            (default 0%nat ((fun xml => count_elements xml ["PTZConfiguration"; "Configurations"]%string) <$> configs_xml)))
        end).

(** A service is asked when the capabilities or the services name it. *)
Definition when_offered {T : Type} (capability : bool) (key : String.string) (xaddrs : gmap str str) (probe : str -> P (option T))
    : P (option T) :=
  if capability || bool_decide (is_Some (xaddrs !! lit key))
  then probe (default (service_url cam) (xaddrs !! lit key)) else mret None.

Definition probe_report : P (OnvifProbeReport F) :=
  device_xml ← required (ask (service_url cam) DEVICE_NAMESPACE "GetDeviceInformation" (lit "<tds:GetDeviceInformation/>"));
  services_xml ← required (ask (service_url cam) DEVICE_NAMESPACE "GetServices"
    (lit "<tds:GetServices><tds:IncludeCapability>true</tds:IncludeCapability></tds:GetServices>"));
  capabilities_xml ← required (ask (service_url cam) DEVICE_NAMESPACE "GetCapabilities"
    (lit "<tds:GetCapabilities><tds:Category>All</tds:Category></tds:GetCapabilities>"));
  let services := parse_services services_xml in
  let capabilities := parse_capabilities capabilities_xml in
  let xaddrs := collect_service_xaddrs services (service_url cam) in
  media ← when_offered (cap_media capabilities) "media" xaddrs probe_media;
  events ← when_offered (cap_events capabilities) "events" xaddrs probe_events;
  ptz ← when_offered (cap_ptz capabilities) "ptz" xaddrs probe_ptz;
  region ← when_offered (cap_analytics capabilities) "analytics" xaddrs (fun analytics_url =>
    summary ← probe_motion_region_support (default (service_url cam) (xaddrs !! lit "media")) analytics_url;
    mret (Some summary));
  errors ← noted;
  mret (mkReport (parse_device_information device_xml) services capabilities media events ptz region errors).
Definition run_onvif_capability_probe (w : W) : W * outcome str (OnvifProbeReport F) :=
  let '((w, _), r) := probe_report (w, []) in (w, r).
End camera.
End probe.
