(* ===== verification/OnvifNight.v ===== *)
(** * Night vision of ONVIF cameras ([onvif/onvif_night_vision.rs])

    The mode of a camera's configuration is sent to the device: its imaging
    and media services are looked up, then a video source, then the mode is
    set.  XML is the event stream of [Xml], requests are those of [Soap]. *)
From S2P Require Import Prelude Str Sdp Config Xml Soap Probe OnvifProbe.

Inductive NightVisionMode := Auto | Day | Night.
Definition from_runtime_value (value : str) : option NightVisionMode :=
  let value := trim value in
  if is_named value "auto" then Some Auto
  else if is_named value "day" then Some Day
  else if is_named value "night" then Some Night
  else None.
Definition as_ir_cut_filter (m : NightVisionMode) : str :=
  match m with Auto => lit "Auto" | Day => lit "Off" | Night => lit "On" end.
Definition as_config_value (m : NightVisionMode) : str :=
  match m with Auto => lit "auto" | Day => lit "day" | Night => lit "night" end.

Record OnvifNightVisionCameraConfig := mkNightCamera {
  nc_camera_id : str; nc_service_url : str; nc_username : str; nc_password : str; nc_mode : NightVisionMode }.

(** ** The cameras *)
Section cameras.
Variable m : vars.
Definition load_night_slot (i : Z) : outcome onvif_env_error (option OnvifNightVisionCameraConfig) :=
  let host_and_mode :=
    host ← non_blank (runtime_var (onvif_prefix i ++ lit "HOST") m);
    mode_raw ← runtime_var (onvif_prefix i ++ lit "NIGHT_VISION_MODE") m;
    mode ← from_runtime_value mode_raw;
    Some (host, mode) in
  match host_and_mode with
  | None => mret None
  | Some (host, mode) =>
      let port := onvif_port m (onvif_prefix i ++ lit "PORT") in
      username ← ok_or (runtime_var (onvif_prefix i ++ lit "USER") m) (MissingUser (Some i));
      password ← ok_or (runtime_var (onvif_prefix i ++ lit "PASS") m) (MissingPass (Some i));
      let camera_id := default (lit "cam-" ++ dec i) (runtime_var (lit "CAM" ++ dec i ++ lit "_CAMERA_ID") m) in
      mret (Some (mkNightCamera camera_id (service_url_of host port) username password mode))
  end.
Definition load_onvif_night_vision_cameras_from_env : outcome onvif_env_error (list OnvifNightVisionCameraConfig) :=
  cameras ← load_slots load_night_slot [1; 2; 3; 4];
  match cameras with
  | _ :: _ => mret cameras
  | [] =>
      let host_and_mode :=
        host ← non_blank (runtime_var (lit "ONVIF_HOST") m);
        mode_raw ← runtime_var (lit "ONVIF_NIGHT_VISION_MODE") m;
        mode ← from_runtime_value mode_raw;
        Some (host, mode) in
      match host_and_mode with
      | None => mret []
      | Some (host, mode) =>
          let port := onvif_port m (lit "ONVIF_PORT") in
          username ← ok_or (runtime_var (lit "ONVIF_USER") m) (MissingUser None);
          password ← ok_or (runtime_var (lit "ONVIF_PASS") m) (MissingPass None);
          mret [mkNightCamera (global_camera_id m) (service_url_of host port) username password mode]
      end
  end.
End cameras.

(** ** What is read from the answers

    A text that cannot be unescaped ends a query without a result. *)
Definition service_matches (namespace : option str) (service_kind : String.string) : bool :=
  match namespace with
  | None => false
  | Some namespace =>
      let lower := map ascii_lower namespace in
      if is_named (lit service_kind) "imaging" then contains (lit "/imaging/wsdl") lower
      else if is_named (lit service_kind) "media" then contains (lit "/media/wsdl") lower
      else false
  end.

Record endpoint_state := mkEndpointState {
  in_service : bool; current_tag : option str; ep_namespace : option str; ep_xaddr : option str }.
Definition endpoint_start : endpoint_state := mkEndpointState false None None None.
Fixpoint service_endpoint_from (kind : String.string) (s : endpoint_state) (es : list XmlEvent) : option str :=
  match es with
  | [] => None
  | Start tag :: es =>
      let name := tag_name tag in
      service_endpoint_from kind
        (if is_named name "Service" then mkEndpointState true (current_tag s) None None
         else if in_service s then mkEndpointState true (Some name) (ep_namespace s) (ep_xaddr s)
         else s) es
  | Text text :: es =>
      if negb (in_service s) then service_endpoint_from kind s es
      else
        match text with
        | None => None
        | Some value =>
            service_endpoint_from kind
              (match current_tag s with
               | Some tag =>
                   if is_named tag "Namespace" then mkEndpointState true (current_tag s) (Some value) (ep_xaddr s)
                   else if is_named tag "XAddr" then mkEndpointState true (current_tag s) (ep_namespace s) (Some value)
                   else s
               | None => s
               end) es
        end
  | End name :: es =>
      if is_named (local_name name) "Service" then
        if service_matches (ep_namespace s) kind then non_blank (ep_xaddr s)
        else service_endpoint_from kind endpoint_start es
      else service_endpoint_from kind (mkEndpointState (in_service s) None (ep_namespace s) (ep_xaddr s)) es
  | _ :: es => service_endpoint_from kind s es
  end.

Fixpoint source_token_from (capture_text : bool) (es : list XmlEvent) : option str :=
  match es with
  | [] => None
  | Start tag :: es => source_token_from (is_named (tag_name tag) "SourceToken") es
  | Text text :: es =>
      if capture_text then
        match text with
        | None => None
        | Some value => if bool_decide (trim value = []) then source_token_from capture_text es else Some (trim value)
        end
      else source_token_from capture_text es
  | End _ :: es => source_token_from false es
  | _ :: es => source_token_from capture_text es
  end.

Record fault_state := mkFaultState {
  in_fault : bool; fault_tag : option str; fault_reason : option str; fault_code : option str }.
Definition fault_start : fault_state := mkFaultState false None None None.
Definition fault_text (value : str) (s : fault_state) : fault_state :=
  match fault_tag s with
  | Some tag =>
      if (is_named tag "Text" || is_named tag "faultstring") && bool_decide (fault_reason s = None) then
        mkFaultState (in_fault s) (fault_tag s) (Some value) (fault_code s)
      else if (is_named tag "Value" || is_named tag "faultcode") && bool_decide (fault_code s = None) then
        mkFaultState (in_fault s) (fault_tag s) (fault_reason s) (Some value)
      else s
  | None => s
  end.
Fixpoint fault_reason_from (s : fault_state) (es : list XmlEvent) : option str :=
  match es with
  | [] => None
  | Start tag :: es =>
      let name := tag_name tag in
      fault_reason_from
        (if in_fault s || is_named name "Fault" then mkFaultState true (Some name) (fault_reason s) (fault_code s) else s) es
  | Text text :: es =>
      if negb (in_fault s) then fault_reason_from s es
      else
        match text with
        | None => None
        | Some value => fault_reason_from (if bool_decide (trim value = []) then s else fault_text value s) es
        end
  | End name :: es =>
      if is_named (local_name name) "Fault" then
        or_else (fault_reason s) (or_else (fault_code s) (Some (lit "unknown SOAP fault")))
      else fault_reason_from (mkFaultState (in_fault s) None (fault_reason s) (fault_code s)) es
  | _ :: es => fault_reason_from s es
  end.

Section apply.
Context {W : Type} `{SoapHttp W} `{Entropy W} `{Sha1} `{Base64} `{StatusText} `{XmlReader}.
Abbreviation M := (Prelude.st W str).

Definition parse_service_endpoint (xml : str) (kind : String.string) : option str :=
  service_endpoint_from kind endpoint_start (read_events xml).
Definition parse_first_video_source_token (xml : str) : option str := source_token_from false (read_events xml).
Definition soap_fault_reason (xml : str) : option str := fault_reason_from fault_start (read_events xml).

Definition IMAGING_NAMESPACE := "http://www.onvif.org/ver20/imaging/wsdl"%string.
Definition soap_envelope (to action security body : str) : str :=
  soap_envelope_with [("tds", DEVICE_NAMESPACE); ("trt", MEDIA_NAMESPACE); ("timg", IMAGING_NAMESPACE); ("tt", SCHEMA_NAMESPACE)]%string [] [] to action security body.
Definition soap_call (url username password action body : str) : M str := fun w =>
  let '(w, security) := wsse_header username password w in
  match soap_http url action (soap_envelope url action security body) w with
  | (w, inl e) => (w, Err (http_text e))
  | (w, inr r) =>
      let text := match soap_text r with inr t => t | inl _ => [] end in
      (w, if is_success_status (soap_status r) then
            match soap_fault_reason text with
            | Some reason => Err (lit "SOAP fault: " ++ reason)
            | None => Ok text
            end
          else Err (http_failure (soap_status r) text))
  end.

Definition build_set_imaging_settings_body (video_source_token : str) (mode : NightVisionMode) : str :=
  lit "<timg:SetImagingSettings><timg:VideoSourceToken>" ++ xml_escape video_source_token ++
  lit "</timg:VideoSourceToken><timg:ImagingSettings><tt:IrCutFilter>" ++ as_ir_cut_filter mode ++
  lit "</tt:IrCutFilter></timg:ImagingSettings><timg:ForcePersistence>true</timg:ForcePersistence></timg:SetImagingSettings>".

Definition apply_night_vision_mode (camera : OnvifNightVisionCameraConfig) : M unit :=
  let call url action body := soap_call url (nc_username camera) (nc_password camera) action body in
  services_xml ← call (nc_service_url camera) (lit "http://www.onvif.org/ver10/device/wsdl/GetServices")
    (lit "<tds:GetServices><tds:IncludeCapability>true</tds:IncludeCapability></tds:GetServices>");
  let media_url := default (nc_service_url camera) (parse_service_endpoint services_xml "media") in
  let imaging_url := default (nc_service_url camera) (parse_service_endpoint services_xml "imaging") in
  profiles_xml ← call media_url (lit "http://www.onvif.org/ver10/media/wsdl/GetProfiles") (lit "<trt:GetProfiles/>");
  video_source_token ← lift_outcome (ok_or (parse_first_video_source_token profiles_xml)
    (lit "GetProfiles returned no VideoSourceConfiguration SourceToken"));
  _ ← call imaging_url (lit "http://www.onvif.org/ver20/imaging/wsdl/SetImagingSettings")
    (build_set_imaging_settings_body video_source_token (nc_mode camera));
  mret tt.

(** The outcome for every camera is only logged. *)
Fixpoint apply_all (cameras : list OnvifNightVisionCameraConfig) (w : W) : W * list (outcome str unit) :=
  match cameras with
  | [] => (w, [])
  | camera :: cameras =>
      let '(w, r) := apply_night_vision_mode camera w in
      let '(w, rs) := apply_all cameras w in (w, r :: rs)
  end.
Definition run_onvif_night_vision_sync_once (m : vars) (w : W) : W * outcome onvif_env_error (list (outcome str unit)) :=
  match load_onvif_night_vision_cameras_from_env m with
  | Ok cameras => let '(w, rs) := apply_all cameras w in (w, Ok rs)
  | Err e => (w, Err e)
  | Panic => (w, Panic)
  end.
End apply.
