(* ===== verification/OnvifRegion.v ===== *)
(** * Motion regions of ONVIF cameras ([onvif/onvif_motion_region.rs])

    The polygon of a camera's configuration replaces the polygon of a rule, or
    of an analytics module, of the device.  [Element] is xmltree's type;
    reading and writing it, JSON and floats are parameters. *)
From S2P Require Import Prelude Str Sdp Config Xml Soap Probe OnvifProbe OnvifNight.

(** ** XML trees *)
Inductive XMLNode (E : Type) := NElement (e : E) | NText (t : str) | NOther.
Arguments NElement {E}.
Arguments NText {E}.
Arguments NOther {E}.
(** The prefix, the namespace and the declarations of an element: kept, never
    looked at. *)
Record Qualifier := mkQualifier { q_prefix : option str; q_namespace : option str; q_namespaces : option (list (str * str)) }.
#[local] Unset Elimination Schemes.
Inductive Element :=
| mkElement (qualifier : Qualifier) (name : str) (attributes : gmap str str) (children : list (XMLNode Element)).
#[local] Set Elimination Schemes.
Definition el_name (e : Element) : str := match e with mkElement _ n _ _ => n end.
Definition el_attributes (e : Element) : gmap str str := match e with mkElement _ _ a _ => a end.
Definition el_children (e : Element) : list (XMLNode Element) := match e with mkElement _ _ _ c => c end.
(** [Element::new] *)
Definition new_element (name : str) (attributes : gmap str str) : Element :=
  mkElement (mkQualifier None None None) name attributes [].
Definition el_attribute (k : String.string) (e : Element) : option str := el_attributes e !! lit k.

(** [Element::parse] and [Element::write]: an error, or the value. *)
Class XmlTree := { parse_element : str -> str + Element; write_element : Element -> str + str }.
(** [f64]: its text with six decimals, and [str::parse]. *)
Class F64 (F : Type) := { print6 : F -> str; read_f64 : str -> option F }.

(** [local_name] of a text *)
Definition local_of (name : str) : str := default name (last (split_char 58 name)).
Definition has_local (wanted : String.string) (e : Element) : bool := bool_decide (local_of (el_name e) = lit wanted).
Definition first_some {A B} (f : A -> option B) : list A -> option B :=
  fix go l := match l with [] => None | a :: l => match f a with Some b => Some b | None => go l end end.

Fixpoint descendants_named (wanted : String.string) (el : Element) : list Element :=
  match el with
  | mkElement q name attributes children =>
      (if bool_decide (local_of name = lit wanted) then [mkElement q name attributes children] else []) ++
      flat_map (fun n => match n with NElement e => descendants_named wanted e | _ => [] end) children
  end.
(** The texts directly in an element. *)
Definition own_text (el : Element) : str :=
  concat (map (fun n => match n with NText t => t | _ => [] end) (el_children el)).
Definition first_child_text_by_local_name (el : Element) (wanted : String.string) : option str :=
  first_some (fun n => match n with
    | NElement e => if has_local wanted e then Some (trim (own_text e)) else None
    | _ => None
    end) (el_children el).
Fixpoint descendant_attr_by_local_name (wanted attr : String.string) (el : Element) : option str :=
  match el with
  | mkElement q name attributes children =>
      match (if bool_decide (local_of name = lit wanted) then attributes !! lit attr else None) with
      | Some value => Some value
      | None => first_some (fun n => match n with NElement e => descendant_attr_by_local_name wanted attr e | _ => None end) children
      end
  end.
Fixpoint first_descendant_text_by_local_name (wanted : String.string) (el : Element) : option str :=
  match el with
  | mkElement q name attributes children =>
      match (if bool_decide (local_of name = lit wanted)
             then non_blank (Some (own_text (mkElement q name attributes children))) else None) with
      | Some text => Some (trim text)
      | None => first_some (fun n => match n with NElement e => first_descendant_text_by_local_name wanted e | _ => None end) children
      end
  end.

(** ** Floats *)
(** Zeros at the end of the decimals, and the point without decimals. *)
Definition trim_float_text (rendered : str) : str :=
  let rendered := if bool_decide (46 ∈ rendered) then trim_end_matches 48 rendered else rendered in
  match rev rendered with
  | c :: r => if c =? 46 then rev r else rendered
  | [] => rendered
  end.

Inductive MediaFlavor := Media1 | Media2.
Record ServiceEndpoints := mkEndpoints { analytics_xaddr : str; media_xaddr : str; media_flavor : MediaFlavor }.
Inductive MotionRegionTargetKind := Rule | AnalyticsModule.
Record MotionRegionTarget := mkTarget {
  config_token : str; tg_kind : MotionRegionTargetKind; fragment : Element; tg_name : option str; tg_type : option str }.

Section region.
Context {F : Type} `{F64 F}.
Record MotionRegionPoint := mkPoint { point_x : F; point_y : F }.
Record OnvifMotionRegionCameraConfig := mkRegionCamera {
  rc_camera_id : str; rc_service_url : str; rc_username : str; rc_password : str; rc_enabled : bool;
  rc_points : list MotionRegionPoint }.
Definition trim_float (value : F) : str := trim_float_text (print6 value).

(** ** The polygon of an element: the first one in document order *)
Fixpoint points_of (children : list (XMLNode Element)) : option (list MotionRegionPoint) :=
  match children with
  | [] => Some []
  | NElement e :: children =>
      if has_local "Point" e then
        x ← (el_attribute "x" e ?> read_f64);
        y ← (el_attribute "y" e ?> read_f64);
        points ← points_of children;
        Some (mkPoint x y :: points)
      else points_of children
  | _ :: children => points_of children
  end.
Definition extract_polygon_points (el : Element) : option (list MotionRegionPoint) :=
  polygon ← head (descendants_named "Polygon" el);
  points ← points_of (el_children polygon);
  match points with [] => None | _ => Some points end.

Definition point_node (p : MotionRegionPoint) : XMLNode Element :=
  NElement (new_element (lit "tt:Point")
    (<[lit "y" := trim_float (point_y p)]> (<[lit "x" := trim_float (point_x p)]> ∅))).
Fixpoint set_polygon_points (points : list MotionRegionPoint) (el : Element) : Element * bool :=
  match el with
  | mkElement q name attributes children =>
      if bool_decide (local_of name = lit "Polygon") then (mkElement q name attributes (map point_node points), true)
      else
        let '(children, found) :=
          (fix go (children : list (XMLNode Element)) : list (XMLNode Element) * bool :=
             match children with
             | [] => ([], false)
             | NElement e :: children =>
                 let '(e, found) := set_polygon_points points e in
                 if found : bool then (NElement e :: children, true)
                 else let '(children, found) := go children in (NElement e :: children, found)
             | n :: children => let '(children, found) := go children in (n :: children, found)
             end) children in
        (mkElement q name attributes children, found)
  end.

(** ** What is read from the answers *)
Definition motion_region_target (token : str) (kind : MotionRegionTargetKind) (el : Element) : option MotionRegionTarget :=
  target_type ← el_attribute "Type" el;
  if negb (contains (lit "motionregion") (map ascii_lower target_type)) then None
  else
    _ ← extract_polygon_points el;
    Some (mkTarget token kind el (el_attribute "Name" el) (Some target_type)).
Definition find_target (token : str) (root : Element) : option MotionRegionTarget :=
  or_else (first_some (motion_region_target token Rule) (descendants_named "Rule" root))
          (first_some (motion_region_target token AnalyticsModule) (descendants_named "AnalyticsModule" root)).

Context `{XmlTree}.
Definition find_motion_region_rule_target (xml token : str) : outcome str (option MotionRegionTarget) :=
  match parse_element xml with inl e => Err e | inr root => Ok (find_target token root) end.

Definition endpoint_step (acc : option str * option str * MediaFlavor) (service : Element)
    : option str * option str * MediaFlavor :=
  let '(analytics, media, flavor) := acc in
  match first_child_text_by_local_name service "Namespace", first_child_text_by_local_name service "XAddr" with
  | Some namespace, Some xaddr =>
      let ns := map ascii_lower namespace in
      let analytics := if contains (lit "/analytics/wsdl") ns then Some xaddr else analytics in
      if contains (lit "/ver20/media/wsdl") ns then (analytics, Some xaddr, Media2)
      else if bool_decide (media = None) && contains (lit "/media/wsdl") ns then (analytics, Some xaddr, Media1)
      else (analytics, media, flavor)
  | _, _ => acc
  end.
Definition discover_services (xml service_url : str) : ServiceEndpoints :=
  let services := match parse_element xml with inr root => descendants_named "Service" root | inl _ => [] end in
  let '(analytics, media, flavor) := foldl endpoint_step (None, None, Media1) services in
  mkEndpoints (default service_url analytics) (default service_url media) flavor.

Definition parse_video_analytics_config_token (xml : str) : outcome str str :=
  match parse_element xml with
  | inl e => Err e
  | inr root =>
      let token el := non_blank (descendant_attr_by_local_name "VideoAnalyticsConfiguration" "token" el) in
      ok_or (or_else (first_some token (descendants_named "Profiles" root)) (token root))
        (lit "GetProfiles returned no VideoAnalyticsConfiguration token")
  end.

Definition soap_fault_reason (xml : str) : option str :=
  match parse_element xml with
  | inl _ => None
  | inr root =>
      fault ← head (descendants_named "Fault" root);
      let part wanted := trim <$> non_blank (first_descendant_text_by_local_name wanted fault) in
      or_else (part "Text"%string) (or_else (part "Reason"%string) (or_else (part "Value"%string)
        (Some (lit "unknown SOAP fault"))))
  end.

Definition build_modify_motion_region_body (target : MotionRegionTarget) (points : list MotionRegionPoint) : outcome str str :=
  let '(fragment, found) := set_polygon_points points (fragment target) in
  bail_if (negb found) (lit "Motion region polygon not found in ONVIF target") ;;
  fragment_xml ← match write_element fragment with inl e => Err e | inr xml => Ok xml end;
  let wrap (operation : str) :=
    lit "<tan:" ++ operation ++ lit "><tan:ConfigurationToken>" ++ xml_escape (config_token target) ++
    lit "</tan:ConfigurationToken>" ++ fragment_xml ++ lit "</tan:" ++ operation ++ lit ">" in
  mret (match tg_kind target with
        | Rule => wrap (lit "ModifyRules")
        | AnalyticsModule => wrap (lit "ModifyAnalyticsModules")
        end).

(** ** The cameras *)
Inductive region_env_error := BadPoints (e : str) | BadOnvif (e : onvif_env_error).
Variable points_of_json : str -> str + list MotionRegionPoint.
Variable m : vars.
Definition onvif_result {A} (r : outcome onvif_env_error A) : outcome region_env_error A :=
  match r with Ok a => Ok a | Err e => Err (BadOnvif e) | Panic => Panic end.
Definition parse_motion_region_points (raw : str) : outcome region_env_error (list MotionRegionPoint) :=
  match points_of_json raw with inl e => Err (BadPoints e) | inr points => Ok points end.
Definition load_region_slot (i : Z) : outcome region_env_error (option OnvifMotionRegionCameraConfig) :=
  match non_blank (runtime_var (onvif_prefix i ++ lit "HOST") m),
        runtime_var (onvif_prefix i ++ lit "MOTION_REGION_POINTS") m with
  | Some host, Some points_raw =>
      let enabled := runtime_bool (onvif_prefix i ++ lit "MOTION_DETECTION_ENABLED") false m in
      points ← parse_motion_region_points points_raw;
      let port := onvif_port m (onvif_prefix i ++ lit "PORT") in
      username ← onvif_result (ok_or (runtime_var (onvif_prefix i ++ lit "USER") m) (MissingUser (Some i)));
      password ← onvif_result (ok_or (runtime_var (onvif_prefix i ++ lit "PASS") m) (MissingPass (Some i)));
      let camera_id := default (lit "cam-" ++ dec i) (runtime_var (lit "CAM" ++ dec i ++ lit "_CAMERA_ID") m) in
      mret (Some (mkRegionCamera camera_id (service_url_of host port) username password enabled points))
  | _, _ => mret None
  end.
Fixpoint load_region_slots (slots : list Z) : outcome region_env_error (list OnvifMotionRegionCameraConfig) :=
  match slots with
  | [] => mret []
  | i :: slots => cam ← load_region_slot i; cams ← load_region_slots slots; mret (option_list cam ++ cams)
  end.
Definition load_onvif_motion_region_cameras_from_env : outcome region_env_error (list OnvifMotionRegionCameraConfig) :=
  cameras ← load_region_slots [1; 2; 3; 4];
  match cameras with
  | _ :: _ => mret cameras
  | [] =>
      match non_blank (runtime_var (lit "ONVIF_HOST") m), runtime_var (lit "ONVIF_MOTION_REGION_POINTS") m with
      | Some host, Some points_raw =>
          points ← parse_motion_region_points points_raw;
          let enabled := runtime_bool (lit "ONVIF_MOTION_DETECTION_ENABLED") false m in
          let port := onvif_port m (lit "ONVIF_PORT") in
          username ← onvif_result (ok_or (runtime_var (lit "ONVIF_USER") m) (MissingUser None));
          password ← onvif_result (ok_or (runtime_var (lit "ONVIF_PASS") m) (MissingPass None));
          mret [mkRegionCamera (global_camera_id m) (service_url_of host port) username password enabled points]
      | _, _ => mret []
      end
  end.
End region.
Arguments mkPoint {F}.
Arguments point_x {F}.
Arguments point_y {F}.
Arguments MotionRegionPoint : clear implicits.
Arguments OnvifMotionRegionCameraConfig : clear implicits.
Arguments rc_camera_id {F}.
Arguments rc_service_url {F}.
Arguments rc_username {F}.
Arguments rc_password {F}.
Arguments rc_points {F}.

(** ** The exchange with a device *)
Section apply.
Context {W F : Type} `{SoapHttp W} `{Entropy W} `{Sha1} `{Base64} `{StatusText} `{XmlTree} `{F64 F}.
Abbreviation M := (Prelude.st W str).

Definition MEDIA2_NAMESPACE := "http://www.onvif.org/ver20/media/wsdl"%string.
Definition soap_envelope (to action security body : str) : str :=
  soap_envelope_with [("tds", DEVICE_NAMESPACE); ("trt", MEDIA_NAMESPACE); ("tr2", MEDIA2_NAMESPACE);
    ("tan", ANALYTICS_NAMESPACE); ("tt", SCHEMA_NAMESPACE)]%string [] [] to action security body.
Definition soap_call (url username password action body : str) : M str := fun w =>
  let '(w, security) := wsse_header username password w in
  match soap_http url action (soap_envelope url action security body) w with
  | (w, inl e) => (w, Err (http_text e))
  | (w, inr r) =>
      let text := match soap_text r with inr t => t | inl _ => [] end in
      (w, if is_success_status (soap_status r) then
            match soap_fault_reason text with
            | Some reason => Err (lit "SOAP fault: " ++ reason)
            | None => Ok text
            end
          else Err (http_failure (soap_status r) text))
  end.

Definition fetch_video_analytics_config_token (endpoints : ServiceEndpoints) (username password : str) : M str :=
  let '(action, body) := match media_flavor endpoints with
    | Media1 => (lit "http://www.onvif.org/ver10/media/wsdl/GetProfiles", lit "<trt:GetProfiles/>")
    | Media2 => (lit "http://www.onvif.org/ver20/media/wsdl/GetProfiles", lit "<tr2:GetProfiles/>")
    end in
  xml ← soap_call (media_xaddr endpoints) username password action body;
  lift_outcome (parse_video_analytics_config_token xml).
Definition get_rules (analytics_xaddr username password config_token : str) : M str :=
  soap_call analytics_xaddr username password (lit "http://www.onvif.org/ver20/analytics/wsdl/GetRules")
    (lit "<tan:GetRules><tan:ConfigurationToken>" ++ xml_escape config_token ++
     lit "</tan:ConfigurationToken></tan:GetRules>").
Definition get_analytics_modules (analytics_xaddr username password config_token : str) : M str :=
  soap_call analytics_xaddr username password (lit "http://www.onvif.org/ver20/analytics/wsdl/GetAnalyticsModules")
    (lit "<tan:GetAnalyticsModules><tan:ConfigurationToken>" ++ xml_escape config_token ++
     lit "</tan:ConfigurationToken></tan:GetAnalyticsModules>").

Definition modify_action (kind : MotionRegionTargetKind) : str :=
  match kind with
  | Rule => lit "http://www.onvif.org/ver20/analytics/wsdl/ModifyRules"
  | AnalyticsModule => lit "http://www.onvif.org/ver20/analytics/wsdl/ModifyAnalyticsModules"
  end.
(** The rules are asked first, the modules only when no rule has a polygon. *)
Definition motion_region_target_of (camera : OnvifMotionRegionCameraConfig F) (endpoints : ServiceEndpoints) (config_token : str)
    : M MotionRegionTarget :=
  rules_xml ← get_rules (analytics_xaddr endpoints) (rc_username camera) (rc_password camera) config_token;
  found ← lift_outcome (find_motion_region_rule_target (F:=F) rules_xml config_token);
  match found with
  | Some target => mret target
  | None =>
      modules_xml ← get_analytics_modules (analytics_xaddr endpoints) (rc_username camera) (rc_password camera) config_token;
      found ← lift_outcome (find_motion_region_rule_target (F:=F) modules_xml config_token);
      lift_outcome (ok_or found (lit "No ONVIF motion region polygon target found"))
  end.
Definition apply_motion_region (camera : OnvifMotionRegionCameraConfig F) : M unit :=
  services_xml ← soap_call (rc_service_url camera) (rc_username camera) (rc_password camera)
    (lit "http://www.onvif.org/ver10/device/wsdl/GetServices")
    (lit "<tds:GetServices><tds:IncludeCapability>true</tds:IncludeCapability></tds:GetServices>");
  let endpoints := discover_services services_xml (rc_service_url camera) in
  config_token ← fetch_video_analytics_config_token endpoints (rc_username camera) (rc_password camera);
  target ← motion_region_target_of camera endpoints config_token;
  body ← lift_outcome (build_modify_motion_region_body target (rc_points camera));
  _ ← soap_call (analytics_xaddr endpoints) (rc_username camera) (rc_password camera) (modify_action (tg_kind target)) body;
  mret tt.

Record OnvifMotionRegionSyncOutcome := mkRegionOutcome { ro_camera_id : str; ro_status : str; ro_error : option str }.
Definition sync_outcome (camera_id : str) (r : outcome str unit) : outcome str OnvifMotionRegionSyncOutcome :=
  match r with
  | Ok tt => Ok (mkRegionOutcome camera_id (lit "success") None)
  | Err error => Ok (mkRegionOutcome camera_id (lit "failed") (Some (take 500 error)))
  | Panic => Panic
  end.
Fixpoint sync_all (cameras : list (OnvifMotionRegionCameraConfig F)) : M (list OnvifMotionRegionSyncOutcome) :=
  match cameras with
  | [] => mret []
  | camera :: cameras => fun w =>
      let '(w, r) := apply_motion_region camera w in
      match sync_outcome (rc_camera_id camera) r with
      | Ok o => (os ← sync_all cameras; mret (o :: os)) w
      | Err e => (w, Err e)
      | Panic => (w, Panic)
      end
  end.
(** Cameras that cannot be loaded: no outcomes. *)
Definition run_onvif_motion_region_sync_once (points_of_json : str -> str + list (MotionRegionPoint F)) (m : vars)
    : M (list OnvifMotionRegionSyncOutcome) :=
  match load_onvif_motion_region_cameras_from_env points_of_json m with
  | Ok cameras => sync_all cameras
  | Err _ => mret []
  | Panic => fun w => (w, Panic)
  end.
End apply.
