(* ===== verification/RegionFacts.v ===== *)
(** * The motion regions of ONVIF cameras: facts

    The polygon that is written into a target is the one read back from it,
    and every camera of a run is reported. *)
From S2P Require Import Prelude Str Sdp Config Xml Soap Probe OnvifProbe OnvifNight OnvifRegion.

(** Induction over a tree: the claim for the children that are elements. *)
Definition on_element (P : Element -> Prop) (n : XMLNode Element) : Prop :=
  match n with NElement e => P e | _ => True end.
Lemma Element_ind (P : Element -> Prop) :
  (forall q name attributes children, Forall (on_element P) children -> P (mkElement q name attributes children)) ->
  forall el, P el.
Proof.
  intros step. fix IH 1. intros [q name attributes children]. apply step.
  induction children as [|[e| |] children IHc]; constructor; cbn; auto.
Qed.

(** ** The polygon *)
Section polygon.
Context {F : Type} `{F64 F}.

(** The first polygon in document order gets the points, when there is one. *)
Definition polygon_of (points : list (MotionRegionPoint F)) (e : Element) : Prop :=
  el_children e = map point_node points.
Definition replaced (points : list (MotionRegionPoint F)) (before after : list Element) (found : bool) : Prop :=
  if found then before <> [] /\ exists p, head after = Some p /\ polygon_of points p
  else before = [] /\ after = [].

Lemma set_polygon_spec points el :
  let '(el', found) := set_polygon_points points el in
  el_name el' = el_name el /\ el_attributes el' = el_attributes el /\
  replaced points (descendants_named "Polygon" el) (descendants_named "Polygon" el') found.
Proof.
  induction el as [q name attributes children IH] using Element_ind. cbn [set_polygon_points descendants_named].
  destruct (bool_decide (local_of name = lit "Polygon")) eqn:Hn.
  - cbn [el_name el_attributes descendants_named]. rewrite Hn. do 2 (split; [done|]). cbn. split; [done|]. by eexists.
  - match goal with |- context [?f children] => set (go := f) end.
    assert (Hgo : let '(children', found) := go children in
      let named n := match n with NElement e => descendants_named "Polygon" e | _ => [] end in
      replaced points (flat_map named children) (flat_map named children') found).
    { clear Hn. induction IH as [|n children Hn IH IHc]; [done|].
      destruct n as [e|t|]; cbn [go]; fold go.
      2, 3: by destruct (go children) as [children' found].
      cbn in Hn. destruct (set_polygon_points points e) as [e' found]. destruct Hn as (_ & _ & Hr).
      destruct found.
      - cbn. destruct Hr as (Hb & p & Hp & Hpoly). split; [by destruct (descendants_named "Polygon" e)|].
        exists p. by destruct (descendants_named "Polygon" e').
      - destruct (go children) as [children' found]. cbn in Hr |- *. destruct Hr as [-> ->]. apply IHc. }
    destruct (go children) as [children' found]. cbn [el_name el_attributes descendants_named]. rewrite Hn. done.
Qed.

Definition readable (p : MotionRegionPoint F) : Prop :=
  read_f64 (trim_float (point_x p)) = Some (point_x p) /\ read_f64 (trim_float (point_y p)) = Some (point_y p).

Lemma points_of_nodes points : Forall readable points -> points_of (map point_node points) = Some points.
Proof.
  induction 1 as [|[x y] points [Hx Hy] _ IH]; [done|]. cbn [map points_of point_node point_x point_y] in *.
  unfold el_attribute, new_element, el_attributes.
  rewrite (lookup_insert_ne _ (lit "y") (lit "x")) by done. rewrite !lookup_insert_eq. cbn.
  rewrite Hx. cbn. rewrite Hy. cbn. by rewrite IH.
Qed.
End polygon.

(** ** The target *)
Lemma first_some_Some {A B} (f : A -> option B) l b : first_some f l = Some b -> exists a, a ∈ l /\ f a = Some b.
Proof.
  induction l as [|a l IH]; [done|]. cbn. destruct (f a) as [b'|] eqn:Ha.
  - intros [= ->]. exists a. split; [left|done].
  - intros Hl. destruct (IH Hl) as (a' & Ha' & Hb). exists a'. by split; [right|].
Qed.

Section target.
Context {F : Type} `{F64 F}.

Lemma motion_region_target_spec token kind el target :
  motion_region_target (F:=F) token kind el = Some target ->
  fragment target = el /\ tg_kind target = kind /\ config_token target = token /\
  is_Some (extract_polygon_points (F:=F) (fragment target)).
Proof.
  unfold motion_region_target. destruct (el_attribute "Type" el) as [type|]; [|done]. cbn.
  destruct (negb _); [done|]. destruct (extract_polygon_points el) as [points|] eqn:Hp; [|done].
  cbn. intros [= <-]. cbn. rewrite Hp. eauto.
Qed.

Lemma find_target_spec token root target :
  find_target (F:=F) token root = Some target ->
  config_token target = token /\ is_Some (extract_polygon_points (F:=F) (fragment target)).
Proof.
  unfold find_target, or_else. intros Ht.
  destruct (first_some (motion_region_target token Rule) _) as [t|] eqn:Hr.
  - injection Ht as ->. apply first_some_Some in Hr as (el & _ & Ht).
    by apply motion_region_target_spec in Ht as (_ & _ & ? & ?).
  - apply first_some_Some in Ht as (el & _ & Ht). by apply motion_region_target_spec in Ht as (_ & _ & ? & ?).
Qed.

(** The points put into an element that has a polygon are the ones read from it. *)
Lemma set_then_extract points el :
  points <> [] -> Forall readable points -> is_Some (extract_polygon_points (F:=F) el) ->
  exists el', set_polygon_points points el = (el', true) /\ extract_polygon_points el' = Some points.
Proof.
  intros Hne Hread [old Hold]. pose proof (set_polygon_spec points el) as Hspec.
  destruct (set_polygon_points points el) as [el' found]. destruct Hspec as (_ & _ & Hr). exists el'. destruct found.
  - split; [done|]. destruct Hr as (_ & p & Hp & Hpoly). unfold extract_polygon_points. rewrite Hp. cbn.
    rewrite Hpoly, points_of_nodes by done. by destruct points.
  - destruct Hr as [Hnone _]. unfold extract_polygon_points in Hold. by rewrite Hnone in Hold.
Qed.
End target.

(** ** The exchange *)
Section exchange.
Context {W F : Type} `{SoapHttp W} `{Entropy W} `{Sha1} `{Base64} `{StatusText} `{XmlTree} `{F64 F}.
Implicit Types camera : OnvifMotionRegionCameraConfig F.

(** The request that modifies a target. *)
Definition modify_operation (kind : MotionRegionTargetKind) : str :=
  match kind with Rule => lit "ModifyRules" | AnalyticsModule => lit "ModifyAnalyticsModules" end.
Definition modify_request (kind : MotionRegionTargetKind) (token fragment_xml : str) : str :=
  lit "<tan:" ++ modify_operation kind ++ lit "><tan:ConfigurationToken>" ++ xml_escape token ++
  lit "</tan:ConfigurationToken>" ++ fragment_xml ++ lit "</tan:" ++ modify_operation kind ++ lit ">".

Lemma build_modify_ok (target : MotionRegionTarget) (points : list (MotionRegionPoint F)) body :
  build_modify_motion_region_body target points = Ok body ->
  exists fragment' xml, set_polygon_points points (fragment target) = (fragment', true) /\
    write_element fragment' = inr xml /\ body = modify_request (tg_kind target) (config_token target) xml.
Proof.
  unfold build_modify_motion_region_body. destruct (set_polygon_points points (fragment target)) as [fragment' found].
  rewrite bail_bind. destruct found; [|done]. cbn [negb]. destruct (write_element fragment') as [e|xml] eqn:Hw; [done|].
  cbn. intros [= <-]. exists fragment', xml. by destruct (tg_kind target).
Qed.

(** An answer that counts: its status is a success, and it holds no fault. *)
Lemma soap_call_ok url username password action body w w' (text : str) :
  soap_call url username password action body w = (w', Ok text) ->
  exists w1 security r, wsse_header username password w = (w1, security) /\
    soap_http url action (soap_envelope url action security body) w1 = (w', inr r) /\
    is_success_status (soap_status r) = true /\ soap_fault_reason text = None.
Proof.
  unfold soap_call. destruct (wsse_header username password w) as [w1 security].
  destruct (soap_http _ _ _ w1) as [w2 [e|r]] eqn:Hh; [done|]. intros Hr. exists w1, security, r.
  destruct (is_success_status (soap_status r)); [|done].
  destruct (soap_fault_reason _) as [reason|] eqn:Hf; [done|]. by injection Hr as <- <-.
Qed.

Lemma target_of_found camera endpoints token w w' target :
  motion_region_target_of camera endpoints token w = (w', Ok target) ->
  config_token target = token /\ is_Some (extract_polygon_points (F:=F) (fragment target)).
Proof.
  assert (Hfound : forall xml, find_motion_region_rule_target (F:=F) xml token = Ok (Some target) ->
    config_token target = token /\ is_Some (extract_polygon_points (F:=F) (fragment target))).
  { intros xml. unfold find_motion_region_rule_target. destruct (parse_element xml); [done|].
    intros [= Hf]. by eapply find_target_spec. }
  unfold motion_region_target_of. intros Hr. apply st_bind_inv in Hr as (w1 & rules & _ & Hr).
  apply st_bind_inv in Hr as (w2 & found & Hl & Hr). apply lift_outcome_inv in Hl as [-> Hl].
  destruct found as [t|]; [injection Hr as _ ->; by eapply Hfound|].
  apply st_bind_inv in Hr as (w3 & modules & _ & Hr). apply st_bind_inv in Hr as (w4 & found & Hl' & Hr).
  apply lift_outcome_inv in Hl' as [-> Hl']. apply lift_outcome_inv in Hr as [_ Hr].
  destruct found as [t|]; [injection Hr as ->; by eapply Hfound|done].
Qed.


(** ** The run over the cameras *)
Lemma calm_soap url username password action body :
  never_panics (soap_call (W:=W) url username password action body).
Proof.
  intros w. unfold soap_call. destruct (wsse_header username password w) as [w1 security].
  destruct (soap_http _ _ _ w1) as [w2 [e|r]]; [done|]. destruct (is_success_status _); [|done].
  by destruct (soap_fault_reason _).
Qed.
Lemma calm_token xml : not_panic (parse_video_analytics_config_token xml).
Proof. unfold parse_video_analytics_config_token. destruct (parse_element xml); [done|apply calm_ok_or]. Qed.
Lemma calm_find xml token : not_panic (find_motion_region_rule_target (F:=F) xml token).
Proof. unfold find_motion_region_rule_target. by destruct (parse_element xml). Qed.
Lemma calm_build target (points : list (MotionRegionPoint F)) : not_panic (build_modify_motion_region_body target points).
Proof.
  unfold build_modify_motion_region_body. destruct (set_polygon_points _ _) as [f found]. rewrite bail_bind.
  destruct found; [|done]. cbn. by destruct (write_element f).
Qed.
#[local] Hint Resolve calm_soap calm_token calm_find calm_build : calm.
Lemma calm_apply camera : never_panics (apply_motion_region camera).
Proof.
  unfold apply_motion_region, fetch_video_analytics_config_token, motion_region_target_of, get_rules, get_analytics_modules.
  solve_calm; apply calm_bind; auto with calm.
Qed.

(** The reference: one exchange after the other, whatever their results. *)
Fixpoint exchanges (cameras : list (OnvifMotionRegionCameraConfig F)) (w : W) : W * list (outcome str unit) :=
  match cameras with
  | [] => (w, [])
  | camera :: cameras =>
      let '(w, r) := apply_motion_region camera w in
      let '(w, rs) := exchanges cameras w in (w, r :: rs)
  end.
Definition reported camera (r : outcome str unit) (o : OnvifMotionRegionSyncOutcome) : Prop :=
  ro_camera_id o = rc_camera_id camera /\
  match r with
  | Ok _ => ro_status o = lit "success" /\ ro_error o = None
  | Err e => ro_status o = lit "failed" /\
             exists e', ro_error o = Some e' /\ (length e' <= 500)%nat /\ exists rest, e = e' ++ rest
  | Panic => False
  end.

(** A run asks every camera, in order and whatever the others answer, and
    reports each of them once: its success, or its failure with at most 500
    characters of the error. *)
Theorem region_sync_reports cameras w :
  exists outcomes, sync_all cameras w = ((exchanges cameras w).1, Ok outcomes) /\
    Forall3 reported cameras (exchanges cameras w).2 outcomes.
Proof.
  revert w. induction cameras as [|camera cameras IH]; intros w; [by exists []; split; [|constructor]|].
  cbn [sync_all exchanges]. pose proof (calm_apply camera w) as Hcalm.
  destruct (apply_motion_region camera w) as [w1 r]. specialize (IH w1). destruct (exchanges cameras w1) as [w2 rs].
  destruct IH as (os & Hos & Hall). cbn [fst snd] in *.
  assert (Ho : exists o, sync_outcome (rc_camera_id camera) r = Ok o /\ reported camera r o).
  { destruct r as [[]|e|]; [by eexists|eexists; split; [done|]|done].
    split; [done|]. split; [done|]. exists (take 500 e). split; [done|]. split; [rewrite length_take; lia|].
    exists (drop 500 e). symmetry. apply take_drop. }
  destruct Ho as (o & Ho & Hrep). exists (o :: os). rewrite Ho. erewrite st_bind_ok by exact Hos.
  split; [done|by constructor].
Qed.
End exchange.

(** ** A concrete device *)
Module RegionWitness.
(** Requests sent so far; the texts of the answers are names of documents. *)
Definition device := list (str * str).
#[export] Instance device_http : SoapHttp device := fun url action body w =>
  (w ++ [(url, action)],
   inr (mkSoapResponse 200 (inr (default [] (last (split_char 47 action)))))).
#[export] Instance device_entropy : Entropy device :=
  {| random_bytes n w := (w, repeat 0 n); now_secs w := (w, lit "2024-01-01T00:00:00Z") |}.
#[export] Instance device_sha1 : Sha1 := fun b => b.
#[export] Instance device_base64 : Base64 := {| b64_encode b := b; b64_decode s := Some s |}.
#[export] Instance device_status : StatusText := dec.
#[export] Instance whole : F64 Z :=
  {| print6 z := dec z ++ lit ".000000"; read_f64 s := parse_uint 1000 s |}.

Definition node (name : String.string) (attrs : list (String.string * String.string)) (children : list (XMLNode Element)) : XMLNode Element :=
  NElement (mkElement (mkQualifier (Some (lit "tt")) None None) (lit name)
    (list_to_map (map (fun '(k, v) => (lit k, lit v)) attrs)) children).
Definition text_node (name t : String.string) : XMLNode Element := node name [] [NText (lit t)].
Definition document (children : list (XMLNode Element)) : Element :=
  mkElement (mkQualifier None None None) (lit "Envelope") ∅ children.
Definition rules : Element := document [
  node "Rule" [("Name", "line"); ("Type", "tt:LineDetector")]%string
    [node "Polyline" [] [node "Point" [("x", "0"); ("y", "0")]%string []]];
  node "Rule" [("Name", "region"); ("Type", "tt:MotionRegionDetector")]%string
    [NText [LF]; node "MotionRegion" [] [node "Polygon" [] [node "Point" [("x", "5"); ("y", "6")]%string []]]]].
Definition answers : list (String.string * Element) := [
  ("GetServices", document [node "Service" [] [
     text_node "Namespace" "http://www.onvif.org/ver20/analytics/wsdl"; text_node "XAddr" "http://cam/analytics"]]);
  ("GetProfiles", document [node "Profiles" [] [node "VideoAnalyticsConfiguration" [("token", "va1")] []]]);
  ("GetRules", rules)]%string.
Fixpoint depth_first (el : Element) : str :=
  match el with
  | mkElement _ name attributes children =>
      lit "<" ++ name ++ concat (map (fun '(k, v) => lit " " ++ k ++ lit "=" ++ v) (map_to_list attributes)) ++ lit ">" ++
      flat_map (fun n => match n with NElement e => depth_first e | NText t => t | NOther => [] end) children ++
      lit "</" ++ name ++ lit ">"
  end.
#[export] Instance device_trees : XmlTree :=
  {| parse_element s :=
       match List.find (fun a => bool_decide (lit (fst a) = s)) answers with
       | Some a => inr (snd a)
       | None => inl (lit "not a document")
       end;
     write_element el := inr (depth_first el) |}.

Definition camera : OnvifMotionRegionCameraConfig Z :=
  mkRegionCamera (lit "cam-1") (lit "http://cam/onvif/service") (lit "u") (lit "p") true [mkPoint 0 0; mkPoint 1 0; mkPoint 1 1].
Definition sent : device := Eval vm_compute in (apply_motion_region camera []).1.

Lemma applied : apply_motion_region camera [] = (sent, Ok tt).
Proof. vm_compute. reflexivity. Qed.
Lemma points_readable : Forall (readable (F:=Z)) (rc_points camera).
Proof. repeat constructor. Qed.

End RegionWitness.
