(* ===== verification/OnvifFacts.v ===== *)
(** * The answers of ONVIF devices: facts

    What the state machines of [OnvifProbe] and [OnvifNight] read from
    documents whose elements may carry any prefix. *)
From S2P Require Import Prelude Str Sdp Config Xml Soap Probe OnvifProbe OnvifNight.

(** ** Documents *)
Definition qualified (prefix : option bytes) (name : String.string) : bytes :=
  match prefix with Some p => p ++ 58 :: as_bytes (lit name) | None => as_bytes (lit name) end.
(** An ASCII name without a colon. *)
Definition plain (name : String.string) : bool :=
  bool_decide (58 ∉ as_bytes (lit name)) && bool_decide (from_utf8_lossy (as_bytes (lit name)) = lit name).
Definition opening (p : option bytes) (name : String.string) (attrs : list (bytes * option str)) : XmlEvent :=
  Start (mkTag (qualified p name) attrs).
Definition closing (p : option bytes) (name : String.string) : XmlEvent := End (qualified p name).
Definition leaf (p : option bytes) (name : String.string) (text : str) : list XmlEvent :=
  [opening p name []; Text (Some text); closing p name].

Lemma split_char_pieces c p s : c ∉ s -> exists q qs, split_char c (p ++ c :: s) = q :: qs ++ [s].
Proof.
  intros Hs. induction p as [|a p (q & qs & IH)]; cbn [app split_char].
  - exists [], []. by rewrite Z.eqb_refl, split_char_last.
  - rewrite IH. destruct (a =? c); [|by eexists (a :: q), qs]. by exists [], (q :: qs).
Qed.

Lemma local_name_qualified p name : plain name = true -> local_name (qualified p name) = lit name.
Proof.
  intros [Hc Hn]%andb_prop. apply bool_decide_eq_true in Hc, Hn. unfold local_name, qualified.
  destruct p as [p|].
  - destruct (split_char_pieces 58 p _ Hc) as (q & qs & ->). change (q :: qs ++ ?x) with ((q :: qs) ++ x).
    by rewrite last_snoc.
  - by rewrite split_char_last.
Qed.
Lemma tag_name_opening p name attrs : plain name = true -> tag_name (mkTag (qualified p name) attrs) = lit name.
Proof. apply local_name_qualified. Qed.

(** One event whose name is known: [step] is the state machine. *)
Ltac known_names := repeat match goal with
  | |- context [is_named (lit ?a) ?b] => let v := eval vm_compute in (is_named (lit a) b) in change (is_named (lit a) b) with v
  | |- context [bool_decide (lit ?a ∈ ?l)] =>
      let v := eval vm_compute in (bool_decide (lit a ∈ l)) in change (bool_decide (lit a ∈ l)) with v
  end.
#[local] Arguments lit : simpl never.
#[local] Arguments is_named : simpl never.
#[local] Arguments local_name : simpl never.
#[local] Arguments tag_name : simpl never.
#[local] Arguments trim : simpl never.
#[local] Arguments is_motion_region : simpl never.
#[local] Arguments attr_value : simpl never.
#[local] Arguments qualified : simpl never.
#[local] Arguments dec : simpl never.
#[local] Arguments parse_u32 : simpl never.
Ltac compute_event :=
  unfold opening, closing, services_step, profiles_step, encoders_step, profile_tokens, count_point, is_encoder_element; cbv beta iota zeta;
  rewrite ?tag_name_opening, ?local_name_qualified by reflexivity; cbv zeta; known_names; cbn; reflexivity.
Ltac event step :=
  match goal with
  | |- context [step ?s ?e] =>
      lazymatch s with
      | context [step] => fail
      | _ => let He := fresh in eassert (He : step s e = _) by compute_event; rewrite He; clear He
      end
  end.
Ltac events step := cbn [foldl app]; repeat event step.

(** ** Services *)
(** An element that means nothing to [parse_services]. *)
Definition not_in (names : list String.string) (name : str) : Prop := Forall (fun n => is_named name n = false) names.
Definition no_service (e : XmlEvent) : Prop :=
  match e with
  | Start tag => not_in ["Service"; "Namespace"; "XAddr"; "Capabilities"]%string (tag_name tag)
  | Empty tag => not_in ["Capabilities"]%string (tag_name tag)
  | End name => not_in ["Service"]%string (local_name name)
  | _ => True
  end.

(** A service: its fields, the content of its capabilities, anything else. *)
Record ServiceDoc := mkServiceDoc {
  d_namespace : str; d_xaddr : option str; d_capabilities : option (list XmlEvent); d_rest : list XmlEvent }.
Definition service_events (p : option bytes) (d : ServiceDoc) : list XmlEvent :=
  opening p "Service" [] :: leaf p "Namespace" (d_namespace d) ++
  match d_xaddr d with Some x => leaf p "XAddr" x | None => [] end ++
  match d_capabilities d with Some c => opening p "Capabilities" [] :: c ++ [closing p "Capabilities"] | None => [] end ++
  d_rest d ++ [closing p "Service"].
Definition service_doc_ok (d : ServiceDoc) : Prop :=
  Forall no_service (default [] (d_capabilities d)) /\ Forall no_service (d_rest d).
Definition service_read (d : ServiceDoc) : OnvifServiceInfo :=
  mkService (service_key_from_namespace (d_namespace d)) (d_namespace d)
    (x ← d_xaddr d; if bool_decide (trim x = []) then None else Some (trim x))
    (bool_decide (is_Some (d_capabilities d))).

Lemma services_silent es found current :
  Forall no_service es ->
  foldl services_step (mkServicesState found current None) es = mkServicesState found current None.
Proof.
  induction 1 as [|e es He _ IH]; [done|]. cbn [foldl]. rewrite <- IH at 2. f_equal. clear IH.
  destruct e as [tag|tag|t|name|]; cbn in He |- *; unfold not_in in He; rewrite ?Forall_cons in He.
  - destruct He as (-> & -> & -> & -> & _). cbn. by destruct current.
  - destruct He as (-> & _). by destruct current.
  - by destruct current.
  - by destruct He as (-> & _).
  - done.
Qed.

Lemma services_leaf p name found current text :
  name = "Namespace"%string \/ name = "XAddr"%string ->
  foldl services_step (mkServicesState found (Some current) None) (leaf p name text) =
  mkServicesState found (Some (set_service_field (lit name) text current)) None.
Proof. intros [-> | ->]; unfold leaf; events services_step; done. Qed.

Lemma services_caps p found current es :
  Forall no_service es ->
  foldl services_step (mkServicesState found (Some current) None) (opening p "Capabilities" [] :: es ++ [closing p "Capabilities"]) =
  mkServicesState found (Some (mark_capabilities current)) None.
Proof.
  intros Hes. events services_step. rewrite foldl_app, services_silent by done. by events services_step.
Qed.

Lemma set_namespace ns c :
  set_service_field (lit "Namespace") ns c = mkService (service_key_from_namespace ns) ns (xaddr c) (capabilities_present c).
Proof. done. Qed.
Lemma set_xaddr x c :
  set_service_field (lit "XAddr") x c =
  mkService (service c) (sv_namespace c) (if bool_decide (trim x = []) then xaddr c else Some (trim x)) (capabilities_present c).
Proof. unfold set_service_field. known_names. cbv beta iota. by destruct (bool_decide (trim x = [])), c. Qed.

Lemma services_one p d found :
  service_doc_ok d ->
  foldl services_step (mkServicesState found None None) (service_events p d) =
  mkServicesState (found ++ [service_read d]) None None.
Proof.
  destruct d as [ns x caps rest]. intros [Hcaps Hrest]. unfold service_events, service_read.
  cbn [d_namespace d_xaddr d_capabilities d_rest] in *. cbn [foldl]. event services_step.
  rewrite foldl_app, services_leaf, set_namespace by auto.
  destruct x as [x|], caps as [c|]; cbn [default from_option] in *;
    repeat (rewrite foldl_app; first [rewrite services_leaf by auto | rewrite services_caps by done | rewrite services_silent by done | cbn [foldl app]]);
    events services_step; rewrite ?set_xaddr; done.
Qed.

(** Services with other elements before them, between them and after them. *)
Definition services_document (p : option bytes) (ds : list (list XmlEvent * ServiceDoc)) (after : list XmlEvent) : list XmlEvent :=
  flat_map (fun '(before, d) => before ++ service_events p d) ds ++ after.

Lemma services_all p ds found :
  Forall (fun '(before, d) => Forall no_service before /\ service_doc_ok d) ds ->
  foldl services_step (mkServicesState found None None) (flat_map (fun '(before, d) => before ++ service_events p d) ds) =
  mkServicesState (found ++ map (fun d => service_read d.2) ds) None None.
Proof.
  intros Hds. revert found. induction Hds as [|[before d] ds [Hb Hd] _ IH]; intros found; [by rewrite app_nil_r|].
  cbn [flat_map]. rewrite !foldl_app, services_silent, services_one, IH by done. by rewrite <- app_assoc.
Qed.

(** The address of a service is that of the last one with its key. *)
Lemma collect_last services fallback key :
  collect_service_xaddrs services fallback !! key =
  (fun s => default fallback (xaddr s)) <$> last (filter (fun s => service s = key) services).
Proof.
  unfold collect_service_xaddrs. induction services as [|s services IH] using rev_ind; [done|].
  rewrite foldl_app, filter_app. cbn [foldl]. destruct (decide (service s = key)) as [<-|Hne].
  - rewrite lookup_insert_eq, filter_cons, decide_True, filter_nil by done. by rewrite last_snoc.
  - rewrite lookup_insert_ne, IH, filter_cons, decide_False, filter_nil, app_nil_r by done. done.
Qed.


(** ** Profiles *)
Inductive ConfigurationKind := VideoSource | VideoEncoder | OtherConfiguration (name : String.string).
Definition kind_name (k : ConfigurationKind) : String.string :=
  match k with VideoSource => "VideoSourceConfiguration" | VideoEncoder => "VideoEncoderConfiguration" | OtherConfiguration n => n end.
Definition other_profile_names := ["Profiles"; "Name"; "VideoSourceConfiguration"; "VideoEncoderConfiguration"]%string.
Definition no_profile (e : XmlEvent) : Prop :=
  match e with
  | Start tag | Empty tag => not_in other_profile_names (tag_name tag)
  | End name => not_in ["Profiles"]%string (local_name name)
  | _ => True
  end.
Record ConfigurationDoc := mkConfigurationDoc {
  c_kind : ConfigurationKind; c_attrs : list (bytes * option str); c_name : str; c_rest : list XmlEvent }.
Definition configuration_events (p : option bytes) (c : ConfigurationDoc) : list XmlEvent :=
  opening p (kind_name (c_kind c)) (c_attrs c) :: leaf p "Name" (c_name c) ++ c_rest c ++ [closing p (kind_name (c_kind c))].
Definition configuration_ok (c : ConfigurationDoc) : Prop :=
  Forall no_profile (c_rest c) /\
  match c_kind c with OtherConfiguration n => plain n = true /\ not_in other_profile_names (lit n) | _ => True end.
Record ProfileDoc := mkProfileDoc { p_attrs : list (bytes * option str); p_name : str; p_configurations : list ConfigurationDoc }.
Definition profile_events (p : option bytes) (d : ProfileDoc) : list XmlEvent :=
  opening p "Profiles" (p_attrs d) :: leaf p "Name" (p_name d) ++
  flat_map (configuration_events p) (p_configurations d) ++ [closing p "Profiles"].
(** A token attribute; the element it is on does not matter. *)
Definition token_of (attrs : list (bytes * option str)) : option str := find_attribute (lit "token") attrs.
Definition apply_configuration (p : OnvifMediaProfile) (c : ConfigurationDoc) : OnvifMediaProfile :=
  mkProfile (pf_token p) (Some (c_name c))
    (match c_kind c with VideoSource => token_of (c_attrs c) | _ => video_source_token p end)
    (match c_kind c with VideoEncoder => token_of (c_attrs c) | _ => video_encoder_token p end).

Lemma profiles_silent es found current :
  Forall no_profile es ->
  foldl profiles_step (mkProfilesState found current false) es = mkProfilesState found current false.
Proof.
  induction 1 as [|e es He _ IH]; [done|]. cbn [foldl]. rewrite <- IH at 2. f_equal. clear IH.
  destruct e as [tag|tag|t|name|]; cbn in He |- *; unfold not_in, other_profile_names in He; rewrite ?Forall_cons in He; try done.
  - destruct He as (H1 & H2 & H3 & H4 & _). rewrite H1, H2. unfold profile_tokens. rewrite H3, H4. by destruct current.
  - destruct He as (_ & _ & H3 & H4 & _). unfold profile_tokens. by rewrite H3, H4.
  - by destruct t.
  - destruct He as (-> & _). done.
Qed.
Lemma profiles_name p found current text :
  foldl profiles_step (mkProfilesState found (Some current) false) (leaf p "Name" text) =
  mkProfilesState found (Some (set_profile_name text current)) false.
Proof. unfold leaf. by events profiles_step. Qed.

(** The start of a configuration sets a token, or nothing. *)
Definition configuration_token (c : ConfigurationDoc) (q : OnvifMediaProfile) : OnvifMediaProfile :=
  mkProfile (pf_token q) (pf_name q)
    (match c_kind c with VideoSource => token_of (c_attrs c) | _ => video_source_token q end)
    (match c_kind c with VideoEncoder => token_of (c_attrs c) | _ => video_encoder_token q end).
Lemma profiles_opening p found current c :
  configuration_ok c ->
  profiles_step (mkProfilesState found (Some current) false) (opening p (kind_name (c_kind c)) (c_attrs c)) =
  mkProfilesState found (Some (configuration_token c current)) false.
Proof.
  destruct c as [kind attrs name rest]. intros [_ Hk]. unfold configuration_token. cbn [c_kind c_attrs kind_name] in *.
  destruct kind as [| |n]; cbn [kind_name].
  - by event profiles_step.
  - by event profiles_step.
  - destruct Hk as [Hplain Hn]. unfold opening, profiles_step, profile_tokens. rewrite tag_name_opening by done.
    unfold not_in, other_profile_names in Hn. rewrite !Forall_cons in Hn. destruct Hn as (-> & -> & -> & -> & _).
    by destruct current.
Qed.
Lemma profiles_closing p found current c :
  configuration_ok c ->
  profiles_step (mkProfilesState found (Some current) false) (closing p (kind_name (c_kind c))) =
  mkProfilesState found (Some current) false.
Proof.
  destruct c as [[| |n] attrs name rest]; intros [_ Hk]; cbn [c_kind kind_name] in *; [by event profiles_step..|].
  destruct Hk as [Hplain Hn]. unfold closing, profiles_step. rewrite local_name_qualified by done.
  unfold not_in, other_profile_names in Hn. rewrite !Forall_cons in Hn. by destruct Hn as (-> & _).
Qed.
Lemma profiles_configuration p found current c :
  configuration_ok c ->
  foldl profiles_step (mkProfilesState found (Some current) false) (configuration_events p c) =
  mkProfilesState found (Some (apply_configuration current c)) false.
Proof.
  intros Hc. unfold configuration_events. cbn [foldl]. rewrite profiles_opening by done.
  rewrite !foldl_app, profiles_name, profiles_silent by apply Hc. cbn [foldl]. by rewrite profiles_closing.
Qed.
Lemma profiles_configurations p found current cs :
  Forall configuration_ok cs ->
  foldl profiles_step (mkProfilesState found (Some current) false) (flat_map (configuration_events p) cs) =
  mkProfilesState found (Some (foldl apply_configuration current cs)) false.
Proof.
  intros Hcs. revert current. induction Hcs as [|c cs Hc _ IH]; intros current; [done|].
  cbn [flat_map foldl]. by rewrite foldl_app, profiles_configuration, IH.
Qed.

(** What is read of a profile: the tokens of its last configurations of each
    kind, and the name of its last configuration. *)
Definition profile_read (d : ProfileDoc) : OnvifMediaProfile :=
  foldl apply_configuration (mkProfile (token_of (p_attrs d)) (Some (p_name d)) None None) (p_configurations d).
Lemma profiles_one p found d :
  Forall configuration_ok (p_configurations d) ->
  foldl profiles_step (mkProfilesState found None false) (profile_events p d) =
  mkProfilesState (found ++ [profile_read d]) None false.
Proof.
  intros Hd. unfold profile_events, profile_read. cbn [foldl]. event profiles_step.
  rewrite !foldl_app, profiles_name, profiles_configurations by done. by events profiles_step.
Qed.
Lemma profile_read_name d : pf_name (profile_read d) = last (p_name d :: map c_name (p_configurations d)).
Proof.
  destruct d as [attrs name cs]. unfold profile_read. cbn [p_attrs p_name p_configurations].
  induction cs as [|c cs IH] using rev_ind; [done|].
  rewrite foldl_app, map_app. cbn [foldl map]. change (name :: map c_name cs ++ [c_name c]) with ((name :: map c_name cs) ++ [c_name c]).
  by rewrite last_snoc.
Qed.

(** The profiles of a device are read in order, with the tokens of their
    configurations; the name reported is the name of a profile only when it
    has no configurations: each of these has a name, and the last one wins. *)
Theorem profiles_read `{XmlReader} xml p ds :
  read_events xml = flat_map (profile_events p) ds -> Forall (fun d => Forall configuration_ok (p_configurations d)) ds ->
  parse_profiles xml = map profile_read ds /\
  map pf_token (parse_profiles xml) = map (fun d => token_of (p_attrs d)) ds /\
  map pf_name (parse_profiles xml) = map (fun d => last (p_name d :: map c_name (p_configurations d))) ds.
Proof.
  intros Hxml Hds.
  assert (Hall : forall found, foldl profiles_step (mkProfilesState found None false) (flat_map (profile_events p) ds) =
    mkProfilesState (found ++ map profile_read ds) None false).
  { clear Hxml. induction Hds as [|d ds Hd _ IH]; intros found; [by rewrite app_nil_r|].
    cbn [flat_map]. rewrite foldl_app, profiles_one, IH by done. by rewrite <- app_assoc. }
  unfold parse_profiles, profiles_start. rewrite Hxml, Hall. cbn [pf_found app]. split; [done|]. rewrite !map_map. split.
  - apply map_ext. intros [attrs name cs]. unfold profile_read. cbn [p_attrs p_name p_configurations].
    induction cs as [|c cs IH] using rev_ind; [done|]. by rewrite foldl_app.
  - apply map_ext, profile_read_name.
Qed.

(** ** Encoder configurations *)
Section encoders.
Context {F : Type} `{ParseF64 F} `{XmlReader}.

Record EncoderDoc := mkEncoderDoc {
  e_attrs : list (bytes * option str); e_name : str; e_encoding : str; e_width : Z; e_height : Z;
  e_quality : str; e_frame_rate : Z; e_bitrate : Z; e_rest : list XmlEvent }.
Definition no_encoder (e : XmlEvent) : Prop :=
  match e with
  | Start tag => is_encoder_element (tag_name tag) = false /\ tag_name tag ∉ encoder_fields
  | End name => is_encoder_element (local_name name) = false
  | _ => True
  end.
Definition encoder_events (p : option bytes) (d : EncoderDoc) : list XmlEvent :=
  opening p "Configurations" (e_attrs d) :: leaf p "Name" (e_name d) ++ leaf p "Encoding" (e_encoding d) ++
  [opening p "Resolution" []] ++ leaf p "Width" (dec (e_width d)) ++ leaf p "Height" (dec (e_height d)) ++
  [closing p "Resolution"] ++ leaf p "Quality" (e_quality d) ++
  [opening p "RateControl" []] ++ leaf p "FrameRateLimit" (dec (e_frame_rate d)) ++ leaf p "BitrateLimit" (dec (e_bitrate d)) ++
  [closing p "RateControl"] ++ e_rest d ++ [closing p "Configurations"].
Definition u32 (n : Z) : Prop := 0 <= n <= 4294967295.
Definition encoder_doc_ok (d : EncoderDoc) : Prop :=
  u32 (e_width d) /\ u32 (e_height d) /\ u32 (e_frame_rate d) /\ u32 (e_bitrate d) /\ Forall no_encoder (e_rest d).
Definition encoder_read (d : EncoderDoc) : OnvifVideoEncoderConfiguration F :=
  mkEncoder (token_of (e_attrs d)) (Some (e_name d)) (Some (e_encoding d)) (Some (e_width d)) (Some (e_height d))
    (parse_f64 (e_quality d)) (Some (e_frame_rate d)) (Some (e_bitrate d)).

Lemma encoders_silent es (found : list (OnvifVideoEncoderConfiguration F)) current :
  Forall no_encoder es ->
  foldl encoders_step (mkEncodersState found current None) es = mkEncodersState found current None.
Proof.
  induction 1 as [|e es He _ IH]; [done|]. cbn [foldl]. rewrite <- IH at 2. f_equal. clear IH.
  destruct e as [tag|tag|t|name|]; cbn in He |- *; try done.
  - destruct He as [-> Hn]. rewrite bool_decide_false by done. by destruct current.
  - by destruct current.
  - by rewrite He.
Qed.

Lemma encoders_leaf p name (found : list (OnvifVideoEncoderConfiguration F)) current text :
  name ∈ ["Name"; "Encoding"; "Quality"; "Width"; "Height"; "FrameRateLimit"; "BitrateLimit"]%string ->
  foldl encoders_step (mkEncodersState found (Some current) None) (leaf p name text) =
  mkEncodersState found (Some (set_encoder_field (lit name) text current)) None.
Proof.
  intros Hn. rewrite !elem_of_cons, elem_of_nil in Hn. unfold leaf.
  repeat (destruct Hn as [->|Hn]; [by events (encoders_step (F:=F))|]). done.
Qed.
Lemma encoders_nothing p name (found : list (OnvifVideoEncoderConfiguration F)) current :
  name = "Resolution"%string \/ name = "RateControl"%string ->
  foldl encoders_step (mkEncodersState found (Some current) None) [opening p name []] = mkEncodersState found (Some current) None /\
  foldl encoders_step (mkEncodersState found (Some current) None) [closing p name] = mkEncodersState found (Some current) None.
Proof. intros [-> | ->]; split; by events (encoders_step (F:=F)). Qed.
Lemma parse_u32_dec n : u32 n -> parse_u32 (dec n) = Some n.
Proof. apply parse_uint_dec. Qed.
(** One field of a configuration. *)
Ltac one_field :=
  rewrite encoders_leaf by (rewrite !elem_of_cons; tauto);
  match goal with
  | |- context [set_encoder_field (lit ?n) ?v ?c] =>
      let He := fresh in
      eassert (He : set_encoder_field (lit n) v c = _) by
        (unfold set_encoder_field; cbv beta zeta; known_names; cbn -[dec parse_u32]; reflexivity);
      rewrite He; clear He
  end.
Lemma encoders_one p (found : list (OnvifVideoEncoderConfiguration F)) d :
  encoder_doc_ok d ->
  foldl encoders_step (mkEncodersState found None None) (encoder_events p d) =
  mkEncodersState (found ++ [encoder_read d]) None None.
Proof.
  destruct d as [attrs name enc w h q fr br rest]. intros (Hw & Hh & Hf & Hb & Hrest).
  unfold encoder_events, encoder_read.
  cbn [e_attrs e_name e_encoding e_width e_height e_quality e_frame_rate e_bitrate e_rest] in *.
  cbn [foldl]. event (encoders_step (F:=F)). rewrite !foldl_app.
  pose proof (fun c => encoders_nothing p "Resolution" found c (or_introl eq_refl)) as Hr.
  pose proof (fun c => encoders_nothing p "RateControl" found c (or_intror eq_refl)) as Hc.
  repeat first [one_field | rewrite (proj1 (Hr _)) | rewrite (proj2 (Hr _)) | rewrite (proj1 (Hc _)) | rewrite (proj2 (Hc _))].
  rewrite encoders_silent by done. events (encoders_step (F:=F)). by rewrite !parse_u32_dec by done.
Qed.

(** Every encoder configuration a device lists is read back, the numbers that
    fit 32 bits as they were written. *)
Theorem encoders_read xml p ds :
  read_events xml = flat_map (encoder_events p) ds -> Forall encoder_doc_ok ds ->
  parse_video_encoder_configurations xml = map encoder_read ds.
Proof.
  intros Hxml Hds. unfold parse_video_encoder_configurations, encoders_start. rewrite Hxml. clear Hxml.
  change (map encoder_read ds) with ([] ++ map encoder_read ds). generalize (@nil (OnvifVideoEncoderConfiguration F)).
  induction Hds as [|d ds Hd _ IH]; intros found; [by rewrite app_nil_r|].
  cbn [flat_map map]. rewrite foldl_app, encoders_one, IH by done. by rewrite <- app_assoc.
Qed.
End encoders.

(** ** Motion region rules *)
Record RuleDoc := mkRuleDoc { r_attrs : list (bytes * option str); r_body : list XmlEvent }.
Definition no_rule (e : XmlEvent) : Prop :=
  match e with
  | Start tag => is_named (tag_name tag) "Rule" = false
  | End name => is_named (local_name name) "Rule" = false
  | _ => True
  end.
Definition rule_events (p : option bytes) (d : RuleDoc) : list XmlEvent :=
  opening p "Rule" (r_attrs d) :: r_body d ++ [closing p "Rule"].
Definition rules_document (p : option bytes) (ds : list (list XmlEvent * RuleDoc)) (after : list XmlEvent) : list XmlEvent :=
  flat_map (fun '(before, d) => before ++ rule_events p d) ds ++ after.
(** The reference: the points of a rule are counted, and a rule is chosen. *)
Definition is_point (e : XmlEvent) : bool :=
  match e with Start tag | Empty tag => is_named (tag_name tag) "Point" | _ => false end.
Definition points_in (es : list XmlEvent) : nat := length (List.filter is_point es).
Definition rule_attr (d : RuleDoc) (name : String.string) : option str := find_attribute (lit name) (r_attrs d).
Definition usable_rule (d : RuleDoc) : bool :=
  is_motion_region (rule_attr d "Type") && (0 <? points_in (r_body d))%nat.
Definition rule_read (d : RuleDoc) : OnvifMotionRegionSummary :=
  mkRegionSummary true None None (Some (lit "rule")) (rule_attr d "Name") (rule_attr d "Type") (Some (points_in (r_body d))).

Lemma rule_body_spec body b name type k es :
  Forall no_rule body ->
  rule_target_from (mkRuleState b name type k) (body ++ es) =
  rule_target_from (mkRuleState b name type (if b then k + points_in body else k)%nat) es.
Proof.
  intros Hbody. revert k. induction Hbody as [|e body He _ IH]; intros k.
  { cbn. destruct b; [by rewrite Nat.add_0_r|done]. }
  assert (Hp : forall n, rule_target_from (count_point n (mkRuleState b name type k)) (body ++ es) =
    rule_target_from (mkRuleState b name type (if b then k + ((if is_named n "Point" then 1 else 0) + points_in body) else k)%nat) es).
  { intros n. unfold count_point. cbn [in_rule rule_name rule_type points_seen].
    destruct (is_named n "Point"), b; cbn [andb]; rewrite IH; do 2 f_equal; lia. }
  unfold points_in in *. destruct e as [tag|tag|t|n|]; cbn [app rule_target_from no_rule List.filter is_point] in *.
  - rewrite He, Hp. by destruct (is_named (tag_name tag) "Point").
  - rewrite Hp. by destruct (is_named (tag_name tag) "Point").
  - apply IH.
  - rewrite He. apply IH.
  - apply IH.
Qed.

Lemma rule_opening p attrs s es :
  rule_target_from s (opening p "Rule" attrs :: es) =
  rule_target_from
    (if is_motion_region (find_attribute (lit "Type") attrs)
     then mkRuleState true (find_attribute (lit "Name") attrs) (find_attribute (lit "Type") attrs) 0
     else mkRuleState false (rule_name s) (rule_type s) (points_seen s)) es.
Proof.
  unfold opening. cbn [rule_target_from]. cbv zeta. rewrite tag_name_opening by reflexivity. known_names. done.
Qed.
Lemma rule_closing p s es :
  rule_target_from s (closing p "Rule" :: es) =
  if in_rule s then
    if (0 <? points_seen s)%nat then
      Some (mkRegionSummary true None None (Some (lit "rule")) (rule_name s) (rule_type s) (Some (points_seen s)))
    else rule_target_from rule_start es
  else rule_target_from s es.
Proof.
  unfold closing. cbn [rule_target_from]. rewrite local_name_qualified by reflexivity. known_names. done.
Qed.

Lemma rules_none after s : Forall no_rule after -> in_rule s = false -> rule_target_from s after = None.
Proof.
  destruct s as [b name type k]. cbn. intros Hafter ->. rewrite <- (app_nil_r after). by rewrite rule_body_spec.
Qed.

(** C31: the rule reported to the server is the first motion region rule of the
    device that has a point, with its own number of points. *)
Theorem rule_target_first `{XmlReader} xml p ds after :
  read_events xml = rules_document p ds after ->
  Forall (fun '(before, d) => Forall no_rule before /\ Forall no_rule (r_body d)) ds -> Forall no_rule after ->
  parse_motion_region_rule_target xml = rule_read <$> List.find usable_rule (map snd ds).
Proof.
  intros Hxml Hds Hafter. unfold parse_motion_region_rule_target, rules_document in *. rewrite Hxml. clear Hxml.
  assert (Hs : in_rule rule_start = false) by done. revert Hs. generalize rule_start as s.
  induction Hds as [|[before d] ds [Hb Hd] _ IH]; intros s Hs; [by apply rules_none|].
  destruct s as [b name type k]. cbn in Hs. subst b. cbn [flat_map map snd List.find].
  rewrite <- !app_assoc, rule_body_spec by done. unfold rule_events. cbn [app]. rewrite rule_opening, <- app_assoc.
  unfold usable_rule, rule_read, rule_attr. destruct (is_motion_region _) eqn:Hr; cbn [andb].
  - rewrite rule_body_spec by done. cbn [app Nat.add]. rewrite rule_closing. cbn [in_rule points_seen rule_name rule_type].
    destruct (0 <? points_in (r_body d))%nat; [done|]. by apply IH.
  - cbn [rule_name rule_type points_seen]. rewrite rule_body_spec by done. cbn [app]. rewrite rule_closing. cbn [in_rule]. by apply IH.
Qed.

(** ** Faults *)
Definition text_readable (e : XmlEvent) : Prop := match e with Text t => is_Some t | _ => True end.
Definition no_fault (e : XmlEvent) : Prop := match e with Start tag => is_named (tag_name tag) "Fault" = false | _ => True end.
(** A document with a fault whose texts can be read. *)
Definition fault_document (es : list XmlEvent) : Prop :=
  exists p attrs before content after,
    es = before ++ opening p "Fault" attrs :: content ++ closing p "Fault" :: after /\
    Forall no_fault before /\ Forall text_readable content.

Lemma in_fault_text value s : in_fault (fault_text value s) = in_fault s.
Proof. unfold fault_text. by repeat case_match. Qed.
Lemma fault_content p content s after :
  Forall text_readable content -> in_fault s = true ->
  is_Some (fault_reason_from s (content ++ closing p "Fault" :: after)).
Proof.
  assert (Hend : forall s, is_Some (or_else (fault_reason s) (or_else (fault_code s) (Some (lit "unknown SOAP fault"))))).
  { intros s'. destruct (fault_reason s'), (fault_code s'); cbn; eauto. }
  intros Hc. revert s. induction Hc as [|e content He _ IH]; intros s Hs.
  - unfold closing. cbn [app fault_reason_from]. rewrite local_name_qualified by reflexivity. known_names. apply Hend.
  - destruct e as [tag|tag|t|n|]; cbn [app fault_reason_from].
    + apply IH. rewrite Hs. done.
    + by apply IH.
    + rewrite Hs. cbn [negb]. destruct He as [v ->]. apply IH. destruct (bool_decide _); [done|by rewrite in_fault_text].
    + destruct (is_named (local_name n) "Fault"); [apply Hend|by apply IH].
    + by apply IH.
Qed.
Lemma fault_before before es s :
  Forall no_fault before -> (forall s, is_Some (fault_reason_from s es)) ->
  in_fault s = false -> is_Some (fault_reason_from s (before ++ es)).
Proof.
  intros Hb Hes. revert s. induction Hb as [|e before He _ IH]; intros s Hs; [apply Hes|].
  destruct e as [tag|tag|t|n|]; cbn [app fault_reason_from].
  - cbn in He. rewrite Hs, He. by apply IH.
  - by apply IH.
  - rewrite Hs. by apply IH.
  - destruct (is_named _ _); [|by apply IH]. destruct (fault_reason s), (fault_code s); cbn; eauto.
  - by apply IH.
Qed.


(** ** The probe *)
Section probe.
Context {W F : Type} `{SoapHttp W} `{Entropy W} `{Sha1} `{Base64} `{StatusText} `{XmlReader} `{ParseF64 F}.
Abbreviation P := (Prelude.st (W * list OnvifServiceError) str).

(** Steps of a probe that go on whatever the device answers: they add to the
    errors, and their result and what they added satisfy [Q]. *)
Definition goes_on {A} (m : P A) (Q : A -> list OnvifServiceError -> Prop) : Prop :=
  forall w errors, exists w' added a, m (w, errors) = ((w', errors ++ added), Ok a) /\ Q a added.

Lemma goes_on_ret {A} (a : A) (Q : A -> list OnvifServiceError -> Prop) : Q a [] -> goes_on (mret a) Q.
Proof. intros Ha w errors. exists w, [], a. by rewrite app_nil_r. Qed.
Lemma goes_on_bind {A B} (m : P A) (f : A -> P B) Q R :
  goes_on m Q -> (forall a added, Q a added -> goes_on (f a) (fun b more => R b (added ++ more))) -> goes_on (m ≫= f) R.
Proof.
  intros Hm Hf w errors. destruct (Hm w errors) as (w1 & e1 & a & Hr & Ha).
  destruct (Hf a e1 Ha w1 (errors ++ e1)) as (w2 & e2 & b & Hr2 & Hb).
  exists w2, (e1 ++ e2), b. split; [|done]. erewrite st_bind_ok by exact Hr. by rewrite app_assoc.
Qed.
Lemma goes_on_weaken {A} (m : P A) (Q R : A -> list OnvifServiceError -> Prop) :
  goes_on m Q -> (forall a added, Q a added -> R a added) -> goes_on m R.
Proof. intros Hm HQ w errors. destruct (Hm w errors) as (w' & e & a & Hr & Ha). exists w', e, a. auto. Qed.

Lemma calm_post url action xml : never_panics (S:=W) (soap_post url action xml).
Proof.
  intros w. unfold soap_post. destruct (soap_http url action xml w) as [w1 [e|r]]; [done|]. by destruct (is_success_status _).
Qed.
Lemma calm_ask cam url namespace operation body : never_panics (S:=W) (ask cam url namespace operation body).
Proof.
  intros w. unfold ask, call_operation. destruct (wsse_header _ _ w) as [w1 security]. apply calm_post.
Qed.

(** The failure of an optional operation is noted under its service. *)
Definition captured (service : String.string) (r : option str) (added : list OnvifServiceError) : Prop :=
  match r with
  | Some _ => added = []
  | None => exists e, added = [e] /\ se_service e = lit service
  end.
Lemma capture_goes_on service operation (call : Prelude.st W str str) :
  never_panics call -> goes_on (capture_optional service operation call) (captured service).
Proof.
  intros Hcall w errors. unfold capture_optional. specialize (Hcall w). destruct (call w) as [w1 [xml|e|]]; [| |done].
  - exists w1, [], (Some xml). by rewrite app_nil_r.
  - eexists w1, _, None. split; [done|]. by eexists.
Qed.

Definition names_service (service : String.string) (added : list OnvifServiceError) : Prop :=
  exists e, e ∈ added /\ se_service e = lit service.
Lemma names_service_app service a b :
  names_service service a \/ names_service service b -> names_service service (a ++ b).
Proof. intros [(e & He & Hs)|(e & He & Hs)]; exists e; rewrite elem_of_app; tauto. Qed.
Lemma captured_none service added : captured service None added -> names_service service added.
Proof. intros (e & -> & Hs). exists e. split; [left|done]. Qed.

(** A section is missing only when every operation it needs failed. *)
Definition section_or_error {T} (service : String.string) (r : option T) (added : list OnvifServiceError) : Prop :=
  r = None -> names_service service added.

Lemma media_goes_on cam url : goes_on (probe_media (F:=F) cam url) (section_or_error "media").
Proof.
  eapply goes_on_bind; [apply capture_goes_on, calm_ask|]. intros profiles e1 H1'.
  eapply goes_on_bind; [apply capture_goes_on, calm_ask|]. intros encoders e2 H2'.
  apply goes_on_ret. rewrite app_nil_r. destruct profiles, encoders; try done. intros _.
  apply names_service_app. left. by apply captured_none.
Qed.
Lemma events_goes_on cam url : goes_on (probe_events cam url) (section_or_error "events").
Proof.
  eapply goes_on_bind; [apply capture_goes_on, calm_ask|]. intros xml e1 H1'.
  apply goes_on_ret. rewrite app_nil_r. destruct xml; [done|]. intros _. by apply captured_none.
Qed.
Lemma ptz_goes_on cam url : goes_on (probe_ptz cam url) (section_or_error "ptz").
Proof.
  eapply goes_on_bind; [apply capture_goes_on, calm_ask|]. intros nodes e1 H1'.
  eapply goes_on_bind; [apply capture_goes_on, calm_ask|]. intros configs e2 H2'.
  apply goes_on_ret. rewrite app_nil_r. destruct nodes, configs; try done. intros _.
  apply names_service_app. left. by apply captured_none.
Qed.

Definition region_noted (r : OnvifMotionRegionSummary) (added : list OnvifServiceError) : Prop :=
  probe_failed r = Some true -> names_service "media" added \/ names_service "analytics" added.
Lemma region_goes_on cam media_url analytics_url :
  goes_on (probe_motion_region_support cam media_url analytics_url) region_noted.
Proof.
  eapply goes_on_bind; [apply capture_goes_on, calm_ask|]. intros profiles e1 H1'.
  destruct profiles as [profiles|].
  2: { apply goes_on_ret. intros _. left. rewrite app_nil_r. by apply captured_none. }
  destruct (parse_video_analytics_config_token profiles) as [token|]; [|by apply goes_on_ret].
  eapply goes_on_bind; [apply capture_goes_on, calm_ask|]. intros rules e2 H2'.
  destruct rules as [rules|]; apply goes_on_ret.
  - unfold parse_motion_region_rule_target. generalize rule_start as s. unfold region_noted.
    induction (read_events rules) as [|e es IH]; intros s; [done|]. cbn [rule_target_from].
    destruct e as [tag|tag|t|n|]; try apply IH. destruct (_ && _); [|apply IH].
    destruct (0 <? points_seen s)%nat; [done|apply IH].
  - intros _. right. rewrite app_nil_r. apply names_service_app. right. by apply captured_none.
Qed.

(** What a report says of a service: nothing when it is not offered; when it
    is, its section, or the error that keeps it out. *)
Definition section_complete {T} (service : String.string) (offered : bool) (section : option T)
    (errors : list OnvifServiceError) : Prop :=
  if offered then section_or_error service section errors else section = None.
Definition offered (cam : OnvifProbeCameraConfig) (capability : bool) (key : String.string) (services : list OnvifServiceInfo) : bool :=
  capability || bool_decide (is_Some (collect_service_xaddrs services (service_url cam) !! lit key)).

Lemma offered_goes_on {T} cam capability key services (probe : str -> P (option T)) Q :
  (forall url, goes_on (probe url) Q) ->
  goes_on (when_offered cam capability key (collect_service_xaddrs services (service_url cam)) probe)
    (fun section added => if offered cam capability key services then Q section added else section = None).
Proof.
  intros Hp. unfold when_offered, offered. destruct (_ || _); [apply Hp|by apply goes_on_ret].
Qed.

(** The three answers a probe cannot do without. *)
Definition required_answers (cam : OnvifProbeCameraConfig) : Prelude.st W str (str * str * str) :=
  device_xml ← ask cam (service_url cam) DEVICE_NAMESPACE "GetDeviceInformation" (lit "<tds:GetDeviceInformation/>");
  services_xml ← ask cam (service_url cam) DEVICE_NAMESPACE "GetServices"
    (lit "<tds:GetServices><tds:IncludeCapability>true</tds:IncludeCapability></tds:GetServices>");
  capabilities_xml ← ask cam (service_url cam) DEVICE_NAMESPACE "GetCapabilities"
    (lit "<tds:GetCapabilities><tds:Category>All</tds:Category></tds:GetCapabilities>");
  mret (device_xml, services_xml, capabilities_xml).

Definition report_complete (cam : OnvifProbeCameraConfig) (device_xml services_xml capabilities_xml : str)
    (r : OnvifProbeReport F) : Prop :=
  let services := parse_services services_xml in
  let capabilities := parse_capabilities capabilities_xml in
  let complete {T} service capability (section : option T) :=
    section_complete service (offered cam capability service services) section (rp_service_errors r) in
  rp_device r = parse_device_information device_xml /\ rp_services r = services /\ rp_capabilities r = capabilities /\
  complete "media"%string (cap_media capabilities) (rp_media r) /\
  complete "events"%string (cap_events capabilities) (rp_events r) /\
  complete "ptz"%string (cap_ptz capabilities) (rp_ptz r) /\
  (if offered cam (cap_analytics capabilities) "analytics" services
   then exists region, rp_motion_region r = Some region /\ region_noted region (rp_service_errors r)
   else rp_motion_region r = None).

(** The part of a probe after the required answers. *)
Definition optional_part (cam : OnvifProbeCameraConfig) (device_xml services_xml capabilities_xml : str) : P (OnvifProbeReport F) :=
  let services := parse_services services_xml in
  let capabilities := parse_capabilities capabilities_xml in
  let xaddrs := collect_service_xaddrs services (service_url cam) in
  media ← when_offered cam (cap_media capabilities) "media" xaddrs (probe_media cam);
  events ← when_offered cam (cap_events capabilities) "events" xaddrs (probe_events cam);
  ptz ← when_offered cam (cap_ptz capabilities) "ptz" xaddrs (probe_ptz cam);
  region ← when_offered cam (cap_analytics capabilities) "analytics" xaddrs (fun analytics_url =>
    summary ← probe_motion_region_support cam (default (service_url cam) (xaddrs !! lit "media")) analytics_url;
    mret (Some summary));
  errors ← noted;
  mret (mkReport (parse_device_information device_xml) services capabilities media events ptz region errors).

Lemma section_complete_app {T} service o (section : option T) before errors after :
  section_complete service o section errors -> section_complete service o section (before ++ errors ++ after).
Proof.
  unfold section_complete, section_or_error. destruct o; [|done]. intros He Hs.
  apply names_service_app. right. apply names_service_app. left. auto.
Qed.
Lemma region_noted_app region before errors after :
  region_noted region errors -> region_noted region (before ++ errors ++ after).
Proof.
  intros Hn Hf. destruct (Hn Hf); [left|right]; apply names_service_app; right; apply names_service_app; by left.
Qed.

Lemma optional_complete cam d s c w :
  exists w' r, optional_part cam d s c (w, []) = ((w', rp_service_errors r), Ok r) /\ report_complete cam d s c r.
Proof.
  set (services := parse_services s). set (capabilities := parse_capabilities c).
  assert (Hm := offered_goes_on cam (cap_media capabilities) "media" services _ _ (media_goes_on cam)).
  assert (He := offered_goes_on cam (cap_events capabilities) "events" services _ _ (events_goes_on cam)).
  assert (Hp := offered_goes_on cam (cap_ptz capabilities) "ptz" services _ _ (ptz_goes_on cam)).
  assert (Hr := fun media_url => offered_goes_on cam (cap_analytics capabilities) "analytics" services
    (fun analytics_url => summary ← probe_motion_region_support cam media_url analytics_url; mret (Some summary))
    (fun r added => exists region, r = Some region /\ region_noted region added)
    (fun analytics_url => goes_on_bind _ _ _ _ (region_goes_on cam media_url analytics_url)
       (fun region added Hn => goes_on_ret _ _ (ex_intro _ region (conj eq_refl (eq_ind_r _ Hn (app_nil_r _))))))).
  unfold optional_part. fold services capabilities. cbv zeta.
  destruct (Hm w []) as (w1 & e1 & media & Hm1 & Hmq). erewrite st_bind_ok by exact Hm1.
  destruct (He w1 ([] ++ e1)) as (w2 & e2 & events & He1 & Heq). erewrite st_bind_ok by exact He1.
  destruct (Hp w2 (([] ++ e1) ++ e2)) as (w3 & e3 & ptz & Hp1 & Hpq). erewrite st_bind_ok by exact Hp1.
  match goal with |- context [probe_motion_region_support cam ?u] => destruct (Hr u w3 ((([] ++ e1) ++ e2) ++ e3)) as (w4 & e4 & region & Hr1 & Hrq) end.
  erewrite st_bind_ok by exact Hr1.
  exists w4, (mkReport (parse_device_information d) services capabilities media events ptz region (e1 ++ e2 ++ e3 ++ e4)).
  cbn [app rp_service_errors]. split; [by rewrite !app_assoc|].
  unfold report_complete. cbn [rp_device rp_services rp_capabilities rp_media rp_events rp_ptz rp_motion_region rp_service_errors app].
  fold services capabilities. split_and!; [done..| | | |].
  - by apply (section_complete_app "media" _ media [] e1).
  - by apply (section_complete_app "events" _ events e1 e2).
  - rewrite (app_assoc e1 e2). by apply (section_complete_app "ptz" _ ptz (e1 ++ e2) e3).
  - destruct (offered cam (cap_analytics capabilities) "analytics" services); [|done].
    destruct Hrq as (reg & -> & Hn). exists reg. split; [done|].
    rewrite <- (app_nil_r e4), (app_assoc e2), (app_assoc e1). by apply region_noted_app.
Qed.

End probe.

(** ** Concrete documents *)
Module OnvifWitness.
Definition tds : option bytes := Some (as_bytes (lit "tds")).
Definition attribute (k v : String.string) : bytes * option str := (as_bytes (lit k), Some (lit v)).
Definition noise : list XmlEvent := [opening tds "Version" []; Text (Some (lit "2")); closing tds "Version"; OtherEvent].
Definition services : list (list XmlEvent * ServiceDoc) := [
  (noise, mkServiceDoc (lit "http://www.onvif.org/ver10/media/wsdl") (Some (lit " http://cam/media1 ")) None noise);
  ([], mkServiceDoc (lit "http://www.onvif.org/ver20/media/wsdl") (Some (lit "http://cam/media2")) (Some noise) [])].
Definition services_xml : XmlReader := fun _ => services_document tds services noise.

Definition profile : ProfileDoc := mkProfileDoc [attribute "token" "p1"] (lit "Main") [
  mkConfigurationDoc VideoSource [attribute "token" "vs1"] (lit "Source") [];
  mkConfigurationDoc (OtherConfiguration "AudioSourceConfiguration") [] (lit "Mic") noise;
  mkConfigurationDoc VideoEncoder [attribute "token" "ve1"] (lit "Encoder") noise].
Definition profiles_xml : XmlReader := fun _ => flat_map (profile_events tds) [profile].
Lemma profiles_read_witness : map pf_name (parse_profiles (H:=profiles_xml) []) = [Some (lit "Encoder")].
Proof.
  destruct (profiles_read (H:=profiles_xml) [] tds [profile]) as (_ & _ & ->).
  - reflexivity.
  - repeat constructor.
  - vm_compute. reflexivity.
Defined.

#[local] Instance whole_numbers : ParseF64 Z := parse_uint 100.
Definition encoder : EncoderDoc :=
  mkEncoderDoc [attribute "token" "ve1"] (lit "Encoder") (lit "H264") 1920 1080 (lit "5") 25 4294967295 noise.
Definition encoders_xml : XmlReader := fun _ => flat_map (encoder_events tds) [encoder; encoder].
Lemma encoders_read_witness :
  parse_video_encoder_configurations (F:=Z) (H:=encoders_xml) [] = [encoder_read encoder; encoder_read encoder].
Proof.
  apply (encoders_read (F:=Z) (H0:=encoders_xml) [] tds [encoder; encoder]).
  - reflexivity.
  - assert (Hn : Forall no_encoder noise).
    { repeat constructor. all: by_eval. }
    assert (He : encoder_doc_ok encoder) by (split_and!; [unfold u32; cbn; lia..|exact Hn]). constructor; [exact He|constructor; [exact He|constructor]].
Defined.

Definition point : XmlEvent := Empty (mkTag (qualified tds "Point") []).
Definition rules : list (list XmlEvent * RuleDoc) := [
  ([point], mkRuleDoc [attribute "Type" "tt:LineDetector"] [point]);
  (noise, mkRuleDoc [attribute "Type" "tt:MotionRegionDetector"; attribute "Name" "empty"] noise);
  ([], mkRuleDoc [attribute "Type" "tt:MotionRegionDetector"; attribute "Name" "region"] (point :: noise ++ [point]))].
Definition rules_xml : XmlReader := fun _ => rules_document tds rules noise.
Lemma rule_target_first_witness :
  parse_motion_region_rule_target (H:=rules_xml) [] =
  Some (mkRegionSummary true None None (Some (lit "rule")) (Some (lit "region")) (Some (lit "tt:MotionRegionDetector")) (Some 2%nat)).
Proof.
  rewrite (rule_target_first (H:=rules_xml) [] tds rules noise).
  - vm_compute. reflexivity.
  - reflexivity.
  - repeat constructor.
  - repeat constructor.
Defined.

(** A device that answers every request with a fault and status 200. *)
Definition fault : list XmlEvent :=
  noise ++ opening None "Fault" [] :: leaf tds "Value" (lit "Sender") ++ leaf tds "Text" (lit "not allowed") ++ closing None "Fault" :: noise.
Definition fault_xml : XmlReader := fun _ => fault.
#[local] Instance refusing : SoapHttp unit := fun _ _ _ w => (w, inr (mkSoapResponse 200 (inr (lit "fault")))).
#[local] Instance no_entropy : Entropy unit := {| random_bytes n w := (w, repeat 0 n); now_secs w := (w, []) |}.
#[local] Instance plain_sha1 : Sha1 := fun b => b.
#[local] Instance plain_base64 : Base64 := {| b64_encode b := b; b64_decode s := Some s |}.
#[local] Instance plain_status : StatusText := dec.
End OnvifWitness.
