(* ===== verification/OnvifMotion.v ===== *)
(** * Motion events of ONVIF cameras ([onvif/onvif_motion.rs])

    A poller per camera keeps a PullPoint subscription at the device, renews
    it and pulls notifications; [Motion.Edges] turns them into starts and ends.
    The world of a poller is [PollWorld] with the requests of [Soap]; dumps of
    requests and logging are left out. *)
From S2P Require Import Prelude Str Sdp Motion Config Xml Soap Probe OnvifProbe.

(** A UTF-8 text as a string of the motion model. *)
Definition text_of (s : str) : String.string :=
  fold_right (fun b t => String.String (Ascii.ascii_of_nat (Z.to_nat b)) t) String.EmptyString (as_bytes s).

(** ** Settings *)
Record OnvifSettings := mkSettings {
  sub_termination : str; renew_every_secs : Z; pull_timeout : str; pull_limit : Z; resub_after : Z;
  min_poll_gap : Z; after_sub_delay : Z; connrefused_retries : Z; connrefused_backoff : Z }.  (* durations in ms *)
Record OnvifCameraConfig := mkMotionCamera {
  mc_camera_id : str; mc_host : str; mc_port : Z; mc_user : str; mc_pass : str }.

Section env.
Variable m : vars.
Definition env_u64 (key : String.string) (d : Z) : Z := runtime_u64 (lit key) d m.
Definition env_u32 (key : String.string) (d : Z) : Z := default d (runtime_var (lit key) m ?> parse_u32).
Definition env_string (key : String.string) (d : String.string) : str := default (lit d) (runtime_var (lit key) m).
(** Whether motion is enabled, and whether that is only the default. *)
Definition motion_enabled_for_slot (slot : Z) : bool * bool :=
  let slot_key := lit "CAM" ++ dec slot ++ lit "_MOTION_ENABLED" in
  let global_value := runtime_var (lit "MOTION_ENABLED") m in
  let slot_value := runtime_var slot_key m in
  let inferred := bool_decide (slot_value = None) && bool_decide (global_value = None) in
  (runtime_bool slot_key (runtime_bool (lit "MOTION_ENABLED") true m) m, inferred).
Definition global_motion_enabled_with_inference : bool * bool :=
  (runtime_bool (lit "MOTION_ENABLED") true m, bool_decide (runtime_var (lit "MOTION_ENABLED") m = None)).
Definition onvif_settings : OnvifSettings :=
  mkSettings (env_string "ONVIF_SUB_TERMINATION" "PT10M") (env_u64 "ONVIF_RENEW_EVERY_SECS" 300)
    (env_string "ONVIF_PULL_TIMEOUT" "PT30S") (env_u32 "ONVIF_PULL_LIMIT" 10) (env_u32 "ONVIF_RESUBSCRIBE_AFTER_ERRORS" 3)
    (env_u64 "ONVIF_MIN_POLL_GAP_MS" 800) (env_u64 "ONVIF_AFTER_SUB_DELAY_MS" 300)
    (env_u32 "ONVIF_CONNREFUSED_RETRIES" 1) (env_u64 "ONVIF_CONNREFUSED_BACKOFF_MS" 250).

(** The camera of a slot with a host; [Ok None]: motion is disabled. *)
Definition load_motion_slot (i : Z) (host : str) : outcome onvif_env_error (option OnvifCameraConfig) :=
  if negb (motion_enabled_for_slot i).1 then mret None
  else
    let port := onvif_port m (onvif_prefix i ++ lit "PORT") in
    user ← ok_or (runtime_var (onvif_prefix i ++ lit "USER") m) (MissingUser (Some i));
    pass ← ok_or (runtime_var (onvif_prefix i ++ lit "PASS") m) (MissingPass (Some i));
    let camera_id := default (lit "cam-" ++ dec i) (runtime_var (lit "CAM" ++ dec i ++ lit "_CAMERA_ID") m) in
    mret (Some (mkMotionCamera camera_id host port user pass)).
(** The cameras, and whether a slot is configured. *)
Fixpoint load_motion_slots (slots : list Z) : outcome onvif_env_error (list OnvifCameraConfig * bool) :=
  match slots with
  | [] => mret ([], false)
  | i :: slots =>
      match non_blank (runtime_var (onvif_prefix i ++ lit "HOST") m) with
      | None => load_motion_slots slots
      | Some host =>
          cam ← load_motion_slot i host;
          '(cams, _) ← load_motion_slots slots;
          mret (option_list cam ++ cams, true)
      end
  end.
Definition load_onvif_cameras_from_env : outcome onvif_env_error (list OnvifCameraConfig) :=
  '(cams, saw_configured_slot) ← load_motion_slots [1; 2; 3; 4];
  if saw_configured_slot : bool then mret cams
  else
    let host := env_string "ONVIF_HOST" "192.168.1.187" in
    if negb global_motion_enabled_with_inference.1 then mret []
    else
      let port := onvif_port m (lit "ONVIF_PORT") in
      user ← ok_or (runtime_var (lit "ONVIF_USER") m) (MissingUser None);
      pass ← ok_or (runtime_var (lit "ONVIF_PASS") m) (MissingPass None);
      let camera_id := default (lit "unknown-camera")
        (or_else (runtime_var (lit "CAMERA_ID") m) (or_else (runtime_var (lit "CAM1_CAMERA_ID") m) (runtime_var (lit "ONVIF_HOST") m))) in
      mret [mkMotionCamera camera_id host port user pass].
End env.

(** ** Requests *)
Definition WSNT_NAMESPACE := "http://docs.oasis-open.org/wsn/b-2"%string.
Definition ACTION_CREATE_PULLPOINT_REQ : str :=
  lit "http://www.onvif.org/ver10/events/wsdl/EventPortType/CreatePullPointSubscriptionRequest".
Definition ACTION_PULLMESSAGES_REQ : str :=
  lit "http://www.onvif.org/ver10/events/wsdl/PullPointSubscription/PullMessagesRequest".
Definition ACTION_RENEW_REQ : str := lit "http://www.onvif.org/ver10/events/wsdl/PullPointSubscription/RenewRequest".
(** The headers of a subscription follow the security header. *)
Definition soap_envelope (to action security body extra_headers_xml : str) : str :=
  soap_envelope_with [("tev", EVENTS_NAMESPACE); ("wsnt", WSNT_NAMESPACE); ("tns1", "http://www.onvif.org/ver10/topics")]%string
    (NL ++ lit "    ") (NL ++ lit "  ") to action (security ++ NL ++ lit "    " ++ extra_headers_xml) body.
Definition create_pullpoint_body_motion_only (sub_termination : str) : str :=
  lit "<tev:CreatePullPointSubscription>" ++ NL ++ lit "  <tev:Filter>" ++ NL ++
  lit "    <wsnt:TopicExpression Dialect=" ++ quoted "http://www.onvif.org/ver10/tev/topicExpression/ConcreteSet" ++
  lit ">tns1:RuleEngine/CellMotionDetector/Motion</wsnt:TopicExpression>" ++ NL ++ lit "  </tev:Filter>" ++ NL ++
  lit "  <tev:InitialTerminationTime>" ++ xml_escape sub_termination ++ lit "</tev:InitialTerminationTime>" ++ NL ++
  lit "</tev:CreatePullPointSubscription>".
Definition pull_messages_body (timeout : str) (limit : Z) : str :=
  lit "<tev:PullMessages>" ++ NL ++ lit "  <tev:Timeout>" ++ xml_escape timeout ++ lit "</tev:Timeout>" ++ NL ++
  lit "  <tev:MessageLimit>" ++ dec limit ++ lit "</tev:MessageLimit>" ++ NL ++ lit "</tev:PullMessages>".
Definition renew_body (termination : str) : str :=
  lit "<wsnt:Renew xmlns:wsnt=" ++ quoted WSNT_NAMESPACE ++ lit ">" ++ NL ++
  lit "  <wsnt:TerminationTime>" ++ xml_escape termination ++ lit "</wsnt:TerminationTime>" ++ NL ++ lit "</wsnt:Renew>".
Definition subscription_id_header (sub_id : option str) : str :=
  match sub_id with
  | Some id =>
      lit "<SubscriptionId xmlns=" ++ quoted EVENTS_NAMESPACE ++ lit ">" ++ xml_escape id ++ lit "</SubscriptionId>"
  | None => []
  end.

(** [anyhow::Error]: whether it holds a connection error of reqwest. *)
Record poll_error := mkPollError { from_connect : bool; pe_text : str }.
Definition is_connectish_error (e : poll_error) : bool :=
  from_connect e || contains (lit "Connection refused") (pe_text e) || contains (lit "os error 61") (pe_text e)
  || contains (lit "os error 111") (pe_text e).

(** ** Notifications *)
Definition item_attribute (name : String.string) (attrs : list (bytes * option str)) : option str :=
  foldl (fun found a => if is_named (local_name a.1) name then match a.2 with Some v => Some v | None => found end else found)
    None attrs.
Definition simple_item (attrs : list (bytes * option str)) (s : option str * list (option str * bool))
    : option str * list (option str * bool) :=
  let '(current_rule, out) := s in
  match item_attribute "Name" attrs, item_attribute "Value" attrs with
  | Some name, Some v =>
      if is_named name "Rule" then (Some v, out)
      else if is_named name "IsMotion" then
        (current_rule, out ++ [(current_rule, eq_ignore_ascii_case v (lit "true") || bool_decide (v = lit "1"))])
      else s
  | _, _ => s
  end.
Definition motion_step (s : option str * list (option str * bool)) (e : XmlEvent) : option str * list (option str * bool) :=
  match e with
  | Start tag | Empty tag => if is_named (tag_name tag) "SimpleItem" then simple_item (attributes tag) s else s
  | _ => s
  end.
Definition extract_motion_events `{XmlReader} (xml : str) : list (option str * bool) :=
  (foldl motion_step (None, []) (read_events xml)).2.

(** ** The poller of a camera *)
(** The monotonic clock in ms, sleeping in ms, ids, the wall clock, and the
    shared map of active rules and the event bus. *)
Class PollWorld `{Chrono} (W : Type) := {
  instant : W -> Z;
  sleep : Z -> W -> W;
  new_ulid : W -> W * String.string;
  utc_now : W -> DateTime;
  motion_state : W -> StateBus.MotionState;
  with_motion_state : StateBus.MotionState -> W -> W;
  publish : MotionEvent -> W -> W;
}.

Record PollState := mkPoll {
  tracked : gmap String.string bool; event_ids : gmap String.string String.string;
  sub_addr : str; sub_id : option str; consecutive_errors : Z; last_pull_done : option Z; next_renew : Z }.

Section poller.
Context {W : Type} `{Chrono} `{!PollWorld W} `{SoapHttp W} `{Entropy W} `{Sha1} `{Base64} `{StatusText} `{XmlReader}.
Abbreviation M := (Prelude.st W poll_error).

Definition wsse_lines (user pass : str) (w : W) : W * str :=
  let '(w, security) := wsse_header user pass w in (w, NL ++ security ++ NL).
Definition soap_post (url action xml : str) : M str := fun w =>
  match soap_http url action xml w with
  | (w, inl e) => (w, Err (mkPollError (is_connect e) (http_text e)))
  | (w, inr r) =>
      let text := match soap_text r with inr t => t | inl e => lit "<<failed to read body: " ++ e ++ lit ">>" end in
      (w, if is_success_status (soap_status r) then Ok text
          else Err (mkPollError false (http_failure (soap_status r) text)))
  end.
Definition request (user pass url action body extra_headers_xml : str) : M str := fun w =>
  let '(w, security) := wsse_lines user pass w in
  soap_post url action (soap_envelope url action security body extra_headers_xml) w.
Definition pause (ms : Z) : M unit := fun w => (sleep ms w, Ok tt).

Definition create_subscription (onvif_service user pass sub_termination : str) : M (str * option str) :=
  resp_xml ← request user pass onvif_service ACTION_CREATE_PULLPOINT_REQ (create_pullpoint_body_motion_only sub_termination) [];
  sub_addr ← lift_outcome (ok_or (extract_first_text resp_xml "Address")
    (mkPollError false (lit "No SubscriptionReference/Address found in CreatePullPointSubscription response")));
  mret (sub_addr, extract_first_text resp_xml "SubscriptionId").
Definition renew_subscription (sub_addr : str) (sub_id : option str) (user pass sub_termination : str) : M unit :=
  _ ← request user pass sub_addr ACTION_RENEW_REQ (renew_body sub_termination) (subscription_id_header sub_id);
  mret tt.

Section camera.
Variable cam : OnvifCameraConfig.
Variable settings : OnvifSettings.
Definition onvif_service : str := service_url_of (mc_host cam) (mc_port cam).

Fixpoint create_with_retries (retries_left : nat) : M (str * option str) := fun w =>
  match create_subscription onvif_service (mc_user cam) (mc_pass cam) (sub_termination settings) w with
  | (w, Ok subscription) =>
      (if after_sub_delay settings =? 0 then w else sleep (after_sub_delay settings) w, Ok subscription)
  | (w, Err error) =>
      if is_connectish_error error then
        match retries_left with
        | S retries_left => create_with_retries retries_left (sleep (connrefused_backoff settings) w)
        | O => (w, Err error)
        end
      else (w, Err error)
  | (w, Panic) => (w, Panic)
  end.
Definition create_subscription_with_retry : M (str * option str) :=
  create_with_retries (Z.to_nat (connrefused_retries settings)).

(** A notification.  An id is drawn for a start, and for an end without one. *)
Definition notify (n : option str * bool) (p : PollState) (w : W) : PollState * W :=
  let rule := default "<unknown-rule>"%string (text_of <$> n.1) in
  let '(drawn, fresh) := new_ulid w in
  let w1 := if n.2 || bool_decide (event_ids p !! rule = None) then drawn else w in
  match Edges.on_notification (text_of (mc_camera_id cam)) fresh (utc_now w1) (text_of <$> n.1, n.2)
          (Edges.mk (tracked p) (event_ids p) (motion_state w)) with
  | (_, None) => (p, w)
  | (s, Some e) =>
      (mkPoll (Edges.state s) (Edges.event_ids s) (sub_addr p) (sub_id p) (consecutive_errors p) (last_pull_done p) (next_renew p),
       publish e (with_motion_state (Edges.bus_state s) w1))
  end.
Fixpoint notify_all (ns : list (option str * bool)) (p : PollState) (w : W) : PollState * W :=
  match ns with [] => (p, w) | n :: ns => let '(p, w) := notify n p w in notify_all ns p w end.

Definition subscribed (s : Edges.t) (p : PollState) : M PollState :=
  '(addr, id) ← create_subscription_with_retry;
  mret (mkPoll (Edges.state s) (Edges.event_ids s) addr id 0 None (next_renew p)).
(** The subscription is made anew; what was tracked is forgotten first. *)
Definition recreate (p : PollState) : M PollState := fun w =>
  let s := (Edges.reset_motion_tracking (text_of (mc_camera_id cam)) (Edges.mk (tracked p) (event_ids p) (motion_state w))).1 in
  subscribed s p (with_motion_state (Edges.bus_state s) w).

Definition renew_turn (p : PollState) : M PollState := fun w =>
  let p := mkPoll (tracked p) (event_ids p) (sub_addr p) (sub_id p) (consecutive_errors p) (last_pull_done p)
    (next_renew p + 1000 * renew_every_secs settings) in
  match renew_subscription (sub_addr p) (sub_id p) (mc_user cam) (mc_pass cam) (sub_termination settings) w with
  | (w, Ok _) => (w, Ok p)
  | (w, Err _) => recreate p w
  | (w, Panic) => (w, Panic)
  end.

Definition pace (p : PollState) (w : W) : W :=
  match last_pull_done p with
  | Some t => let elapsed := instant w - t in
              if elapsed <? min_poll_gap settings then sleep (min_poll_gap settings - elapsed) w else w
  | None => w
  end.
Definition with_errors (errors : Z) (done : option Z) (p : PollState) : PollState :=
  mkPoll (tracked p) (event_ids p) (sub_addr p) (sub_id p) errors done (next_renew p).
Definition pull_turn (p : PollState) : M PollState := fun w =>
  match request (mc_user cam) (mc_pass cam) (sub_addr p) ACTION_PULLMESSAGES_REQ
          (pull_messages_body (pull_timeout settings) (pull_limit settings)) (subscription_id_header (sub_id p)) (pace p w) with
  | (w, Ok pm_xml) =>
      let '(p, w) := notify_all (extract_motion_events pm_xml) (with_errors 0 (Some (instant w)) p) w in (w, Ok p)
  | (w, Err e) =>
      let p := with_errors (consecutive_errors p + 1) (Some (instant w)) p in
      if is_connectish_error e || (resub_after settings <=? consecutive_errors p) then recreate p w
      else (sleep 1000 w, Ok p)
  | (w, Panic) => (w, Panic)
  end.

(** [select!]: pulling is always possible, renewing when its time has come;
    [renew] is the choice between them. *)
Definition poll_turn (renew : bool) (p : PollState) : M PollState := fun w =>
  if renew && (next_renew p <=? instant w) then renew_turn p w else pull_turn p w.
(** The turns end with an error; [renews] are their choices. *)
Fixpoint poll (renews : list bool) (p : PollState) : M PollState :=
  match renews with
  | [] => mret p
  | renew :: renews => p ← poll_turn renew p; poll renews p
  end.
(** [tokio::time::interval] panics at a period of zero; its first tick is due
    at once. *)
Definition polling (addr : str) (id : option str) : M PollState := fun w =>
  (w, if renew_every_secs settings =? 0 then Panic else Ok (mkPoll ∅ ∅ addr id 0 None (instant w))).
Definition start_poller : M PollState := '(addr, id) ← create_subscription_with_retry; polling addr id.
Definition run_onvif_motion_poller_for_camera (renews : list bool) : M PollState :=
  p ← start_poller; poll renews p.
End camera.

(** The tasks that are spawned; whatever they end with is only logged. *)
Definition run_onvif_motion_poller (m : vars) : outcome onvif_env_error (list (list bool -> M PollState)) :=
  cameras ← load_onvif_cameras_from_env m;
  mret (map (fun cam => run_onvif_motion_poller_for_camera cam (onvif_settings m)) cameras).
End poller.
