(* ===== verification/PollFacts.v ===== *)
(** * Motion events of ONVIF cameras: facts

    What is read from notifications, what a poller publishes over all its
    turns and resubscriptions, and when it ends. *)
From S2P Require Import Prelude Str Sdp Motion Config Xml Soap Probe OnvifProbe OnvifFacts OnvifMotion.

#[local] Arguments lit : simpl never.
#[local] Arguments is_named : simpl never.
#[local] Arguments tag_name : simpl never.
#[local] Arguments item_attribute : simpl never.
#[local] Arguments qualified : simpl never.

(** ** Notifications *)
Definition item (p : option bytes) (name value : str) : XmlEvent :=
  Empty (mkTag (qualified p "SimpleItem") [(as_bytes (lit "Name"), Some name); (as_bytes (lit "Value"), Some value)]).
(** An element that is no item of interest. *)
Definition no_item (e : XmlEvent) : Prop :=
  match e with
  | Start tag | Empty tag =>
      is_named (tag_name tag) "SimpleItem" = false \/
      (exists name, item_attribute "Name" (attributes tag) = Some name /\
         is_named name "Rule" = false /\ is_named name "IsMotion" = false)
  | _ => True
  end.
(** A notification as the ONVIF schema orders it: the rule, then the data. *)
Record MessageDoc := mkMessageDoc { before_rule : list XmlEvent; m_rule : str; between : list XmlEvent; m_value : str; behind : list XmlEvent }.
Definition message_events (p : option bytes) (d : MessageDoc) : list XmlEvent :=
  before_rule d ++ item p (lit "Rule") (m_rule d) :: between d ++ item p (lit "IsMotion") (m_value d) :: behind d.
Definition message_ok (d : MessageDoc) : Prop :=
  Forall no_item (before_rule d) /\ Forall no_item (between d) /\ Forall no_item (behind d).
Definition is_motion_value (v : str) : bool := eq_ignore_ascii_case v (lit "true") || bool_decide (v = lit "1").
Definition message_read (d : MessageDoc) : option str * bool := (Some (m_rule d), is_motion_value (m_value d)).

Lemma no_items es s : Forall no_item es -> foldl motion_step s es = s.
Proof.
  induction 1 as [|e es He _ IH]; [done|]. cbn [foldl]. rewrite <- IH at 2. f_equal. destruct s as [rule out].
  destruct e as [tag|tag|t|n|]; try done; unfold no_item in He; unfold motion_step, simple_item;
    (destruct He as [->|(name & Hn & Hr & Hm)]; [done|]; destruct (is_named (tag_name tag) "SimpleItem"); [|done]; rewrite Hn, Hr, Hm;
     by destruct (item_attribute "Value" (attributes tag))).
Qed.
Lemma motion_item p name value s :
  motion_step s (item p name value) =
  if is_named name "Rule" then (Some value, s.2)
  else if is_named name "IsMotion" then (s.1, s.2 ++ [(s.1, is_motion_value value)]) else s.
Proof.
  destruct s as [rule out]. unfold item, motion_step. rewrite tag_name_opening by reflexivity. known_names.
  cbn [attributes simple_item].
  assert (item_attribute "Name" [(as_bytes (lit "Name"), Some name); (as_bytes (lit "Value"), Some value)] = Some name) as -> by done.
  by assert (item_attribute "Value" [(as_bytes (lit "Name"), Some name); (as_bytes (lit "Value"), Some value)] = Some value) as -> by done.
Qed.

(** Every notification of an answer is read, in order, with its own rule. *)
Theorem notifications_read `{XmlReader} xml p ds :
  read_events xml = flat_map (message_events p) ds -> Forall message_ok ds ->
  extract_motion_events xml = map message_read ds.
Proof.
  intros Hxml Hds. unfold extract_motion_events. rewrite Hxml. clear Hxml.
  assert (Hall : forall rule out, exists rule', foldl motion_step (rule, out) (flat_map (message_events p) ds) =
    (rule', out ++ map message_read ds)).
  { induction Hds as [|d ds (H1' & H2' & H3') _ IH]; intros rule out; [exists rule; by rewrite app_nil_r|].
    cbn [flat_map map]. unfold message_events at 1.
    rewrite !foldl_app, (no_items (before_rule d)) by done. cbn [foldl]. rewrite motion_item. known_names. cbn [fst snd].
    rewrite foldl_app, (no_items (between d)) by done. cbn [foldl]. rewrite motion_item. known_names. cbn [fst snd].
    rewrite (no_items (behind d)) by done. change (Some (m_rule d), is_motion_value (m_value d)) with (message_read d).
    destruct (IH (Some (m_rule d)) (out ++ [message_read d])) as [rule' ->].
    exists rule'. by rewrite <- app_assoc. }
  destruct (Hall None []) as [rule' ->]. done.
Qed.

#[local] Existing Instance EdgesFacts.of_rule_dec.

(** ** What a poller publishes *)
(** The events a poller has published and the requests it has sent, and what
    the operations of the world do to them. *)
Class PollLaws `{Chrono} (W : Type) `{!PollWorld W} `{SoapHttp W} `{Entropy W} := {
  published : W -> list MotionEvent;
  requests : W -> nat;
  publish_log e w : published (publish e w) = published w ++ [e] /\ requests (publish e w) = requests w;
  http_log url action body w :
    published (soap_http url action body w).1 = published w /\ requests (soap_http url action body w).1 = S (requests w);
  sleep_log ms w : published (sleep ms w) = published w /\ requests (sleep ms w) = requests w;
  ulid_log w : published (new_ulid w).1 = published w /\ requests (new_ulid w).1 = requests w;
  state_log s w : published (with_motion_state s w) = published w /\ requests (with_motion_state s w) = requests w;
  random_log n w : published (random_bytes n w).1 = published w /\ requests (random_bytes n w).1 = requests w;
  now_log w : published (now_secs w).1 = published w /\ requests (now_secs w).1 = requests w;
}.

Section events.
Context `{Chrono}.
(** The last event of a rule. *)
Definition latest (r : string) (log : list MotionEvent) : option MotionEvent := last (filter (EdgesFacts.of_rule r) log).
Definition starts_with_id (r id : string) (log : list MotionEvent) : Prop :=
  exists s, latest r log = Some s /\ active s = true /\ Motion.event_id s = id.
(** Every end follows, among the events of its rule, the start with its id. *)
Definition ends_matched (log : list MotionEvent) : Prop :=
  forall i e, log !! i = Some e -> active e = false -> starts_with_id (rule e) (Motion.event_id e) (take i log).

Lemma latest_snoc r log e : latest r (log ++ [e]) = if decide (rule e = r) then Some e else latest r log.
Proof.
  unfold latest. rewrite filter_app. change (filter (EdgesFacts.of_rule r) [e]) with
    (if decide (EdgesFacts.of_rule r e) then [e] else []). unfold EdgesFacts.of_rule at 2.
  destruct (decide (rule e = r)); [by rewrite last_snoc|by rewrite app_nil_r].
Qed.

Lemma ends_matched_snoc log e :
  ends_matched log -> (active e = false -> starts_with_id (rule e) (Motion.event_id e) log) -> ends_matched (log ++ [e]).
Proof.
  intros Hl He i e' Hi Ha. apply lookup_app_Some in Hi as [Hi|[Hlen Hi]].
  - pose proof (lookup_lt_Some _ _ _ Hi). rewrite take_app_le by lia. by apply Hl.
  - apply list_lookup_singleton_Some in Hi as [Hz <-]. rewrite take_app_length' by lia. by apply He.
Qed.

(** What a poller tracks: an id for every rule that is active, that of the
    latest start. *)
Definition tracks (rules : gmap string bool) (ids : gmap string string) (log : list MotionEvent) : Prop :=
  (forall r, rules !! r = Some true <-> is_Some (ids !! r)) /\
  forall r id, ids !! r = Some id -> starts_with_id r id log.
End events.

Section poller.
Context {W : Type} `{Chrono} `{!PollWorld W} `{SoapHttp W} `{Entropy W} `{!PollLaws W} `{Sha1} `{Base64} `{StatusText} `{XmlReader}.
Variable cam : OnvifCameraConfig.
Variable settings : OnvifSettings.

(** The events of the log are those of this camera, with matched ends. *)
Definition log_ok (w : W) : Prop :=
  ends_matched (published w) /\ Forall (fun e => Motion.camera_id e = text_of (mc_camera_id cam)) (published w).
Definition tracking_ok (p : PollState) (w : W) : Prop := tracks (tracked p) (OnvifMotion.event_ids p) (published w) /\ log_ok w.
Definition errors_ok (p : PollState) : Prop :=
  consecutive_errors p = 0 \/ 0 < consecutive_errors p < resub_after settings.

(** *** Operations that publish nothing *)
Definition silent {A} (m : Prelude.st W poll_error A) : Prop := forall w, published (m w).1 = published w.
Lemma silent_bind {A B} (m : Prelude.st W poll_error A) (f : A -> Prelude.st W poll_error B) :
  silent m -> (forall a, silent (f a)) -> silent (m ≫= f).
Proof.
  intros Hm Hf w. unfold mbind, st_bind. specialize (Hm w). destruct (m w) as [w1 [a|e|]]; cbn in Hm |- *; [|done|done].
  by rewrite Hf.
Qed.
Lemma silent_lift {A} (r : outcome poll_error A) : silent (lift_outcome r).
Proof. by intros w. Qed.
Lemma silent_ret {A} (a : A) : silent (mret a).
Proof. by intros w. Qed.

Lemma wsse_log user pass (w : W) :
  published (wsse_lines user pass w).1 = published w /\ requests (wsse_lines user pass w).1 = requests w.
Proof.
  unfold wsse_lines, wsse_header. pose proof (random_log 20 w) as Hr. destruct (random_bytes 20 w) as [w1 nonce].
  pose proof (now_log w1) as Hn. destruct (now_secs w1) as [w2 created]. cbn in *. destruct Hr, Hn. by split; congruence.
Qed.
(** A request publishes nothing, and is one request. *)
Lemma request_log user pass url action body extra (w : W) :
  let w' := (request user pass url action body extra w).1 in published w' = published w /\ requests w' = S (requests w).
Proof.
  unfold request. pose proof (wsse_log user pass w) as [H1' H2'].
  destruct (wsse_lines user pass w) as [w1 security]. cbn [fst] in *. unfold soap_post.
  pose proof (http_log url action (soap_envelope url action security body extra) w1) as [H3' H4'].
  destruct (soap_http _ _ _ w1) as [w2 [e|r]]; cbn in *; split; congruence.
Qed.
Lemma silent_request user pass url action body extra : silent (request user pass url action body extra).
Proof. intros w. apply request_log. Qed.
Lemma create_log (service user pass termination : str) (w : W) :
  let w' := (create_subscription service user pass termination w).1 in
  published w' = published w /\ requests w' = S (requests w).
Proof.
  unfold create_subscription, mbind, st_bind.
  pose proof (request_log user pass service ACTION_CREATE_PULLPOINT_REQ (create_pullpoint_body_motion_only termination) [] w) as Hr.
  destruct (request _ _ _ _ _ _ w) as [w1 [xml|e|]]; [|done|done].
  unfold lift_outcome. by destruct (ok_or _ _).
Qed.
Lemma calm_request user pass url action body extra : never_panics (S:=W) (request user pass url action body extra).
Proof.
  intros w. unfold request. destruct (wsse_lines user pass w) as [w1 security]. unfold soap_post.
  destruct (soap_http _ _ _ w1) as [w2 [e|r]]; [done|]. by destruct (is_success_status _).
Qed.

(** Creating a subscription sends one request, and one more for every retry
    that is left when the device cannot be reached; nothing else is retried. *)
Lemma create_bounded n (w : W) :
  let '(w', r) := create_with_retries cam settings n w in
  published w' = published w /\ (requests w < requests w' <= requests w + S n)%nat /\ r <> Panic.
Proof.
  revert w. induction n as [|n IH]; intros w; cbn [create_with_retries];
    pose proof (create_log (onvif_service cam) (mc_user cam) (mc_pass cam) (sub_termination settings) w) as Hc;
    assert (Hcalm : never_panics (S:=W) (create_subscription (onvif_service cam) (mc_user cam) (mc_pass cam) (sub_termination settings)))
      by (apply calm_bind; [apply calm_request|intros xml; apply calm_bind; auto with calm]);
    specialize (Hcalm w);
    destruct (create_subscription _ _ _ _ w) as [w1 [s|e|]]; cbn in Hc; destruct Hc as [Hp Hr]; try done.
  1, 3: destruct (after_sub_delay settings =? 0);
    [|destruct (sleep_log (after_sub_delay settings) w1) as [-> ->]]; (split; [done|]; split; [lia|done]).
  - destruct (is_connectish_error e); split; [done| |done|]; split; (lia || done).
  - destruct (is_connectish_error e); [|split; [done|]; split; (lia || done)].
    specialize (IH (sleep (connrefused_backoff settings) w1)). destruct (sleep_log (connrefused_backoff settings) w1) as [Hs1 Hs2].
    destruct (create_with_retries _ _ n _) as [w2 r]. destruct IH as (IH1 & IH2 & IH3).
    split; [congruence|]. split; [lia|done].
Qed.
Lemma silent_create : silent (create_subscription_with_retry cam settings).
Proof.
  intros w. unfold create_subscription_with_retry. pose proof (create_bounded (Z.to_nat (connrefused_retries settings)) w) as Hc.
  destruct (create_with_retries _ _ _ w) as [w' r]. apply Hc.
Qed.

(** *** Turns *)
Lemma notify_ok n p w :
  tracking_ok p w ->
  let '(p', w') := notify cam n p w in tracking_ok p' w' /\ consecutive_errors p' = consecutive_errors p.
Proof.
  intros [[Hinv Htr] [Hends Hcam]]. unfold notify. pose proof (ulid_log w) as [Hu _]. destruct (new_ulid w) as [drawn fresh].
  cbn in Hu.
  match goal with |- context [if ?c then drawn else w] => set (w1 := if c then drawn else w) end.
  assert (Hw1 : published w1 = published w) by (unfold w1; by case_match).
  pose proof (EdgesFacts.on_notification_edge (text_of (mc_camera_id cam)) fresh (utc_now w1) (text_of <$> n.1, n.2)
    (Edges.mk (tracked p) (OnvifMotion.event_ids p) (motion_state w)) Hinv) as He.
  destruct (Edges.on_notification _ _ _ _ _) as [s [e|]]; [|by split]. destruct He as (Hinv' & _ & Hc & _ & Hother & He).
  destruct (publish_log e (with_motion_state (Edges.bus_state s) w1)) as [Hp _].
  destruct (state_log (Edges.bus_state s) w1) as [Hs _]. rewrite Hs, Hw1 in Hp.
  cbn [Edges.event_ids Edges.state] in He, Hother.
  split; [|done]. unfold tracking_ok, log_ok. rewrite Hp. cbn [tracked OnvifMotion.event_ids]. split_and!; [split; [exact Hinv'|]| |].
  - intros r id Hid. unfold starts_with_id. rewrite latest_snoc. destruct (decide (rule e = r)) as [<-|Hne].
    + destruct (active e) eqn:Ha; destruct He as [_ He]; rewrite He in Hid; [injection Hid as <-; eauto|done].
    + apply Htr. rewrite <- Hid. symmetry. apply Hother. congruence.
  - apply ends_matched_snoc; [done|]. intros Ha. rewrite Ha in He. apply Htr, He.
  - apply Forall_app. split; [done|]. by constructor.
Qed.
Lemma notify_all_ok ns p w :
  tracking_ok p w ->
  let '(p', w') := notify_all cam ns p w in tracking_ok p' w' /\ consecutive_errors p' = consecutive_errors p.
Proof.
  revert p w. induction ns as [|n ns IH]; intros p w Hp; [done|]. cbn [notify_all].
  pose proof (notify_ok n p w Hp) as Hn. destruct (notify cam n p w) as [p1 w1]. destruct Hn as [Hp1 Hc].
  specialize (IH p1 w1 Hp1). destruct (notify_all cam ns p1 w1) as [p2 w2]. destruct IH as [H1' H2']. split; [done|congruence].
Qed.

Lemma log_ok_same w w' : published w' = published w -> log_ok w -> log_ok w'.
Proof. unfold log_ok. by intros ->. Qed.
Lemma tracks_empty (log : list MotionEvent) : tracks ∅ ∅ log.
Proof. split; [|intros r id Hid; by rewrite lookup_empty in Hid]. intros r. rewrite !lookup_empty. split; [done|by intros []]. Qed.

(** What a turn leaves: a good log in any case, a good state if it goes on. *)
Definition turn_ok (w' : W) (r : outcome poll_error PollState) : Prop :=
  log_ok w' /\ match r with Ok p' => tracking_ok p' w' /\ errors_ok p' | _ => True end.

Lemma recreate_ok p w : log_ok w -> let '(w', r) := recreate cam settings p w in turn_ok w' r.
Proof.
  intros Hw. unfold recreate, subscribed. cbn [Edges.bus_state Edges.reset_motion_tracking Edges.state Edges.event_ids fst].
  match goal with |- context [with_motion_state ?s w] => destruct (state_log s w) as [Hs _]; set (w1 := with_motion_state s w) in * end.
  unfold mbind, st_bind. pose proof (silent_create w1) as Hc.
  destruct (create_subscription_with_retry cam settings w1) as [w2 [[addr id]|e|]]; cbn in Hc |- *;
    (assert (Hw2 : log_ok w2) by (eapply log_ok_same; [|exact Hw]; congruence)); split; try done.
  split; [|by left]. split; [apply tracks_empty|done].
Qed.
Lemma tracking_same p w p' w' :
  tracked p' = tracked p -> OnvifMotion.event_ids p' = OnvifMotion.event_ids p -> published w' = published w ->
  tracking_ok p w -> tracking_ok p' w'.
Proof. intros Ht He Hw [H1' H2']. split; [by rewrite Ht, He, Hw|by eapply log_ok_same]. Qed.

Lemma poll_turn_ok renew p w :
  tracking_ok p w -> errors_ok p -> let '(w', r) := poll_turn cam settings renew p w in turn_ok w' r.
Proof.
  intros Hp He. unfold poll_turn. destruct (renew && _).
  - unfold renew_turn, renew_subscription. cbn [sub_addr sub_id].
    unfold mbind, st_bind at 1.
    pose proof (silent_request (mc_user cam) (mc_pass cam) (sub_addr p) ACTION_RENEW_REQ (renew_body (sub_termination settings))
      (subscription_id_header (sub_id p)) w) as Hq.
    destruct (request _ _ _ _ _ _ w) as [w1 [xml|e|]]; cbn in Hq |- *;
      (assert (Hw1 : log_ok w1) by (eapply log_ok_same; [exact Hq|apply Hp])).
    + split; [done|]. split; [|done]. by eapply tracking_same; [| | |exact Hp].
    + by apply recreate_ok.
    + by split.
  - unfold pull_turn. assert (Hpace : published (pace settings p w) = published w).
    { unfold pace. destruct (last_pull_done p); [|done]. case_match; [|done]. apply sleep_log. }
    match goal with |- context [request ?a ?b ?c ?d ?f ?g ?x] => pose proof (silent_request a b c d f g x) as Hq;
      destruct (request a b c d f g x) as [w1 [xml|e|]] end; cbn [fst] in Hq; rewrite Hpace in Hq.
    + pose proof (notify_all_ok (extract_motion_events xml) (with_errors 0 (Some (instant w1)) p) w1) as Hn.
      destruct (notify_all _ _ _ _) as [p2 w2]. destruct Hn as [Hp2 Hc]; [by eapply tracking_same; [| | |exact Hp]|].
      split; [apply Hp2|]. split; [done|]. left. by rewrite Hc.
    + cbv zeta. destruct (_ || _) eqn:Hres.
      * apply recreate_ok. eapply log_ok_same; [exact Hq|apply Hp].
      * apply orb_false_iff in Hres as [_ Hres]. apply Z.leb_gt in Hres. cbn [consecutive_errors with_errors] in Hres.
        destruct (sleep_log 1000 w1) as [Hs _].
        assert (Hp1 : tracking_ok (with_errors (consecutive_errors p + 1) (Some (instant w1)) p) (sleep 1000 w1)).
        { eapply tracking_same; [..|exact Hp]; [done|done|congruence]. }
        split; [apply Hp1|]. split; [done|]. right. cbn [consecutive_errors with_errors]. destruct He; lia.
    + split; [|done]. eapply log_ok_same; [exact Hq|apply Hp].
Qed.

Lemma poller_ok renews p w :
  tracking_ok p w -> errors_ok p -> let '(w', r) := poll cam settings renews p w in turn_ok w' r.
Proof.
  revert p w. induction renews as [|renew renews IH]; intros p w Hp He; [by split; [apply Hp|split]|].
  cbn [poll]. unfold mbind, st_bind. pose proof (poll_turn_ok renew p w Hp He) as Ht.
  destruct (poll_turn cam settings renew p w) as [w1 [p1|e|]]; [|done|done]. apply IH; apply Ht.
Qed.

(** C28: whatever a camera answers and however often its subscription breaks, no
    end is published that does not follow the start with its id as the latest
    event of its rule, and every event carries the camera's id; while the
    poller runs it tracks an id for exactly the rules that are active, and has
    seen fewer failures in a row than make it subscribe again. *)
Theorem ends_follow_starts renews w :
  published w = [] ->
  let '(w', r) := run_onvif_motion_poller_for_camera cam settings renews w in
  ends_matched (published w') /\
  Forall (fun e => Motion.camera_id e = text_of (mc_camera_id cam)) (published w') /\
  match r with
  | Ok p => tracks (tracked p) (OnvifMotion.event_ids p) (published w') /\ errors_ok p
  | _ => True
  end.
Proof.
  intros Hw. unfold run_onvif_motion_poller_for_camera, start_poller, polling, mbind, st_bind.
  assert (Hlog : forall w', published w' = [] -> log_ok w').
  { intros w' Hw'. unfold log_ok. rewrite Hw'. split; [by intros i e Hi|constructor]. }
  pose proof (silent_create w) as Hc. destruct (create_subscription_with_retry cam settings w) as [w1 [[addr id]|e|]];
    cbn [fst] in Hc; rewrite Hw in Hc; pose proof (Hlog w1 Hc) as [H1' H2']; [|done|done].
  destruct (renew_every_secs settings =? 0); [done|].
  pose proof (poller_ok renews (mkPoll ∅ ∅ addr id 0 None (instant w1)) w1) as Hp.
  destruct (poll _ _ _ _ w1) as [w2 r].
  destruct Hp as [[Ha Hb] Hr]; [split; [apply tracks_empty|by apply Hlog]|by left|].
  split_and!; [done|done|]. destruct r as [p|e|]; [|done|done]. destruct Hr as [[Ht _] He]. done.
Qed.

(** The device cannot be reached. *)
Definition unreachable : Prop := forall url action body (w : W),
  exists w' e, soap_http url action body w = (w', inl e) /\ is_connect e = true.
Lemma unreachable_request user pass url action body extra (w : W) :
  unreachable -> exists w' e, request user pass url action body extra w = (w', Err e) /\ is_connectish_error e = true.
Proof.
  intros Hu. unfold request. destruct (wsse_lines user pass w) as [w1 security]. unfold soap_post.
  destruct (Hu url action (soap_envelope url action security body extra) w1) as (w2 & e & -> & He).
  eexists _, _. split; [done|]. unfold is_connectish_error. cbn. by rewrite He.
Qed.
Lemma unreachable_create n (w : W) :
  unreachable -> exists w' e, create_with_retries cam settings n w = (w', Err e) /\ requests w' = (requests w + S n)%nat.
Proof.
  intros Hu. revert w.
  assert (Hone : forall w, exists w' e,
    create_subscription (onvif_service cam) (mc_user cam) (mc_pass cam) (sub_termination settings) w = (w', Err e) /\
    is_connectish_error e = true /\ requests w' = S (requests w)).
  { intros w. pose proof (create_log (onvif_service cam) (mc_user cam) (mc_pass cam) (sub_termination settings) w) as [_ Hc].
    unfold create_subscription, mbind, st_bind in *.
    destruct (unreachable_request (mc_user cam) (mc_pass cam) (onvif_service cam) ACTION_CREATE_PULLPOINT_REQ
      (create_pullpoint_body_motion_only (sub_termination settings)) [] w Hu) as (w' & e & Hr & He).
    rewrite Hr in *. cbn in Hc. by exists w', e. }
  induction n as [|n IH]; intros w; cbn [create_with_retries]; destruct (Hone w) as (w1 & e & -> & He & Hr); rewrite He.
  - exists w1, e. split; [done|lia].
  - destruct (IH (sleep (connrefused_backoff settings) w1)) as (w2 & e2 & H1' & H2'). exists w2, e2. split; [exact H1'|].
    destruct (sleep_log (connrefused_backoff settings) w1) as [_ Hs]. lia.
Qed.

End poller.

(** ** A concrete device *)
Module PollWitness.
Definition tt_prefix : option bytes := Some (as_bytes (lit "tt")).
Definition source (r : String.string) : XmlEvent := opening tt_prefix "Source" [(as_bytes (lit "Name"), Some (lit r))].
Definition message (r v : String.string) : MessageDoc := mkMessageDoc [source r] (lit r) [closing tt_prefix "Source"] (lit v) [OtherEvent].
Definition storm : list MessageDoc := [message "Yard" "true"; message "Door" "false"; message "Yard" "1"; message "Yard" "false"].
Definition storm_xml : XmlReader := fun _ => flat_map (message_events tt_prefix) storm.
Lemma notifications_read_witness :
  extract_motion_events (H:=storm_xml) [] =
  [(Some (lit "Yard"), true); (Some (lit "Door"), false); (Some (lit "Yard"), true); (Some (lit "Yard"), false)].
Proof.
  rewrite (notifications_read (H:=storm_xml) [] tt_prefix storm).
  - reflexivity.
  - reflexivity.
  - assert (Hm : forall r v, message_ok (message r v)) by (intros r v; split_and!; repeat constructor).
    constructor; [apply Hm|constructor; [apply Hm|constructor; [apply Hm|constructor; [apply Hm|constructor]]]].
Defined.

(** Events, requests, milliseconds, the map of active rules. *)
#[local] Existing Instance MotionWitness.clock.
Record device := mkDevice { log : list MotionEvent; sent : nat; ms : Z; active_rules : StateBus.MotionState }.
Definition start : device := mkDevice [] 0 0 ∅.
#[local] Instance device_world : PollWorld device :=
  {| instant := ms; sleep d w := mkDevice (log w) (sent w) (ms w + d) (active_rules w);
     new_ulid w := (w, String.String (Ascii.ascii_of_nat (97 + sent w)) String.EmptyString);
     utc_now := ms; motion_state := active_rules;
     with_motion_state s w := mkDevice (log w) (sent w) (ms w) s;
     publish e w := mkDevice (log w ++ [e]) (sent w) (ms w) (active_rules w) |}.
#[local] Instance device_entropy : Entropy device := {| random_bytes n w := (w, repeat 0 n); now_secs w := (w, []) |}.
#[local] Instance plain_sha1 : Sha1 := fun b => b.
#[local] Instance plain_base64 : Base64 := {| b64_encode b := b; b64_decode s := Some s |}.
#[local] Instance plain_status : StatusText := dec.
Definition counted (w : device) : device := mkDevice (log w) (S (sent w)) (ms w + 100) (active_rules w).
(** A device that answers with the number of the request, and one that is off. *)
Definition answering : SoapHttp device := fun _ _ _ w =>
  (counted w, if (sent w =? 3)%nat then inl (mkHttpError true (lit "reset"))
              else inr (mkSoapResponse 200 (inr (dec (Z.of_nat (sent w)))))).
Definition off : SoapHttp device := fun _ _ _ w => (counted w, inl (mkHttpError true (lit "refused"))).
Definition answering_laws : PollLaws (H0:=answering) device.
Proof. by refine {| published := log; requests := sent |}. Defined.
Definition off_laws : PollLaws (H0:=off) device.
Proof. by refine {| published := log; requests := sent |}. Defined.
(** The subscriptions, a start, a lost connection and the same start again. *)
Definition reads : XmlReader := fun xml =>
  if bool_decide (xml = dec 2) || bool_decide (xml = dec 5) then message_events tt_prefix (message "Yard" "true")
  else if bool_decide (xml = dec 6) then message_events tt_prefix (message "Yard" "false")
  else leaf tt_prefix "Address" (lit "http://cam/sub").
Definition camera : OnvifCameraConfig := mkMotionCamera (lit "cam-1") (lit "cam") 2020 (lit "u") (lit "p").
Definition settings : OnvifSettings := onvif_settings ∅.
Definition turns : list bool := [true; false; false; false; false].

Lemma ends_follow_starts_witness :
  ends_matched (run_onvif_motion_poller_for_camera (H0:=answering) (H5:=reads) camera settings turns start).1.(log) /\
  map active (run_onvif_motion_poller_for_camera (H0:=answering) (H5:=reads) camera settings turns start).1.(log) =
    [true; true; false].
Proof.
  split; [|vm_compute; reflexivity].
  pose proof (ends_follow_starts (H0:=answering) (PollLaws0:=answering_laws) (H5:=reads) camera settings turns start eq_refl) as Hm.
  destruct (run_onvif_motion_poller_for_camera (H0:=answering) (H5:=reads) camera settings turns start) as [w r].
  apply Hm.
Defined.

End PollWitness.
