(* ===== verification/UplinkTask.v ===== *)
(** * The life of the agent's uplink ([agent_uplink.rs], [Uplink::connect_and_run])

    The task connects, says HELLO, runs the connection of [Uplink] and waits,
    until it is shut down.  TLS, sockets, certificates, JSON and clocks are
    parameters: a [visit] is what they do during one pass of the task's loop,
    and what the producers call meanwhile. *)
From S2P Require Import Prelude Io LiveV2 Str Sdp Pipeline Proto Config Uplink.

(** ** TLS *)
Inductive ServerName (Ip : Type) := IpAddress (ip : Ip) | DnsName (name : str).
Arguments IpAddress {Ip}.
Arguments DnsName {Ip}.
(** Parsing an address and a DNS name; adding a certificate to a store. *)
Class Tls (Ip Cert : Type) := { parse_ip : str -> option Ip; dns_name : str -> option str; trusted : Cert -> bool }.
Inductive tls_error := BadCaFile (e : str) | NoCaCerts | BadCaCert | BadServerUrl | NoServerHost | BadServerName.

Section tls.
Context {Ip Cert : Type} `{Tls Ip Cert} `{UrlParser}.
Definition server_name_of (name : str) : outcome tls_error (ServerName Ip) :=
  match parse_ip name with
  | Some ip => Ok (IpAddress ip)
  | None => name ← ok_or (dns_name name) BadServerName; mret (DnsName name)
  end.
Definition resolve_server_name (m : vars) (server_addr : str) : outcome tls_error (ServerName Ip) :=
  match runtime_var (lit "INGEST_TLS_SERVER_NAME") m with
  | Some name => server_name_of name
  | None =>
      url ← ok_or (parse_url (lit "tcp://" ++ server_addr)) BadServerUrl;
      host ← ok_or (host_str url) NoServerHost;
      server_name_of host
  end.
Definition load_tls_config (certs : str + list Cert) : outcome tls_error (list Cert) :=
  match certs with
  | inl e => Err (BadCaFile e)
  | inr certs =>
      bail_if (bool_decide (certs = [])) NoCaCerts ;;
      bail_if (negb (forallb trusted certs)) BadCaCert ;;
      mret certs
  end.
Definition ca_path (m : vars) : str :=
  default (lit "/etc/sentinel_rtp_cam/ca.crt") (non_blank (runtime_var (lit "INGEST_TLS_CA") m)).
Definition build_tls_connector (load_certs : str -> str + list Cert) (m : vars) (server_addr : str)
    : outcome tls_error (list Cert * ServerName Ip) :=
  server_name ← resolve_server_name m server_addr;
  config ← load_tls_config (load_certs (ca_path m));
  mret (config, server_name).
End tls.

(** ** HELLO *)
Record HelloPayload := mkHelloPayload {
  hp_agent_id : str; hp_token : str; hp_streams : list str; timestamp_unix : Z; hp_nonce : str; streams_info : list HelloStream }.
Record HelloOkPayload := mkHelloOk { session_id : str; max_payload : Z; ping_interval_sec : Z }.
Definition generate_nonce `{Base64} (random : bytes) : str := b64_encode random.

(** ** The task *)
Inductive dialled (W : Type) := ConnectFails | HandshakeFails | Connects (w : W).
Arguments ConnectFails {W}.
Arguments HandshakeFails {W}.
Arguments Connects {W}.
(** How a pass of the loop ends: the connection's loop goes on, the task ends
    or panics, or it goes around. *)
Inductive task_state := Running | Stopped | Panicked | Again.

Section task.
Context {W E R ER QM QE Ip Cert : Type} `{AsyncWrite W E} `{AsyncRead R ER} `{Queue QM Msg} `{Queue QE MotionEnvelope}
  `{Rfc3339} `{ToJson EventPayload} `{ToJson HelloPayload} `{FromJson HelloOkPayload} `{Base64}
  `{Tls Ip Cert} `{UrlParser}.

Record visit := mkVisit {
  v_vars : vars; load_certs : str -> str + list Cert; v_dialled : dialled W;
  v_now : Z; v_random : bytes;
  (** what the read half holds, and whether an answer comes in time *)
  v_reader : R; in_time : bool;
  (** calls until HELLO is answered, turns and calls of the connection, and
      calls during the wait *)
  v_before : list event; v_session : list event; v_wait : list event }.

Variables (server_addr token agent_id : str).
Variables (stream_map stream_camera_map : gmap Z str) (stream_ingest : option HelloIngestConfig).

Definition hello_payload (v : visit) (u : uplink (QM:=QM) (QE:=QE)) : HelloPayload :=
  let infos := build_streams_info stream_map stream_camera_map stream_ingest (stream_h264_parameter_sets u) in
  mkHelloPayload agent_id token (map hs_name infos) (v_now v) (generate_nonce (v_random v)) infos.
(** The answer to HELLO: [HELLO_OK] with a payload that can be read. *)
Definition hello_ok (v : visit) : option HelloOkPayload :=
  if in_time v then
    match (read_record (v_reader v)).2 with
    | Ok rec => if record_type rec =? RECORD_HELLO_OK then from_json (rec_payload rec) else None
    | _ => None
    end
  else None.

(** One pass up to its wait: the connection, if one was made, how the attempt
    ended, and the state of the task. *)
Definition connect (v : visit) (u : uplink (QM:=QM) (QE:=QE)) : uplink * option (W * W) * attempt * task_state :=
  match build_tls_connector (load_certs v) (v_vars v) server_addr with
  | Ok _ =>
      match v_dialled v with
      | ConnectFails => (u, None, ConnectFailed, Again)
      | HandshakeFails => (u, None, HandshakeFailed, Again)
      | Connects w0 =>
          let '(w, r) := write_record RECORD_HELLO 0 (to_json (hello_payload v u)) w0 in
          let u := foldl (fun u e => call e u) u (v_before v) in
          match r with
          | Ok _ =>
              match hello_ok v with
              | None => (u, Some (w0, w), HelloFailed, Again)
              | Some ok =>
                  if ping_interval_sec ok =? 0 then (u, Some (w0, w), SessionEnded, Panicked)
                  else match run (v_session v) w u with
                       | (w, u, Continue) => (u, Some (w0, w), SessionEnded, Running)
                       | (w, u, Break) => (u, Some (w0, w), SessionEnded, Again)
                       end
              end
          | _ => (u, Some (w0, w), HelloFailed, Again)
          end
      end
  | _ => (u, None, TlsConfigFailed, Again)
  end.

(** The passes of the loop; the connections, how the attempts ended, and the
    waits between them in seconds. *)
Fixpoint uplink_task (vs : list visit) (backoff : Z) (u : uplink (QM:=QM) (QE:=QE))
    : uplink * list (W * W) * list (attempt * Z) * task_state :=
  match vs with
  | [] => (u, [], [], Again)
  | v :: vs =>
      if cancelled u then (u, [], [], Stopped)
      else
        let '(u, conn, a, state) := connect v u in
        match state with
        | Again =>
            if cancelled u then (u, option_list conn, [], Stopped)
            else
              let '(delay, backoff) := after_attempt a backoff in
              let u := foldl (fun u e => call e u) u (v_wait v) in
              let '(u', conns, waits, state) := uplink_task vs backoff u in
              (u', option_list conn ++ conns, (a, delay) :: waits, state)
        | _ => (u, option_list conn, [], state)
        end
  end.
End task.

(** ** What the task amounts to *)
Section facts.
Context {W E R ER QM QE Ip Cert : Type} `{HW : FailStop W E} `{HR : AsyncRead R ER} `{HM : QueueLaws QM Msg} `{HQ : QueueLaws QE MotionEnvelope}
  `{!Unbounded QE MotionEnvelope} `{Rfc3339} `{ToJson EventPayload} `{ToJson HelloPayload} `{FromJson HelloOkPayload} `{Base64}
  `{Tls Ip Cert} `{UrlParser}.
Implicit Types u : uplink (QM:=QM) (QE:=QE).

(** The events [es] happened; of the messages [taken] from the queues, in this
    order, those of [recs] were sent; [acc] is the media that got in. *)
Record moved (es : list event) u u' (taken recs : list sent) (acc : list Msg) : Prop := {
  m_media : items (media u) ++ acc = omap media_of taken ++ items (media u');
  m_motion : items (motion u) ++ omap offered_motion es = omap motion_of taken ++ items (motion u');
  m_acc : acc `sublist_of` omap offered_media es;
  m_dropped : dropped u' = dropped u + Z.of_nat (length (omap offered_media es) - length acc);
  m_rtp : rtp_sent u' = rtp_sent u + rtp_count recs;
  m_gap : gap_sent u' = gap_sent u + gap_count recs;
  m_event : motion_sent u' = motion_sent u + Z.of_nat (length (omap motion_of recs));
}.

Lemma progress_moved es (w w' : W) u u' recs acc lost cut :
  progress es w u w' u' recs acc lost cut -> moved es u u' (recs ++ lost) recs acc.
Proof. intros []. constructor; rewrite ?omap_app, <- ?app_assoc; auto. Qed.
Lemma moved_nil u : moved [] u u [] [] [].
Proof. constructor; cbn; rewrite ?app_nil_r; auto; unfold rtp_count, gap_count; cbn; lia. Qed.
Lemma moved_seq es1 es2 u u1 u2 t1 t2 r1 r2 a1 a2 :
  moved es1 u u1 t1 r1 a1 -> moved es2 u1 u2 t2 r2 a2 -> moved (es1 ++ es2) u u2 (t1 ++ t2) (r1 ++ r2) (a1 ++ a2).
Proof.
  intros M1 M2. destruct (count_app r1 r2) as [Hr Hg].
  pose proof (sublist_length _ _ (m_acc _ _ _ _ _ _ M1)). pose proof (sublist_length _ _ (m_acc _ _ _ _ _ _ M2)).
  destruct M1, M2. constructor.
  - by rewrite app_assoc, m_media0, <- app_assoc, m_media1, omap_app, <- app_assoc.
  - by rewrite omap_app, app_assoc, m_motion0, <- app_assoc, m_motion1, omap_app, <- app_assoc.
  - rewrite omap_app. by apply sublist_app.
  - rewrite omap_app, !length_app. lia.
  - lia.
  - lia.
  - rewrite omap_app, length_app. lia.
Qed.

Lemma moved_send e m u :
  omap offered_media [e] = [m] -> omap offered_motion [e] = [] -> exists acc, moved [e] u (send_media m u) [] [] acc.
Proof.
  intros He Hn. unfold send_media. destruct (q_send m (media u)) as [q [|]] eqn:Hs.
  - apply send_accepted in Hs. exists [m]. constructor; rewrite ?He, ?Hn; cbn; rewrite ?app_nil_r; auto;
      unfold rtp_count, gap_count; cbn; lia.
  - apply send_refused in Hs. exists []. constructor; rewrite ?He, ?Hn; cbn; rewrite ?app_nil_r; auto;
      try (unfold rtp_count, gap_count; cbn; lia). apply sublist_nil_l.
Qed.
Lemma moved_call e u : exists acc, moved [e] u (call e u) [] [] acc.
Proof.
  assert (Hquiet : forall u', media u' = media u -> motion u' = motion u -> dropped u' = dropped u ->
    rtp_sent u' = rtp_sent u -> gap_sent u' = gap_sent u -> motion_sent u' = motion_sent u ->
    omap offered_media [e] = [] -> omap offered_motion [e] = [] -> exists acc, moved [e] u u' [] [] acc).
  { intros u' Hm Hq Hd Hr Hg Hv He Hn. exists []. constructor; rewrite ?Hm, ?Hq, ?Hd, ?Hr, ?Hg, ?Hv, ?He, ?Hn; cbn;
      rewrite ?app_nil_r; auto; unfold rtp_count, gap_count; cbn; lia. }
  destruct e as [i|id b|id l n|m| |id s p]; cbn [call]; try (by apply Hquiet).
  - by apply moved_send.
  - by apply moved_send.
  - exists []. unfold send_motion. destruct (q_send m (motion u)) as [q ok] eqn:Hs.
    pose proof (accepts m (motion u)) as Hok. rewrite Hs in Hok. cbn in Hok. subst ok. apply send_accepted in Hs.
    constructor; cbn; rewrite ?app_nil_r; auto; unfold rtp_count, gap_count; cbn; lia.
Qed.
Lemma moved_calls es u : exists acc, moved es u (foldl (fun u e => call e u) u es) [] [] acc.
Proof.
  revert u. induction es as [|e es IH]; intros u; [exists []; apply moved_nil|]. cbn [foldl].
  destruct (moved_call e u) as [a1 M1]. destruct (IH (call e u)) as [a2 M2]. exists (a1 ++ a2).
  exact (moved_seq [e] es _ _ _ [] [] [] [] _ _ M1 M2).
Qed.

Lemma moved_typed es u u' taken recs acc :
  moved es u u' taken recs acc -> Forall is_media (items (media u)) -> Forall is_media (items (media u')).
Proof.
  intros M Hty. destruct M as [Hm _ Ha _ _ _ _].
  assert (Forall is_media (items (media u) ++ acc)) as Hall.
  { apply Forall_app. split; [done|]. apply Forall_forall. intros m Hin.
    pose proof (elem_of_sublist _ _ _ Hin Ha) as (e & _ & He)%list_elem_of_omap.
    destruct e; simplify_eq/=; [by left|by right]. }
  rewrite Hm in Hall. by apply Forall_app in Hall as [_ Hall].
Qed.

Variables (server_addr token agent_id : str).
Variables (stream_map stream_camera_map : gmap Z str) (stream_ingest : option HelloIngestConfig).
Abbreviation connect_ := (connect server_addr token agent_id stream_map stream_camera_map stream_ingest).
Abbreviation task_ := (uplink_task server_addr token agent_id stream_map stream_camera_map stream_ingest).
Implicit Types v : visit (W:=W) (R:=R) (Cert:=Cert).

(** What a connection's wire holds: a HELLO with the agent's id and token,
    whole or cut short; then the records, and these only when the whole HELLO
    was answered with [HELLO_OK]; then, if writing failed, the start of one
    more record. *)
Definition on_wire (answered : Prop) (conn : W * W) (recs : list sent) : Prop :=
  exists p hello cut, written conn.2 = written conn.1 ++ hello ++ concat (wire <$> recs) ++ cut /\
    hp_token p = token /\ hp_agent_id p = agent_id /\
    hello `prefix_of` encode_record (mkRecord RECORD_HELLO 0 (to_json p)) /\
    ((recs = [] /\ cut = []) \/ (answered /\ hello = encode_record (mkRecord RECORD_HELLO 0 (to_json p)) /\ (cut = [] \/ broken conn.2))).

Lemma take_prefix {A} k (l : list A) : take k l `prefix_of` l.
Proof. exists (drop k l). symmetry. apply take_drop. Qed.

Lemma connect_spec v u u' conn a state :
  Forall is_media (items (media u)) -> connect_ v u = (u', conn, a, state) ->
  exists happened recs lost acc, happened `sublist_of` v_before v ++ v_session v /\
    moved happened u u' (recs ++ lost) recs acc /\ (length lost <= 1)%nat /\
    match conn with
    | None => recs = [] /\ lost = []
    | Some c => on_wire (is_Some (hello_ok v)) c recs
    end.
Proof.
  intros Hty. unfold connect.
  assert (Hnone : forall x, (u, None, x, Again) = (u', conn, a, state) ->
    exists happened recs lost acc, happened `sublist_of` v_before v ++ v_session v /\
      moved happened u u' (recs ++ lost) recs acc /\ (length lost <= 1)%nat /\
      match conn with None => recs = [] /\ lost = [] | Some c => on_wire (is_Some (hello_ok v)) c recs end).
  { intros x [= <- <- _ _]. exists [], [], [], []. split; [apply sublist_nil_l|]. split; [apply moved_nil|]. cbn. auto. }
  destruct (build_tls_connector _ _ _); [|by apply Hnone..]. destruct (v_dialled v) as [| |w0]; [by apply Hnone..|]. clear Hnone.
  destruct (write_record RECORD_HELLO 0 _ w0) as [w r] eqn:Hw. set (p := hello_payload _ _ _ _ _ v u) in Hw.
  destruct (moved_calls (v_before v) u) as [acc1 M1]. set (u1 := foldl _ u (v_before v)) in *.
  assert (Hquiet : forall hello, written w = written w0 ++ hello ->
    hello `prefix_of` encode_record (mkRecord RECORD_HELLO 0 (to_json p)) ->
    exists happened recs lost acc, happened `sublist_of` v_before v ++ v_session v /\
      moved happened u u1 (recs ++ lost) recs acc /\ (length lost <= 1)%nat /\ on_wire (is_Some (hello_ok v)) (w0, w) recs).
  { intros hello Hwr Hpre. exists (v_before v), [], [], acc1. split; [by apply sublist_inserts_r|].
    split; [exact M1|]. split; [cbn; lia|]. exists p, hello, []. cbn. rewrite app_nil_r.
    split; [done|]. do 2 (split; [done|]). split; [done|]. by left. }
  destruct (write_record_inv _ _ _ _ _ _ Hw) as [[-> Hwr]|(Hbad & k & Hwr & _)].
  2:{ destruct r as [[]|e|]; [done|..]; intros [= <- <- _ _]; (eapply Hquiet; [exact Hwr|apply take_prefix]). }
  destruct (hello_ok v) as [ok|] eqn:Hok; [|intros [= <- <- _ _]; eapply Hquiet; [exact Hwr|done]].
  destruct (ping_interval_sec ok =? 0); [intros [= <- <- _ _]; eapply Hquiet; [exact Hwr|done]|].
  destruct (run (v_session v) w u1) as [[w2 u2] r2] eqn:Hrun. clear Hquiet.
  intros Heq. assert (u' = u2 /\ conn = Some (w0, w2)) as [-> ->] by (destruct r2; by simplify_eq).
  destruct (run_progress _ _ _ _ _ _ (moved_typed _ _ _ _ _ _ M1 Hty) Hrun) as (es1 & es2 & Hes & _ & recs & acc & lost & cut & P & _ & Hl).
  exists (v_before v ++ es1), recs, lost, (acc1 ++ acc). split_and!.
  - rewrite Hes. apply sublist_app; [done|]. by apply sublist_inserts_r.
  - exact (moved_seq _ _ _ _ _ [] _ [] _ _ _ M1 (progress_moved _ _ _ _ _ _ _ _ _ P)).
  - done.
  - destruct P as [Hp Hc _ _ _ _ _ _ _ _]. eexists p, _, cut. cbn [fst snd]. rewrite Hp, Hwr, <- app_assoc.
    split; [done|]. do 2 (split; [done|]). split; [done|]. right. split; [by eexists|]. split; [done|exact Hc].
Qed.

Lemma on_wire_weaken (P Q : Prop) conn recs : (P -> Q) -> on_wire P conn recs -> on_wire Q conn recs.
Proof. intros HPQ (p & hello & cut & H1' & H2' & H3' & H4' & H5'). exists p, hello, cut. tauto. Qed.

(** All that may happen during a pass. *)
Definition visit_events v : list event := v_before v ++ v_session v ++ v_wait v.
(** One connection after the other: what was sent, then what was lost. *)
Definition taken_over (parts : list (list sent * list sent)) : list sent := concat (map (fun p => p.1 ++ p.2) parts).
Definition sent_over (parts : list (list sent * list sent)) : list sent := concat (map fst parts).

Lemma moved_connection happened u u' recs lost acc conn answered :
  moved happened u u' (recs ++ lost) recs acc -> (length lost <= 1)%nat ->
  match conn with None => recs = [] /\ lost = [] | Some c => on_wire answered c recs end ->
  exists parts, moved happened u u' (taken_over parts) (sent_over parts) acc /\
    Forall2 (on_wire answered) (option_list conn) (map fst parts) /\ Forall (fun p => (length p.2 <= 1)%nat) parts.
Proof.
  intros M Hl Hc. destruct conn as [c|].
  - exists [(recs, lost)]. unfold taken_over, sent_over. cbn. rewrite !app_nil_r. auto.
  - destruct Hc as [-> ->]. exists []. auto.
Qed.

End facts.

(** ** A concrete life: no server, a rejected HELLO, a connection that breaks
    inside a record, and a last one that is closed *)
Module TaskWitness.
Import UplinkWitness ListStream.
#[local] Instance names : Tls unit unit := {| parse_ip _ := None; dns_name s := Some s; trusted _ := true |}.
#[local] Instance urls : UrlParser := fun s => Some (mkUrl (lit "tcp") None (Some (lit "ingest")) None None [] s).
#[local] Instance plain_base64 : Base64 := {| b64_encode b := b; b64_decode s := Some s |}.
#[local] Instance hello_json : ToJson HelloPayload := fun p => hp_token p ++ hp_agent_id p.
#[local] Instance ok_json : FromJson HelloOkPayload := fun b => if bool_decide (b = []) then None else Some (mkHelloOk [] 0 30).

Definition ok : bytes := encode_record (mkRecord RECORD_HELLO_OK 0 [1]).
Definition rejected : bytes := encode_record (mkRecord RECORD_ERROR 0 [1]).
Definition pass (d : dialled limited) (answer : bytes) (session wait : list event) : visit (W:=limited) (R:=bytes) (Cert:=unit) :=
  mkVisit ∅ (fun _ => inr [tt]) d 0 [7] answer true [] session wait.
Definition life : list (visit (W:=limited) (R:=bytes) (Cert:=unit)) := [
  pass ConnectFails [] [] [SendRtp 7 [1]; SendMotion cell_motion];
  pass (Connects (mkLimited [] 100)) rejected [] [SendRtp 7 [2]; SendRtp 7 [3]];
  pass (Connects (mkLimited [] 20)) ok [Turn idle; Turn idle; SendGap 7 1 2] [];
  pass (Connects (mkLimited [] 100)) ok [Turn idle; Turn idle; Turn (mkReady (Some ReaderGone) false 0)] [Shutdown]].
Definition run_life := Eval vm_compute in
  uplink_task (lit "ingest:7443") (lit "t") (lit "a") ∅ ∅ None life 1 start.

End TaskWitness.
