(* ===== verification/Relay.v ===== *)
(** * The relay of motion events, and the reports of a camera's life
      ([bin/agent_forward.rs])

    A task of the runtime takes the events of the bus, gives each period of
    motion one id by the latch, and hands them to the uplink.  Texts cross
    between the strings of [Motion] and those of the uplink by UTF-8. *)
From S2P Require Import Prelude Io Str Sdp Motion Pipeline Proto Config Uplink Forward Camera Agent OnvifMotion PollFacts.

Definition str_of (s : String.string) : str := from_utf8_lossy (lit s).

(** What the relay uses of [chrono]: printing, and durations, whose seconds
    are bounded. *)
Class ChronoText `{Chrono} := { to_rfc3339 : DateTime -> str; duration_seconds : Z -> option Duration }.

Section relay.
Context {W E QM QE : Type} `{AsyncWrite W E} `{Queue QM Msg} `{Queue QE MotionEnvelope} `{Chrono} `{!ChronoText}.
Variable values : gmap str Z -> list Z.
Variable cam_map : gmap str Z.

(** The latch of a runtime; a merge window out of range panics. *)
Definition relay_latch (m : vars) : outcome Empty_set Latch.t :=
  match duration_seconds (motion_merge_secs m) with Some d => Ok (Latch.new_with_grace d) | None => Panic end.
Definition relay_event (e : MotionEvent) (s : Latch.t * uplink (QM:=QM) (QE:=QE)) : Latch.t * uplink (QM:=QM) (QE:=QE) :=
  let '(latch, u) := s in
  let '(latch, e) := Latch.normalize e latch in
  (latch, (forward_motion_event values cam_map (str_of (rule e)) (active e) (to_rfc3339 (ts e))
             (str_of (Motion.camera_id e)) (str_of (Motion.event_id e)) u).1).
Definition relay (es : list MotionEvent) (s : Latch.t * uplink (QM:=QM) (QE:=QE)) : Latch.t * uplink (QM:=QM) (QE:=QE) :=
  foldl (fun s e => relay_event e s) s es.
End relay.

(** ** Activities *)
(** The request that reports an activity: address, token and body; nothing is
    sent without a server and a token. *)
Definition agent_lifecycle_activity (m : vars) (camera_id event level message : str) : option (str * str * Value) :=
  base_url ← agent_var m "SERVER_BASE_URL";
  token ← agent_var m "SERVER_BEARER_TOKEN";
  Some (trim_end_matches 47 base_url ++ lit "/api/v1/agent/activity", token,
    object [("events", Array [object [
      ("camera_id", String camera_id); ("source", String (lit "rtsp")); ("level", String level);
      ("event", String event); ("message", String message)]])]%string).
Definition threshold_context (t : OfflineTracker) : str :=
  lit "timeout=" ++ dec (offline_timeout t / 1000) ++ lit "s, retry_outage=" ++ dec (retry_outage t / 1000) ++
  lit "s, retry_count=" ++ dec (retry_count t) ++ lit ", retry_window=" ++ dec (retry_window t / 1000) ++ lit "s".
(** The message of the activity when a camera is reported offline. *)
Definition offline_message (t : OfflineTracker) (error : str) : str :=
  lit "Camera marked offline after outage policy threshold (" ++ threshold_context t ++ lit ") | last error: " ++ error.

(** ** What the relay hands over *)
Section facts.
Context {W E QM QE : Type} `{AsyncWrite W E} `{HM : QueueLaws QM Msg} `{HQ : QueueLaws QE MotionEnvelope}
  `{!Unbounded QE MotionEnvelope} `{Chrono} `{!ChronoText}.
Variable values : gmap str Z -> list Z.
Variable cam_map : gmap str Z.
Implicit Types u : uplink (QM:=QM) (QE:=QE).

Definition envelope (e : MotionEvent) : MotionEnvelope :=
  mkEnvelope (resolve_stream_id values (str_of (Motion.camera_id e)) cam_map) (str_of (rule e)) (active e) (to_rfc3339 (ts e))
    (str_of (Motion.camera_id e)) (str_of (Motion.event_id e)).

Lemma relay_motion es latch u :
  let '(latch', u') := relay values cam_map es (latch, u) in
  latch' = (Latch.run es latch).1 /\ items (motion u') = items (motion u) ++ map envelope (Latch.run es latch).2 /\
  media u' = media u /\ cancelled u' = cancelled u /\ dropped u' = dropped u.
Proof.
  revert latch u. induction es as [|e es IH]; intros latch u; [cbn; by rewrite app_nil_r|].
  cbn [relay foldl Latch.run]. unfold relay_event at 2. destruct (Latch.normalize e latch) as [latch1 e1].
  unfold forward_motion_event, send_motion. fold (envelope e1). cbn [fst].
  destruct (q_send (envelope e1) (motion u)) as [q ok] eqn:Hs. pose proof (accepts (envelope e1) (motion u)) as Hok.
  rewrite Hs in Hok. cbn in Hok. subst ok. apply send_accepted in Hs. cbn [fst].
  specialize (IH latch1 (with_queues (media u) q u)). unfold relay in IH.
  destruct (foldl _ _ es) as [latch2 u2]. destruct (Latch.run es latch1) as [s out]. cbn in *.
  destruct IH as (-> & -> & Hm & Hc & Hd). split; [done|]. rewrite Hs, <- app_assoc. by rewrite Hm, Hc, Hd.
Qed.
End facts.

#[local] Existing Instance Latch.about_dec.
#[local] Existing Instance EdgesFacts.of_rule_dec.

Section ends.
Context `{Chrono}.
Definition of_camera (cam : string) (e : MotionEvent) : Prop := Motion.camera_id e = cam.
#[export] Instance of_camera_dec cam e : Decision (of_camera cam e).
Proof. unfold of_camera; apply _. Defined.

(** A log event by event: an end follows, among the events of its camera and
    rule, a start that [P] relates to it. *)
Inductive follows_start (P : string -> string -> Prop) : list MotionEvent -> Prop :=
| fs_nil : follows_start P []
| fs_snoc log e :
    follows_start P log ->
    (active e = false -> exists s, last (filter (Latch.about (key_of e)) log) = Some s /\ active s = true /\
       P (Motion.event_id s) (Motion.event_id e)) ->
    follows_start P (log ++ [e]).

Lemma latest_about r cam log : latest r (filter (of_camera cam) log) = last (filter (Latch.about (cam, r)) log).
Proof.
  unfold latest. rewrite list_filter_filter. f_equal. apply list_filter_iff. intros e.
  unfold EdgesFacts.of_rule, of_camera, Latch.about, key_of. split; [intros [-> ->]; done|by intros [= -> ->]].
Qed.
Lemma filter_snoc_camera cam log e :
  filter (of_camera cam) (log ++ [e]) = filter (of_camera cam) log ++ (if decide (Motion.camera_id e = cam) then [e] else []).
Proof. rewrite filter_app. f_equal. Qed.

Lemma ends_matched_prefix (l k : list MotionEvent) : ends_matched (l ++ k) -> ends_matched l.
Proof.
  intros Hm i e Hi Ha. specialize (Hm i e ltac:(by apply lookup_app_l_Some) Ha).
  rewrite take_app_le in Hm; [done|]. apply lookup_lt_Some in Hi. lia.
Qed.
(** The logs of the cameras, however interleaved, event by event. *)
Lemma per_camera_follows log : (forall cam, ends_matched (filter (of_camera cam) log)) <-> follows_start eq log.
Proof.
  split.
  - induction log as [|e log IH] using rev_ind; intros Hm; [constructor|]. constructor.
    + apply IH. intros cam. specialize (Hm cam). rewrite filter_snoc_camera in Hm. by eapply ends_matched_prefix.
    + intros Ha. specialize (Hm (Motion.camera_id e) (length (filter (of_camera (Motion.camera_id e)) log)) e).
      rewrite filter_snoc_camera, decide_True in Hm by done.
      destruct Hm as (s & Hs & Hact & Hid); [by rewrite list_lookup_middle|done|].
      rewrite take_app_length, latest_about in Hs. by exists s.
  - intros Hf cam. induction Hf as [|log e _ IH He]; [by intros i e Hi|]. rewrite filter_snoc_camera.
    destruct (decide (Motion.camera_id e = cam)) as [<-|]; [|by rewrite app_nil_r].
    apply ends_matched_snoc; [done|]. intros Ha. destruct (He Ha) as (s & Hs & Hact & Hid). exists s. by rewrite latest_about.
Qed.

Lemma follows_weaken (P Q : string -> string -> Prop) log :
  (forall a b, P a b -> Q a b) -> follows_start P log -> follows_start Q log.
Proof. intros HPQ. induction 1 as [|log e _ IH He]; constructor; [done|]. intros Ha. destruct (He Ha) as (s & ? & ? & ?). eauto. Qed.

(** *** Through the latch *)
Lemma last_about k (log : list MotionEvent) e : key_of e = k -> last (filter (Latch.about k) (log ++ [e])) = Some e.
Proof. intros He. rewrite filter_app, filter_cons_True by done. cbn. apply last_snoc. Qed.
Lemma last_about_other k (log : list MotionEvent) e :
  key_of e <> k -> last (filter (Latch.about k) (log ++ [e])) = last (filter (Latch.about k) log).
Proof. intros He. rewrite filter_app, filter_cons_False by done. cbn. by rewrite app_nil_r. Qed.
Lemma normalize_spec (e : MotionEvent) (s : Latch.t) :
  let '(s', e') := Latch.normalize e s in
  key_of e' = key_of e /\ active e' = active e /\
  (if active e then Latch.active_ids s' !! key_of e = Some (Motion.event_id e')
   else Latch.active_ids s' !! key_of e = None /\
        forall id, Latch.active_ids s !! key_of e = Some id -> Motion.event_id e' = id) /\
  forall k, k <> key_of e -> Latch.active_ids s' !! k = Latch.active_ids s !! k.
Proof.
  unfold Latch.normalize. destruct (active e) eqn:Ha.
  - destruct (Latch.active_ids s !! key_of e) as [id|] eqn:Hid; [by rewrite Hid|].
    set (e' := match Latch.ended s !! key_of e with Some en => _ | None => e end).
    assert (Hk : key_of e' = key_of e /\ active e' = true) by (unfold e'; repeat case_match; done).
    destruct Hk as [Hk Hact]. cbn [Latch.active_ids]. rewrite lookup_insert_eq. split_and!; [done|done|done|].
    intros k Hne. by rewrite lookup_insert_ne.
  - set (e' := match Latch.active_ids s !! key_of e with Some ex => _ | None => e end).
    assert (Hk : key_of e' = key_of e /\ active e' = false) by (unfold e'; by case_match).
    destruct Hk as [Hk Hact]. cbn [Latch.active_ids]. split_and!; [done|done|apply lookup_delete_eq| |].
    + intros id Hid. unfold e'. by rewrite Hid.
    + intros k Hne. by rewrite lookup_delete_ne.
Qed.
Lemma latch_run_snoc es e (s : Latch.t) :
  Latch.run (es ++ [e]) s =
  ((Latch.normalize e (Latch.run es s).1).1, (Latch.run es s).2 ++ [(Latch.normalize e (Latch.run es s).1).2]).
Proof.
  revert s. induction es as [|x es IH]; intros s; cbn [app Latch.run].
  - cbn [fst snd app]. by destruct (Latch.normalize e s).
  - destruct (Latch.normalize x s) as [s1 x1]. rewrite IH. by destruct (Latch.run es s1).
Qed.

(** What the latch knows about what went in and what came out. *)
Definition latch_knows (s : Latch.t) (es out : list MotionEvent) : Prop :=
  (forall k id, Latch.active_ids s !! k = Some id ->
     exists st, last (filter (Latch.about k) out) = Some st /\ active st = true /\ Motion.event_id st = id) /\
  (forall k st, last (filter (Latch.about k) es) = Some st -> active st = true -> is_Some (Latch.active_ids s !! k)).
Lemma latch_follows grace (P : string -> string -> Prop) es :
  follows_start P es ->
  let '(s, out) := Latch.run es (Latch.new_with_grace grace) in latch_knows s es out /\ follows_start eq out.
Proof.
  induction 1 as [|es e _ IH He].
  { split; [|constructor]. split; [|done]. intros k id Hid. cbn in Hid. by rewrite lookup_empty in Hid. }
  rewrite latch_run_snoc. destruct (Latch.run es (Latch.new_with_grace grace)) as [s out]. cbn [fst snd].
  destruct IH as [[Hout Hin] Hf]. pose proof (normalize_spec e s) as Hn. destruct (Latch.normalize e s) as [s' e'].
  destruct Hn as (Hk & Ha & Hid & Hother). cbn [fst snd]. split; [split|].
  - intros k id Hs. destruct (decide (k = key_of e)) as [->|Hne].
    + rewrite last_about by done. destruct (active e); [|by destruct Hid as [Hd _]; rewrite Hd in Hs].
      rewrite Hid in Hs. injection Hs as <-. by exists e'.
    + rewrite last_about_other by congruence. rewrite Hother in Hs by done. by apply Hout.
  - intros k st. destruct (decide (k = key_of e)) as [->|Hne].
    + rewrite last_about by done. intros [= <-] Hact. rewrite Hact in Hid. by eexists.
    + rewrite last_about_other by congruence. intros Hl Hact. rewrite Hother by done. by eapply Hin.
  - constructor; [done|]. rewrite Ha. intros Hend. rewrite Hend in Hid. destruct Hid as [_ Hid]. rewrite Hk.
    destruct (He Hend) as (st & Hl & Hact & _). destruct (Hin _ _ Hl Hact) as [id Hs].
    destruct (Hout _ _ Hs) as (st' & Hl' & Hact' & Heq). exists st'. split_and!; [done|done|]. rewrite (Hid id Hs). done.
Qed.
End ends.

Section composed.
Context {W E QM QE : Type} `{AsyncWrite W E} `{HM : QueueLaws QM Msg} `{HQ : QueueLaws QE MotionEnvelope}
  `{!Unbounded QE MotionEnvelope} `{Chrono} `{!ChronoText}.

(** C34: from the pollers to the uplink: when every camera's poller publishes ends
    that follow their starts, as [PollFacts.ends_follow_starts] shows, then,
    however the cameras' events interleave on the bus and whatever periods the
    latch merges, the relay queues every event, in order and once, under its
    camera's stream and the id the latch gives it, and in what it queues every
    end follows, among the events of its camera and rule, a start with the same
    id. *)
Theorem motion_periods_relayed values cam_map grace es (u : uplink (QM:=QM) (QE:=QE)) :
  (forall cam, ends_matched (filter (of_camera cam) es)) ->
  let out := (Latch.run es (Latch.new_with_grace grace)).2 in
  Forall2 (fun e e' => e' = with_id e (Motion.event_id e')) es out /\
  items (motion (relay values cam_map es (Latch.new_with_grace grace, u)).2) =
    items (motion u) ++ map (envelope values cam_map) out /\
  forall cam, ends_matched (filter (of_camera cam) out).
Proof.
  intros Hes. cbn zeta.
  pose proof (relay_motion values cam_map es (Latch.new_with_grace grace) u) as Hr.
  destruct (relay values cam_map es (Latch.new_with_grace grace, u)) as [latch' u']. destruct Hr as (_ & Hr & _).
  split; [|split; [exact Hr|]].
  - apply (LatchFacts.run_phase (String.EmptyString, String.EmptyString) es (Latch.new_with_grace grace)).
  - apply per_camera_follows in Hes. apply (latch_follows grace) in Hes. apply per_camera_follows.
    destruct (Latch.run es (Latch.new_with_grace grace)) as [s out]. apply Hes.
Qed.
End composed.

Module RelayWitness.
Import MotionWitness UplinkWitness.
#[local] Existing Instance clock.
#[local] Instance no_text : ChronoText := { to_rfc3339 _ := []; duration_seconds d := Some d }.
(** Two cameras interleaved; the second period of the first one is merged. *)
Definition told : list MotionEvent :=
  [ev true 0 "cam-1" "id-1"; ev true 1 "cam-2" "id-9"; ev false 2 "cam-1" "id-1"; ev true 3 "cam-1" "id-2";
   ev false 4 "cam-2" "id-9"; ev false 5 "cam-1" "id-2"].
Definition relayed := (relay (fun _ => []) {[lit "cam-1" := 7]} told (Latch.new_with_grace 3, UplinkWitness.start)).2.
Lemma told_follows : follows_start eq told.
Proof.
  assert (He : told = (((((([] ++ [ev true 0 "cam-1" "id-1"]) ++ [ev true 1 "cam-2" "id-9"]) ++ [ev false 2 "cam-1" "id-1"]) ++
    [ev true 3 "cam-1" "id-2"]) ++ [ev false 4 "cam-2" "id-9"]) ++ [ev false 5 "cam-1" "id-2"])) by reflexivity.
  rewrite He. repeat constructor; try discriminate; intros _; (eexists; split; [vm_compute; reflexivity|done]).
Qed.
Lemma motion_periods_relayed_witness :
  (let out := (Latch.run told (Latch.new_with_grace 3)).2 in
   Forall2 (fun e e' => e' = with_id e (Motion.event_id e')) told out /\
   items (motion relayed) = map (envelope (fun _ => []) {[lit "cam-1" := 7]}) out /\
   forall cam, ends_matched (filter (of_camera cam) out)) /\
  map e_event_id (items (motion relayed)) =
    map lit ["id-1"; "id-9"; "id-1"; "id-1"; "id-9"; "id-1"]%string.
Proof.
  split; [|vm_compute; reflexivity].
  refine (motion_periods_relayed (H2:=clock) (H3:=no_text) (fun _ => []) {[lit "cam-1" := 7]} (3 : Z) told UplinkWitness.start _).
  apply per_camera_follows, told_follows.
Defined.
End RelayWitness.
