(* ===== verification/Server.v ===== *)
(** * The ingest server as a whole ([bin/server_ingest.rs])

    What [main] reads before it listens, and the server as a transition
    system: connections are accepted, each of their accesses to the registry
    is a step of its own ([Ingest] models the accesses), and so are the starts,
    ends and clean-ups of the pipelines' tasks.  The theorems hold for every
    interleaving of the steps. *)
From S2P Require Import Prelude Io Str Config ConfigFacts H264 Sdp Pipeline LiveV2 Proto Ingest.
From stdpp Require Import relations.
#[local] Open Scope Z_scope.

(** ** Before it listens *)
Inductive start_error := BadToken (e : token_error) | CannotBind.
Record started := mkStarted { bind : str; server_token : str; config : settings }.
(** [config_value]: the camera file, or the error of reading it; [listens]:
    whether the address can be bound. *)
Definition server_vars `{UrlParser} `{JsonText} {E} (config_value : E + Value) : vars :=
  match config_value with inr v => install_runtime_overrides v | inl _ => ∅ end.
Definition start_server (m : vars) (listens : str -> bool) : outcome start_error started :=
  let var k := Config.runtime_var k m in
  let bind := resolved_server_bind (Ingest.runtime_var (var (lit "SERVER_BIND"))) in
  match validate_server_token (Ingest.runtime_var (var (lit "SERVER_TOKEN"))) with
  | Ok token => if listens bind then Ok (mkStarted bind token (read_settings var)) else Err CannotBind
  | Err e => Err (BadToken e)
  | Panic => Panic
  end.

(** ** The server at work *)
Section system.
Context {W Tx R E : Type} `{TryMpsc W Tx StreamMsg} `{AsyncReadLaws R E} `{Base64} `{MotionJson} `{FromJson HelloPayload}.
Variable c : settings.
Variable server_token : str.
Abbreviation server := (@server W Tx).

(** Where a connection is in [handle_conn]: waiting for the HELLO, with streams
    of the HELLO or with a message to handle, or between two accesses to the
    registry. *)
Inductive phase :=
| Waiting (r : R)
| Greeting (r : R) (hs : list HelloStream)
| Ready (r : R)
| Got (r : R) (m : Msg)
| Sending (r : R) (t : Tx) (id : Z) (msg : StreamMsg)
| Evicting (r : R) (t : Tx) (id : Z) (msg : StreamMsg)
| Recreating (r : R) (id : Z) (msg : StreamMsg)
| Resending (r : R) (t : Tx) (id : Z) (msg : StreamMsg)
| Closed (e : @conn_error E).

Definition alone : nat -> server -> server := fun _ s => s.
Definition conn_next (p : phase) (s : server) : phase * server :=
  match p with
  | Waiting r =>
      match read_msg r with
      | (r, Ok m) =>
          if negb (msg_type m =? HELLO) then (Closed NotHello, s)
          else match from_json (payload m) with
               | None => (Closed BadHello, s)
               | Some hello =>
                   if negb (bool_decide (token hello = server_token)) then (Closed InvalidToken, s)
                   else (Greeting r (hello_streams hello), s)
               end
      | (_, Err e) => (Closed (ReadError e), s)
      | (_, Panic) => (Closed OutOfFuel, s)
      end
  | Greeting r [] => (Ready r, s)
  | Greeting r (h :: hs) => (Greeting r hs, on_hello_stream alone c h s)
  | Ready r =>
      match read_msg r with
      | (r, Ok m) => (Got r m, s)
      | (_, Err e) => (Closed (ReadError e), s)
      | (_, Panic) => (Closed OutOfFuel, s)
      end
  | Got r m =>
      let '(s, t) := ensure_stream c (stream_id m) None s in
      (match to_stream_msg (E:=E) m with Some msg => Sending r t (stream_id m) msg | None => Ready r end, s)
  | Sending r t id msg =>
      match try_send_stream_msg t msg s with
      | (s, None) => (Ready r, s)
      | (s, Some msg) => (Evicting r t id msg, s)
      end
  | Evicting r t id msg => (Recreating r id msg, evict_stream_if_same_sender id t s)
  | Recreating r id msg => let '(s, t) := ensure_stream c id None s in (Resending r t id msg, s)
  | Resending r t id msg => (Ready r, (try_send_stream_msg t msg s).1)
  | Closed e => (Closed e, s)
  end.

(** The task of a pipeline. *)
Inductive life := Spawned | Running | Finished | Gone.
Definition task_next (t : @task Tx) (l : life) (s : server) : option (life * server) :=
  match l with
  | Spawned => Some (Running, task_started s)
  | Running => Some (Finished, pipeline_ended (t_tx t) s)
  | Finished => Some (Gone, task_cleanup (t_stream t) (t_generation t) s)
  | Gone => None
  end.

Record conn := mkConn { origin : R; at_phase : phase }.
Record sys := mkSys { shared : server; conns : list conn; lives : list life; listening : bool }.
Definition initial_sys (w : W) : sys := mkSys (mkServer ∅ [] 0 w) [] [] true.
(** New tasks have not run yet. *)
Definition with_shared (sh : server) (s : sys) : sys :=
  mkSys sh (conns s) (lives s ++ replicate (length (spawned sh) - length (lives s)) Spawned) (listening s).
Definition with_conns (l : list conn) (s : sys) : sys := mkSys (shared s) l (lives s) (listening s).
Definition with_lives (l : list life) (s : sys) : sys := mkSys (shared s) (conns s) l (listening s).

(** The pipelines take messages out of their channels. *)
Variable drained : W -> W -> Prop.
(** An error of [accept] ends [main], and with it every task. *)
Inductive step : sys -> sys -> Prop :=
| step_accept r s : listening s = true -> bytes_ok (pending r) ->
    step s (with_conns (conns s ++ [mkConn r (Waiting r)]) s)
| step_accept_error s : listening s = true -> step s (mkSys (shared s) (conns s) (lives s) false)
| step_conn i k p sh s : listening s = true -> conns s !! i = Some k -> conn_next (at_phase k) (shared s) = (p, sh) ->
    step s (with_conns (<[i := mkConn (origin k) p]> (conns s)) (with_shared sh s))
| step_task i t l l' sh s : listening s = true -> spawned (shared s) !! i = Some t -> lives s !! i = Some l ->
    task_next t l (shared s) = Some (l', sh) -> step s (with_lives (<[i := l']> (lives s)) (with_shared sh s))
| step_drain w s : listening s = true -> drained (world (shared s)) w ->
    step s (mkSys (with_world w (shared s)) (conns s) (lives s) true).

(** One step of a schedule; a choice that is not possible changes nothing. *)
Inductive choice := Accept (r : R) | Connection (i : nat) | Task (i : nat).
Definition perform (x : choice) (s : sys) : sys :=
  match x with
  | Accept r => with_conns (conns s ++ [mkConn r (Waiting r)]) s
  | Connection i =>
      match conns s !! i with
      | Some k => let '(p, sh) := conn_next (at_phase k) (shared s) in
                  with_conns (<[i := mkConn (origin k) p]> (conns s)) (with_shared sh s)
      | None => s
      end
  | Task i =>
      match spawned (shared s) !! i, lives s !! i with
      | Some t, Some l => match task_next t l (shared s) with
                          | Some (l', sh) => with_lives (<[i := l']> (lives s)) (with_shared sh s)
                          | None => s
                          end
      | _, _ => s
      end
  end.
Lemma perform_listening x s : listening (perform x s) = listening s.
Proof. destruct x; cbn [perform]; [done|case_match; [by case_match|done]|repeat case_match; done]. Qed.
(** A schedule is a run of the system. *)
Lemma schedule_steps xs s :
  listening s = true -> Forall (fun x => match x with Accept r => bytes_ok (pending r) | _ => True end) xs ->
  rtc step s (foldl (fun s x => perform x s) s xs).
Proof.
  intros Hl Hxs. revert s Hl. induction Hxs as [|x xs Hx _ IH]; intros s Hl; [done|]. cbn [foldl].
  etransitivity; [|apply IH; by rewrite perform_listening].
  destruct x as [r|i|i]; cbn [perform].
  - by apply rtc_once, step_accept.
  - destruct (conns s !! i) as [k|] eqn:Hi; [|done]. destruct (conn_next _ _) as [p sh] eqn:Hn. apply rtc_once. by eapply step_conn.
  - destruct (spawned (shared s) !! i) as [t|] eqn:Ht; [|done]. destruct (lives s !! i) as [l|] eqn:Hi; [|done].
    destruct (task_next t l (shared s)) as [[l' sh]|] eqn:Hn; [|done]. apply rtc_once. by eapply step_task.
Qed.

(** [handle_conn] handles a message as the steps of the connection do, with
    what the others do in between. *)
Fixpoint visits (env : nat -> server -> server) (k n : nat) (x : phase * server) : phase * server :=
  match n with O => x | S n => visits env (S k) n (conn_next x.1 (env k x.2)) end.
Lemma on_msg_visits env r m s : exists n, visits env 0 n (Got r m, s) = (Ready r, on_msg (E:=E) env c m s).
Proof.
  unfold on_msg, send_or_recreate_stream_msg.
  destruct (ensure_stream c (stream_id m) None (env 0%nat s)) as [s1 t] eqn:He.
  destruct (to_stream_msg m) as [msg|] eqn:Hm.
  2:{ exists 1%nat. cbn [visits fst snd conn_next]. by rewrite He, Hm. }
  destruct (try_send_stream_msg t msg (env 1%nat s1)) as [s2 [back|]] eqn:Hs.
  - exists 5%nat. cbn [visits fst snd conn_next]. rewrite He, Hm. cbn [fst snd conn_next]. rewrite Hs. cbn [fst snd conn_next].
    by destruct (ensure_stream c (stream_id m) None (env 3%nat _)) as [s3 t3].
  - exists 2%nat. cbn [visits fst snd conn_next]. rewrite He, Hm. cbn [fst snd conn_next]. by rewrite Hs.
Qed.
End system.

Lemma valid_token v t :
  validate_server_token (Ingest.runtime_var v) = Ok t -> trim t <> [] /\ t <> INSECURE_DEFAULT_SERVER_TOKEN.
Proof.
  unfold validate_server_token, Ingest.runtime_var. destruct v as [v|]; cbn [mbind option_bind]; [|done].
  case_bool_decide as Hb; [done|]. case_bool_decide as Hd; [done|]. by intros [= <-].
Qed.
(** No configuration sets the address of the server: it listens on the
    loopback interface, port 9000; and a server that starts has a token, which
    is the bearer token of the camera file. *)
Theorem ingest_address_fixed `{UrlParser} `{JsonText} {E} (config_value : E + Value) listens st :
  start_server (server_vars config_value) listens = Ok st ->
  bind st = DEFAULT_SERVER_BIND /\ s_stale_secs (config st) = 15 /\ s_stats_log_secs (config st) = 60 /\
  trim (server_token st) <> [] /\ server_token st <> INSECURE_DEFAULT_SERVER_TOKEN.
Proof.
  assert (Hun : forall n, slot_of (lit n) = None -> lit n ∉ map lit (global_names ++ camera_names) ->
    Config.runtime_var (lit n) (server_vars config_value) = None).
  { intros n Hs Hn. unfold Config.runtime_var, server_vars. destruct config_value; [apply lookup_empty|by apply variable_unknown]. }
  unfold start_server. rewrite (Hun "SERVER_BIND"%string) by (reflexivity || by_eval).
  destruct (validate_server_token _) as [t|e|] eqn:Ht; [|done..]. destruct (listens _); [|done]. intros [= <-].
  cbn [bind config server_token]. unfold read_settings. cbn [s_stale_secs s_stats_log_secs].
  rewrite (Hun "STREAM_STALE_SECS"%string), (Hun "STREAM_STATS_LOG_SECS"%string) by (reflexivity || by_eval).
  by destruct (valid_token _ _ Ht) as [? ?].
Qed.

(** ** Documented behaviour of channels

    [known]: the channels created so far.  A new one is not known, and nothing
    has been put into a channel before it is. *)
Class ChannelIdentity (W Tx Msg : Type) `{TryMpscLaws W Tx Msg} := {
  known : W -> Tx -> Prop;
  new_unknown n w : ~ known w (new_channel n w).2;
  known_new n w t : known (new_channel n w).1 t <-> known w t \/ t = (new_channel n w).2;
  known_send t m w t' : known (try_send t m w).1 t' <-> known w t';
  known_drop t w t' : known (drop_rx t w) t' <-> known w t';
  drop_accepted t w t' : accepted (drop_rx t w) t' = accepted w t';
  unknown_empty w t : ~ known w t -> accepted w t = [];
}.

(** ** Counting the tasks at work *)
Definition at_work (l : life) : Z := match l with Running | Finished => 1 | _ => 0 end.
Definition count (ls : list life) : Z := foldr (fun l n => at_work l + n) 0 ls.
Lemma at_work_app ls ks : count (ls ++ ks) = count ls + count ks.
Proof. induction ls as [|l ls IH]; cbn; [done|]. fold (count (ls ++ ks)) (count ls). lia. Qed.
Lemma at_work_new n : count (replicate n Spawned) = 0.
Proof. by induction n. Qed.
Lemma at_work_insert i l l' ls : ls !! i = Some l -> count (<[i := l']> ls) = count ls - at_work l + at_work l'.
Proof.
  intros Hi. rewrite (insert_take_drop ls i l') by (by eapply lookup_lt_Some).
  rewrite <- (take_drop_middle ls i l Hi) at 3. rewrite !at_work_app. cbn [count foldr]. fold (count (drop (S i) ls)). lia.
Qed.

(** ** Facts *)
Section facts.
Context {W Tx R E : Type} `{HM : TryMpscLaws W Tx StreamMsg} `{HI : !ChannelIdentity W Tx StreamMsg}
  `{HR : AsyncReadLaws R E} `{Base64} `{MotionJson} `{FromJson HelloPayload}.
Variable c : settings.
Variable server_token : str.
Abbreviation server := (@server W Tx).
Abbreviation phase := (@phase Tx R E).
Implicit Types s : server.

(** The messages at the front of a connection's bytes, and what is left. *)
Inductive came_from (o : bytes) : list Msg -> bytes -> Prop :=
| cf_nil : came_from o [] o
| cf_snoc ms l m rest : came_from o ms l -> decode_msg (E:=E) l = Frame m rest -> came_from o (ms ++ [m]) rest.
(** The bytes begin with a HELLO that carries the token. *)
Definition greeting (o : bytes) (hello : HelloPayload) : Prop :=
  exists m rest, decode_msg (E:=E) o = Frame m rest /\ msg_type m = HELLO /\ from_json (payload m) = Some hello /\
    token hello = server_token.
Definition says_token (o : bytes) : Prop := exists hello, greeting o hello.
(** Behind such a HELLO they hold a message of the stream that is [msg]. *)
Definition spoken (o : bytes) (id : Z) (msg : StreamMsg) : Prop :=
  says_token o /\ exists hello ms rest m, came_from o (hello :: ms) rest /\ m ∈ ms /\ stream_id m = id /\
    to_stream_msg (E:=E) m = Some msg.
(** The HELLO declares the parameter sets of the stream. *)
Definition declared (o : bytes) (id : Z) (seed : bytes * bytes) : Prop :=
  exists hello h, greeting o hello /\ h ∈ hello_streams hello /\ h_stream_id h = id /\
    decode_h264_sync_seed h = Ok (Some seed).
(** What a connection can make a stream's pipeline work on. *)
Definition said (o : bytes) (id : Z) (x : StreamMsg + bytes * bytes) : Prop :=
  match x with inl msg => spoken o id msg | inr seed => declared o id seed end.
Abbreviation source := (Z -> StreamMsg + bytes * bytes -> Prop).
Definition seed_from (F : source) (id : Z) (seed : option (bytes * bytes)) : Prop :=
  match seed with Some sd => F id (inr sd) | None => True end.
(** A pipeline has the configuration of its stream. *)
Definition configured (F : source) (k : @task Tx) : Prop :=
  t_version k = s_version c /\ t_cfg k = stream_config c (t_stream k) /\
  exists seed, t_v2_cfg k = v2_config c (t_stream k) seed /\ seed_from F (t_stream k) seed.
Lemma came_from_bytes o ms rest : bytes_ok o -> came_from o ms rest -> bytes_ok rest.
Proof. intros Ho. induction 1 as [|ms l m rest _ IH Hd]; [done|]. by destruct (decode_rest _ _ _ Hd IH). Qed.
Lemma came_from_split o ms rest m : came_from o ms rest -> m ∈ ms ->
  exists ms1 l l', came_from o ms1 l /\ decode_msg (E:=E) l = Frame m l'.
Proof.
  induction 1 as [|ms l m' rest Hc IH Hd]; [by intros ?%not_elem_of_nil|].
  intros [Hm| ->%list_elem_of_singleton]%elem_of_app; [by apply IH|by exists ms, l, rest].
Qed.
(** The packets in a message of bytes are bytes. *)
Lemma spoken_bytes o id b : bytes_ok o -> spoken o id (MsgRtp b) -> bytes_ok b.
Proof.
  intros Ho (_ & hello & ms & rest & m & Hc & Hm & _ & Hb).
  destruct (came_from_split o (hello :: ms) rest m Hc) as (ms1 & l & l' & Hc1 & Hd); [by apply list_elem_of_further|].
  apply came_from_bytes in Hc1; [|done]. apply decode_payload in Hd; [|done].
  enough (b = payload m) as -> by done. revert Hb. unfold to_stream_msg.
  destruct (_ =? RTP); [by intros [= <-]|]. destruct (_ =? GAP); [by case_match; [case_match|..]|].
  destruct (_ =? MOTION); [|done]. unfold parse_motion_msg. destruct (from_slice _) as [v|]; [|done]. cbn [mbind option_bind].
  destruct (negb _); [done|]. by destruct (from_value v).
Qed.
Definition owner (l : list (@task Tx)) (t : Tx) (id : Z) : Prop := exists k, k ∈ l /\ t_tx k = t /\ t_stream k = id.

(** *** The registry, the tasks and the channels *)
Record server_ok (F : source) (s : server) : Prop := {
  tasks_known : forall k, k ∈ spawned s -> known (world s) (t_tx k);
  tasks_apart : NoDup (map t_tx (spawned s));
  registered : forall id h, streams s !! id = Some h ->
    exists k, k ∈ spawned s /\ t_stream k = id /\ t_tx k = tx h /\ t_generation k = generation h;
  fed : forall k msg, k ∈ spawned s -> msg ∈ accepted (world s) (t_tx k) -> F (t_stream k) (inl msg);
  made : forall k, k ∈ spawned s -> configured F k;
}.
Definition grown (s s' : server) : Prop :=
  (exists l, spawned s' = spawned s ++ l) /\ active_streams s' = active_streams s.

Lemma configured_weaken (F G : source) k : (forall id x, F id x -> G id x) -> configured F k -> configured G k.
Proof. intros HFG (Hv & Hc & seed & Hs & Hd). split_and!; [done..|]. exists seed. split; [done|]. destruct seed; cbn in *; auto. Qed.
Lemma server_ok_weaken (F G : source) s :
  (forall id x, F id x -> G id x) -> server_ok F s -> server_ok G s.
Proof. intros HFG [K A Rg Fd Md]. split; try done; eauto using configured_weaken. Qed.
Lemma grown_same s s' : spawned s' = spawned s -> active_streams s' = active_streams s -> grown s s'.
Proof. intros Hs Ha. split; [exists []; by rewrite app_nil_r|done]. Qed.
Lemma owner_grown s s' t id : grown s s' -> owner (spawned s) t id -> owner (spawned s') t id.
Proof. intros [[l ->] _] (k & Hk & Ht). exists k. split; [by apply elem_of_app; left|done]. Qed.

Lemma fresh_ok F g id seed s :
  server_ok F s -> seed_from F id seed ->
  let '(w, t) := new_channel 4096 (world s) in
  server_ok F (mkServer (<[id := mkHandle t g]> (streams s))
    (spawned s ++ [mkTask id g t (s_version c) (stream_config c id) (v2_config c id seed)]) (active_streams s) w).
Proof.
  intros [K A Rg Fd Md] Hseed. pose proof (new_unknown 4096 (world s)) as Hu. pose proof (known_new 4096 (world s)) as Hk.
  pose proof (new_channel_fresh 4096 (world s)) as (_ & _ & _ & Hacc). destruct (new_channel 4096 (world s)) as [w t].
  cbn [fst snd] in *. set (k0 := mkTask id g t _ _ _). split; cbn [spawned streams world].
  - intros k [Hin| ->%list_elem_of_singleton]%elem_of_app; [|by apply Hk; right]. apply Hk. left. by apply K.
  - rewrite map_app. apply NoDup_app. split_and!; [done| |by apply NoDup_singleton].
    intros x Hx ->%list_elem_of_singleton. apply list_elem_of_fmap in Hx as (k & Hx & Hin). apply Hu. cbn in Hx.
    rewrite Hx. by apply K.
  - intros i h. rewrite lookup_insert_Some. intros [[<- <-]|[_ Hi]].
    + exists k0. split; [apply elem_of_app; right; by apply list_elem_of_singleton|done].
    + destruct (Rg i h Hi) as (k & Hin & Hrest). exists k. split; [by apply elem_of_app; left|done].
  - intros k msg. rewrite Hacc. intros [Hin| ->%list_elem_of_singleton]%elem_of_app Hm; [by apply (Fd k)|].
    cbn [t_tx k0] in Hm. rewrite unknown_empty in Hm by done. by apply not_elem_of_nil in Hm.
  - intros k [Hin| ->%list_elem_of_singleton]%elem_of_app; [by apply Md|]. split_and!; [done..|]. by exists seed.
Qed.
Lemma ensure_ok F id seed s :
  server_ok F s -> seed_from F id seed ->
  let '(s', t) := ensure_stream c id seed s in server_ok F s' /\ grown s s' /\ owner (spawned s') t id.
Proof.
  intros Hs Hseed. unfold ensure_stream.
  pose proof (fun g => fresh_ok F g id seed s Hs Hseed) as Hf. destruct (new_channel 4096 (world s)) as [w t].
  assert (Hnew : forall g, let s' := mkServer (<[id := mkHandle t g]> (streams s))
    (spawned s ++ [mkTask id g t (s_version c) (stream_config c id) (v2_config c id seed)]) (active_streams s) w in
    server_ok F s' /\ grown s s' /\ owner (spawned s') t id).
  { intros g. split; [apply Hf|]. split; [split; [by eexists|done]|]. cbn [spawned].
    eexists. split; [apply elem_of_app; right; by apply list_elem_of_singleton|done]. }
  destruct (streams s !! id) as [h|] eqn:Hh; [|apply Hnew]. destruct (negb _); [|apply Hnew].
  split; [done|]. split; [by apply grown_same|]. destruct (registered F s Hs id h Hh) as (k & Hin & Hid & Ht & _). by exists k.
Qed.
Lemma accepted_send (t : Tx) (msg : StreamMsg) (w : W) (t' : Tx) m :
  m ∈ accepted (try_send t msg w).1 t' -> m ∈ accepted w t' \/ (t' = t /\ m = msg).
Proof.
  assert (same_channel t' t = false \/ same_channel t' t = true) as Hsame by (destruct (same_channel t' t); auto).
  destruct (tx_closed w t) eqn:Hc; [rewrite send_when_closed by done; by left|].
  destruct (send_when_open t msg w Hc) as (_ & Hother & Ha).
  destruct Hsame as [Hne|He%same_channel_eq].
  - rewrite Hother; [by left|]. intros He%same_channel_eq. congruence.
  - subst t'. destruct Ha as [[_ ->]|[_ ->]]; [|by left]. intros [Hm|Hm%list_elem_of_singleton]%elem_of_app; auto.
Qed.
Lemma owner_stream F t id s k : server_ok F s -> owner (spawned s) t id -> k ∈ spawned s -> t_tx k = t -> t_stream k = id.
Proof.
  intros [_ A _ _ _] (k0 & Hk0 & Ht0 & <-) Hk Ht.
  destruct (list_elem_of_lookup_1 _ _ Hk) as [i Hi]. destruct (list_elem_of_lookup_1 _ _ Hk0) as [j Hj].
  assert (i = j) as ->.
  { apply (NoDup_lookup (map t_tx (spawned s)) i j t); [done| |]; rewrite list_lookup_fmap.
    - rewrite Hi. cbn. by rewrite Ht.
    - rewrite Hj. cbn. by rewrite Ht0. }
  congruence.
Qed.
Lemma send_ok F t id msg s :
  server_ok F s -> owner (spawned s) t id -> F id (inl msg) ->
  let '(s', back) := try_send_stream_msg t msg s in
  server_ok F s' /\ grown s s' /\ (back = None \/ back = Some msg).
Proof.
  intros Hs Ho HF. pose proof (owner_stream F t id s) as Hstream. pose proof Hs as [K A Rg Fd Md]. unfold try_send_stream_msg.
  pose proof (known_send t msg (world s)) as Hk.
  assert (Hacc : forall k m, k ∈ spawned s -> m ∈ accepted (try_send t msg (world s)).1 (t_tx k) -> F (t_stream k) (inl m)).
  { intros k m Hin Hm. apply accepted_send in Hm as [Hm|[Ht ->]]; [by apply Fd|by rewrite (Hstream k)]. }
  destruct (try_send t msg (world s)) as [w res]. cbn [fst] in *.
  assert (Hok : server_ok F (with_world w s)) by (split; cbn [with_world spawned streams world]; [intros; by apply Hk, K|done..]).
  assert (Hgr : grown s (with_world w s)) by (by apply grown_same).
  destruct res; (split; [done|]; split; [done|]); auto.
Qed.
Lemma evict_ok F t id s :
  server_ok F s -> server_ok F (evict_stream_if_same_sender id t s) /\ grown s (evict_stream_if_same_sender id t s).
Proof.
  intros Hs. unfold evict_stream_if_same_sender. destruct (streams s !! id); [|by split; [|apply grown_same]].
  destruct (same_channel _ _); [|by split; [|apply grown_same]]. split; [|by apply grown_same].
  destruct Hs as [K A Rg Fd Md]. split; [done|done| |done|done]. intros i h'. cbn [streams with_streams].
  intros [_ Hi]%lookup_delete_Some. by apply Rg.
Qed.
Lemma task_ok F t l l' s s' :
  server_ok F s -> task_next t l s = Some (l', s') -> server_ok F s' /\ spawned s' = spawned s.
Proof.
  intros [K A Rg Fd Md]. destruct l; cbn [task_next]; [intros [= <- <-]..|done].
  - by split.
  - split; [|done]. split; cbn [pipeline_ended with_world spawned streams world]; [intros; by apply known_drop, K|done|done| |done].
    intros k msg Hk. rewrite drop_accepted. by apply Fd.
  - split; [|done]. split; [done|done| |done|done]. intros i h. cbn [task_cleanup streams].
    destruct (streams s !! t_stream t); [|apply Rg]. destruct (_ =? _); [|apply Rg]. intros [_ Hi]%lookup_delete_Some. by apply Rg.
Qed.

(** *** Connections *)
Definition heard (o : bytes) (r : R) : Prop :=
  says_token o /\ bytes_ok (pending r) /\ exists hello ms, came_from o (hello :: ms) (pending r).
Definition phase_ok (o : bytes) (l : list (@task Tx)) (p : phase) : Prop :=
  match p with
  | Waiting r => pending r = o /\ bytes_ok o
  | Greeting r hs => heard o r /\ exists hello, greeting o hello /\ hs ⊆ hello_streams hello
  | Ready r => heard o r
  | Got r m => heard o r /\ exists hello ms, came_from o (hello :: ms ++ [m]) (pending r)
  | Sending r t id msg | Resending r t id msg => heard o r /\ spoken o id msg /\ owner l t id
  | Evicting r _ id msg | Recreating r id msg => heard o r /\ spoken o id msg
  | Closed _ => True
  end.
Lemma phase_grown o s s' (p : phase) : grown s s' -> phase_ok o (spawned s) p -> phase_ok o (spawned s') p.
Proof. intros Hg. destruct p; cbn [phase_ok]; try done; intros (? & ? & ?); split_and!; try done; by eapply owner_grown. Qed.

Lemma read_message o ms (r r' : R) m :
  bytes_ok (pending r) -> came_from o ms (pending r) -> read_msg (E:=E) r = (r', Ok m) ->
  came_from o (ms ++ [m]) (pending r') /\ bytes_ok (pending r') /\ decode_msg (E:=E) (pending r) = Frame m (pending r').
Proof.
  intros Hok Hc Hr. pose proof (read_msg_decode r Hok) as Hd. destruct (decode_msg (pending r)) as [m1 rest| |why] eqn:Ed.
  - destruct Hd as (r1 & Hr1 & <-). rewrite Hr in Hr1. injection Hr1 as <- <-. split; [by econstructor|]. split; [|done].
    by eapply decode_rest in Ed as [? _].
  - destruct Hd as (r1 & e & Hr1). by rewrite Hr in Hr1.
  - destruct Hd as (r1 & Hr1). by rewrite Hr in Hr1.
Qed.

(** What a step of a connection keeps. *)
Definition conn_step_ok (F : source) (o : bytes) (s : server) (x : phase * server) : Prop :=
  server_ok F x.2 /\ grown s x.2 /\ phase_ok o (spawned x.2) x.1 /\ (spawned x.2 = spawned s \/ says_token o).
Lemma stays F o s p : server_ok F s -> phase_ok o (spawned s) p -> conn_step_ok F o s (p, s).
Proof. intros Hs Hp. split; [done|]. split; [by apply grown_same|]. split; [done|]. by left. Qed.

Lemma waiting_ok F o r s : server_ok F s -> pending r = o -> bytes_ok o -> conn_step_ok F o s (conn_next c server_token (Waiting r) s).
Proof.
  intros Hs Ho Hok. unfold conn_next. destruct (read_msg r) as [r' [m|e|]] eqn:Hr; [|by apply stays..].
  destruct (read_message o [] r r' m) as (Hc & Hok' & Hd); [by rewrite Ho|rewrite Ho; constructor|done|].
  destruct (Z.eqb_spec (msg_type m) HELLO) as [Ht|]; cbn [negb]; [|by apply stays].
  destruct (from_json (payload m)) as [hello|] eqn:Hj; [|by apply stays].
  case_bool_decide as Htok; cbn [negb]; [|by apply stays]. apply stays; [done|].
  assert (Hg : greeting o hello) by (exists m, (pending r'); by rewrite <- Ho).
  split; [|by exists hello]. split; [by exists hello|]. split; [done|by exists m, []].
Qed.
Lemma ready_ok F o r s : server_ok F s -> heard o r -> conn_step_ok F o s (conn_next c server_token (Ready r) s).
Proof.
  intros Hs (Hsay & Hok & hello & ms & Hc). unfold conn_next. destruct (read_msg r) as [r' [m|e|]] eqn:Hr; [|by apply stays..].
  destruct (read_message o (hello :: ms) r r' m) as (Hc' & Hok' & _); [done..|]. apply stays; [done|].
  split; [|by exists hello, ms]. split; [done|]. split; [done|]. by exists hello, (ms ++ [m]).
Qed.
Lemma got_ok F o r m s :
  server_ok F s -> phase_ok o (spawned s) (Got r m) -> conn_step_ok F o s (conn_next c server_token (Got r m) s).
Proof.
  intros Hs [Hh (hello & ms & Hc)]. unfold conn_next. pose proof (ensure_ok F (stream_id m) None s Hs I) as He.
  destruct (ensure_stream c (stream_id m) None s) as [s' t]. destruct He as (Hs' & Hg & Ho).
  split; [done|]. split; [done|]. split; [|right; apply Hh]. cbn [fst snd]. destruct (to_stream_msg m) as [msg|] eqn:Hm; [|done].
  split; [done|]. split; [|done]. split; [apply Hh|]. exists hello, (ms ++ [m]), (pending r), m. split; [done|].
  split; [apply elem_of_app; right; by apply list_elem_of_singleton|done].
Qed.
Lemma greeting_ok F o r hs s :
  server_ok F s -> (forall id x, said o id x -> F id x) -> phase_ok o (spawned s) (Greeting r hs) ->
  conn_step_ok F o s (conn_next c server_token (Greeting r hs) s).
Proof.
  intros Hs HF (Hh & hello & Hg & Hsub). destruct hs as [|h hs]; [by apply stays|].
  unfold conn_next, on_hello_stream, alone. set (seed := match decode_h264_sync_seed h with Ok sd => sd | _ => None end).
  assert (Hseed : seed_from F (h_stream_id h) seed).
  { unfold seed, seed_from. destruct (decode_h264_sync_seed h) as [[sd|]| |] eqn:Hd; [|done..].
    apply HF. exists hello, h. split_and!; [done| |done|done]. apply Hsub, list_elem_of_here. }
  pose proof (ensure_ok F (h_stream_id h) seed s Hs Hseed) as He.
  destruct (ensure_stream c (h_stream_id h) seed s) as [s' t]. destruct He as (Hs' & Hgr & _).
  split_and!; [done|done| |right; apply Hh]. split; [done|]. exists hello. split; [done|].
  intros x Hx. apply Hsub. by apply list_elem_of_further.
Qed.
Lemma conn_ok F o p s :
  server_ok F s -> (forall id x, said o id x -> F id x) -> phase_ok o (spawned s) p ->
  conn_step_ok F o s (conn_next c server_token p s).
Proof.
  intros Hs HF Hp. destruct p as [r|r hs|r|r m|r t id msg|r t id msg|r id msg|r t id msg|e].
  - by apply waiting_ok; destruct Hp.
  - by apply greeting_ok.
  - by apply ready_ok.
  - by apply got_ok.
  - destruct Hp as (Hh & Hsp & Ho). unfold conn_next. pose proof (send_ok F t id msg s Hs Ho (HF _ (inl msg) Hsp)) as Hsend.
    destruct (try_send_stream_msg t msg s) as [s' back]. destruct Hsend as (Hs' & Hg & [-> | ->]); (split_and!; [done|done| |right; apply Hh]); done.
  - destruct Hp as (Hh & Hsp). destruct (evict_ok F t id s Hs) as [Hs' Hg]. by split_and!; [..|right; apply Hh].
  - destruct Hp as (Hh & Hsp). unfold conn_next. pose proof (ensure_ok F id None s Hs I) as He.
    destruct (ensure_stream c id None s) as [s' t]. destruct He as (Hs' & Hg & Ho). by split_and!; [..|right; apply Hh].
  - destruct Hp as (Hh & Hsp & Ho). unfold conn_next. pose proof (send_ok F t id msg s Hs Ho (HF _ (inl msg) Hsp)) as Hsend.
    destruct (try_send_stream_msg t msg s) as [s' back]. destruct Hsend as (Hs' & Hg & _). by split_and!; [..|right; apply Hh].
  - by apply stays.
Qed.

(** *** The server *)
Abbreviation sys := (@sys W Tx R E).
Variable drained : W -> W -> Prop.
(** A pipeline that takes messages changes no history. *)
Hypothesis drained_keeps : forall w w', drained w w' ->
  forall t, (known w' t <-> known w t) /\ accepted w' t = accepted w t.

Definition fed_by (l : list (@conn Tx R E)) (id : Z) (x : StreamMsg + bytes * bytes) : Prop :=
  exists k, k ∈ l /\ said (pending (origin k)) id x.
Record safe (s : sys) : Prop := {
  safe_server : server_ok (fed_by (conns s)) (shared s);
  safe_conns : forall k, k ∈ conns s -> phase_ok (pending (origin k)) (spawned (shared s)) (at_phase k);
  safe_gate : spawned (shared s) <> [] -> exists k, k ∈ conns s /\ says_token (pending (origin k));
  safe_lives : length (lives s) = length (spawned (shared s));
  safe_count : active_streams (shared s) = count (lives s);
  safe_bytes : forall k, k ∈ conns s -> bytes_ok (pending (origin k));
}.

Lemma initial_safe w : safe (initial_sys w).
Proof.
  split; [|by intros k ?%not_elem_of_nil|done|done|done|by intros k ?%not_elem_of_nil].
  split; [by intros k ?%not_elem_of_nil|constructor| |by intros k msg ?%not_elem_of_nil|by intros k ?%not_elem_of_nil]. intros id h. cbn. by rewrite lookup_empty.
Qed.
(** A connection that takes the place of one with the same bytes. *)
Lemma moved (l : list (@conn Tx R E)) (i : nat) k p :
  l !! i = Some k -> forall j, j ∈ l -> exists j', j' ∈ <[i := mkConn (origin k) p]> l /\ origin j' = origin j.
Proof.
  intros Hi j [n Hn]%list_elem_of_lookup_1. destruct (decide (n = i)) as [->|Hne].
  - exists (mkConn (origin k) p). split; [|by simplify_eq]. apply (list_elem_of_lookup_2 _ i).
    rewrite list_lookup_insert_eq; [done|by eapply lookup_lt_Some].
  - exists j. split; [|done]. apply (list_elem_of_lookup_2 _ n). by rewrite list_lookup_insert_ne.
Qed.
Lemma accept_safe r (s : sys) : bytes_ok (pending r) -> safe s -> safe (with_conns (conns s ++ [mkConn r (Waiting r)]) s).
Proof.
  intros Hr [Sv Cn Gt Lv Ct Ok']. split; cbn [with_conns shared conns lives]; [| | |done|done|].
  - eapply server_ok_weaken; [|exact Sv]. intros id x (k & Hk & Hsp). exists k. split; [by apply elem_of_app; left|done].
  - intros k [Hk| ->%list_elem_of_singleton]%elem_of_app; [by apply Cn|done].
  - intros Hne. destruct (Gt Hne) as (k & Hk & Hsay). exists k. split; [by apply elem_of_app; left|done].
  - intros k [Hk| ->%list_elem_of_singleton]%elem_of_app; [by apply Ok'|done].
Qed.
Lemma conn_safe i k p sh (s : sys) :
  conns s !! i = Some k -> conn_next c server_token (at_phase k) (shared s) = (p, sh) -> safe s ->
  safe (with_conns (<[i := mkConn (origin k) p]> (conns s)) (with_shared sh s)).
Proof.
  intros Hi Hn [Sv Cn Gt Lv Ct Ok']. pose proof (list_elem_of_lookup_2 _ _ _ Hi) as Hk. pose proof (moved _ _ _ p Hi) as Hm.
  destruct (conn_ok (fed_by (conns s)) (pending (origin k)) (at_phase k) (shared s)) as (Hs' & Hg & Hp & Hsay);
    [done|by exists k|by apply Cn|]. rewrite Hn in *. cbn [fst snd] in *.
  split; cbn [with_conns with_shared shared conns lives].
  - eapply server_ok_weaken; [|exact Hs']. intros id x (j & Hj & Hsp). destruct (Hm j Hj) as (j' & Hj' & Ho).
    exists j'. by rewrite Ho.
  - intros j [n Hj]%list_elem_of_lookup_1. destruct (decide (n = i)) as [->|Hne].
    + rewrite list_lookup_insert_eq in Hj by (by eapply lookup_lt_Some). injection Hj as <-. done.
    + rewrite list_lookup_insert_ne in Hj by done. apply list_elem_of_lookup_2, Cn in Hj. by eapply phase_grown.
  - intros Hne. destruct Hsay as [Heq|Hsay]; [rewrite Heq in Hne; destruct (Gt Hne) as (j & Hj & Hsay)|];
      [destruct (Hm j Hj) as (j' & Hj' & Ho)|destruct (Hm k Hk) as (j' & Hj' & Ho)]; exists j'; by rewrite Ho.
  - destruct Hg as [[l ->] _]. rewrite !length_app, length_replicate. lia.
  - rewrite at_work_app, at_work_new. destruct Hg as [_ ->]. lia.
  - intros j [n Hj]%list_elem_of_lookup_1. destruct (decide (n = i)) as [->|Hne].
    + rewrite list_lookup_insert_eq in Hj by (by eapply lookup_lt_Some). injection Hj as <-. exact (Ok' k Hk).
    + rewrite list_lookup_insert_ne in Hj by done. by apply list_elem_of_lookup_2, Ok' in Hj.
Qed.
Lemma task_safe i t l l' sh (s : sys) :
  lives s !! i = Some l -> task_next t l (shared s) = Some (l', sh) -> safe s ->
  safe (with_lives (<[i := l']> (lives s)) (with_shared sh s)).
Proof.
  intros Hi Hn [Sv Cn Gt Lv Ct Ok']. destruct (task_ok _ _ _ _ _ _ Sv Hn) as [Hs' Hsp].
  split; cbn [with_lives with_shared shared conns lives]; rewrite ?Hsp; [done|done|done|by rewrite length_insert| |done].
  rewrite (at_work_insert _ l) by done. destruct l; cbn [task_next] in Hn; [injection Hn as <- <-..|done];
    cbn [active_streams task_started pipeline_ended task_cleanup with_world at_work]; lia.
Qed.
Lemma drain_safe w (s : sys) :
  drained (world (shared s)) w -> safe s -> safe (mkSys (with_world w (shared s)) (conns s) (lives s) true).
Proof.
  intros Hd [[K A Rg Fd Md] Cn Gt Lv Ct Ok']. pose proof (drained_keeps _ _ Hd) as Hw.
  split; cbn [shared conns lives with_world spawned active_streams]; [|done..].
  split; cbn [with_world spawned streams world]; [intros k Hk; by apply Hw, K|done|done| |done].
  intros k msg Hk. destruct (Hw (t_tx k)) as [_ ->]. by apply Fd.
Qed.
Lemma step_safe (s s' : sys) : step c server_token drained s s' -> safe s -> safe s'.
Proof.
  destruct 1 as [r s _ Hr|s _|i k p sh s _ Hi Hn|i t l l' sh s _ _ Hi Hn|w s _ Hd]; intros Hs.
  - by apply accept_safe.
  - by destruct Hs.
  - by apply conn_safe.
  - by eapply task_safe.
  - by apply drain_safe.
Qed.

Lemma reachable_safe w (s : sys) : rtc (step c server_token drained) (initial_sys w) s -> safe s.
Proof.
  intros Hsteps. pose proof (initial_safe w) as H0'. induction Hsteps as [|x y z Hxy _ IH]; [done|]. by eapply IH, step_safe.
Qed.

(** C35: however the connections, the tasks of the pipelines and the channels
    interleave: a pipeline is only given messages that an accepted connection
    has sent for the pipeline's own stream, behind a HELLO with the token; its
    configuration is that of its stream, and the parameter sets it starts with
    are ones that such a HELLO declares for the stream; without such a connection there is no pipeline at all; every registered
    stream belongs to a pipeline of that stream and generation; and the counter
    is the number of the tasks at work, so it is never negative. *)
Theorem streams_isolated w (s : sys) :
  rtc (step c server_token drained) (initial_sys w) s ->
  (forall t msg, t ∈ spawned (shared s) -> msg ∈ accepted (world (shared s)) (t_tx t) ->
     exists k, k ∈ conns s /\ spoken (pending (origin k)) (t_stream t) msg) /\
  (forall t, t ∈ spawned (shared s) ->
     t_version t = s_version c /\ t_cfg t = stream_config c (t_stream t) /\
     exists seed, t_v2_cfg t = v2_config c (t_stream t) seed /\
       match seed with
       | Some sd => exists k, k ∈ conns s /\ declared (pending (origin k)) (t_stream t) sd
       | None => True
       end) /\
  (spawned (shared s) <> [] -> exists k, k ∈ conns s /\ says_token (pending (origin k))) /\
  (forall id h, streams (shared s) !! id = Some h ->
     exists t, t ∈ spawned (shared s) /\ t_stream t = id /\ t_tx t = tx h /\ t_generation t = generation h) /\
  active_streams (shared s) = count (lives s) /\ 0 <= active_streams (shared s).
Proof.
  intros [[K A Rg Fd Md] Cn Gt Lv Ct Ok']%reachable_safe. split_and!; [exact Fd|exact Md|exact Gt|exact Rg|exact Ct|].
  rewrite Ct. clear. induction (lives s) as [|l ls IH]; cbn; [done|]. fold (count ls) in *. destruct l; cbn; lia.
Qed.
End facts.

(** ** Witnesses *)
Module ServerWitness.
Import ListStream IngestWitness.
#[local] Existing Instances list_chans list_chans_laws SdpWitness.hex_masked motion_json hello_json.
#[local] Instance list_identity : ChannelIdentity chans nat StreamMsg.
Proof.
  refine {| known w t := (t < length (w : chans))%nat |}; cbn [new_channel try_send drop_rx accepted list_chans fst snd].
  - intros n w. lia.
  - intros n w t. rewrite length_app. cbn. lia.
  - intros t m w t'. destruct (w !! t) as [[[n [|]] l]|]; cbn [fst]; [done| |done]. destruct (length l <? n)%nat; cbn [fst]; [by rewrite length_insert|done].
  - intros t w t'. destruct (w !! t) as [[[n b] l]|]; [by rewrite length_insert|done].
  - intros t w t'. destruct (w !! t) as [[[n b] l]|] eqn:Ht; [|done]. destruct (decide (t' = t)) as [->|Hne].
    + by rewrite list_lookup_insert_eq, Ht by (by eapply lookup_lt_Some).
    + by rewrite list_lookup_insert_ne.
  - intros w t Ht. by rewrite lookup_ge_None_2 by lia.
Defined.
(** Two connections with the token, and one without; their steps in turn with
    those of the pipelines' tasks. *)
Definition stranger : bytes := encode_msg (mkMsg RTP 1 [9]).
Definition second : bytes := encode_msg (mkMsg HELLO 0 []) ++ encode_msg (mkMsg RTP 2 [5]).
Definition order : list choice :=
  [Accept conn; Accept stranger; Accept second] ++
  concat (replicate 12 [Connection 0; Connection 1; Connection 2; Task 0; Task 1]).
Definition final := foldl (fun s x => perform (E:=eof) c0 (lit "secret") x s) (initial_sys []) order.

Lemma streams_isolated_witness :
  (forall t msg, t ∈ spawned (shared final) -> msg ∈ accepted (world (shared final)) (t_tx t) ->
     exists k, k ∈ conns final /\ spoken (E:=eof) (lit "secret") (pending (origin k)) (t_stream t) msg) /\
  active_streams (shared final) = count (lives final) /\
  map (fun t => (t_stream t, accepted (world (shared final)) (t_tx t))) (spawned (shared final)) =
    [(1, [MsgRtp [7]]); (2, [MsgRtp [5]]); (2, [MsgRtp [8]]); (1, [MsgGap 5 9])].
Proof.
  destruct (streams_isolated (E:=eof) c0 (lit "secret") (fun w w' : chans => w = w') ltac:(by intros w w' ->) [] final)
    as (Hfed & _ & _ & _ & Hcount & _).
  - apply schedule_steps; [done|]. repeat constructor; by_eval.
  - split; [exact Hfed|]. split; [exact Hcount|]. vm_compute; reflexivity.
Defined.

#[local] Instance no_url : UrlParser := fun _ => None.
#[local] Instance no_json : JsonText := { to_string _ := []; to_string_pretty _ := []; from_str _ := None }.
Definition camera_file : Value := Object [(lit "server", Object [(lit "bearer_token", String (lit "secret"))])].
Lemma ingest_address_fixed_witness :
  exists st, start_server (server_vars (E:=unit) (inr camera_file)) (fun _ => true) = Ok st /\
    bind st = lit "127.0.0.1:9000" /\ server_token st = lit "secret".
Proof.
  eexists. split; [vm_compute; reflexivity|]. split; [|reflexivity].
  refine (proj1 (ingest_address_fixed (E:=unit) (inr camera_file) (fun _ => true) _ _)). vm_compute; reflexivity.
Defined.
End ServerWitness.
