(* ===== verification/EndToEnd.v ===== *)
(** * From the camera to the player

    The parts in one: a camera's packets ([Sender]) that reach the server over
    authorised connections ([Ingest], [Server]), whatever the networks on the
    way have made of them, the live pipeline of the stream ([LiveV2]) and its
    segments ([MpegTs]) on disk.  What a player can read is what the camera
    sent.  Each part's invariant is used as it is; what is new here is how the
    pipeline's media stay in step with the sender, and how the parts fit. *)
From stdpp Require Import relations.
From S2P Require Import Prelude Io Str Rtp H264 Motion Clip Pipeline MpegTs Sdp LiveV2 LiveV2Facts Proto Ingest Sender Server.
#[local] Open Scope Z_scope.

(** ** The media of a live pipeline *)
Section media.
Context `{Calendar}.
Context (us : list unit_) (s0 : Z) (ok : list bytes).
Hypothesis Hus : Forall unit_ok us.
Hypothesis Hok : forall n, n ∈ sent us -> n ∈ ok.

(** The pipeline's state after the packet [last]. *)
Definition media_sent (last : option nat) (m : media) : Prop :=
  in_step us s0 last (m_expected m) (m_dep m) /\ gate_within ok (m_gate m) /\ Forall (fun n => n ∈ ok) (m_nals m).
Definition event_sent (ev : event) : Prop :=
  match ev with Lost => True | Unit_ au => Forall (fun n => n ∈ ok) (nals au) end.

Lemma gate_all_within l g :
  gate_within ok g -> Forall (fun n => n ∈ ok) l ->
  let '(g', out) := gate_all l g in gate_within ok g' /\ Forall (fun n => n ∈ ok) out.
Proof.
  intros Hg Hl. revert g Hg. induction Hl as [|n l Hn _ IH]; intros g Hg; [done|]. cbn [gate_all].
  destruct (push_nal_within ok n g Hg Hn) as [H1 H2]. destruct (SyncGate.push_nal n g) as [g1 out].
  specialize (IH g1 H1). destruct (gate_all l g1) as [g2 outs]. destruct IH. split; [done|]. by apply Forall_app.
Qed.

Lemma lose_sent last last' e m : media_sent last m -> media_sent last' (lose_media e m).
Proof. intros (_ & Hg & _). split_and!; [apply in_step_reset|exact Hg|constructor]. Qed.

(** A readable packet, once a hole in the numbers has been dealt with. *)
Lemma feed_sent i last b pkt m :
  parse b = Ok pkt -> packet_at us s0 i pkt -> near last i -> media_sent last m ->
  let '(m', evs) := feed b m in media_sent (Some i) m' /\ Forall event_sent evs.
Proof.
  intros Hb Hp Hnear Hm. unfold feed. rewrite Hb.
  set (hole := match m_expected m with Some _ => _ | None => _ end).
  set (m1 := if hole then lose_media (m_expected m) m else m).
  assert (media_sent last m1) as Hm1 by (unfold m1; destruct hole; [by eapply lose_sent|done]).
  assert (Forall event_sent (if hole then [Lost] else [])) as Hlost by (destruct hole; by repeat constructor).
  assert (let '(d', r) := Depacketizer.push_rtp_payload (Rtp.payload pkt) (m_dep m1) in
    in_step us s0 (Some i) (Some (wrap16 (sequence_number pkt + 1))) d' /\
    match r with Ok l => Forall (fun n => n ∈ sent us) l | _ => d' = m_dep m1 end) as Hpush.
  { destruct hole eqn:Eh; unfold m1 in *.
    - pose proof (push_inactive us s0 Hus i _ (Depacketizer.reset (m_dep m)) (proj1 Hp) eq_refl) as Hd.
      replace (wrap16 (sequence_number pkt + 1)) with (wrap16 (s0 + Z.of_nat i + 1)); [exact Hd|].
      rewrite (proj2 Hp). unfold wrap16. by rewrite Zplus_mod_idemp_l.
    - apply (push_sent us s0 Hus i pkt last (m_expected m)); [done..|apply Hm|].
      subst hole. destruct (m_expected m); [|done]. by apply negb_false_iff, Z.eqb_eq in Eh. }
  destruct Hm1 as (_ & Hg & Hn).
  destruct (Depacketizer.push_rtp_payload _ _) as [d [l|e|]]; destruct Hpush as [Hin Hl].
  2,3: split; [split_and!; [apply in_step_reset|exact Hg|constructor]|apply Forall_app; split; [done|by repeat constructor]].
  pose proof (gate_all_within l (m_gate m1) Hg) as Hga. destruct (gate_all l (m_gate m1)) as [g out].
  destruct Hga as [Hg' Hout]; [by eapply Forall_impl|].
  assert (Forall (fun n => n ∈ ok) (m_nals m1 ++ out)) as Hall by (by apply Forall_app).
  destruct (marker pkt); [|by split]. split; [by split_and!; [..|constructor]|]. apply Forall_app. split; [done|].
  destruct (m_nals m1 ++ out); [constructor|]. constructor; [exact Hall|constructor].
Qed.

(** The messages that a run takes from the channel, and their packets. *)
Definition rtp_of (msgs : list StreamMsg) : list bytes :=
  omap (fun m => match m with MsgRtp b => Some b | _ => None end) msgs.
Definition msgs_of (ts : list LiveV2.turn) : list StreamMsg :=
  omap (fun t => match t with LiveV2.Msg _ m => Some m | _ => None end) ts.

Lemma events_sent ts last m :
  on_stream us s0 last (rtp_of (msgs_of ts)) -> media_sent last m -> Forall event_sent (events ts m).
Proof.
  revert last m. induction ts as [|t ts IH]; intros last m Hs Hm; [constructor|].
  destruct t as [r|r [b|l n|rule a w]]; cbn [events].
  - by eapply IH.
  - cbn in Hs. inversion Hs as [|last1 b1 pkt i bs Hb Hp Hn Hbs|last1 b1 bs Hb Hbs]; subst.
    + pose proof (feed_sent i last b pkt m Hb Hp Hn Hm) as Hf. destruct (feed b m) as [m' evs]. destruct Hf.
      apply Forall_app. split; [done|by eapply IH].
    + unfold feed. destruct (parse b); [done|..]; (constructor; [done|]); (eapply IH; [exact Hbs|by eapply lose_sent]).
  - constructor; [done|]. eapply IH; [exact Hs|by eapply lose_sent].
  - by eapply IH.
Qed.

Lemma initial_sent {Hd} cfg :
  (forall sps pps, h264_sync_seed cfg = Some (sps, pps) -> sps ∈ ok /\ pps ∈ ok) ->
  media_sent None (media_of (initial (Hd:=Hd) cfg)).
Proof.
  intros Hseed. split_and!; [apply in_step_new| |constructor]. unfold initial, media_of. cbn [m_gate sync_gate].
  destruct (h264_sync_seed cfg) as [[sps pps]|]; [|apply gate_within_new].
  destruct (Hseed sps pps) as [Hs Hp]; [done|]. by apply gate_within_sprop.
Qed.
End media.

(** The times of the units are the packets'. *)
Section times.
Context `{Calendar}.
Definition media_timed (m : media) : Prop := forall t, m_ts m = Some t -> is_u32 t.
Definition event_timed (ev : event) : Prop := match ev with Lost => True | Unit_ au => is_u32 (rtp_timestamp au) end.

Lemma feed_timed b m : bytes_ok b -> media_timed m -> let '(m', evs) := feed b m in media_timed m' /\ Forall event_timed evs.
Proof.
  intros Hb Hm. unfold feed. destruct (parse b) as [pkt|e|] eqn:Hp; [|by repeat constructor..].
  pose proof (parse_timestamp_u32 b pkt Hb Hp) as Ht.
  set (hole := match m_expected m with Some _ => _ | None => _ end).
  set (m1 := if hole then lose_media (m_expected m) m else m).
  assert (media_timed m1) as Hm1 by (unfold m1; by destruct hole).
  assert (is_u32 (default (timestamp pkt) (m_ts m1))) as Hts by (destruct (m_ts m1) eqn:E; [by apply Hm1|done]).
  assert (Forall event_timed (if hole then [Lost] else [])) as Hlost by (destruct hole; by repeat constructor).
  destruct (Depacketizer.push_rtp_payload _ _) as [d [l|e|]];
    [|split; [done|apply Forall_app; split; [done|by repeat constructor]]..].
  destruct (gate_all l (m_gate m1)) as [g out]. destruct (marker pkt); [|split; [by intros t [= <-]|done]].
  split; [done|]. apply Forall_app. split; [done|]. destruct (m_nals m1 ++ out); [constructor|].
  constructor; [exact Hts|constructor].
Qed.
Lemma events_timed ts m : Forall bytes_ok (rtp_of (msgs_of ts)) -> media_timed m -> Forall event_timed (events ts m).
Proof.
  revert m. induction ts as [|t ts IH]; intros m Hs Hm; [constructor|].
  destruct t as [r|r [b|l n|rule a w]]; cbn [events].
  - by apply IH.
  - cbn in Hs. apply Forall_cons in Hs as [Hb Hs]. pose proof (feed_timed b m Hb Hm) as Hf.
    destruct (feed b m) as [m' evs]. destruct Hf. apply Forall_app. split; [done|by apply IH].
  - constructor; [done|]. by apply IH.
  - by apply IH.
Qed.
End times.

(** What is shown is among what happened. *)
Lemma shown_among (P : event -> Prop) open evs : Forall P evs -> Forall (fun au => P (Unit_ au)) (shown open evs).
Proof.
  intros He. revert open. induction He as [|[|au] evs Hau _ IH]; intros open; cbn [shown]; [constructor|apply IH|].
  destruct (open || has_idr au); [constructor; [done|apply IH]|apply IH].
Qed.

(** ** Packets by their place in the stream

    [pos]: where a packet stands in the camera's stream. *)
Section places.
Context (us : list unit_) (s0 : Z) (pos : bytes -> nat).
Fixpoint close_by (last : option nat) (bs : list bytes) : Prop :=
  match bs with
  | [] => True
  | b :: bs => if is_ok (parse b) then near last (pos b) /\ close_by (Some (pos b)) bs else close_by last bs
  end.
Lemma close_by_stream last bs :
  (forall b pkt, b ∈ bs -> parse b = Ok pkt -> packet_at us s0 (pos b) pkt) -> close_by last bs -> on_stream us s0 last bs.
Proof.
  revert last. induction bs as [|b bs IH]; intros last Hbs Hc; [constructor|]. cbn [close_by] in Hc.
  assert (forall b' pkt, b' ∈ bs -> parse b' = Ok pkt -> packet_at us s0 (pos b') pkt) as Hbs'
    by (intros b' pkt Hb'; by apply Hbs, list_elem_of_further).
  destruct (parse b) as [pkt|e|] eqn:Hp; cbn [is_ok] in Hc;
    [|apply stream_unreadable; [by rewrite Hp|by apply IH]..].
  destruct Hc as [Hn Hc]. apply (stream_packet _ _ _ _ pkt (pos b)); [done| |done|by apply IH].
  by apply Hbs; [apply list_elem_of_here|].
Qed.
Lemma close_by_app last bs bs' : close_by last (bs ++ bs') -> close_by last bs.
Proof.
  revert last. induction bs as [|b bs IH]; intros last; [done|]. cbn [app close_by].
  destruct (is_ok (parse b)); [intros [? ?]; split; [done|by apply IH]|apply IH].
Qed.
End places.

Lemma rtp_of_app l1 l2 : rtp_of (l1 ++ l2) = rtp_of l1 ++ rtp_of l2.
Proof. apply omap_app. Qed.
Lemma rtp_of_elem b l : b ∈ rtp_of l -> MsgRtp b ∈ l.
Proof. unfold rtp_of. rewrite list_elem_of_omap. by intros ([]& Hm & [= ->]). Qed.

Lemma concat_elem {A} (x : A) l ls : x ∈ l -> l ∈ ls -> x ∈ concat ls.
Proof. intros Hx Hl. apply list_elem_of_In, in_concat. exists l. by rewrite <- !list_elem_of_In. Qed.

(** A listed segment's file. *)
Lemma window_file `{FsLaws F Hd E} (f : F) root first es segs e :
  window_ok f root first es segs -> e ∈ es ->
  exists aus, aus ∈ segs /\ contents f (full (mkPath root (filename e))) = Some (segment aus).
Proof.
  revert first segs. induction es as [|e' es IH]; intros first segs Hw; [by intros ?%not_elem_of_nil|].
  destruct segs as [|aus segs]; [done|]. destruct Hw as (_ & Hf & Hc & Hw). intros [->|He]%elem_of_cons.
  - exists aus. split; [apply list_elem_of_here|]. by rewrite Hf.
  - destruct (IH _ _ Hw He) as (aus' & Ha & Hc'). exists aus'. split; [by apply list_elem_of_further|done].
Qed.

(** ** The whole *)
Section whole.
Context {W Tx R E : Type} `{HM : TryMpscLaws W Tx StreamMsg} `{HI : !ChannelIdentity W Tx StreamMsg}
  `{HR : AsyncReadLaws R E} `{Base64} `{MotionJson} `{FromJson HelloPayload}.
Context `{Calendar} {F Hd E' : Type} `{HL : LiveFsLaws F Hd E'} `{PrintSecs}
  `{ToJson StreamHealthSnapshot} `{ToJson CurrentSessionPointer} `{FromJson CurrentSessionPointer}.
Variable c : settings.
Variable server_token : str.
Variable drained : W -> W -> Prop.
Hypothesis drained_keeps : forall w w', drained w w' ->
  forall t, (known w' t <-> known w t) /\ accepted w' t = accepted w t.
Abbreviation sys := (@sys W Tx R E).

(** The connections with the token send the camera's packets for the stream,
    in any order, as often as they like, and anything unreadable. *)
Definition of_camera (us : list unit_) (s0 : Z) (pos : bytes -> nat) (s : sys) (id : Z) : Prop :=
  forall k b pkt, k ∈ conns s -> spoken (E:=E) server_token (pending (origin k)) id (MsgRtp b) -> parse b = Ok pkt ->
    packet_at us s0 (pos b) pkt.
(** A NAL unit of the camera, or a parameter set that a HELLO with the token
    declares for the stream. *)
Definition genuine (us : list unit_) (s : sys) (id : Z) (n : bytes) : Prop :=
  n ∈ sent us \/
  exists k seed, k ∈ conns s /\ declared (E:=E) server_token (pending (origin k)) id seed /\ (n = seed.1 \/ n = seed.2).

Lemma unit_genuine us s0 pos w (s : sys) t ts (f : F) au :
  rtc (step c server_token drained) (initial_sys w) s -> t ∈ spawned (shared s) ->
  Forall unit_ok us -> of_camera us s0 pos s (t_stream t) ->
  close_by pos None (rtp_of (accepted (world (shared s)) (t_tx t))) ->
  msgs_of ts `prefix_of` accepted (world (shared s)) (t_tx t) ->
  au ∈ shown false (events ts (media_of (initial (Hd:=Hd) (t_v2_cfg t)))) ->
  Forall (genuine us s (t_stream t)) (nals au) /\ is_u32 (rtp_timestamp au).
Proof.
  intros Hs Ht Hus Hcam Hclose [more Hts] Hau. apply reachable_safe in Hs; [|done].
  destruct Hs as [[_ _ _ Fd Md] _ _ _ _ Hbytes]. destruct (Md t Ht) as (_ & _ & seed & Hcfg & Hseed).
  rewrite Hts, rtp_of_app in Hclose. apply close_by_app in Hclose.
  assert (forall b, b ∈ rtp_of (msgs_of ts) -> exists k, k ∈ conns s /\ spoken server_token (pending (origin k)) (t_stream t) (MsgRtp b))
    as Hsp by (intros b Hb; apply (Fd t); [done|]; rewrite Hts; apply elem_of_app; left; by apply rtp_of_elem).
  pose (sets := match seed with Some (sps, pps) => [sps; pps] | None => [] end).
  assert (forall n, n ∈ sent us ++ sets -> genuine us s (t_stream t) n) as Hgen.
  { intros n [Hn|Hn]%elem_of_app; [by left|]. unfold sets in Hn. destruct seed as [[sps pps]|]; [|by apply not_elem_of_nil in Hn].
    destruct Hseed as (k & Hk & Hdec). right. exists k, (sps, pps). split_and!; [done|done|].
    apply elem_of_cons in Hn as [->|Hn%list_elem_of_singleton]; auto. }
  rewrite Hcfg in Hau. split.
  - assert (Forall (event_sent (sent us ++ sets)) (events ts (media_of (initial (Hd:=Hd) (v2_config c (t_stream t) seed))))) as He.
    { eapply (events_sent us s0); [done|intros n Hn; apply elem_of_app; by left| |].
      - apply (close_by_stream _ _ pos); [|exact Hclose]. intros b pkt Hb. destruct (Hsp b Hb) as (k & Hk & Hm). by apply (Hcam k).
      - apply initial_sent. unfold sets. intros sps pps Hs'. cbn in Hs'. rewrite Hs'.
        split; apply elem_of_app; right; [apply list_elem_of_here|apply list_elem_of_further, list_elem_of_here]. }
    apply (shown_among _ false) in He. rewrite Forall_forall in He. specialize (He au Hau). eapply Forall_impl; [exact He|done].
  - assert (Forall event_timed (events ts (media_of (initial (Hd:=Hd) (v2_config c (t_stream t) seed))))) as He.
    { apply events_timed; [|done]. apply Forall_forall. intros b Hb. destruct (Hsp b Hb) as (k & Hk & Hm).
      eapply spoken_bytes; [by apply (Hbytes k)|exact Hm]. }
    apply (shown_among _ false) in He. rewrite Forall_forall in He. exact (He au Hau).
Qed.

(** C3: from the camera to the player: however the connections and tasks of the
    server interleave, and whatever the networks do to the camera's packets
    (losses, repetitions, reorderings, gaps, unreadable packets), as long as a
    connection needs the token to speak for the camera's stream: every segment
    that the stream's playlist lists is on disk, a player can read it, and all
    the video in it is NAL units that the camera sent, byte for byte, or the
    parameter sets that a HELLO with the token declares for the stream. *)
Theorem camera_to_player (us : list unit_) (s0 : Z) (pos : bytes -> nat) (w : W) (s : sys) (t : @task Tx)
    (session : LiveSessionContext) (ts : list LiveV2.turn) (f f' : F) (l : live)
    (Hs : rtc (step c server_token drained) (initial_sys w) s) (Ht : t ∈ spawned (shared s))
    (Hid : 0 <= t_stream t) (Hus : Forall unit_ok us) (Hcam : of_camera us s0 pos s (t_stream t))
    (Hclose : close_by pos None (rtp_of (accepted (world (shared s)) (t_tx t))))
    (Hts : msgs_of ts `prefix_of` accepted (world (shared s)) (t_tx t))
    (Hrun : run (t_v2_cfg t) session ts (initial (t_v2_cfg t)) f = (f', Ok l)) :
  forall e, e ∈ entries (playlist (out l)) ->
  exists file video, contents f' (full (mkPath (c_output_root session) (filename e))) = Some file /\
    played file = Some (map Some video) /\
    Forall (fun x => exists ns, x.2 = concat ns /\ Forall (genuine us s (t_stream t)) ns) video.
Proof.
  intros e He. pose proof Hs as Hsafe. apply reachable_safe in Hsafe; [|done].
  destruct (made _ _ _ (safe_server _ _ _ Hsafe) t Ht) as (_ & _ & seed & Hcfg & _).
  assert (0 <= LiveV2.stream_id (t_v2_cfg t)) as Hid' by (by rewrite Hcfg).
  destruct (LiveV2Facts.run_ok (t_v2_cfg t) session Hid' ts _ _ _ _ _ _ (LiveV2Facts.initial_ok _ session f) Hrun) as (hist & cur & [Hok _] & [Hcat _]).
  destruct (ok_window _ _ _ _ _ Hok) as (gone & kept & -> & Hw & _).
  destruct (window_file _ _ _ _ _ _ Hw He) as (aus & Haus & Hfile).
  assert (Forall (fun au => Forall (genuine us s (t_stream t)) (nals au) /\ is_u32 (rtp_timestamp au)) aus) as Hall.
  { apply Forall_forall. intros au Hau. apply (unit_genuine us s0 pos w s t ts f); [done..|].
    cbn [concat app] in Hcat. change (open_segment_is _) with false in Hcat. rewrite <- Hcat.
    apply elem_of_app; left. rewrite concat_app. apply elem_of_app; right. by eapply concat_elem. }
  exists (segment aus), (map (fun au => (rtp_timestamp au, concat (nals au))) aus). split; [done|]. split.
  - rewrite segment_played, map_map; [done|]. eapply Forall_impl; [exact Hall|]. by intros ? [? ?].
  - apply Forall_map. eapply Forall_impl; [exact Hall|]. intros au [Hau _]. by exists (nals au).
Qed.
End whole.

(** ** What a connection's bytes hold *)
Section readable.
Context {E : Type} `{Base64} `{MotionJson} `{FromJson HelloPayload}.
Fixpoint msgs_in (n : nat) (o : bytes) : list Msg :=
  match n with
  | O => []
  | S n => match decode_msg (E:=E) o with Frame m l => m :: msgs_in n l | _ => [] end
  end.
Lemma came_from_cons o m ms rest : came_from (E:=E) o (m :: ms) rest ->
  exists l, decode_msg (E:=E) o = Frame m l /\ came_from (E:=E) l ms rest.
Proof.
  remember (m :: ms) as ms0 eqn:E0. intros Hc. revert ms E0. induction Hc as [|ms0 l m' rest Hc IH Hd]; intros ms E0; [done|].
  destruct ms0 as [|m0 ms0]; cbn in E0; injection E0 as -> <-.
  - inversion Hc; subst; [|by destruct ms]. exists rest. split; [done|constructor].
  - destruct (IH ms0 eq_refl) as (l' & Hl & Hc'). exists l'. split; [done|by econstructor].
Qed.
Lemma came_from_msgs n o ms rest : (length o <= n)%nat -> bytes_ok o -> came_from (E:=E) o ms rest -> ms `prefix_of` msgs_in n o.
Proof.
  revert o ms. induction n as [|n IH]; intros o ms Hn Ho Hc; destruct ms as [|m ms]; try apply prefix_nil;
    apply came_from_cons in Hc as (l & Hd & Hc); destruct (decode_rest _ _ _ Hd Ho) as [Hl Hlt]; [lia|].
  cbn [msgs_in]. rewrite Hd. apply prefix_cons. apply IH; [lia|done|done].
Qed.
Lemma spoken_msgs tok o id msg : bytes_ok o -> spoken (E:=E) tok o id msg ->
  exists m, m ∈ msgs_in (length o) o /\ stream_id m = id /\ to_stream_msg (E:=E) m = Some msg.
Proof.
  intros Ho (_ & hello & ms & rest & m & Hc & Hm & Hid & Hmsg). exists m. split; [|done].
  apply (came_from_msgs (length o)) in Hc; [|done..]. eapply elem_of_prefix; [|exact Hc]. by apply list_elem_of_further.
Qed.
End readable.

(** ** Witness

    A camera whose numbers wrap, an agent with the token, and a stranger that
    speaks for the camera's stream without it; a fragment is lost. *)
Module EndToEndWitness.
Import MotionWitness ListStream IngestWitness ServerWitness LiveV2Witness.
#[local] Existing Instances list_chans list_chans_laws SdpWitness.hex_masked motion_json hello_json list_identity
  clock PipelineWitness.calendar log_fs log_laws live_disk live_laws print_ms pointer_json pointer_parse live_health_json.

Definition camera : list unit_ :=
  [Single [0x67; 1]; Single [0x68; 2]; Fragmented 0x65 [1; 2] [[3]] [4]; Fragmented 0x65 [5] [[6]] [7]; Single [0x41; 8]].
Definition first_seq : Z := 65533.
Definition markers : list bool := [false; false; false; false; true; false; false; true; true].
Definition on_air : list bytes :=
  imap (fun i p => PipelineWitness.packet (wrap16 (first_seq + Z.of_nat i)) (default false (markers !! i)) p) (payloads camera).
Definition pos (b : bytes) : nat :=
  match parse b with Ok pkt => Z.to_nat ((sequence_number pkt - first_seq) mod 65536) | _ => O end.

Definition message (b : bytes) : bytes := encode_msg (mkMsg RTP 1 b).
(** The packet at place 6 is lost, and the one at 4 comes twice. *)
Definition agent : bytes :=
  encode_msg (mkMsg HELLO 0 []) ++ concat (map message (take 5 on_air ++ [default [] (on_air !! 4%nat)] ++ drop 7 on_air)).
Definition impostor : bytes := message (PipelineWitness.packet 2 true [0x65; 9]).

Definition schedule : list choice := [Accept impostor; Accept agent] ++ concat (replicate 40 [Connection 0; Connection 1]) ++ [Task 0].
Definition world_ := foldl (fun s x => perform (E:=eof) c0 (lit "secret") x s) (initial_sys []) schedule.
Definition pipeline : @task nat := default (mkTask 0 0 0%nat V1 (stream_config c0 0) (v2_config c0 0 None)) (spawned (shared world_) !! 0%nat).
Definition given : list StreamMsg := accepted (world (shared world_)) (t_tx pipeline).
Definition taken : list LiveV2.turn := imap (fun i m => LiveV2.Msg (at_ (Z.of_nat i)) m) given.
Definition ended : log * outcome unit (@live clock str) :=
  run (t_v2_cfg pipeline) sess taken (initial (t_v2_cfg pipeline)) [].

Definition of_camera_msg (m : Msg) : bool :=
  match to_stream_msg (E:=eof) m with
  | Some (MsgRtp b) =>
      match parse b with
      | Ok pkt => bool_decide (payloads camera !! pos b = Some (Rtp.payload pkt)) &&
          (sequence_number pkt =? wrap16 (first_seq + Z.of_nat (pos b)))
      | _ => true
      end
  | _ => true
  end.
Definition opens_with_hello (o : bytes) : bool :=
  match decode_msg (E:=eof) o with Frame m _ => msg_type m =? HELLO | _ => false end.
Definition honest (o : bytes) : bool :=
  bool_decide (bytes_ok o) && (negb (opens_with_hello o) || forallb of_camera_msg (msgs_in (E:=eof) (length o) o)).
Lemma silent o : opens_with_hello o = false -> ~ says_token (E:=eof) (lit "secret") o.
Proof. intros Ho (hello & m & rest & Hd & Ht & _). unfold opens_with_hello in Ho. rewrite Hd, Ht in Ho. done. Qed.

Lemma all_honest : forallb (fun k => honest (pending (origin k))) (conns world_) = true.
Proof. by vm_compute. Qed.
Lemma camera_packets : of_camera (E:=eof) (lit "secret") camera first_seq pos world_ 1.
Proof.
  intros k b pkt Hk Hsp Hb. pose proof all_honest as Hall. rewrite forallb_forall in Hall.
  apply list_elem_of_In in Hk. apply Hall in Hk. unfold honest in Hk. apply andb_true_iff in Hk as [Ho Hms].
  apply bool_decide_eq_true in Ho. destruct (opens_with_hello (pending (origin k))) eqn:Hh.
  - apply spoken_msgs in Hsp as (m & Hm & _ & Hmsg); [|done]. cbn [negb orb] in Hms. rewrite forallb_forall in Hms.
    apply list_elem_of_In in Hm. apply Hms in Hm. unfold of_camera_msg in Hm. rewrite Hmsg, Hb in Hm.
    apply andb_true_iff in Hm as [H1 H2]. split; [by apply bool_decide_eq_true in H1|by apply Z.eqb_eq].
  - by apply silent in Hh; destruct Hsp.
Qed.
Lemma world_reached : rtc (Server.step (E:=eof) c0 (lit "secret") (fun w w' : chans => w = w')) (initial_sys []) world_.
Proof. apply schedule_steps; [done|]. repeat constructor; by_eval. Qed.
Lemma camera_units : Forall unit_ok camera.
Proof.
  assert (forall b l, 1 <= Z.land b 0x1F <= 23 -> unit_ok (Single (b :: l))) as Hsingle by (intros b l Hb; by exists b, l).
  repeat (apply Forall_cons; split; [first [apply Hsingle; by_eval|unfold unit_ok, is_byte; lia]|]). by apply Forall_nil.
Qed.
Lemma pipeline_there : pipeline ∈ spawned (shared world_) /\ t_stream pipeline = 1 /\ close_by pos None (rtp_of given) /\
  msgs_of taken = given /\ ended.2 = Ok (state_of ended.2).
Proof.
  split; [apply (list_elem_of_lookup_2 _ 0); vm_compute; reflexivity|]. split; [by vm_compute|].
  split; [vm_compute; tauto|]. split; vm_compute; reflexivity.
Qed.
Definition first_entry : SegmentEntry := mkEntry 1 1000000 (lit "seg_000001.ts") false.
Lemma listed : entries (playlist (out (state_of ended.2))) = [first_entry].
Proof. vm_compute. reflexivity. Qed.
Lemma ran : run (t_v2_cfg pipeline) sess taken (initial (t_v2_cfg pipeline)) [] = (ended.1, Ok (state_of ended.2)).
Proof. vm_compute. reflexivity. Qed.
Definition stored : bytes := default [] (contents ended.1 (lit "cam/s1/seg_000001.ts")).
Definition pictures : bytes := concat (map annexb_from_raw_nal [[0x67; 1]; [0x68; 2]; [0x65; 1; 2; 3; 4]]).

Lemma nothing_drained (w w' : chans) : w = w' ->
  forall t, (known w' t <-> known w t) /\ accepted w' t = accepted w t.
Proof. by intros ->. Qed.
Lemma stored_is file :
  contents ended.1 (full (mkPath (c_output_root sess) (filename first_entry))) = Some file -> file = stored.
Proof. intros Hf. unfold stored. change (full _) with (lit "cam/s1/seg_000001.ts") in Hf. by rewrite Hf. Qed.
Lemma one_picture (video : list (Z * bytes)) : Some (map Some video) = Some [Some (1000, pictures)] -> video = [(1000, pictures)].
Proof. destruct video as [|v [|]]; [done|by intros [= ->]|done]. Qed.
#[local] Opaque world_ pipeline taken ended stored.
Lemma camera_to_player_witness :
  played stored = Some [Some (1000, pictures)] /\
  exists ns, pictures = concat ns /\ Forall (genuine (E:=eof) (lit "secret") camera world_ 1) ns.
Proof.
  destruct pipeline_there as (Hin & Hid & Hclose & Htaken & _).
  assert (Hid' : 0 <= t_stream pipeline) by (rewrite Hid; lia).
  assert (Hcam : of_camera (E:=eof) (lit "secret") camera first_seq pos world_ (t_stream pipeline)) by (rewrite Hid; exact camera_packets).
  assert (Hpre : msgs_of taken `prefix_of` given) by (rewrite Htaken; by exists []).
  assert (He : first_entry ∈ entries (playlist (out (state_of ended.2)))) by (rewrite listed; apply list_elem_of_here).
  pose proof (camera_to_player (E:=eof) c0 (lit "secret") (fun w w' : chans => w = w') nothing_drained
    camera first_seq pos [] world_ pipeline sess taken [] ended.1 (state_of ended.2) world_reached Hin Hid' camera_units
    Hcam Hclose Hpre ran first_entry He) as (file & video & Hf & Hp & Hall).
  apply stored_is in Hf. subst file.
  assert (Hplay : played stored = Some [Some (1000, pictures)]) by (vm_compute; reflexivity).
  split; [exact Hplay|]. rewrite Hp in Hplay. apply one_picture in Hplay as ->. apply Forall_cons in Hall as [Hv _]. rewrite Hid in Hv. exact Hv.
Defined.
End EndToEndWitness.
