(* ===== verification/Lossless.v ===== *)
(** * A network that loses nothing

    The other half of [EndToEnd]: when the packets of the camera's pictures
    arrive as they were sent, no loss is seen, and every picture from the
    first that can be decoded is in the segments, each NAL unit of it once and
    in order. *)
From S2P Require Import Prelude Io Str Rtp H264 Motion Clip Pipeline MpegTs LiveV2 LiveV2Facts Sender EndToEnd.
#[local] Open Scope Z_scope.

(** ** Pictures

    A picture's packets carry its time, and the last of them the marker. *)
Record picture := mkPicture { p_units : list unit_; p_time : Z }.
Definition picture_ok (p : picture) : Prop := p_units p <> [] /\ Forall unit_ok (p_units p).
Fixpoint marked_last (t : Z) (pl : list bytes) : list (bytes * bool * Z) :=
  match pl with
  | [] => []
  | [p] => [(p, true, t)]
  | p :: pl => (p, false, t) :: marked_last t pl
  end.
Definition packets (ps : list picture) : list (bytes * bool * Z) :=
  concat (map (fun p => marked_last (p_time p) (payloads (p_units p))) ps).
Definition picture_nals (ps : list picture) : list bytes := sent (concat (map p_units ps)).

(** Datagrams that carry these packets, numbered from [n], in order. *)
Inductive in_order : Z -> list (bytes * bool * Z) -> list bytes -> Prop :=
| in_order_nil n : in_order n [] []
| in_order_cons n p m t q b bs pkt :
    parse b = Ok pkt -> payload pkt = p -> marker pkt = m -> timestamp pkt = t -> sequence_number pkt = wrap16 n ->
    in_order (n + 1) q bs -> in_order n ((p, m, t) :: q) (b :: bs).

Lemma in_order_app n q1 q2 bs : in_order n (q1 ++ q2) bs ->
  exists b1 b2, bs = b1 ++ b2 /\ in_order n q1 b1 /\ in_order (n + Z.of_nat (length q1)) q2 b2.
Proof.
  revert n bs. induction q1 as [|[[p m] t] q1 IH]; intros n bs Hb; cbn [app length] in *.
  - exists [], bs. rewrite Z.add_0_r. split; [done|]. split; [constructor|done].
  - inversion Hb as [|? ? ? ? ? b bs' pkt]; subst. destruct (IH (n + 1) bs') as (b1 & b2 & -> & H1 & H2); [done|].
    exists (b :: b1), b2. split; [done|]. split; [by econstructor|].
    by replace (n + Z.of_nat (S (length q1))) with (n + 1 + Z.of_nat (length q1)) by lia.
Qed.

(** ** The depacketizer, packet by packet *)
Inductive chain : Depacketizer.t -> list bytes -> Depacketizer.t -> list bytes -> Prop :=
| chain_nil d : chain d [] d []
| chain_cons d p d1 ns pl d2 out :
    Depacketizer.push_rtp_payload p d = (d1, Ok ns) -> chain d1 pl d2 out -> chain d (p :: pl) d2 (ns ++ out).

Lemma chain_app d1 pl1 d2 o1 pl2 d3 o2 : chain d1 pl1 d2 o1 -> chain d2 pl2 d3 o2 -> chain d1 (pl1 ++ pl2) d3 (o1 ++ o2).
Proof. induction 1 as [|d p d1 ns pl d2 out Hp _ IH]; intros H2; [done|]. rewrite <- app_assoc. econstructor; eauto. Qed.
Lemma chain_one d p d' ns : Depacketizer.push_rtp_payload p d = (d', Ok ns) -> chain d [p] d' ns.
Proof. intros Hp. rewrite <- (app_nil_r ns). econstructor; [done|constructor]. Qed.

Lemma chain_mids h ms buf : is_byte h ->
  chain (Depacketizer.mk true buf) (map (Depacketizer.fu_a h false false) ms) (Depacketizer.mk true (buf ++ concat ms)) [].
Proof.
  intros Hh. revert buf. induction ms as [|m ms IH]; intros buf; cbn [map concat]; [rewrite app_nil_r; constructor|].
  apply (chain_cons _ _ (Depacketizer.mk true (buf ++ m)) []); [by rewrite DepacketizerFacts.push_fu_a|].
  rewrite app_assoc. apply IH.
Qed.
Lemma chain_unit u d : unit_ok u ->
  exists d', chain d (unit_payloads u) d' (map annexb_from_raw_nal (unit_nals u)).
Proof.
  intros Hu. destruct u as [nal|ind nals|h f ms l]; cbn [unit_payloads unit_nals map].
  - exists d. by apply chain_one, push_single.
  - exists d. by apply chain_one, push_aggregate.
  - cbn in Hu. eexists. eapply (chain_cons _ _ (Depacketizer.mk true (ANNEXB_START ++ [h] ++ f)) []).
    { by rewrite DepacketizerFacts.push_fu_a. }
    eapply (chain_app _ _ _ [] _ _ [_]); [by apply chain_mids|]. apply chain_one.
    rewrite DepacketizerFacts.push_fu_a by done. cbn [Depacketizer.fu_active Depacketizer.fu_buf].
    unfold annexb_from_raw_nal. do 3 f_equal. by rewrite <- !app_assoc.
Qed.
Lemma chain_units us d : Forall unit_ok us -> exists d', chain d (payloads us) d' (sent us).
Proof.
  intros Hus. revert d. induction Hus as [|u us Hu _ IH]; intros d; [exists d; constructor|].
  destruct (chain_unit u d Hu) as (d1 & H1). destruct (IH d1) as (d2 & H2). exists d2.
  rewrite payloads_cons. unfold sent. cbn [map concat]. rewrite map_app. by eapply chain_app.
Qed.

(** ** What a pipeline makes of it *)
Section pipeline.
Context `{Calendar}.

(** The packets alone, without ticks and motions. *)
Fixpoint feed_all (bs : list bytes) (m : media) : media * list event :=
  match bs with
  | [] => (m, [])
  | b :: bs => let '(m, e1) := feed b m in let '(m, e2) := feed_all bs m in (m, e1 ++ e2)
  end.
Lemma feed_all_app b1 b2 m :
  feed_all (b1 ++ b2) m = let '(m1, e1) := feed_all b1 m in let '(m2, e2) := feed_all b2 m1 in (m2, e1 ++ e2).
Proof.
  revert m. induction b1 as [|b b1 IH]; intros m; cbn [app feed_all]; [by destruct (feed_all b2 m)|].
  destruct (feed b m) as [m1 e1]. rewrite IH. destruct (feed_all b1 m1) as [m2 e2]. destruct (feed_all b2 m2). by rewrite app_assoc.
Qed.
Definition no_gap (m : StreamMsg) : Prop := match m with MsgGap _ _ => False | _ => True end.
Lemma events_feed ts m : Forall no_gap (msgs_of ts) -> events ts m = (feed_all (rtp_of (msgs_of ts)) m).2.
Proof.
  revert m. induction ts as [|t ts IH]; intros m Hg; [done|]. destruct t as [r|r [b|x y|rule a w]]; cbn [events].
  - by apply IH.
  - cbn in Hg. apply Forall_cons in Hg as [_ Hg]. cbn. destruct (feed b m) as [m1 e1]. rewrite IH by done.
    change (rtp_of (msgs_of (LiveV2.Msg r (MsgRtp b) :: ts))) with (b :: rtp_of (msgs_of ts)). cbn [feed_all].
    by destruct (feed_all _ m1).
  - cbn in Hg. by apply Forall_cons in Hg as [[] _].
  - cbn in Hg. apply Forall_cons in Hg as [_ Hg]. by apply IH.
Qed.

Lemma gate_all_app l1 l2 g :
  gate_all (l1 ++ l2) g = let '(g1, o1) := gate_all l1 g in let '(g2, o2) := gate_all l2 g1 in (g2, o1 ++ o2).
Proof.
  revert g. induction l1 as [|n l1 IH]; intros g; cbn [app gate_all]; [by destruct (gate_all l2 g)|].
  destruct (SyncGate.push_nal n g) as [g1 o]. rewrite IH. destruct (gate_all l1 g1) as [g2 o1]. destruct (gate_all l2 g2).
  by rewrite app_assoc.
Qed.

Definition at_number (n : Z) (e : option Z) : Prop := e = None \/ e = Some (wrap16 n).
Definition unit_of (nals : list bytes) (t : Z) : list event :=
  match nals with [] => [] | _ => [Unit_ (build_access_unit nals t)] end.

(** The packet with the next number. *)
Lemma feed_next n p mk t b pkt d g e acc ots d' nals g' out :
  parse b = Ok pkt -> payload pkt = p -> marker pkt = mk -> timestamp pkt = t -> sequence_number pkt = wrap16 n ->
  at_number n e -> (ots = None \/ ots = Some t) -> Depacketizer.push_rtp_payload p d = (d', Ok nals) -> gate_all nals g = (g', out) ->
  feed b (mkMedia d g e acc ots) =
    if mk then (mkMedia d' g' (Some (wrap16 (n + 1))) [] None, unit_of (acc ++ out) t)
    else (mkMedia d' g' (Some (wrap16 (n + 1))) (acc ++ out) (Some t), []).
Proof.
  intros Hb <- <- <- Hn He Ht Hp Hg. unfold feed. rewrite Hb. cbn [m_expected m_dep m_gate m_nals m_ts].
  assert ((match e with Some e => negb (sequence_number pkt =? e) | None => false end) = false) as ->.
  { destruct He as [->| ->]; [done|]. by rewrite Hn, Z.eqb_refl. }
  cbn [m_dep m_gate m_nals m_ts m_expected]. rewrite Hp, Hg.
  assert (default (timestamp pkt) ots = timestamp pkt) as -> by (by destruct Ht as [->| ->]).
  assert (wrap16 (sequence_number pkt + 1) = wrap16 (n + 1)) as ->
    by (rewrite Hn; unfold wrap16; by rewrite Zplus_mod_idemp_l).
  done.
Qed.

(** The packets of a picture. *)
Lemma feed_picture n t pl bs d d' nals e acc ots g g' out :
  pl <> [] -> in_order n (marked_last t pl) bs -> chain d pl d' nals -> gate_all nals g = (g', out) -> at_number n e ->
  (ots = None \/ ots = Some t) ->
  feed_all bs (mkMedia d g e acc ots) =
    (mkMedia d' g' (Some (wrap16 (n + Z.of_nat (length pl)))) [] None, unit_of (acc ++ out) t).
Proof.
  revert n bs d nals e acc ots g out. induction pl as [|p pl IH]; intros n bs d nals e acc ots g out Hne Hbs Hc Hg He Ht; [done|].
  inversion Hc as [|? ? d1 ns ? ? out1 Hp Hc1]; subst. rewrite gate_all_app in Hg.
  destruct (gate_all ns g) as [g1 o1] eqn:Hg1. destruct (gate_all out1 g1) as [g2 o2] eqn:Hg2. injection Hg as -> <-.
  destruct pl as [|p2 pl].
  - inversion Hbs as [|? ? ? ? ? b bs' pkt Hb Ep Em Et En Hbs']; subst. inversion Hbs'; subst. inversion Hc1; subst.
    cbn [gate_all] in Hg2. injection Hg2 as -> <-. cbn [feed_all length].
    rewrite (feed_next n _ true _ b pkt d g e acc ots _ _ _ _ Hb eq_refl Em eq_refl En He Ht Hp Hg1).
    by rewrite !app_nil_r.
  - change (marked_last t (p :: p2 :: pl)) with ((p, false, t) :: marked_last t (p2 :: pl)) in Hbs.
    inversion Hbs as [|? ? ? ? ? b bs' pkt Hb Ep Em Et En Hbs']; subst. cbn [feed_all].
    rewrite (feed_next n _ false _ b pkt d g e acc ots _ _ _ _ Hb eq_refl Em eq_refl En He Ht Hp Hg1).
    rewrite (IH (n + 1) bs' d1 out1 _ _ _ g1 o2) by (done || by right). cbn [length app].
    rewrite app_assoc. do 3 f_equal. f_equal. lia.
Qed.

(** Picture after picture: the gated NAL units of each. *)
Fixpoint gated (ps : list picture) (g : SyncGate.t) : list event :=
  match ps with
  | [] => []
  | p :: ps => let '(g, out) := gate_all (sent (p_units p)) g in unit_of out (p_time p) ++ gated ps g
  end.
Lemma payloads_not_nil us : us <> [] -> payloads us <> [].
Proof. destruct us as [|[] us]; done. Qed.
Lemma feed_pictures ps n bs d e g :
  Forall picture_ok ps -> in_order n (packets ps) bs -> at_number n e ->
  (feed_all bs (mkMedia d g e [] None)).2 = gated ps g.
Proof.
  intros Hps. revert n bs d e g. induction Hps as [|p ps [Hne Hus] _ IH]; intros n bs d e g Hbs He.
  - inversion Hbs. done.
  - unfold packets in Hbs. cbn [map concat] in Hbs. apply in_order_app in Hbs as (b1 & b2 & -> & H1 & H2).
    destruct (chain_units (p_units p) d Hus) as (d' & Hc). cbn [gated].
    destruct (gate_all (sent (p_units p)) g) as [g' out] eqn:Hg. rewrite feed_all_app.
    rewrite (feed_picture n (p_time p) (payloads (p_units p)) b1 d d' _ e [] None g g' out (payloads_not_nil _ Hne) H1 Hc Hg He)
      by (by left).
    specialize (IH _ b2 d' (Some (wrap16 (n + Z.of_nat (length (payloads (p_units p)))))) g' H2).
    assert (length (marked_last (p_time p) (payloads (p_units p))) = length (payloads (p_units p))) as Hl.
    { generalize (payloads (p_units p)). intros pl. induction pl as [|x [|y pl] IHp]; [done..|]. cbn [marked_last length].
      f_equal. exact IHp. }
    rewrite <- IH by (right; by rewrite Hl). by destruct (feed_all b2 _).
Qed.
End pipeline.

(** ** An open gate keeps every NAL unit of media *)
Lemma push_open n g : SyncGate.inv g -> SyncGate.synced g = true ->
  let '(g', out) := SyncGate.push_nal n g in
  SyncGate.inv g' /\ SyncGate.synced g' = true /\
  filter SyncGate.is_media out = filter SyncGate.is_media [n].
Proof.
  intros Hi Hs. pose proof (SyncGateFacts.step_emits (SyncGate.Push n) g) as He.
  pose proof (SyncGateFacts.step_inv (SyncGate.Push n) g I Hi) as Hi'. cbn [SyncGate.step] in *.
  destruct (SyncGate.push_nal n g) as [g' out]. split; [exact Hi'|].
  inversion He as [c s' Hm Hsy _ _|nal sps pps Ht Hsp Hpp|nal nt Ht H7 H8 H5 Hsy]; subst.
  - split; [by rewrite Hsy|]. rewrite filter_cons. case_decide as Hmed; [|done].
    rewrite (Hm n) in Hs; [done|done|]. by destruct (SyncGate.is_media n).
  - split; [done|]. change [sps; pps; n] with ([sps; pps] ++ [n]). by rewrite (SyncGateFacts.media_sets g).
  - done.
Qed.
Lemma gate_open l g : SyncGate.inv g -> SyncGate.synced g = true ->
  let '(g', out) := gate_all l g in
  SyncGate.inv g' /\ SyncGate.synced g' = true /\ filter SyncGate.is_media out = filter SyncGate.is_media l.
Proof.
  revert g. induction l as [|n l IH]; intros g Hi Hs; [done|]. cbn [gate_all].
  pose proof (push_open n g Hi Hs) as Hp. destruct (SyncGate.push_nal n g) as [g1 o]. destruct Hp as (H1 & H2 & H3).
  specialize (IH g1 H1 H2). destruct (gate_all l g1) as [g2 o2]. destruct IH as (H4 & H5 & H6).
  split_and!; [done..|]. rewrite filter_app, H3, H6. by rewrite <- filter_app.
Qed.

(** A picture that can be decoded on its own: parameter sets and an IDR. *)
Definition opens (p : picture) : Prop :=
  exists sps pps idr rest, sent (p_units p) = sps :: pps :: idr :: rest /\
    nal_type_from_annexb sps = Some 7 /\ nal_type_from_annexb pps = Some 8 /\ nal_type_from_annexb idr = Some 5.
Definition nals_of (aus : list AccessUnit) : list bytes := concat (map nals aus).

Lemma gate_opens p g : opens p -> SyncGate.require_idr_sync g = true ->
  let '(g', out) := gate_all (sent (p_units p)) g in
  SyncGate.inv g' /\ SyncGate.synced g' = true /\
  existsb (fun t => t =? 5) (omap nal_type_from_annexb out) = true /\
  filter SyncGate.is_media out = filter SyncGate.is_media (sent (p_units p)).
Proof.
  intros (sps & pps & idr & rest & -> & Hs & Hp & Hi) Hr.
  set (g1 := SyncGate.mk true true (Some sps) (Some pps)).
  assert (SyncGate.inv g1) as Hinv by (split_and!; cbn; [congruence|congruence|by eauto|done]).
  assert (gate_all (sps :: pps :: idr :: rest) g =
    (let '(g', out) := gate_all rest g1 in (g', [sps; pps; idr] ++ out))) as ->.
  { destruct g as [r sy sp pp]. cbn in Hr. subst r. cbn [gate_all].
    assert (SyncGate.push_nal sps (SyncGate.mk true sy sp pp) = (SyncGate.mk true sy (Some sps) pp, [])) as ->
      by (unfold SyncGate.push_nal; by rewrite Hs).
    assert (SyncGate.push_nal pps (SyncGate.mk true sy (Some sps) pp) = (SyncGate.mk true sy (Some sps) (Some pps), [])) as ->
      by (unfold SyncGate.push_nal; by rewrite Hp).
    assert (SyncGate.push_nal idr (SyncGate.mk true sy (Some sps) (Some pps)) = (g1, [sps; pps; idr])) as ->
      by (unfold SyncGate.push_nal; rewrite Hi; by destruct sy).
    by destruct (gate_all rest g1). }
  pose proof (gate_open rest g1 Hinv eq_refl) as Ho. destruct (gate_all rest g1) as [g2 out]. destruct Ho as (H1 & H2 & H3).
  split_and!; [done|done| |].
  - cbn [app omap list_omap]. rewrite Hs, Hp, Hi. done.
  - change (sps :: pps :: idr :: rest) with ([sps; pps; idr] ++ rest). by rewrite !filter_app, H3.
Qed.

Lemma unit_of_shown out t evs : shown true (unit_of out t ++ evs) =
  match out with [] => [] | _ => [build_access_unit out t] end ++ shown true evs.
Proof. by destruct out. Qed.
Lemma video_nals_app a b : nals_of (a ++ b) = nals_of a ++ nals_of b.
Proof. unfold nals_of. by rewrite map_app, concat_app. Qed.
Lemma picture_nals_cons p ps : picture_nals (p :: ps) = sent (p_units p) ++ picture_nals ps.
Proof. unfold picture_nals, sent. cbn [map concat]. by rewrite map_app, concat_app, map_app. Qed.

Lemma gated_shown ps g : SyncGate.inv g -> SyncGate.synced g = true ->
  filter SyncGate.is_media (nals_of (shown true (gated ps g))) = filter SyncGate.is_media (picture_nals ps).
Proof.
  revert g. induction ps as [|p ps IH]; intros g Hi Hs; [done|]. cbn [gated].
  pose proof (gate_open (sent (p_units p)) g Hi Hs) as Ho. destruct (gate_all _ g) as [g' out]. destruct Ho as (H1 & H2 & H3).
  rewrite unit_of_shown, video_nals_app, picture_nals_cons, !filter_app, (IH g') by done. f_equal.
  rewrite <- H3. destruct out; [done|]. unfold nals_of. cbn [map concat]. by rewrite app_nil_r.
Qed.
Lemma first_shown p ps g : opens p -> SyncGate.require_idr_sync g = true ->
  filter SyncGate.is_media (nals_of (shown false (gated (p :: ps) g))) = filter SyncGate.is_media (picture_nals (p :: ps)).
Proof.
  intros Ho Hr. cbn [gated]. pose proof (gate_opens p g Ho Hr) as Hg. destruct (gate_all _ g) as [g' out].
  destruct Hg as (H1 & H2 & H3 & H4). destruct out as [|n out]; [done|].
  cbn [unit_of app shown]. unfold build_access_unit at 1. cbn [has_idr]. rewrite H3. cbn [orb].
  rewrite picture_nals_cons. change (nals_of (?a :: ?l)) with (nals a ++ nals_of l).
  by rewrite !filter_app, gated_shown, <- H4.
Qed.

(** ** On disk *)
Section disk.
Context `{Calendar} {F Hd E : Type} `{HL : LiveFsLaws F Hd E} `{PrintSecs}
  `{ToJson StreamHealthSnapshot} `{ToJson CurrentSessionPointer} `{FromJson CurrentSessionPointer}.

End disk.

(** ** Witness: numbers that wrap, a motion and a tick between the packets *)
Module LosslessWitness.
Import MotionWitness LiveV2Witness.
#[local] Existing Instances clock PipelineWitness.calendar log_fs log_laws live_disk live_laws print_ms pointer_json pointer_parse
  live_health_json.

Definition pictures : list picture :=
  [mkPicture [Single [0x67; 1]; Single [0x68; 2]; Fragmented 0x65 [1; 2] [[3]] [4]] 1000;
   mkPicture [Aggregate 0x58 [[0x41; 5]; [0x41; 6]]] 1000; mkPicture [Fragmented 0x41 [7] [] [8]] 1000].
Definition datagrams : list bytes :=
  imap (fun i x => PipelineWitness.packet (wrap16 (65533 + Z.of_nat i)) x.1.2 x.1.1) (packets pictures).
Definition taken : list turn :=
  imap (fun i b => LiveV2.Msg (at_ (Z.of_nat i)) (MsgRtp b)) (take 4 datagrams) ++
  [LiveV2.Tick (at_ 5); LiveV2.Msg (at_ 6) (MsgMotion (lit "motion") true [])] ++
  imap (fun i b => LiveV2.Msg (at_ (6 + Z.of_nat i)) (MsgRtp b)) (drop 4 datagrams).
Definition ended : log * outcome unit (@live clock str) := run lcfg sess taken (initial lcfg) [].

Lemma all_in_order : in_order 65533 (packets pictures) (rtp_of (msgs_of taken)).
Proof.
  let l := eval vm_compute in (rtp_of (msgs_of taken)) in change (rtp_of (msgs_of taken)) with l.
  let l := eval vm_compute in (packets pictures) in change (packets pictures) with l.
  repeat (eapply in_order_cons; [reflexivity..|]). constructor.
Qed.
Lemma pictures_ok : Forall picture_ok pictures.
Proof.
  repeat (apply Forall_cons; split); [..|by apply Forall_nil]; (split; [done|]);
    repeat (apply Forall_cons; split); try (by apply Forall_nil);
    first [by eexists _, _; split; [reflexivity|by_eval]|unfold unit_ok, is_byte; lia|split; [reflexivity|]].
  repeat constructor; by_eval.
Qed.

Lemma no_gaps : Forall no_gap (msgs_of taken).
Proof. repeat (apply Forall_cons; split; [exact I|]). by apply Forall_nil. Qed.
Lemma first_opens : opens (hd (mkPicture [] 0) pictures).
Proof. eexists _, _, _, _. split; [vm_compute; reflexivity|by_eval]. Qed.

End LosslessWitness.
