(* ===== verification/TestAgent.v ===== *)
(** * The test agent of the TLS ingest ([tls_ingest/agent/src/main.rs])

    A stand-alone tool: its options, its HELLO, the loops that send random RTP
    packets and alternating motion events, and the loop that reads the server's
    records.  The record format ([ingest_proto]), TLS, JSON and random numbers
    are parameters; logging is left out. *)
From S2P Require Import Prelude Str Rtp.
#[local] Open Scope Z_scope.

(** ** Options *)
Record Settings := mkSettings {
  server_addr : str; agent_id : str; token : str; streams : list str; ca_cert : option str;
  ping_interval : Z; rtp_interval_ms : Z; event_interval_sec : Z }.
Inductive settings_error := Insecure | MissingServer | MissingAgent | MissingToken | MissingCa.
(** The locals of the option loop. *)
Record options := mkOptions {
  o_server : option str; o_agent : option str; o_token : option str; o_streams : option str; o_ca : option str;
  o_ping : Z; o_rtp : Z; o_event : Z }.
Definition no_options : options := mkOptions None None None None None 15 100 10.
Definition number (v : option str) (d : Z) : Z := match v with Some v => default d (parse_u64 v) | None => d end.
Definition option_named (arg : str) (name : String.string) : bool := bool_decide (arg = lit name).
(** An option takes the next argument; without one it is as if never given. *)
Definition take_option (arg : str) (v : option str) (o : options) : option (outcome settings_error options) :=
  let '(mkOptions sv ag tk st ca pg rt ev) := o in
  if option_named arg "--server" then Some (Ok (mkOptions v ag tk st ca pg rt ev))
  else if option_named arg "--agent-id" then Some (Ok (mkOptions sv v tk st ca pg rt ev))
  else if option_named arg "--token" then Some (Ok (mkOptions sv ag v st ca pg rt ev))
  else if option_named arg "--streams" then Some (Ok (mkOptions sv ag tk v ca pg rt ev))
  else if option_named arg "--ca" then Some (Ok (mkOptions sv ag tk st v pg rt ev))
  else if option_named arg "--insecure" then Some (Err Insecure)
  else if option_named arg "--ping" then Some (Ok (mkOptions sv ag tk st ca (number v pg) rt ev))
  else if option_named arg "--rtp-ms" then Some (Ok (mkOptions sv ag tk st ca pg (number v rt) ev))
  else if option_named arg "--event-sec" then Some (Ok (mkOptions sv ag tk st ca pg rt (number v ev)))
  else None.
(** Unknown arguments are skipped; the value of an option is not looked at. *)
Fixpoint read_options (fuel : nat) (args : list str) (o : options) : outcome settings_error options :=
  match fuel, args with
  | S fuel, arg :: args =>
      match take_option arg (head args) o with
      | Some (Ok o) => read_options fuel (tail args) o
      | Some (Err e) => Err e
      | Some Panic => Panic
      | None => read_options fuel args o
      end
  | _, _ => Ok o
  end.
Definition or_env (v : option str) (e : option str) : option str := match v with Some v => Some v | None => e end.
Definition split_streams (v : str) : list str :=
  filter (fun s => s <> []) (map trim (split_char 44 v)).
Definition parse_settings_from (args : list str) (env_get : str -> option str) : outcome settings_error Settings :=
  o ← read_options (length args) args no_options;
  server_addr ← ok_or (or_env (o_server o) (env_get (lit "SERVER_ADDR"))) MissingServer;
  agent_id ← ok_or (or_env (o_agent o) (env_get (lit "AGENT_ID"))) MissingAgent;
  token ← ok_or (or_env (o_token o) (env_get (lit "AGENT_TOKEN"))) MissingToken;
  let streams := split_streams (default (lit "stream1") (or_env (o_streams o) (env_get (lit "STREAMS")))) in
  ca_cert ← ok_or (or_env (o_ca o) (env_get (lit "AGENT_CA_CERT"))) MissingCa;
  mret (mkSettings server_addr agent_id token streams (Some ca_cert) (o_ping o) (o_rtp o) (o_event o)).

(** [rsplitn(2, ':')]: at the last colon. *)
Definition split_host_port (addr : str) : option (str * Z) :=
  match split_once 58 (rev addr) with
  | Some (port, host) => port ← parse_u16 (rev port); Some (rev host, port)
  | None => None
  end.

(** ** Base64 *)
Definition TABLE : str := lit "ABCDEFGHIJKLMNOPQRSTUVWXYZabcdefghijklmnopqrstuvwxyz0123456789+/".
Definition table_char (n : Z) : Z := nth (Z.to_nat n) TABLE 0.
(** The four sextets of three bytes. *)
Definition sextets (b0 b1 b2 : Z) : Z * Z * Z * Z :=
  (Z.shiftr b0 2, Z.lor (Z.shiftl (Z.land b0 0x03) 4) (Z.shiftr b1 4),
   Z.lor (Z.shiftl (Z.land b1 0x0f) 2) (Z.shiftr b2 6), Z.land b2 0x3f).
Fixpoint base64_encode (input : bytes) : str :=
  match input with
  | [] => []
  | [b0] => let '(n0, n1, _, _) := sextets b0 0 0 in [table_char n0; table_char n1; 61; 61]
  | [b0; b1] => let '(n0, n1, n2, _) := sextets b0 b1 0 in [table_char n0; table_char n1; table_char n2; 61]
  | b0 :: b1 :: b2 :: rest =>
      let '(n0, n1, n2, n3) := sextets b0 b1 b2 in
      table_char n0 :: table_char n1 :: table_char n2 :: table_char n3 :: base64_encode rest
  end.

(** ** Records *)
Inductive RecordType := Hello | HelloOk | Ping | Close | Error | Rtp | Event | OtherRecord.
Class RecordWriter (W : Type) := write_record : RecordType -> bytes -> W -> W * bool.
Inductive hello_error (P : Type) := ServerError (e : P) | BadPayload | Unexpected | ReadFailed | HelloTimeout.
Arguments ServerError {P}.
Arguments BadPayload {P}.
Arguments Unexpected {P}.
Arguments ReadFailed {P}.
Arguments HelloTimeout {P}.
(** What a read with a time limit gives. *)
Inductive read_result := Received (t : RecordType) (payload : bytes) | ReadError | ReadTimeout.
(** [timeout(ping_interval * 3)]: u64, in seconds. *)
Definition read_limit (ping_interval : Z) : Z := (ping_interval * 3) mod 2 ^ 64.
Definition wait_for_hello_ok {O P} (hello_ok : bytes -> option O) (error : bytes -> option P) (r : read_result)
    : outcome (hello_error P) O :=
  match r with
  | Received HelloOk payload => ok_or (hello_ok payload) BadPayload
  | Received Error payload => match error payload with Some e => Err (ServerError e) | None => Err BadPayload end
  | Received _ _ => Err Unexpected
  | ReadError => Err ReadFailed
  | ReadTimeout => Err HelloTimeout
  end.

Section loops.
Context {W : Type} `{RecordWriter W}.

(** A record of the server: a ping is answered; whether the loop goes on. *)
Definition read_turn (r : read_result) (w : W) : W * bool :=
  match r with
  | Received Ping _ => ((write_record Ping [] w).1, true)
  | Received Close _ | Received Error _ | ReadError | ReadTimeout => (w, false)
  | Received _ _ => (w, true)
  end.
(** Behind the loop, the others are told to stop, and the server is told. *)
Definition say_goodbye (w : W) : W := (write_record Close [] w).1.

(** *** RTP *)
Record StreamState := mkStream { st_seq : Z; st_ts : Z; st_ssrc : Z; st_active : bool }.
Definition build_rtp_packet (random : bytes) (s : StreamState) : StreamState * bytes :=
  let s := mkStream (wrap16 (st_seq s + 1)) (wrap32 (st_ts s + 3000)) (st_ssrc s) (st_active s) in
  (s, [0x80; 96] ++ to_be 2 (st_seq s) ++ to_be 4 (st_ts s) ++ to_be 4 (st_ssrc s) ++ random).
(** The streams of a list, before their first packets; [draw] gives their sources. *)
Definition initial_streams (draw : nat -> Z) (names : list str) : gmap str StreamState :=
  foldl (fun m kn => <[kn.2 := mkStream 0 0 (draw kn.1) false]> m) ∅ (zip (seq 0 (length names)) names).
(** A packet of a stream; whether it could be written. *)
Definition rtp_send (random : bytes) (name : str) (m : gmap str StreamState) (w : W) : gmap str StreamState * W * bool :=
  match m !! name with
  | None => (m, w, true)
  | Some s =>
      let '(s, packet) := build_rtp_packet random s in
      let '(w, written) := write_record Rtp packet w in
      (<[name := s]> m, w, written)
  end.

(** *** Events *)
(** The payload of an event; its other fields are constants. *)
Record motion_payload := mkPayload { p_stream : str; p_state : str; p_ts : Z }.
Definition event_of (to_vec : motion_payload -> option bytes) (now : Z) (name : str) (on : bool) : option bytes :=
  to_vec (mkPayload name (if on then lit "start" else lit "stop") now).
(** The state of a stream is turned over; failures are ignored. *)
Definition event_send (to_vec : motion_payload -> option bytes) (now : Z) (name : str) (m : gmap str bool) (w : W)
    : gmap str bool * W :=
  let next := negb (default false (m !! name)) in
  (<[name := next]> m, match event_of to_vec now name next with Some b => (write_record Event b w).1 | None => w end).

(** *** The tasks, side by side

    They share the writer, behind a lock, and the flag.  A loop looks at the
    flag when its ticker fires, and then goes through the streams one by one. *)
Inductive read_phase := Reading | Closing | ReadDone.
Record agent := mkAgent {
  writer : W; stop_flag : bool; reading : read_phase;
  stream_state : gmap str StreamState; rtp_pending : option (list str);
  states : gmap str bool; event_pending : option (list str); finished : bool }.
Definition start_agent (draw : nat -> Z) (names : list str) (w : W) : agent :=
  mkAgent w false Reading (initial_streams draw names) (Some []) (list_to_map (map (fun n => (n, false)) names)) (Some []) false.

(** A turn of a task: the read loop has a record, or writes its goodbye; a
    ticker fires, or a stream has its turn; the main task wakes up. *)
Inductive agent_turn := ReadTurn (r : read_result) | CloseTurn | RtpTurn (random : bytes) | EventTurn (now : Z) | MainTurn.

Section turns.
Variable names : list str.
Variable to_vec : motion_payload -> option bytes.

Definition on_read (r : read_result) (a : agent) : agent :=
  let '(mkAgent w stop rd ss rp es ep fin) := a in
  match rd with
  | Reading => let '(w, go_on) := read_turn r w in
               if go_on then mkAgent w stop Reading ss rp es ep fin else mkAgent w true Closing ss rp es ep fin
  | _ => a
  end.
Definition on_close (a : agent) : agent :=
  let '(mkAgent w stop rd ss rp es ep fin) := a in
  match rd with Closing => mkAgent (say_goodbye w) stop ReadDone ss rp es ep fin | _ => a end.
Definition on_rtp (random : bytes) (a : agent) : agent :=
  let '(mkAgent w stop rd ss rp es ep fin) := a in
  match rp with
  | None => a
  | Some [] => mkAgent w stop rd ss (if stop then None else Some names) es ep fin
  | Some (name :: rest) =>
      match rtp_send random name ss w with
      | (ss, w, true) => mkAgent w stop rd ss (Some rest) es ep fin
      | (ss, w, false) => mkAgent w true rd ss None es ep fin
      end
  end.
Definition on_event (now : Z) (a : agent) : agent :=
  let '(mkAgent w stop rd ss rp es ep fin) := a in
  match ep with
  | None => a
  | Some [] => mkAgent w stop rd ss rp es (if stop then None else Some names) fin
  | Some (name :: rest) => let '(es, w) := event_send to_vec now name es w in mkAgent w stop rd ss rp es (Some rest) fin
  end.
Definition on_main (a : agent) : agent :=
  let '(mkAgent w stop rd ss rp es ep fin) := a in mkAgent w stop rd ss rp es ep (stop || fin).
(** The end of [main] is the end of every task. *)
Definition agent_step (a : agent) (t : agent_turn) : agent :=
  if finished a then a
  else match t with
       | ReadTurn r => on_read r a
       | CloseTurn => on_close a
       | RtpTurn random => on_rtp random a
       | EventTurn now => on_event now a
       | MainTurn => on_main a
       end.
End turns.
End loops.

(** ** The start *)
Class AgentTls (Ip Cert : Type) := { parse_ip : str -> option Ip; dns_name : str -> option str }.
Inductive name_of (Ip : Type) := IpAddress (ip : Ip) | DnsName (name : str).
Arguments IpAddress {Ip}.
Arguments DnsName {Ip}.
Inductive start_error := BadSettings (e : settings_error) | BadAddress | BadServerName | NoCa | BadCa | ConnectError | HelloNotSent.
Section start.
Context {Ip Cert W : Type} `{AgentTls Ip Cert}.
Definition make_server_name (host : str) : outcome start_error (name_of Ip) :=
  match parse_ip host with
  | Some ip => Ok (IpAddress ip)
  | None => name ← ok_or (dns_name host) BadServerName; mret (DnsName name)
  end.
(** The certificates of the file, or that it cannot be opened or parsed. *)
Definition build_tls_config (certs : str -> option (list Cert)) (ca_cert : option str) : outcome start_error (list Cert) :=
  ca_path ← ok_or ca_cert NoCa;
  ok_or (certs ca_path) BadCa.
(** [main] up to its first record: where it connects to, with which name and
    certificates; nothing if it only shows its help. *)
Definition asks_help (args : list str) : bool :=
  existsb (fun arg => option_named arg "--help" || option_named arg "-h") args.
Definition prepare (args : list str) (env_get : str -> option str) (certs : str -> option (list Cert))
    : outcome start_error (option (Settings * (str * Z) * name_of Ip * list Cert)) :=
  if asks_help args then Ok None
  else
    settings ← match parse_settings_from args env_get with Ok x => Ok x | Err e => Err (BadSettings e) | Panic => Panic end;
    address ← ok_or (split_host_port (server_addr settings)) BadAddress;
    server_name ← make_server_name address.1;
    config ← build_tls_config certs (ca_cert settings);
    mret (Some (settings, address, server_name, config)).
(** The first record. *)
Record hello := mkHello { h_agent_id : str; h_token : str; h_streams : list str; h_timestamp : Z; h_nonce : str }.
Definition random_nonce (random : bytes) : str := base64_encode random.
Definition hello_of (settings : Settings) (now : Z) (random : bytes) : hello :=
  mkHello (agent_id settings) (token settings) (streams settings) now (random_nonce random).
End start.

(** ** Base64: the reference decoder *)
Fixpoint position (c : Z) (t : str) : option Z :=
  match t with [] => None | x :: t => if x =? c then Some 0 else Z.succ <$> position c t end.
Definition sextet (c : Z) : option Z := position c TABLE.
(** The three bytes of four sextets, as a number of 24 bits. *)
Definition triple (n0 n1 n2 n3 : Z) : bytes :=
  let v := n0 * 2 ^ 18 + n1 * 2 ^ 12 + n2 * 2 ^ 6 + n3 in [v / 65536; v / 256 mod 256; v mod 256].
Fixpoint base64_decode (s : str) : option bytes :=
  match s with
  | [] => Some []
  | a :: b :: c :: d :: rest =>
      n0 ← sextet a; n1 ← sextet b;
      if d =? 61 then
        if bool_decide (rest = []) then
          if c =? 61 then Some (take 1 (triple n0 n1 0 0))
          else n2 ← sextet c; Some (take 2 (triple n0 n1 n2 0))
        else None
      else n2 ← sextet c; n3 ← sextet d; app (triple n0 n1 n2 n3) <$> base64_decode rest
  | _ => None
  end.

Lemma lor_disjoint k x y : 0 <= k -> 0 <= y < 2 ^ k -> Z.lor (Z.shiftl x k) y = x * 2 ^ k + y.
Proof.
  intros Hk Hy. apply Z.bits_inj'. intros n Hn. rewrite Z.lor_spec, Z.add_comm.
  destruct (Z.lt_ge_cases n k) as [Hlt|Hge].
  - rewrite Z.shiftl_spec_low by done. rewrite <- (Z.mod_pow2_bits_low (y + x * 2 ^ k) k n) by done.
    by rewrite Z.mod_add, Z.mod_small by lia.
  - rewrite Z.shiftl_spec by done. replace (Z.testbit y n) with false.
    2:{ rewrite <- (Z.mod_small y (2 ^ k)) by done. by rewrite Z.mod_pow2_bits_high by lia. }
    rewrite orb_false_r. replace n with (n - k + k) at 2 by lia. rewrite <- Z.div_pow2_bits by lia.
    by rewrite Z.div_add, Z.div_small by lia.
Qed.

Lemma sextets_digits b0 b1 b2 :
  is_byte b0 -> is_byte b1 -> is_byte b2 ->
  sextets b0 b1 b2 = (b0 / 4, b0 mod 4 * 16 + b1 / 16, b1 mod 16 * 4 + b2 / 64, b2 mod 64).
Proof.
  unfold is_byte. intros H0 H1 H2. unfold sextets. change 0x03 with (Z.ones 2). change 0x0f with (Z.ones 4). change 0x3f with (Z.ones 6).
  rewrite !Z.land_ones, !Z.shiftr_div_pow2 by lia. change (2 ^ 2) with 4. change (2 ^ 4) with 16. change (2 ^ 6) with 64.
  rewrite (lor_disjoint 4), (lor_disjoint 2) by (Z.to_euclidean_division_equations; lia). done.
Qed.

Lemma sextet_table n : 0 <= n < 64 -> sextet (table_char n) = Some n /\ table_char n <> 61.
Proof.
  intros Hn. assert (Hall : Forall (fun k => sextet (table_char (Z.of_nat k)) = Some (Z.of_nat k) /\ table_char (Z.of_nat k) <> 61)
    (seq 0 64)) by (by repeat constructor).
  rewrite Forall_forall in Hall. specialize (Hall (Z.to_nat n)). rewrite Z2Nat.id in Hall by lia. apply Hall.
  apply elem_of_seq. lia.
Qed.

(** The pairs and triples of bytes come back from their sextets. *)
Lemma triple_digits b0 b1 b2 :
  is_byte b0 -> is_byte b1 -> is_byte b2 ->
  triple (b0 / 4) (b0 mod 4 * 16 + b1 / 16) (b1 mod 16 * 4 + b2 / 64) (b2 mod 64) = [b0; b1; b2].
Proof.
  unfold is_byte, triple. intros H0 H1 H2.
  replace (b0 / 4 * 2 ^ 18 + (b0 mod 4 * 16 + b1 / 16) * 2 ^ 12 + (b1 mod 16 * 4 + b2 / 64) * 2 ^ 6 + b2 mod 64)
    with (b0 * 65536 + b1 * 256 + b2) by (Z.to_euclidean_division_equations; lia).
  repeat f_equal; Z.to_euclidean_division_equations; lia.
Qed.
Lemma sextet_bounds b0 b1 b2 :
  is_byte b0 -> is_byte b1 -> is_byte b2 ->
  0 <= b0 / 4 < 64 /\ 0 <= b0 mod 4 * 16 + b1 / 16 < 64 /\ 0 <= b1 mod 16 * 4 + b2 / 64 < 64 /\ 0 <= b2 mod 64 < 64.
Proof. unfold is_byte. intros. split_and!; Z.to_euclidean_division_equations; lia. Qed.

Lemma three_ind (P : bytes -> Prop) :
  P [] -> (forall a, P [a]) -> (forall a b, P [a; b]) -> (forall a b c l, P l -> P (a :: b :: c :: l)) -> forall l, P l.
Proof.
  intros H0 H1 H2 H3. fix IH 1. intros [|a [|b [|c l]]]; [apply H0|apply H1|apply H2|apply H3, IH].
Qed.

(** The encoding reads back, and is four characters for every three bytes that
    are begun. *)
Theorem base64_roundtrip l :
  bytes_ok l -> base64_decode (base64_encode l) = Some l /\
    Z.of_nat (length (base64_encode l)) = 4 * ((Z.of_nat (length l) + 2) / 3).
Proof.
  assert (Hz : is_byte 0) by (unfold is_byte; lia).
  induction l as [|a|a b|a b c l IH] using three_ind; intros Hl.
  - done.
  - apply Forall_cons in Hl as [Ha _]. cbn [base64_encode]. rewrite sextets_digits by done.
    destruct (sextet_bounds a 0 0 Ha Hz Hz) as (B0 & B1 & _). destruct (sextet_table _ B0) as [S0 _]. destruct (sextet_table _ B1) as [S1 _].
    split; [|done]. cbn [base64_decode mbind option_bind]. rewrite S0, S1. cbn [mbind option_bind Z.eqb Pos.eqb]. rewrite bool_decide_true by done.
    pose proof (triple_digits a 0 0 Ha Hz Hz) as Ht. change (0 mod 16 * 4 + 0 / 64) with 0 in Ht. change (0 mod 64) with 0 in Ht.
    by rewrite Ht.
  - apply Forall_cons in Hl as [Ha Hl]. apply Forall_cons in Hl as [Hb _]. cbn [base64_encode]. rewrite sextets_digits by done.
    destruct (sextet_bounds a b 0 Ha Hb Hz) as (B0 & B1 & B2 & _). destruct (sextet_table _ B0) as [S0 _].
    destruct (sextet_table _ B1) as [S1 _]. destruct (sextet_table _ B2) as [S2 N2].
    split; [|done]. cbn [base64_decode]. rewrite S0, S1. cbn [mbind option_bind Z.eqb Pos.eqb]. rewrite bool_decide_true by done.
    rewrite (proj2 (Z.eqb_neq _ _) N2), S2. cbn [mbind option_bind].
    pose proof (triple_digits a b 0 Ha Hb Hz) as Ht. change (0 mod 64) with 0 in Ht. change (0 / 64) with 0 in *.
    by rewrite Ht.
  - apply Forall_cons in Hl as [Ha Hl]. apply Forall_cons in Hl as [Hb Hl]. apply Forall_cons in Hl as [Hc Hl].
    destruct (IH Hl) as [Hd Hlen]. cbn [base64_encode]. rewrite sextets_digits by done.
    destruct (sextet_bounds a b c Ha Hb Hc) as (B0 & B1 & B2 & B3). destruct (sextet_table _ B0) as [S0 _].
    destruct (sextet_table _ B1) as [S1 _]. destruct (sextet_table _ B2) as [S2 _]. destruct (sextet_table _ B3) as [S3 N3]. split.
    + cbn [base64_decode]. rewrite S0, S1. cbn [mbind option_bind]. rewrite (proj2 (Z.eqb_neq _ _) N3), S2, S3.
      cbn [mbind option_bind]. rewrite Hd, triple_digits by done. done.
    + cbn [length]. rewrite !Nat2Z.inj_succ, Hlen. Z.to_euclidean_division_equations; lia.
Qed.

(** ** The end of the tasks *)
Section end_.
Context {W : Type} `{RecordWriter W}.
Variable names : list str.
Variable to_vec : motion_payload -> option bytes.
Abbreviation step := (agent_step names to_vec).
Definition write_all (rs : list (RecordType * bytes)) (w : W) : W := foldl (fun w r => (write_record r.1 r.2 w).1) w rs.
(** Records that are not answers to pings. *)
Definition not_ping (r : RecordType * bytes) : Prop := match r.1 with Ping => False | _ => True end.
#[local] Instance not_ping_dec r : Decision (not_ping r).
Proof. unfold not_ping. destruct r.1; apply _. Defined.
(** What the tasks may still write once they are told to stop. *)
Definition pending (l : option (list str)) : nat := match l with Some l => length l | None => 0 end.
Definition budget (a : @agent W) : nat :=
  (pending (rtp_pending a) + pending (event_pending a) + match reading a with ReadDone => 0 | _ => 1 end)%nat.

Lemma write_all_app r1 r2 w : write_all (r1 ++ r2) w = write_all r2 (write_all r1 w).
Proof. apply foldl_app. Qed.

Definition spends (a b : @agent W) : Prop :=
  stop_flag b = true /\
  exists rs, writer b = write_all rs (writer a) /\ (length (filter not_ping rs) + budget b <= budget a)%nat.
Lemma spends_nothing a b : stop_flag b = true -> writer b = writer a -> (budget b <= budget a)%nat -> spends a b.
Proof. intros Hs Hw Hb. split; [done|]. exists []. split; [done|exact Hb]. Qed.
Lemma spends_one r a b :
  stop_flag b = true -> writer b = (write_record r.1 r.2 (writer a)).1 -> (budget b < budget a)%nat -> spends a b.
Proof.
  intros Hs Hw Hb. split; [done|]. exists [r]. split; [done|]. rewrite filter_cons. case_decide; cbn; lia.
Qed.

Lemma step_spends a t : stop_flag a = true -> spends a (step a t).
Proof.
  intros Hs. unfold agent_step. destruct (finished a); [by apply spends_nothing|].
  destruct a as [w st rd ss rp es ep fin]. cbn in Hs. subst st. destruct t as [r| |random|now|]; cbn [on_read on_close on_rtp on_event on_main].
  - destruct rd; [|by apply spends_nothing..]. destruct r as [[] b| |]; cbn; try (by apply spends_nothing).
    split; [done|]. exists [(Ping, [])]. split; [done|]. rewrite filter_cons_False by (intros []). unfold budget. by cbn.
  - destruct rd; [by apply spends_nothing| |by apply spends_nothing]. apply (spends_one (Close, [])); [done|done|]. unfold budget; cbn; lia.
  - destruct rp as [[|name rest]|]; [by apply spends_nothing| |by apply spends_nothing].
    unfold rtp_send. destruct (ss !! name) as [s|]; [|apply spends_nothing; [done|done|unfold budget; cbn; lia]].
    destruct (build_rtp_packet random s) as [s' packet].
    destruct (write_record Rtp packet w) as [w' [|]] eqn:Hw; (apply (spends_one (Rtp, packet)); [done|by cbn; rewrite Hw|unfold budget; cbn; lia]).
  - destruct ep as [[|name rest]|]; [by apply spends_nothing| |by apply spends_nothing].
    unfold event_send. destruct (event_of _ _ _ _) as [b|];
      [apply (spends_one (Event, b)); [done|done|unfold budget; cbn; lia]|apply spends_nothing; [done|done|unfold budget; cbn; lia]].
  - by apply spends_nothing.
Qed.

(** Once the flag is set, by a failed packet or the end of the read loop, the
    tasks write no more than what they had begun: the rest of a tick and one
    goodbye; only pings are still answered, and the next time the main task
    wakes up everything ends. *)
Theorem agent_winds_down (ts : list agent_turn) (a : @agent W) (Hstop : stop_flag a = true) :
  (exists rs, writer (foldl step a ts) = write_all rs (writer a) /\ (length (filter not_ping rs) <= budget a)%nat) /\
  finished (step (foldl step a ts) MainTurn) = true.
Proof.
  assert (spends a (foldl step a ts)) as [Hs (rs & Hw & Hb)].
  { revert a Hstop. induction ts as [|t ts IH]; intros a Hstop; [by apply spends_nothing|]. cbn [foldl].
    destruct (step_spends a t Hstop) as [Hs (r1 & Hw1 & Hb1)]. destruct (IH _ Hs) as [Hs2 (r2 & Hw2 & Hb2)].
    split; [done|]. exists (r1 ++ r2). rewrite write_all_app, <- Hw1. split; [done|]. rewrite filter_app, length_app. lia. }
  split; [exists rs; split; [done|lia]|]. unfold agent_step. destruct (finished (foldl _ a ts)) eqn:Hf; [done|].
  destruct (foldl _ a ts). cbn in *. by rewrite Hs.
Qed.
End end_.

(** ** The packets of a stream *)
Fixpoint packets (randoms : list bytes) (s : StreamState) : list bytes :=
  match randoms with
  | [] => []
  | r :: rs => let '(s, p) := build_rtp_packet r s in p :: packets rs s
  end.
Definition packet_at (i : nat) (random : bytes) (s : StreamState) : RtpPacket :=
  mkRtpPacket 2 false false 0 false 96 (wrap16 (st_seq s + 1 + Z.of_nat i)) (wrap32 (st_ts s + 3000 * (1 + Z.of_nat i)))
    (st_ssrc s) random.

Lemma header_parses sq tm src (random : bytes) :
  is_u16 sq -> is_u32 tm -> is_u32 src ->
  parse ([0x80; 96] ++ to_be 2 sq ++ to_be 4 tm ++ to_be 4 src ++ random) = Ok (mkRtpPacket 2 false false 0 false 96 sq tm src random).
Proof.
  intros Hs Ht Hr. pose proof (from_be_to_be_small 2 sq Hs) as Es. pose proof (from_be_to_be_small 4 tm Ht) as Et.
  pose proof (from_be_to_be_small 4 src Hr) as Er. cbn [to_be] in *. cbn [app].
  match goal with |- parse (?a0 :: ?a1 :: ?a2 :: ?a3 :: ?a4 :: ?a5 :: ?a6 :: ?a7 :: ?a8 :: ?a9 :: ?a10 :: ?a11 :: _) = _ =>
    set (pre := [a0; a1; a2; a3; a4; a5; a6; a7; a8; a9; a10; a11]); change (parse (pre ++ random) = Ok (mkRtpPacket 2 false false 0 false 96 sq tm src random));
    unfold pre; rewrite parse_header; fold pre end.
  rewrite Es, Et, Er. unfold parse_body. change (Z.shiftr 0x80 6) with 2. change (Z.land 0x80 0x0F) with 0.
  change (Z.land 0x80 0x10) with 0. change (Z.land 0x80 0x20) with 0. change (Z.land 96 0x80) with 0. change (Z.land 96 0x7F) with 96.
  rewrite !bail_bind. cbn [Z.eqb Pos.eqb negb Z.to_nat Nat.mul Nat.add].
  assert (Hl : length (pre ++ random) = (12 + length random)%nat) by (unfold pre; by rewrite length_app).
  rewrite (proj2 (Nat.ltb_ge _ _)) by lia. unfold mret, outcome_ret, mbind. cbn [outcome_bind].
  rewrite (proj2 (Nat.ltb_ge _ _)) by lia. cbn [bail_if]. rewrite Hl.
  pose proof (slice_mid (E:=rtp_error) pre random [] 12 (12 + length random) eq_refl eq_refl) as Hsl.
  rewrite app_nil_r in Hsl. cbn [outcome_bind]. change (Z.to_nat 0 * 4)%nat with 0%nat. by rewrite Hsl.
Qed.

(** The packets a stream is sent can be read by the parser of the program:
    their payloads are what was drawn, and sequence numbers and times go on
    from the first state, around 2^16 and 2^32. *)
Theorem packets_read randoms s i p r :
  is_u32 (st_ssrc s) -> packets randoms s !! i = Some p -> randoms !! i = Some r -> parse p = Ok (packet_at i r s).
Proof.
  intros Hs. revert s i Hs. induction randoms as [|r0 rs IH]; intros s i Hs Hp Hr; [done|].
  cbn [packets build_rtp_packet] in Hp. destruct i as [|i].
  - injection Hp as <-. injection Hr as <-. cbn [st_seq st_ts st_ssrc]. unfold wrap16, wrap32.
    etransitivity; [apply header_parses; first [done|apply Z.mod_pos_bound; lia]|].
    unfold packet_at, wrap16, wrap32. by rewrite Z.add_0_r, Z.mul_1_r.
  - cbn in Hp, Hr. specialize (fun H => IH _ i H Hp Hr). rewrite IH by exact Hs. unfold packet_at, wrap16, wrap32. cbn [st_seq st_ts st_ssrc]. do 2 f_equal.
    + rewrite <- Z.add_assoc, Zplus_mod_idemp_l. f_equal. lia.
    + rewrite Zplus_mod_idemp_l. f_equal. lia.
Qed.

(** An address reads back, even when the host has colons of its own. *)
Theorem split_host_port_joined host port :
  0 <= port < 65536 -> split_host_port (host ++ [58] ++ dec port) = Some (host, port).
Proof.
  intros Hp. unfold split_host_port. rewrite !rev_app_distr. cbn [rev app]. rewrite <- app_assoc. cbn [app].
  rewrite split_once_app.
  - rewrite !rev_involutive. unfold parse_u16. by rewrite parse_uint_dec by lia.
  - rewrite list_elem_of_In, <- in_rev, <- list_elem_of_In. pose proof (dec_digits port ltac:(lia)) as Hd.
    rewrite Forall_forall in Hd. intros Hin. specialize (Hd 58 Hin). lia.
Qed.
