(* ===== verification/Errors.v ===== *)
(** * The library's errors and its log of events ([utils/error.rs], [event/eventlogger.rs])

    The error enums with the texts that [thiserror] derives, the conversions
    into the top-level error, and the lines of the event logger.  The errors of
    the operating system, of the HTTP client and of [anyhow] are parameters
    with their texts.  [RtpError] is that of [Rtp]. *)
From S2P Require Import Prelude Str Rtp Motion.
#[local] Open Scope Z_scope.

Class Display (A : Type) := display : A -> str.

(** ** The enums *)
Inductive RtspError :=
| ConnectionClosed
| InvalidStatus (status : Z)
| MissingHeader (name : str)
| HeadersTooLarge (max : Z)
| InvalidStatusLine (line : str)
| BodyLengthMismatch (expected actual : Z)
| AuthRequired (status : Z)
| ServerError (status : Z) (message : str)
| UnsupportedTransport (transport : str)
| InvalidInterleavedMarker (marker : Z)
| ChannelMismatch (expected actual : Z).
Inductive SdpError :=
| NoVideoTrack | NoPayloadType | NoControlAttribute
| InvalidMediaLine (line : str) | InvalidRtpmap (line : str) | UnsupportedCodec (codec : str) | MissingAttribute (name : str).
Inductive H264Error :=
| UnsupportedNalType (nal_type : Z)
| FuAWithoutStart
| PayloadTooShort (len : Z)
| StapAOutOfBounds (nal_len remaining : Z)
| StapAZeroLength
| StapATrailingBytes (len : Z)
| InvalidAnnexB
| MissingParameterSet (name : str).
Inductive OnvifError :=
| SoapFault (code message : str)
| HttpError (status : Z) (body : str)
| XmlParse (e : str)
| MissingElement (name : str)
| AuthenticationFailed
| NoSubscriptionAddress
| InvalidWsAddressing (e : str)
| SubscriptionEndpointUnreachable (e : str)
| RetryLimitExceeded (e : str).

(** A byte with [{:#x}]. *)
Definition hex_digit (n : Z) : Z := if n <? 10 then 48 + n else 87 + n.
Definition hex_byte (b : Z) : str :=
  lit "0x" ++ (if b <? 16 then [hex_digit b] else [hex_digit (b / 16); hex_digit (b mod 16)]).
Definition mismatch (what : String.string) (expected actual : str) : str :=
  lit what ++ lit ": expected " ++ expected ++ lit ", got " ++ actual.

#[export] Instance display_rtsp : Display RtspError := fun e =>
  match e with
  | ConnectionClosed => lit "Connection closed unexpectedly"
  | InvalidStatus s => lit "Invalid status code: " ++ dec s
  | MissingHeader h => lit "Missing required header: " ++ h
  | HeadersTooLarge n => lit "Headers too large (> " ++ dec n ++ lit " bytes)"
  | InvalidStatusLine l => lit "Invalid status line: " ++ l
  | BodyLengthMismatch e a => mismatch "Body length mismatch" (dec e) (dec a)
  | AuthRequired s => lit "Authentication required (status " ++ dec s ++ lit ")"
  | ServerError s m => lit "Server returned error: " ++ dec s ++ lit " - " ++ m
  | UnsupportedTransport t => lit "Unsupported transport: " ++ t
  | InvalidInterleavedMarker b => lit "Interleaved frame error: expected marker 0x24, got " ++ hex_byte b
  | ChannelMismatch e a => mismatch "Interleaved channel mismatch" (dec e) (dec a)
  end.
#[export] Instance display_rtp : Display Refactored.RtpError := fun e =>
  match e with
  | Refactored.PacketTooShort n => lit "Packet too short: " ++ dec (Z.of_nat n) ++ lit " bytes (minimum 12)"
  | Refactored.UnsupportedVersion v => lit "Unsupported RTP version: " ++ dec v
  | Refactored.InvalidCsrcList => lit "CSRC list exceeds packet bounds"
  | Refactored.InvalidExtension => lit "Extension header exceeds packet bounds"
  | Refactored.InvalidPadding n => lit "Invalid padding: " ++ dec (Z.of_nat n) ++ lit " bytes"
  | Refactored.SequenceDiscontinuity e a => mismatch "Sequence number discontinuity" (dec e) (dec a)
  | Refactored.PayloadTypeMismatch e a => mismatch "Payload type mismatch" (dec e) (dec a)
  end.
#[export] Instance display_sdp : Display SdpError := fun e =>
  match e with
  | NoVideoTrack => lit "No video track found in SDP"
  | NoPayloadType => lit "No payload type found"
  | NoControlAttribute => lit "No control attribute found"
  | InvalidMediaLine l => lit "Invalid media line: " ++ l
  | InvalidRtpmap l => lit "Invalid rtpmap: " ++ l
  | UnsupportedCodec c => lit "Unsupported codec: " ++ c
  | MissingAttribute a => lit "Missing required attribute: " ++ a
  end.
#[export] Instance display_h264 : Display H264Error := fun e =>
  match e with
  | UnsupportedNalType t => lit "Unsupported NAL type: " ++ dec t
  | FuAWithoutStart => lit "FU-A continuation without start"
  | PayloadTooShort n => lit "Payload too short: " ++ dec n ++ lit " bytes"
  | StapAOutOfBounds n r => lit "STAP-A NAL length exceeds bounds: " ++ dec n ++ lit " > " ++ dec r
  | StapAZeroLength => lit "STAP-A contains zero-length NAL"
  | StapATrailingBytes n => lit "STAP-A has trailing bytes: " ++ dec n
  | InvalidAnnexB => lit "Invalid Annex-B NAL: missing start code"
  | MissingParameterSet s => lit "Missing parameter set: " ++ s
  end.
#[export] Instance display_onvif : Display OnvifError := fun e =>
  match e with
  | SoapFault c m => lit "SOAP fault: " ++ c ++ lit " - " ++ m
  | HttpError s b => lit "HTTP " ++ dec s ++ lit ": " ++ b
  | XmlParse e => lit "XML parsing error: " ++ e
  | MissingElement n => lit "Missing required XML element: " ++ n
  | AuthenticationFailed => lit "Authentication failed"
  | NoSubscriptionAddress => lit "Subscription address not found in response"
  | InvalidWsAddressing e => lit "Invalid WS-Addressing header: " ++ e
  | SubscriptionEndpointUnreachable e => lit "Connection refused to subscription endpoint: " ++ e
  | RetryLimitExceeded e => lit "Exceeded retry limit: " ++ e
  end.

(** ** The top-level error *)
Section error.
Context {IoError ReqwestError AnyhowError : Type} `{Display IoError} `{Display ReqwestError} `{Display AnyhowError}.
Inductive Error :=
| Rtsp (e : RtspError)
| RtpErr (e : Refactored.RtpError)
| Sdp (e : SdpError)
| H264 (e : H264Error)
| Onvif (e : OnvifError)
| IoErr (e : IoError)
| Http (e : ReqwestError)
| Config (s : str)
| Internal (s : str).

Definition display_error (e : Error) : str :=
  match e with
  | Rtsp e => lit "RTSP error: " ++ display e
  | RtpErr e => lit "RTP error: " ++ display e
  | Sdp e => lit "SDP error: " ++ display e
  | H264 e => lit "H264 error: " ++ display e
  | Onvif e => lit "ONVIF error: " ++ display e
  | IoErr e => lit "I/O error: " ++ display e
  | Http e => lit "HTTP error: " ++ display e
  | Config s => lit "Configuration error: " ++ s
  | Internal s => lit "Internal error: " ++ s
  end.

(** [From<String>] and [From<&str>]; [From<anyhow::Error>]. *)
Definition from_string (s : str) : Error := Internal s.
Definition from_anyhow (e : AnyhowError) : Error := Internal (display e).

(** ** What the texts say *)
Inductive category := CRtsp | CRtp | CSdp | CH264 | COnvif | CIo | CHttp | CConfig | CInternal.
Definition category_of (e : Error) : category :=
  match e with
  | Rtsp _ => CRtsp | RtpErr _ => CRtp | Sdp _ => CSdp | H264 _ => CH264 | Onvif _ => COnvif
  | IoErr _ => CIo | Http _ => CHttp | Config _ => CConfig | Internal _ => CInternal
  end.
Definition label (c : category) : str :=
  match c with
  | CRtsp => lit "RTSP error: " | CRtp => lit "RTP error: " | CSdp => lit "SDP error: " | CH264 => lit "H264 error: "
  | COnvif => lit "ONVIF error: " | CIo => lit "I/O error: " | CHttp => lit "HTTP error: "
  | CConfig => lit "Configuration error: " | CInternal => lit "Internal error: "
  end.
Definition categories : list category := [CRtsp; CRtp; CSdp; CH264; COnvif; CIo; CHttp; CConfig; CInternal].
(** Reading a log line back: the category its text begins with. *)
Definition category_told (text : str) : option category := find (fun c => starts_with (label c) text) categories.

Lemma labels_apart c rest : category_told (label c ++ rest) = Some c.
Proof. by destruct c. Qed.

(** The text of an error tells its category, whatever the text of its cause. *)
Theorem error_tells_category (e : Error) : category_told (display_error e) = Some (category_of e).
Proof. destruct e; cbn [category_of]; match goal with |- _ = Some ?c => apply (labels_apart c) end. Qed.

(** A text or an [anyhow] error that is converted is kept whole, as an
    internal error. *)
Theorem conversions_keep_text (s : str) (e : AnyhowError) :
  display_error (from_string s) = label CInternal ++ s /\ display_error (from_anyhow e) = label CInternal ++ display e.
Proof. done. Qed.
End error.

(** ** [spawn_logger] *)
Record log_line `{Chrono} := mkLine {
  l_camera_id : string; l_event_id : string; l_rule : string; l_timestamp : DateTime; l_message : str }.
Definition log_event `{Chrono} (e : MotionEvent) : log_line :=
  mkLine _ (Motion.camera_id e) (Motion.event_id e) (rule e) (ts e)
    (if active e then lit "Motion detected" else lit "Motion ended").
(** The lines of a channel's events, until it is closed. *)
Definition spawn_logger `{Chrono} (events : list MotionEvent) : list log_line := map log_event events.
(** [Display] of an event. *)
Definition motion_event_text `{Chrono} (to_rfc3339 : DateTime -> str) (e : MotionEvent) : str :=
  lit "camera_id=" ++ lit (Motion.camera_id e) ++ lit " rule=" ++ lit (rule e) ++ lit " event_id=" ++ lit (Motion.event_id e) ++
  lit " active=" ++ lit (if active e then "true" else "false") ++ lit " ts=" ++ to_rfc3339 (ts e).
