(* ===== verification/DummyServer.v ===== *)
(** * The dummy admin server ([bin/dummy_server.rs])

    A server for tests: the handlers of its routes over [AppState].  HTTP, the
    decoding of bodies and JSON text are parameters; a handler is given the
    decoded body and the [authorization] header, [None] when it is missing or
    no text.  Handlers that only log are in; the text of the admin page and
    logging are left out. *)
From S2P Require Import Prelude Str Config ConfigFacts Xml.
#[local] Open Scope Z_scope.

Record OnvifProbeJobPayload := mkJob { job_id : Z; action : str; j_camera_id : str }.
Record MotionEventPayload := mkMotionEvent {
  m_camera_id : str; m_event_id : str; m_rule : str; m_active : bool; m_timestamp : str }.
Record AppState := mkApp {
  config_json_pretty : str; config_json_compact : str;
  config_sent : list str;   (* what config_tx has broadcast *)
  bearer_token : str; seen_events : gset str; onvif_jobs : list OnvifProbeJobPayload; next_onvif_job_id : Z }.

Definition UNAUTHORIZED : Z := 401.
Definition BAD_REQUEST : Z := 400.
Definition OK : Z := 200.
Definition SEE_OTHER : Z := 303.
Definition check_auth (header : option str) (expected_token : str) : outcome Z unit :=
  auth_header ← ok_or header UNAUTHORIZED;
  match strip_prefix (lit "Bearer ") auth_header with
  | None => Err UNAUTHORIZED
  | Some token => if bool_decide (token <> expected_token) then Err UNAUTHORIZED else Ok tt
  end.

(** [html_escape], and what the admin page shows: the escaped configuration
    and the number of waiting jobs. *)
Definition html_escape (s : str) : str :=
  replace 34 [38; 113; 117; 111; 116; 59] (replace 62 (lit "&gt;") (replace 60 (lit "&lt;") (replace 38 (lit "&amp;") s))).
Definition admin_page_shows (s : AppState) : str * nat := (html_escape (config_json_pretty s), length (onvif_jobs s)).
(** The first event of a stream of configurations. *)
Definition sse_initial (s : AppState) : str := config_json_compact s.

(** [+= 1] on an i64, in release mode. *)
Definition next_i64 (n : Z) : Z := (n + 1 + 2 ^ 63) mod 2 ^ 64 - 2 ^ 63.
(** [true] and [false], as [format!] prints them. *)
Definition print_bool (b : bool) : str := if b then lit "true" else lit "false".
Definition dedupe_key (p : MotionEventPayload) : str :=
  m_camera_id p ++ lit ":" ++ m_event_id p ++ lit ":" ++ print_bool (m_active p).
Definition job_value (j : OnvifProbeJobPayload) : Value :=
  object [("job_id", Number (job_id j)); ("action", String (action j)); ("camera_id", String (j_camera_id j))]%string.

Inductive request :=
| AdminConfig (config : str)
| AdminOnvifJob (camera_id : str)
| MotionEvent (auth : option str) (payload : MotionEventPayload)
| Heartbeat (auth : option str)
| ClipMeta (auth : option str)
| OnvifJob (auth : option str)
| OnvifReport (auth : option str).
(** The body of an answer to a poll. *)
Definition job_answer (job : option OnvifProbeJobPayload) : Value :=
  object [("job", match job with Some j => job_value j | None => Null end)]%string.
(** A status, and the job whose [job_answer] is the body. *)
Record response := mkResponse { r_status : Z; r_job : option OnvifProbeJobPayload }.

Section handlers.
Context `{JsonText}.

Definition admin_update_config (config_json : str) (s : AppState) : AppState * response :=
  match from_str config_json with
  | None => (s, mkResponse BAD_REQUEST None)
  | Some v =>
      let compact := to_string v in
      (mkApp (to_string_pretty v) compact (config_sent s ++ [compact]) (bearer_token s) (seen_events s) (onvif_jobs s)
         (next_onvif_job_id s), mkResponse SEE_OTHER None)
  end.
Definition admin_enqueue_onvif_job (camera_id : str) (s : AppState) : AppState * response :=
  let camera_id := trim camera_id in
  if bool_decide (camera_id = []) then (s, mkResponse BAD_REQUEST None)
  else
    let job := mkJob (next_onvif_job_id s) (lit "probe") camera_id in
    (mkApp (config_json_pretty s) (config_json_compact s) (config_sent s) (bearer_token s) (seen_events s)
       (onvif_jobs s ++ [job]) (next_i64 (next_onvif_job_id s)), mkResponse SEE_OTHER None).
Definition handle_motion_event (p : MotionEventPayload) (s : AppState) : AppState * response :=
  (mkApp (config_json_pretty s) (config_json_compact s) (config_sent s) (bearer_token s) ({[dedupe_key p]} ∪ seen_events s)
     (onvif_jobs s) (next_onvif_job_id s), mkResponse OK None).
Definition handle_onvif_job (s : AppState) : AppState * response :=
  match onvif_jobs s with
  | [] => (s, mkResponse OK None)
  | job :: jobs => (mkApp (config_json_pretty s) (config_json_compact s) (config_sent s) (bearer_token s) (seen_events s) jobs
                      (next_onvif_job_id s), mkResponse OK (Some job))
  end.
Definition authorized (auth : option str) (handler : AppState -> AppState * response) (s : AppState) : AppState * response :=
  match check_auth auth (bearer_token s) with
  | Ok _ => handler s
  | Err e => (s, mkResponse e None)
  | Panic => (s, mkResponse 500 None)
  end.
Definition logged (s : AppState) : AppState * response := (s, mkResponse OK None).
Definition handle (r : request) (s : AppState) : AppState * response :=
  match r with
  | AdminConfig config => admin_update_config config s
  | AdminOnvifJob camera_id => admin_enqueue_onvif_job camera_id s
  | MotionEvent auth p => authorized auth (handle_motion_event p) s
  | Heartbeat auth | ClipMeta auth | OnvifReport auth => authorized auth logged s
  | OnvifJob auth => authorized auth handle_onvif_job s
  end.
Fixpoint serve (rs : list request) (s : AppState) : AppState * list response :=
  match rs with
  | [] => (s, [])
  | r :: rs => let '(s, a) := handle r s in let '(s, l) := serve rs s in (s, a :: l)
  end.

(** What [main] starts with. *)
Definition default_config (token : str) : Value :=
  object [("camera_id", String (lit "cam-001")); ("motion", object [("enabled", Bool true)]);
    ("server", object [("enabled", Bool true); ("base_url", String (lit "http://127.0.0.1:8080"));
      ("bearer_token", String token); ("retry_interval_secs", Number 30)]);
    ("cleanup", object [("interval_secs", Number 60); ("min_free_bytes", Number 1073741824)])]%string.
Definition initial_state (var : str -> option str) : str * AppState :=
  let bind_addr := default (lit "127.0.0.1:8080") (non_blank (var (lit "DUMMY_SERVER_BIND"))) in
  let token := default (lit "test-token-12345") (non_blank (var (lit "DUMMY_SERVER_TOKEN"))) in
  (bind_addr, mkApp (to_string_pretty (default_config token)) (to_string (default_config token)) [] token ∅ [] 1).
End handlers.

(** ** Facts *)
Section facts.
Context `{JsonText}.

(** What the page shows of the configuration has no markup of its own. *)
Lemma replace_not_in x c r s : x ∉ r -> (x <> c -> x ∉ s) -> x ∉ replace c r s.
Proof.
  intros Hr Hs. unfold replace. induction s as [|a s IH]; [apply not_elem_of_nil|]. cbn [map concat].
  rewrite elem_of_app. intros [Hin|Hin].
  - destruct (Z.eqb_spec a c) as [->|Hne]; [done|]. apply list_elem_of_singleton in Hin as ->. by apply (Hs Hne), list_elem_of_here.
  - revert Hin. apply IH. intros Hne Hin. by apply (Hs Hne), list_elem_of_further.
Qed.
Theorem page_has_no_markup s : Forall (fun c => c ∉ html_escape (config_json_pretty s)) [34; 60; 62].
Proof.
  unfold html_escape. repeat constructor; repeat (apply replace_not_in; [by_eval|intros ?]); done.
Qed.

(** Without the token a request of an agent changes nothing. *)
Definition auth_of (r : request) : option (option str) :=
  match r with
  | MotionEvent auth _ | Heartbeat auth | ClipMeta auth | OnvifJob auth | OnvifReport auth => Some auth
  | _ => None
  end.
Lemma check_auth_ok header token : check_auth header token = Ok tt <-> header = Some (lit "Bearer " ++ token).
Proof.
  unfold check_auth. destruct header as [h|]; cbn [ok_or mbind outcome_bind]; [|done].
  destruct (strip_prefix (lit "Bearer ") h) as [t|] eqn:Ht.
  - apply strip_prefix_inv in Ht as ->. case_bool_decide as Hne.
    + split; [done|]. intros Heq. exfalso. apply Hne. by injection Heq.
    + split; [|done]. intros _. by rewrite Hne.
  - split; [done|]. intros Heq. assert (h = lit "Bearer " ++ token) as -> by congruence. by rewrite strip_prefix_app in Ht.
Qed.
Theorem no_token_no_effect r s auth :
  auth_of r = Some auth -> auth <> Some (lit "Bearer " ++ bearer_token s) -> handle r s = (s, mkResponse UNAUTHORIZED None).
Proof.
  intros Hr Ha. assert (Hc : check_auth auth (bearer_token s) = Err UNAUTHORIZED).
  { destruct (check_auth auth (bearer_token s)) as [[]|e|] eqn:Hc; [by apply check_auth_ok in Hc| |];
      unfold check_auth in Hc; destruct auth as [h|]; cbn in Hc; try congruence; repeat case_match; congruence. }
  destruct r; cbn in Hr; try discriminate; injection Hr as ->; unfold handle, authorized; by rewrite Hc.
Qed.

(** The jobs a list of requests queues. *)
Fixpoint enqueued (rs : list request) (id : Z) : list OnvifProbeJobPayload :=
  match rs with
  | [] => []
  | AdminOnvifJob c :: rs =>
      if bool_decide (trim c = []) then enqueued rs id else mkJob id (lit "probe") (trim c) :: enqueued rs (next_i64 id)
  | _ :: rs => enqueued rs id
  end.
Lemma serve_jobs rs s :
  let '(s', l) := serve rs s in
  omap r_job l ++ onvif_jobs s' = onvif_jobs s ++ enqueued rs (next_onvif_job_id s).
Proof.
  revert s. induction rs as [|r rs IH]; intros s; cbn [serve]; [by rewrite app_nil_r|].
  destruct (handle r s) as [s1 a] eqn:Hh. specialize (IH s1). destruct (serve rs s1) as [s' l].
  assert (Hstep : option_list (r_job a) ++ onvif_jobs s1 ++ enqueued rs (next_onvif_job_id s1) =
                  onvif_jobs s ++ enqueued (r :: rs) (next_onvif_job_id s)).
  { destruct r; unfold handle, authorized, admin_update_config, admin_enqueue_onvif_job, handle_motion_event, handle_onvif_job, logged in Hh;
      cbn [enqueued]; repeat case_match; simplify_eq; cbn; rewrite <- ?app_assoc; try done; try congruence; by rewrite H1. }
  cbn [omap list_omap]. destruct (r_job a); cbn in Hstep |- *; by rewrite <- Hstep, IH.
Qed.
Lemma next_i64_small n : - 2 ^ 63 <= n < 2 ^ 63 - 1 -> next_i64 n = n + 1.
Proof. intros Hn. unfold next_i64. rewrite Z.mod_small by lia. lia. Qed.
Lemma enqueued_ids rs id :
  0 <= id -> id + Z.of_nat (length rs) < 2 ^ 63 ->
  exists n, map job_id (enqueued rs id) = seqZ id (Z.of_nat n) /\ (n <= length rs)%nat.
Proof.
  revert id. induction rs as [|r rs IH]; intros id H0 Hid; [by exists 0%nat|]. cbn [length] in Hid.
  assert (Hsame : exists n, map job_id (enqueued rs id) = seqZ id (Z.of_nat n) /\ (n <= length rs)%nat) by (apply IH; lia).
  destruct Hsame as (n & Hn & Hle). destruct r; cbn [enqueued length]; try (exists n; by split; [|lia]).
  case_bool_decide; [exists n; by split; [|lia]|]. rewrite next_i64_small by lia.
  destruct (IH (id + 1)) as (k & Hk & Hkl); [lia..|]. exists (S k). split; [|lia]. cbn [map job_id]. rewrite Hk.
  rewrite (seqZ_cons id) by lia. replace (Z.succ id) with (id + 1) by lia. by replace (Z.pred (Z.of_nat (S k))) with (Z.of_nat k) by lia.
Qed.

(** Jobs are handed out once and in the order they were queued, whatever
    requests come in between, and no two of them have the same id. *)
Theorem jobs_in_order rs s :
  onvif_jobs s = [] -> next_onvif_job_id s = 1 -> Z.of_nat (length rs) < 2 ^ 63 - 1 ->
  let '(s', l) := serve rs s in
  omap r_job l ++ onvif_jobs s' = enqueued rs 1 /\ NoDup (map job_id (omap r_job l)).
Proof.
  intros Hj Hn Hl. pose proof (serve_jobs rs s) as Hs. destruct (serve rs s) as [s' l]. rewrite Hj, Hn in Hs. cbn [app] in Hs. split; [done|].
  destruct (enqueued_ids rs 1) as (n & Hids & _); [lia..|]. pose proof (NoDup_seqZ 1 (Z.of_nat n)) as Hnd.
  rewrite <- Hids, <- Hs, map_app in Hnd. by apply NoDup_app in Hnd as [? _].
Qed.
End facts.

(** No configuration sets the address or the token. *)
Theorem dummy_defaults `{UrlParser} `{JsonText} v :
  let '(bind, s) := initial_state (fun k => runtime_var k (install_runtime_overrides v)) in
  bind = lit "127.0.0.1:8080" /\ bearer_token s = lit "test-token-12345".
Proof.
  unfold initial_state, runtime_var. by rewrite !variable_unknown by (reflexivity || by_eval).
Qed.
