(* ===== verification/MotionPull.v ===== *)
(** * The command-line poller ([bin/onvif_motion_pull.rs])

    A tool that prints the motion events of one camera: a PullPoint
    subscription, renewed and made again after errors.  It shares its reading of
    answers with [onvif/onvif_motion.rs], line for line; requests are those of
    [Soap], the terminal and the clock are [PullWorld]. *)
From S2P Require Import Prelude Str Sdp Config Xml Soap Probe OnvifProbe OnvifMotion.
#[local] Open Scope Z_scope.

Definition SUB_TERMINATION : str := lit "PT10M".
Definition RENEW_EVERY_SECS : Z := 300.
Definition PULL_TIMEOUT : str := lit "PT30S".
Definition PULL_LIMIT : Z := 10.
Definition RESUBSCRIBE_AFTER_ERRORS : Z := 3.

(** The file has its own copies of the functions that build requests and read
    answers; their code is that of [onvif/onvif_motion.rs], but for a duration
    that is not escaped. *)
Definition runtime_var (var : str -> option str) (name : String.string) : option str :=
  v ← var (lit name); if bool_decide (trim v = []) then None else Some v.
Definition xml_escape : str -> str := Xml.xml_escape.
Definition local_name : bytes -> str := Xml.local_name.
Definition wsse_password_digest `{Sha1} `{Base64} : bytes -> str -> str -> str := Soap.wsse_password_digest.
Definition wsse_header {W} `{Entropy W} `{Sha1} `{Base64} (username password : str) (w : W) : W * str :=
  OnvifMotion.wsse_lines username password w.
Definition soap_envelope : str -> str -> str -> str -> str -> str := OnvifMotion.soap_envelope.
Definition create_pullpoint_body_motion_only : str :=
  lit "<tev:CreatePullPointSubscription>" ++ NL ++ lit "  <tev:Filter>" ++ NL ++
  lit "    <wsnt:TopicExpression Dialect=" ++ quoted "http://www.onvif.org/ver10/tev/topicExpression/ConcreteSet" ++
  lit ">tns1:RuleEngine/CellMotionDetector/Motion</wsnt:TopicExpression>" ++ NL ++ lit "  </tev:Filter>" ++ NL ++
  lit "  <tev:InitialTerminationTime>" ++ SUB_TERMINATION ++ lit "</tev:InitialTerminationTime>" ++ NL ++
  lit "</tev:CreatePullPointSubscription>".
Definition pull_messages_body : str -> Z -> str := OnvifMotion.pull_messages_body.
Definition renew_body : str -> str := OnvifMotion.renew_body.
Definition subscription_id_header : option str -> str := OnvifMotion.subscription_id_header.
Section read.
Context `{XmlReader}.
Definition extract_first_text : str -> String.string -> option str := Xml.extract_first_text.
Definition extract_subscription_id (xml : str) : option str := extract_first_text xml "SubscriptionId".
Definition extract_subscription_address (xml : str) : option str := extract_first_text xml "Address".
Definition extract_motion_events : str -> list (option str * bool) := OnvifMotion.extract_motion_events.
End read.

(** What [main] needs before it connects. *)
Definition read_camera (var : str -> option str) : outcome str (str * str * str) :=
  let host := default (lit "192.168.1.187") (runtime_var var "ONVIF_HOST") in
  let port := default 2020 (v ← runtime_var var "ONVIF_PORT"; parse_u16 v) in
  user ← ok_or (runtime_var var "ONVIF_USER") (lit "Missing ONVIF_USER");
  pass ← ok_or (runtime_var var "ONVIF_PASS") (lit "Missing ONVIF_PASS");
  mret (lit "http://" ++ host ++ 58 :: dec port ++ lit "/onvif/service", user, pass).

(** Milliseconds of the clock, sleeping, and what is printed for an event. *)
Class PullWorld (W : Type) := {
  pull_instant : W -> Z;
  pull_sleep : Z -> W -> W;
  print_event : str -> bool -> W -> W;
}.
Record PullState := mkPull { pl_addr : str; pl_id : option str; pl_errors : Z; pl_next_renew : Z }.

Section pull.
Context {W : Type} `{PullWorld W} `{SoapHttp W} `{Entropy W} `{Sha1} `{Base64} `{StatusText} `{XmlReader}.
Abbreviation M := (Prelude.st W str).
Variable onvif_service user pass : str.

Definition soap_post (url action xml : str) : M str := fun w =>
  match soap_http url action xml w with
  | (w, inl e) => (w, Err (http_text e))
  | (w, inr r) =>
      match soap_text r with
      | inl e => (w, Err e)
      | inr text => (w, if is_success_status (soap_status r) then Ok text else Err (http_failure (soap_status r) text))
      end
  end.
Definition request (url action body extra_headers_xml : str) : M str := fun w =>
  let '(w, security) := wsse_header user pass w in
  soap_post url action (soap_envelope url action security body extra_headers_xml) w.
Definition create_subscription : M (str * option str) :=
  resp_xml ← request onvif_service ACTION_CREATE_PULLPOINT_REQ create_pullpoint_body_motion_only [];
  sub_addr ← lift_outcome (ok_or (extract_subscription_address resp_xml)
    (lit "No SubscriptionReference/Address found in CreatePullPointSubscription response"));
  mret (sub_addr, extract_subscription_id resp_xml).
Definition renew_subscription (sub_addr : str) (sub_id : option str) : M unit :=
  _ ← request sub_addr ACTION_RENEW_REQ (renew_body SUB_TERMINATION) (subscription_id_header sub_id);
  mret tt.

(** A new subscription; an error ends the program. *)
Definition recreate_pull (p : PullState) : M PullState :=
  '(addr, id) ← create_subscription; mret (mkPull addr id 0 (pl_next_renew p)).
Definition renew_pull (p : PullState) : M PullState := fun w =>
  let p := mkPull (pl_addr p) (pl_id p) (pl_errors p) (pl_next_renew p + 1000 * RENEW_EVERY_SECS) in
  match renew_subscription (pl_addr p) (pl_id p) w with
  | (w, Ok _) => (w, Ok p)
  | (w, Err _) => recreate_pull p w
  | (w, Panic) => (w, Panic)
  end.
Definition print_all (ns : list (option str * bool)) (w : W) : W :=
  foldl (fun w n => print_event (default (lit "<unknown-rule>") n.1) n.2 w) w ns.
Definition pull_once (p : PullState) : M PullState := fun w =>
  match request (pl_addr p) ACTION_PULLMESSAGES_REQ (pull_messages_body PULL_TIMEOUT PULL_LIMIT) (subscription_id_header (pl_id p)) w with
  | (w, Ok pm_xml) => (print_all (extract_motion_events pm_xml) w, Ok (mkPull (pl_addr p) (pl_id p) 0 (pl_next_renew p)))
  | (w, Err _) =>
      let p := mkPull (pl_addr p) (pl_id p) (pl_errors p + 1) (pl_next_renew p) in
      if RESUBSCRIBE_AFTER_ERRORS <=? pl_errors p then recreate_pull p w else (pull_sleep 1000 w, Ok p)
  | (w, Panic) => (w, Panic)
  end.
(** [select!] chooses between a renewal that is due and pulling. *)
Definition pull_turn (renew : bool) (p : PullState) : M PullState := fun w =>
  if renew && (pl_next_renew p <=? pull_instant w) then renew_pull p w else pull_once p w.
Fixpoint pull (renews : list bool) (p : PullState) : M PullState :=
  match renews with
  | [] => mret p
  | renew :: renews => p ← pull_turn renew p; pull renews p
  end.
Definition run_pull (renews : list bool) : M PullState := fun w =>
  match create_subscription w with
  | (w, Ok (addr, id)) => pull renews (mkPull addr id 0 (pull_instant w)) w
  | (w, Err e) => (w, Err e)
  | (w, Panic) => (w, Panic)
  end.

(** ** Facts *)
(** The errors in a row stay below the limit, so a subscription is made again
    after at most three failures; and the program ends only with a subscription
    that cannot be made. *)
Definition pull_ok (r : outcome str PullState) : Prop :=
  match r with
  | Ok p => 0 <= pl_errors p < RESUBSCRIBE_AFTER_ERRORS
  | Err e => exists w w', create_subscription w = (w', Err e)
  | Panic => False
  end.
Lemma request_calm url action body extra : never_panics (request url action body extra).
Proof.
  intros w. unfold request, soap_post. destruct (wsse_header user pass w) as [w1 security].
  destruct (soap_http _ _ _ w1) as [w2 [e|r]]; [done|]. destruct (soap_text r); [done|]. by case_match.
Qed.
Lemma create_calm : never_panics create_subscription.
Proof. unfold create_subscription. apply calm_bind; [apply request_calm|intros resp]. solve_calm. Qed.
Lemma recreate_pull_ok p w : pull_ok (recreate_pull p w).2.
Proof.
  unfold recreate_pull, mbind, st_bind. pose proof (create_calm w) as Hc. destruct (create_subscription w) as [w1 [[addr id]|e|]] eqn:He; cbn.
  - unfold RESUBSCRIBE_AFTER_ERRORS. lia.
  - by exists w, w1.
  - done.
Qed.
Lemma pull_turn_ok renew p w : pull_ok (Ok p) -> pull_ok (pull_turn renew p w).2.
Proof.
  intros Hp. unfold pull_turn. destruct (renew && _).
  - unfold renew_pull, renew_subscription, mbind, st_bind. cbn [pl_addr pl_id].
    pose proof (request_calm (pl_addr p) ACTION_RENEW_REQ (renew_body SUB_TERMINATION) (subscription_id_header (pl_id p)) w) as Hc.
    destruct (request _ _ _ _ w) as [w1 [x|e|]]; [exact Hp|apply recreate_pull_ok|done].
  - unfold pull_once. pose proof (request_calm (pl_addr p) ACTION_PULLMESSAGES_REQ (pull_messages_body PULL_TIMEOUT PULL_LIMIT)
      (subscription_id_header (pl_id p)) w) as Hc.
    destruct (request _ _ _ _ w) as [w1 [x|e|]]; [cbn; unfold RESUBSCRIBE_AFTER_ERRORS; lia| |done].
    cbn [pl_errors]. destruct (Z.leb_spec RESUBSCRIBE_AFTER_ERRORS (pl_errors p + 1)); [apply recreate_pull_ok|].
    cbn in Hp |- *. lia.
Qed.
Theorem pull_ends_without_subscription renews w : pull_ok (run_pull renews w).2.
Proof.
  unfold run_pull. pose proof (create_calm w) as Hc. destruct (create_subscription w) as [w1 [[addr id]|e|]] eqn:He; [|by exists w, w1|done].
  clear He Hc. assert (Hp : pull_ok (Ok (mkPull addr id 0 (pull_instant w1)))) by (cbn; unfold RESUBSCRIBE_AFTER_ERRORS; lia).
  revert Hp. generalize (mkPull addr id 0 (pull_instant w1)) as p. revert w1.
  induction renews as [|b renews IH]; intros w1 p Hp; [exact Hp|]. cbn [pull]. unfold mbind, st_bind.
  pose proof (pull_turn_ok b p w1 Hp) as Ht. destruct (pull_turn b p w1) as [w2 [p2|e|]]; [by apply IH|exact Ht|done].
Qed.
End pull.
